(** * Abstract AVL tree template ([avl_tree.h]): a shallow embedding

    The engine [base_avl_tree<abstractor, max_depth, bset>] is translated
    function by function.  Node storage lives behind the abstractor, so the
    embedding threads an explicit store through every call; loops become
    fuel-indexed fixpoints and a [return] from inside a loop is a [Ret]
    result of the loop function. *)

From Stdlib Require Import ZArith List Lia Bool Sorted.
Import ListNotations.
Open Scope Z_scope.

Set Default Proof Using "Type".

(** ** Handles, store, machine integers *)

(** A handle identifies a node; [null] is the sentinel. *)
Definition handle := Z.
Definition null : handle := 0.

(** [abs_plus_root]: the abstractor object extended with the root handle.
    The three engine-owned fields of every node are kept in three maps;
    [rd_err] is the latched read-error flag. *)
Record abs_plus_root := mkAbs {
  less : handle -> handle;
  greater : handle -> handle;
  balance_factor : handle -> Z;
  rd_err : bool;
  root : handle
}.

(** [unsigned] values are 32-bit: arithmetic wraps modulo 2^32. *)
Definition u32 (x : Z) : Z := x mod 4294967296.
Definition UNSIGNED_MAX : Z := 4294967295.   (* unsigned(~0) *)

(** enum search_type *)
Definition EQUAL : Z := 1.
Definition LESS : Z := 2.
Definition GREATER : Z := 4.
Definition LESS_EQUAL : Z := Z.lor EQUAL LESS.
Definition GREATER_EQUAL : Z := Z.lor EQUAL GREATER.

(** [st & flag] used as a condition. *)
Definition has_flag (st flag : Z) : bool := negb (Z.land st flag =? 0).

(** [(int) ~ ((~ (unsigned) 0) >> 1)]: the sign bit of an [int]. *)
Definition MASK_HIGH_BIT : Z := - 2147483648.

(** [!((cmp ^ target_cmp) & MASK_HIGH_BIT)] *)
Definition same_sign (cmp target_cmp : Z) : bool :=
  Z.land (Z.lxor cmp target_cmp) MASK_HIGH_BIT =? 0.

(** The bit vector [bset]; index validity is checked where it is used. *)
Definition bset := Z -> bool.
Definition bset_new : bset := fun _ => false.
Definition bset_reset (_ : bset) : bset := fun _ => false.
Definition bset_set_all (_ : bset) : bset := fun _ => true.

Definition upd {A} (f : Z -> A) (i : Z) (v : A) : Z -> A :=
  fun j => if j =? i then v else f j.

(** ** The computation monad: store passing, [None] is undefined behaviour
    (an index outside a bit vector or array, or fuel exhausted). *)
Definition M (A : Type) := abs_plus_root -> option (A * abs_plus_root).
Definition ret {A} (a : A) : M A := fun s => Some (a, s).
Definition bind {A B} (c : M A) (f : A -> M B) : M B :=
  fun s => match c s with Some (a, s') => f a s' | None => None end.
Definition undefined {A} : M A := fun _ => None.

Declare Scope avl_scope.
Delimit Scope avl_scope with avl.
Notation "x <- c ;; k" := (bind c (fun x => k))
  (at level 61, c at next level, right associativity) : avl_scope.
Notation "c ;;; k" := (bind c (fun _ => k))
  (at level 61, right associativity) : avl_scope.
Open Scope avl_scope.

(** Result of a loop: the enclosing function returned, or the loop was left. *)
Inductive flow (R A : Type) := Ret (r : R) | Go (a : A).
Arguments Ret {R A} r.
Arguments Go {R A} a.

(** ** Logical trees: the shape a store is read as *)
Inductive tree :=
| Leaf
| Node (l : tree) (h : handle) (b : Z) (r : tree).

Definition hd (t : tree) : handle :=
  match t with Leaf => null | Node _ h _ _ => h end.

Fixpoint handles (t : tree) : list handle :=
  match t with
  | Leaf => []
  | Node l h _ r => handles l ++ h :: handles r
  end.

Fixpoint height (t : tree) : Z :=
  match t with
  | Leaf => 0
  | Node l _ _ r => 1 + Z.max (height l) (height r)
  end.

Fixpoint size (t : tree) : Z :=
  match t with
  | Leaf => 0
  | Node l _ _ r => size l + 1 + size r
  end.

(** AVL invariant: stored factor is the height difference and is in range. *)
Fixpoint avl (t : tree) : Prop :=
  match t with
  | Leaf => True
  | Node l _ b r =>
      b = height r - height l /\ -1 <= b <= 1 /\ avl l /\ avl r
  end.

(** A tree with one subtree removed, innermost frame first.  A frame records
    the branch taken ([true] = greater), the node, its stored factor and the
    sibling subtree. *)
Definition frame := (bool * handle * Z * tree)%type.
Definition ctx := list frame.

Definition fill (f : frame) (t : tree) : tree :=
  match f with
  | (false, h, b, sib) => Node t h b sib
  | (true, h, b, sib) => Node sib h b t
  end.

Fixpoint plug (c : ctx) (t : tree) : tree :=
  match c with
  | [] => t
  | f :: c' => plug c' (fill f t)
  end.

(** Store updates. *)
Definition put_less (h lh : handle) (s : abs_plus_root) : abs_plus_root :=
  mkAbs (upd (less s) h lh) (greater s) (balance_factor s) (rd_err s) (root s).
Definition put_greater (h gh : handle) (s : abs_plus_root) : abs_plus_root :=
  mkAbs (less s) (upd (greater s) h gh) (balance_factor s) (rd_err s) (root s).
Definition put_bf (h : handle) (bf : Z) (s : abs_plus_root) : abs_plus_root :=
  mkAbs (less s) (greater s) (upd (balance_factor s) h bf) (rd_err s) (root s).
Definition put_root (h : handle) (s : abs_plus_root) : abs_plus_root :=
  mkAbs (less s) (greater s) (balance_factor s) (rd_err s) h.
Definition raise_err (s : abs_plus_root) : abs_plus_root :=
  mkAbs (less s) (greater s) (balance_factor s) true (root s).

(** Example stores used further down. *)
Definition mk_store (nodes : list (handle * (handle * handle * Z))) (r : handle)
  : abs_plus_root :=
  let look h := List.find (fun p => fst p =? h) nodes in
  {| less := fun h => match look h with Some (_, (l, _, _)) => l | None => null end;
     greater := fun h => match look h with Some (_, (_, g, _)) => g | None => null end;
     balance_factor := fun h => match look h with Some (_, (_, _, b)) => b | None => 0 end;
     rd_err := false;
     root := r |}.

(** Example data: the key of a node is ten times its handle, no node is
    faulty. *)
Definition ex_key (h : handle) : Z := 10 * h.
Definition ex_faulty (_ : handle) : bool := false.

(** The same, with handle 6 carrying the key of node 1. *)
Definition ex_key_dup (h : handle) : Z := if h =? 6 then 10 else 10 * h.

(** A tree of the single node 1. *)
Definition ex1_tree : tree := Node Leaf 1 0 Leaf.
Definition ex1_store : abs_plus_root := mk_store [(1, (0, 0, 0))] 1.

(** A tree of the nodes 1 .. 5 (keys 10 .. 50) rooted at 2. *)
Definition ex5_tree : tree :=
  Node (Node Leaf 1 0 Leaf) 2 1
       (Node (Node Leaf 3 0 Leaf) 4 0 (Node Leaf 5 0 Leaf)).
Definition ex5_store : abs_plus_root :=
  mk_store [(1, (0, 0, 0)); (2, (1, 4, 1)); (3, (0, 0, 0));
            (4, (3, 5, 0)); (5, (0, 0, 0))] 2.

(** An empty tree. *)
Definition ex0_store : abs_plus_root := mk_store [] 0.

(** An abstractor for which reading node 1 fails. *)
Definition ex_faulty_1 (h : handle) : bool := h =? 1.

(** A chain of three nodes leaning to the greater side, as [insert] hands
    it to [balance]: node 1 still stores the factor it had before node 3 was
    attached. *)
Definition ex3_chain : tree :=
  Node Leaf 1 1 (Node Leaf 2 1 (Node Leaf 3 0 Leaf)).
Definition ex3_store : abs_plus_root :=
  mk_store [(1, (0, 2, 1)); (2, (0, 3, 1)); (3, (0, 0, 0))] 1.

Section Engine.

(** Template parameter [max_depth]. *)
Variable max_depth : Z.

(** The abstractor's side of the store: the key carried by each node and
    whether reading a node's engine fields fails.

    Modelled from the spec: the abstractor class is a template parameter and
    is not part of the header.  Keys are integers, comparison results are
    -1, 0, 1, and a read of a faulty node latches [rd_err]. *)
Variable key_of : handle -> Z.
Variable faulty : handle -> bool.

Definition compare3 (a b : Z) : Z :=
  if a <? b then -1 else if a =? b then 0 else 1.

Definition cmp_k_n (k : Z) (h : handle) : Z := compare3 k (key_of h).
Definition cmp_n_n (h1 h2 : handle) : Z := compare3 (key_of h1) (key_of h2).

(** Reading or writing through the null handle is undefined. *)
Definition get_less (h : handle) (access : bool) : M handle :=
  fun s => if h =? null then None
           else if faulty h then Some (null, raise_err s)
           else Some (less s h, s).
Definition get_greater (h : handle) (access : bool) : M handle :=
  fun s => if h =? null then None
           else if faulty h then Some (null, raise_err s)
           else Some (greater s h, s).
Definition get_balance_factor (h : handle) : M Z :=
  fun s => if h =? null then None
           else if faulty h then Some (0, raise_err s)
           else Some (balance_factor s h, s).
Definition set_less (h lh : handle) : M unit :=
  fun s => if h =? null then None else Some (tt, put_less h lh s).
Definition set_greater (h gh : handle) : M unit :=
  fun s => if h =? null then None else Some (tt, put_greater h gh s).
Definition set_balance_factor (h : handle) (bf : Z) : M unit :=
  fun s => if h =? null then None else Some (tt, put_bf h bf s).
Definition read_error : M bool := fun s => Some (rd_err s, s).
Definition get_root : M handle := fun s => Some (root s, s).
Definition set_root (h : handle) : M unit := fun s => Some (tt, put_root h s).

(** The protected accessors of [base_avl_tree]. *)
Definition get_lt (h : handle) : M handle := get_less h true.
Definition get_gt (h : handle) : M handle := get_greater h true.
Definition get_lt_na (h : handle) : M handle := get_less h false.
Definition get_gt_na (h : handle) : M handle := get_greater h false.
Definition set_lt := set_less.
Definition set_gt := set_greater.
Definition get_bf := get_balance_factor.
Definition set_bf := set_balance_factor.

(** [b[i]] as an rvalue and [b[i] = v]; valid for [0 <= i < max_depth]. *)
Definition bit_get (b : bset) (i : Z) : M bool :=
  if (0 <=? i) && (i <? max_depth) then ret (b i) else undefined.
Definition bit_put (b : bset) (i : Z) (v : bool) : M bset :=
  if (0 <=? i) && (i <? max_depth) then ret (upd b i v) else undefined.

(** *** search *)

Definition target_of (st : Z) : Z :=
  if has_flag st LESS then 1 else if has_flag st GREATER then -1 else 0.

Fixpoint search_loop (fuel : nat) (k st target_cmp : Z) (h match_h : handle)
  : M handle :=
  match fuel with
  | O => undefined
  | S fuel' =>
      if h =? null then ret match_h else
      let cmp := cmp_k_n k h in
      if (cmp =? 0) && has_flag st EQUAL then ret h else
      let cmp' := if cmp =? 0 then - target_cmp else cmp in
      let match_h' :=
        if negb (cmp =? 0) && negb (target_cmp =? 0) && same_sign cmp target_cmp
        then h else match_h in
      h' <- (if cmp' <? 0 then get_lt h else get_gt h) ;;
      e <- read_error ;;
      if e then ret null else search_loop fuel' k st target_cmp h' match_h'
  end.

Definition search (fuel : nat) (k st : Z) : M handle :=
  h <- get_root ;;
  search_loop fuel k st (target_of st) h null.

(** *** search_least / search_greatest *)

Fixpoint search_least_loop (fuel : nat) (h parent : handle) : M handle :=
  match fuel with
  | O => undefined
  | S fuel' =>
      if h =? null then ret parent else
      h' <- get_lt h ;;
      e <- read_error ;;
      if e then ret null else search_least_loop fuel' h' h
  end.

Definition search_least (fuel : nat) : M handle :=
  h <- get_root ;; search_least_loop fuel h null.

Fixpoint search_greatest_loop (fuel : nat) (h parent : handle) : M handle :=
  match fuel with
  | O => undefined
  | S fuel' =>
      if h =? null then ret parent else
      h' <- get_gt h ;;
      e <- read_error ;;
      if e then ret null else search_greatest_loop fuel' h' h
  end.

Definition search_greatest (fuel : nat) : M handle :=
  h <- get_root ;; search_greatest_loop fuel h null.

(** *** balance *)

Definition balance (bal_h : handle) : M handle :=
  b <- get_bf bal_h ;;
  if 0 <? b then
    (* "Greater than" subtree is deeper. *)
    deep_h <- get_gt bal_h ;;
    e <- read_error ;;
    if e then ret null else
    db <- get_bf deep_h ;;
    if db <? 0 then
      let old_h := bal_h in
      bal_h <- get_lt deep_h ;;
      e <- read_error ;;
      if e then ret null else
      x <- get_lt_na bal_h ;;
      set_gt old_h x ;;;
      y <- get_gt_na bal_h ;;
      set_lt deep_h y ;;;
      set_lt bal_h old_h ;;;
      set_gt bal_h deep_h ;;;
      bf <- get_bf bal_h ;;
      (if negb (bf =? 0) then
         (if 0 <? bf
          then (set_bf old_h (-1) ;;; set_bf deep_h 0)
          else (set_bf deep_h 1 ;;; set_bf old_h 0)) ;;;
         set_bf bal_h 0
       else
         (set_bf old_h 0 ;;; set_bf deep_h 0)) ;;;
      ret bal_h
    else
      x <- get_lt_na deep_h ;;
      set_gt bal_h x ;;;
      set_lt deep_h bal_h ;;;
      db' <- get_bf deep_h ;;
      (if db' =? 0
       then (set_bf deep_h (-1) ;;; set_bf bal_h 1)
       else (set_bf deep_h 0 ;;; set_bf bal_h 0)) ;;;
      ret deep_h
  else
    (* "Less than" subtree is deeper. *)
    deep_h <- get_lt bal_h ;;
    e <- read_error ;;
    if e then ret null else
    db <- get_bf deep_h ;;
    if 0 <? db then
      let old_h := bal_h in
      bal_h <- get_gt deep_h ;;
      e <- read_error ;;
      if e then ret null else
      x <- get_gt_na bal_h ;;
      set_lt old_h x ;;;
      y <- get_lt_na bal_h ;;
      set_gt deep_h y ;;;
      set_gt bal_h old_h ;;;
      set_lt bal_h deep_h ;;;
      bf <- get_bf bal_h ;;
      (if negb (bf =? 0) then
         (if bf <? 0
          then (set_bf old_h 1 ;;; set_bf deep_h 0)
          else (set_bf deep_h (-1) ;;; set_bf old_h 0)) ;;;
         set_bf bal_h 0
       else
         (set_bf old_h 0 ;;; set_bf deep_h 0)) ;;;
      ret bal_h
    else
      x <- get_gt_na deep_h ;;
      set_lt bal_h x ;;;
      set_gt deep_h bal_h ;;;
      db' <- get_bf deep_h ;;
      (if db' =? 0
       then (set_bf deep_h 1 ;;; set_bf bal_h (-1))
       else (set_bf deep_h 0 ;;; set_bf bal_h 0)) ;;;
      ret deep_h.

(** *** insert *)

(** [branch[d] ? 1 : -1] *)
Definition dir_of (bit : bool) : Z := if bit then 1 else -1.

(** The three initial writes on the argument node. *)
Definition insert_init (h : handle) : M unit :=
  set_lt h null ;;; set_gt h null ;;; set_bf h 0.

(** The [do ... while (hh != null())] descent.  Leaves with the last parent,
    the last comparison, the branch bits and the last unbalanced node seen. *)
Fixpoint insert_descend (fuel : nat) (h hh parent : handle) (depth : Z)
    (branch : bset) (unbal parent_unbal : handle) (unbal_depth : Z)
  : M (flow handle (handle * Z * bset * handle * handle * Z)) :=
  match fuel with
  | O => undefined
  | S fuel' =>
      b <- get_bf hh ;;
      let unbal := if negb (b =? 0) then hh else unbal in
      let parent_unbal := if negb (b =? 0) then parent else parent_unbal in
      let unbal_depth := if negb (b =? 0) then depth else unbal_depth in
      let cmp := cmp_n_n h hh in
      if cmp =? 0 then ret (Ret hh) else
      let parent := hh in
      hh' <- (if cmp <? 0 then get_lt hh else get_gt hh) ;;
      e <- read_error ;;
      if e then ret (Ret null) else
      branch' <- bit_put branch depth (0 <? cmp) ;;
      let depth := u32 (depth + 1) in
      if negb (hh' =? null)
      then insert_descend fuel' h hh' parent depth branch'
             unbal parent_unbal unbal_depth
      else ret (Go (parent, cmp, branch', unbal, parent_unbal, unbal_depth))
  end.

(** Attach the leaf and adjust the last unbalanced node; yields the node the
    marking loop starts from, the depth, and [unbal] (null when no rotation
    is needed). *)
Definition insert_attach (h parent : handle) (cmp : Z) (branch : bset)
    (unbal : handle) (unbal_depth : Z)
  : M (flow handle (handle * Z * handle)) :=
  (if cmp <? 0 then set_lt parent h else set_gt parent h) ;;;
  let depth := unbal_depth in
  if unbal =? null then
    hh <- get_root ;; ret (Go (hh, depth, unbal))
  else
    bit <- bit_get branch depth ;;
    let cmp := dir_of bit in
    let depth := u32 (depth + 1) in
    unbal_bf <- get_bf unbal ;;
    let unbal_bf := if cmp <? 0 then unbal_bf - 1 else unbal_bf + 1 in
    hh <- (if cmp <? 0 then get_lt unbal else get_gt unbal) ;;
    e <- read_error ;;
    if e then ret (Ret null) else
    if negb (unbal_bf =? -2) && negb (unbal_bf =? 2) then
      set_bf unbal unbal_bf ;;; ret (Go (hh, depth, null))
    else ret (Go (hh, depth, unbal)).

(** [while (h != hh)]: mark the path below the unbalanced node. *)
Fixpoint insert_mark (fuel : nat) (h hh : handle) (depth : Z) (branch : bset)
  : M (flow handle unit) :=
  match fuel with
  | O => undefined
  | S fuel' =>
      if h =? hh then ret (Go tt) else
      bit <- bit_get branch depth ;;
      let cmp := dir_of bit in
      let depth := u32 (depth + 1) in
      hh' <- (if cmp <? 0
              then (set_bf hh (-1) ;;; get_lt hh)
              else (set_bf hh 1 ;;; get_gt hh)) ;;
      e <- read_error ;;
      if e then ret (Ret null) else insert_mark fuel' h hh' depth branch
  end.

(** Rotate at [unbal] and hang the result under its parent. *)
Definition insert_rebalance (h : handle) (branch : bset)
    (unbal parent_unbal : handle) (unbal_depth : Z) : M handle :=
  if negb (unbal =? null) then
    unbal' <- balance unbal ;;
    e <- read_error ;;
    if e then ret null else
    (if parent_unbal =? null then set_root unbal'
     else
       let depth := u32 (unbal_depth - 1) in
       bit <- bit_get branch depth ;;
       if dir_of bit <? 0
       then set_lt parent_unbal unbal'
       else set_gt parent_unbal unbal') ;;;
    ret h
  else ret h.

Definition insert_body (fuel : nat) (h : handle) : M handle :=
  r <- get_root ;;
  if r =? null then set_root h ;;; ret h
  else
    d <- insert_descend fuel h r null 0 bset_new null null 0 ;;
    match d with
    | Ret x => ret x
    | Go (parent, cmp, branch, unbal, parent_unbal, unbal_depth) =>
        a <- insert_attach h parent cmp branch unbal unbal_depth ;;
        match a with
        | Ret x => ret x
        | Go (hh, depth, unbal') =>
            m <- (if negb (hh =? null)
                  then insert_mark fuel h hh depth branch
                  else ret (Go tt)) ;;
            match m with
            | Ret x => ret x
            | Go _ => insert_rebalance h branch unbal' parent_unbal unbal_depth
            end
        end
    end.

Definition insert (fuel : nat) (h : handle) : M handle :=
  insert_init h ;;; insert_body fuel h.

(** *** remove *)

(** Descent by key.  [Ret null] when the key is absent or a read failed. *)
Fixpoint remove_find (fuel : nat) (k : Z) (h parent : handle) (depth : Z)
    (branch : bset) (cmp_shortened_sub_with_path : Z)
  : M (flow handle (handle * handle * Z * bset * Z)) :=
  match fuel with
  | O => undefined
  | S fuel' =>
      if h =? null then ret (Ret null) else
      let cmp := cmp_k_n k h in
      if cmp =? 0
      then ret (Go (h, parent, depth, branch, cmp_shortened_sub_with_path))
      else
        let parent := h in
        h' <- (if cmp <? 0 then get_lt h else get_gt h) ;;
        e <- read_error ;;
        if e then ret (Ret null) else
        branch' <- bit_put branch depth (0 <? cmp) ;;
        remove_find fuel' k h' parent (u32 (depth + 1)) branch' cmp
  end.

(** The [do ... while (child != null())] walk to the replacement. *)
Fixpoint remove_walk (fuel : nat) (cmp : Z) (h child : handle) (depth : Z)
    (branch : bset) : M (flow handle (handle * handle * Z * bset)) :=
  match fuel with
  | O => undefined
  | S fuel' =>
      let parent := h in
      let h := child in
      child' <- (if cmp <? 0 then get_lt h else get_gt h) ;;
      branch' <- bit_put branch depth (negb (cmp <? 0)) ;;
      e <- read_error ;;
      if e then ret (Ret null) else
      let depth := u32 (depth + 1) in
      if negb (child' =? null)
      then remove_walk fuel' cmp h child' depth branch'
      else ret (Go (parent, h, depth, branch'))
  end.

(** Choice of the replacement node.  Yields [parent], [h] (the replacement,
    or [rm] itself when [rm] is a leaf), [child] (what takes the
    replacement's old place), the branch bits and
    [cmp_shortened_sub_with_path]. *)
Definition remove_choose (fuel : nat) (rm parent : handle) (depth : Z)
    (branch : bset) (cmp_shortened_sub_with_path : Z)
  : M (flow handle (handle * handle * handle * bset * Z)) :=
  let h := rm in
  b <- get_bf h ;;
  child <- (if b <? 0 then get_lt h else get_gt h) ;;
  branch <- bit_put branch depth (negb (b <? 0)) ;;
  let cmp := if b <? 0 then -1 else 1 in
  e <- read_error ;;
  if e then ret (Ret null) else
  let depth := u32 (depth + 1) in
  if negb (child =? null) then
    let cmp := - cmp in
    w <- remove_walk fuel cmp h child depth branch ;;
    match w with
    | Ret x => ret (Ret x)
    | Go (parent, h, depth, branch) =>
        let csp := if parent =? rm then - cmp else cmp in
        child <- (if 0 <? cmp then get_lt_na h else get_gt_na h) ;;
        ret (Go (parent, h, child, branch, csp))
    end
  else ret (Go (parent, h, child, branch, cmp_shortened_sub_with_path)).

(** Unhook the replacement, then poke it into the place of [rm].  Yields
    [path]. *)
Definition remove_splice (rm parent_rm : handle) (rm_depth : Z)
    (parent h child : handle) (branch : bset)
    (cmp_shortened_sub_with_path : Z) : M handle :=
  (if parent =? null then set_root child
   else if cmp_shortened_sub_with_path <? 0 then set_lt parent child
   else set_gt parent child) ;;;
  let path := if parent =? rm then h else parent in
  (if negb (h =? rm) then
     x <- get_lt_na rm ;; set_lt h x ;;;
     y <- get_gt_na rm ;; set_gt h y ;;;
     b <- get_bf rm ;; set_bf h b ;;;
     (if parent_rm =? null then set_root h
      else
        let depth := u32 (rm_depth - 1) in
        bit <- bit_get branch depth ;;
        if bit then set_gt parent_rm h else set_lt parent_rm h)
   else ret tt) ;;;
  ret path.

(** [while (h != path)]: turn the path from the root into a list linked
    from child to parent. *)
Fixpoint remove_thread (fuel : nat) (path h parent : handle) (depth : Z)
    (branch : bset) : M (flow handle (handle * Z)) :=
  match fuel with
  | O => undefined
  | S fuel' =>
      if h =? path then ret (Go (parent, depth)) else
      bit <- bit_get branch depth ;;
      let depth := u32 (depth + 1) in
      child <- (if bit
                then (c <- get_gt h ;; set_gt h parent ;;; ret c)
                else (c <- get_lt h ;; set_lt h parent ;;; ret c)) ;;
      e <- read_error ;;
      if e then ret (Ret null) else
      remove_thread fuel' path child h depth branch
  end.

(** The balance factor adjustment at one node of the climb; yields the root
    of the subtree afterwards and whether it lost a level. *)
Definition remove_adjust (h : handle) (reduced_depth : bool) (cmp : Z)
  : M (flow handle (handle * bool)) :=
  if reduced_depth then
    bf <- get_bf h ;;
    let bf := if cmp <? 0 then bf + 1 else bf - 1 in
    if (bf =? -2) || (bf =? 2) then
      h' <- balance h ;;
      e <- read_error ;;
      if e then ret (Ret null) else
      bf' <- get_bf h' ;;
      ret (Go (h', bf' =? 0))
    else
      set_bf h bf ;;; ret (Go (h, bf =? 0))
  else ret (Go (h, reduced_depth)).

(** The climb back to the root; yields the new root. *)
Fixpoint remove_climb (fuel : nat) (h parent : handle) (depth : Z)
    (branch : bset) (reduced_depth : bool) (cmp : Z)
  : M (flow handle handle) :=
  match fuel with
  | O => undefined
  | S fuel' =>
      r <- remove_adjust h reduced_depth cmp ;;
      match r with
      | Ret x => ret (Ret x)
      | Go (h, reduced_depth) =>
          if parent =? null then ret (Go h) else
          let child := h in
          let h := parent in
          let depth := u32 (depth - 1) in
          bit <- bit_get branch depth ;;
          let cmp := dir_of bit in
          parent' <- (if cmp <? 0
                      then (p <- get_lt h ;; set_lt h child ;;; ret p)
                      else (p <- get_gt h ;; set_gt h child ;;; ret p)) ;;
          e <- read_error ;;
          if e then ret (Ret null) else
          remove_climb fuel' h parent' depth branch reduced_depth cmp
      end
  end.

Definition remove_retrace (fuel : nat) (rm path : handle) (branch : bset)
    (cmp_shortened_sub_with_path : Z) : M handle :=
  if negb (path =? null) then
    h <- get_root ;;
    t <- remove_thread fuel path h null 0 branch ;;
    match t with
    | Ret x => ret x
    | Go (parent, depth) =>
        c <- remove_climb fuel path parent depth branch true
               cmp_shortened_sub_with_path ;;
        match c with
        | Ret x => ret x
        | Go h => set_root h ;;; ret rm
        end
    end
  else ret rm.

(** Up to the splice: find the node, choose its replacement, unhook and
    poke.  Yields the removed node, [path], the branch bits and
    [cmp_shortened_sub_with_path]. *)
Definition remove_unlink (fuel : nat) (k : Z)
  : M (flow handle (handle * handle * bset * Z)) :=
  h <- get_root ;;
  f <- remove_find fuel k h null 0 bset_new 0 ;;
  match f with
  | Ret x => ret (Ret x)
  | Go (rm, parent_rm, rm_depth, branch, csp) =>
      c <- remove_choose fuel rm parent_rm rm_depth branch csp ;;
      match c with
      | Ret x => ret (Ret x)
      | Go (parent, h, child, branch, csp) =>
          path <- remove_splice rm parent_rm rm_depth parent h child
                    branch csp ;;
          ret (Go (rm, path, branch, csp))
      end
  end.

Definition remove (fuel : nat) (k : Z) : M handle :=
  u <- remove_unlink fuel k ;;
  match u with
  | Ret x => ret x
  | Go (rm, path, branch, csp) => remove_retrace fuel rm path branch csp
  end.

(** *** subst *)

Fixpoint subst_find (fuel : nat) (new_node h parent : handle) (last_cmp : Z)
  : M (flow handle (handle * handle * Z)) :=
  match fuel with
  | O => undefined
  | S fuel' =>
      if h =? null then ret (Ret null) else
      let cmp := cmp_n_n new_node h in
      if cmp =? 0 then ret (Go (h, parent, last_cmp)) else
      h' <- (if cmp <? 0 then get_lt h else get_gt h) ;;
      e <- read_error ;;
      if e then ret (Ret null) else subst_find fuel' new_node h' h cmp
  end.

Definition subst (fuel : nat) (new_node : handle) : M handle :=
  r <- get_root ;;
  f <- subst_find fuel new_node r null 0 ;;
  match f with
  | Ret x => ret x
  | Go (h, parent, last_cmp) =>
      x <- get_lt_na h ;; set_lt new_node x ;;;
      y <- get_gt_na h ;; set_gt new_node y ;;;
      b <- get_bf h ;; set_bf new_node b ;;;
      (if parent =? null then set_root new_node
       else if last_cmp <? 0 then set_lt parent new_node
       else set_gt parent new_node) ;;;
      ret h
  end.

(** *** purge, is_empty *)
Definition purge : M unit := set_root null.
Definition is_empty : M bool := r <- get_root ;; ret (r =? null).

(** *** iter *)

(** The iterator's own members ([tree_] is the ambient store). *)
Record iter := mkIter {
  it_branch : bset;
  it_depth : Z;
  it_path_h : Z -> handle
}.

(** [path_h] has [max_depth - 1] entries. *)
Definition path_get (p : Z -> handle) (i : Z) : M handle :=
  if (0 <=? i) && (i <? max_depth - 1) then ret (p i) else undefined.
Definition path_put (p : Z -> handle) (i : Z) (h : handle) : M (Z -> handle) :=
  if (0 <=? i) && (i <? max_depth - 1) then ret (upd p i h) else undefined.

(** [constexpr iter(void) : depth(unsigned(~0))] *)
Definition iter_new : iter := mkIter bset_new UNSIGNED_MAX (fun _ => null).

Fixpoint start_iter_least_loop (fuel : nat) (h : handle) (depth : Z)
    (path_h : Z -> handle) : M (Z * (Z -> handle)) :=
  match fuel with
  | O => undefined
  | S fuel' =>
      if h =? null then ret (depth, path_h) else
      path_h' <- (if negb (depth =? UNSIGNED_MAX)
                  then path_put path_h depth h else ret path_h) ;;
      let depth := u32 (depth + 1) in
      h' <- get_lt h ;;
      e <- read_error ;;
      if e then ret (UNSIGNED_MAX, path_h')
      else start_iter_least_loop fuel' h' depth path_h'
  end.

Definition start_iter_least (fuel : nat) (it : iter) : M iter :=
  h <- get_root ;;
  r <- start_iter_least_loop fuel h UNSIGNED_MAX (it_path_h it) ;;
  ret (mkIter (bset_reset (it_branch it)) (fst r) (snd r)).

Fixpoint start_iter_greatest_loop (fuel : nat) (h : handle) (depth : Z)
    (path_h : Z -> handle) : M (Z * (Z -> handle)) :=
  match fuel with
  | O => undefined
  | S fuel' =>
      if h =? null then ret (depth, path_h) else
      path_h' <- (if negb (depth =? UNSIGNED_MAX)
                  then path_put path_h depth h else ret path_h) ;;
      let depth := u32 (depth + 1) in
      h' <- get_gt h ;;
      e <- read_error ;;
      if e then ret (UNSIGNED_MAX, path_h')
      else start_iter_greatest_loop fuel' h' depth path_h'
  end.

Definition start_iter_greatest (fuel : nat) (it : iter) : M iter :=
  h <- get_root ;;
  r <- start_iter_greatest_loop fuel h UNSIGNED_MAX (it_path_h it) ;;
  ret (mkIter (bset_set_all (it_branch it)) (fst r) (snd r)).

(** The [for ( ; ; )] of [start_iter]: [d] is the depth of [h], the depth
    member of [it] the depth of the best node seen so far. *)
Fixpoint start_iter_loop (fuel : nat) (k st target_cmp : Z) (h : handle)
    (d : Z) (it : iter) : M iter :=
  match fuel with
  | O => undefined
  | S fuel' =>
      let cmp := cmp_k_n k h in
      if (cmp =? 0) && has_flag st EQUAL
      then ret (mkIter (it_branch it) d (it_path_h it)) else
      let cmp' := if cmp =? 0 then - target_cmp else cmp in
      let depth :=
        if negb (cmp =? 0) && negb (target_cmp =? 0) && same_sign cmp target_cmp
        then d else it_depth it in
      h' <- (if cmp' <? 0 then get_lt h else get_gt h) ;;
      e <- read_error ;;
      if e then ret (mkIter (it_branch it) UNSIGNED_MAX (it_path_h it)) else
      if h' =? null then ret (mkIter (it_branch it) depth (it_path_h it)) else
      branch <- bit_put (it_branch it) d (0 <? cmp') ;;
      path_h <- path_put (it_path_h it) d h' ;;
      start_iter_loop fuel' k st target_cmp h' (u32 (d + 1))
        (mkIter branch depth path_h)
  end.

(** [start_iter(tree, k, st)] *)
Definition start_iter (fuel : nat) (k st : Z) (it : iter) : M iter :=
  h <- get_root ;;
  let it := mkIter (it_branch it) UNSIGNED_MAX (it_path_h it) in
  if h =? null then ret it
  else start_iter_loop fuel k st (target_of st) h 0 it.

(** [operator *] *)
Definition iter_deref (it : iter) : M handle :=
  if it_depth it =? UNSIGNED_MAX then ret null
  else if it_depth it =? 0 then get_root
  else path_get (it_path_h it) (it_depth it - 1).

(** [do { if (depth == 0) { depth = ~0; break; } depth--; } while (branch[depth])]
    with [stop_bit = false] for [++] and [true] for [--]. *)
Fixpoint iter_pop (fuel : nat) (stop_bit : bool) (branch : bset) (depth : Z)
  : M Z :=
  match fuel with
  | O => undefined
  | S fuel' =>
      if depth =? 0 then ret UNSIGNED_MAX else
      let depth := u32 (depth - 1) in
      b <- bit_get branch depth ;;
      if Bool.eqb b stop_bit then ret depth
      else iter_pop fuel' stop_bit branch depth
  end.

(** The inner [for ( ; ; )] of [++] ([to_greater = false]) and of [--]. *)
Fixpoint iter_slide (fuel : nat) (to_greater : bool) (h : handle) (it : iter)
  : M iter :=
  match fuel with
  | O => undefined
  | S fuel' =>
      h' <- (if to_greater then get_gt h else get_lt h) ;;
      e <- read_error ;;
      if e then ret (mkIter (it_branch it) UNSIGNED_MAX (it_path_h it)) else
      if h' =? null then ret it else
      branch <- bit_put (it_branch it) (it_depth it) to_greater ;;
      path_h <- path_put (it_path_h it) (it_depth it) h' ;;
      iter_slide fuel' to_greater h'
        (mkIter branch (u32 (it_depth it + 1)) path_h)
  end.

(** [operator ++] *)
Definition iter_incr (fuel : nat) (it : iter) : M iter :=
  if negb (it_depth it =? UNSIGNED_MAX) then
    cur <- iter_deref it ;;
    h <- get_gt cur ;;
    e <- read_error ;;
    if e then ret (mkIter (it_branch it) UNSIGNED_MAX (it_path_h it))
    else if h =? null then
      d <- iter_pop fuel false (it_branch it) (it_depth it) ;;
      ret (mkIter (it_branch it) d (it_path_h it))
    else
      branch <- bit_put (it_branch it) (it_depth it) true ;;
      path_h <- path_put (it_path_h it) (it_depth it) h ;;
      iter_slide fuel false h (mkIter branch (u32 (it_depth it + 1)) path_h)
  else ret it.

(** [operator --] *)
Definition iter_decr (fuel : nat) (it : iter) : M iter :=
  if negb (it_depth it =? UNSIGNED_MAX) then
    cur <- iter_deref it ;;
    h <- get_lt cur ;;
    e <- read_error ;;
    if e then ret (mkIter (it_branch it) UNSIGNED_MAX (it_path_h it))
    else if h =? null then
      d <- iter_pop fuel true (it_branch it) (it_depth it) ;;
      ret (mkIter (it_branch it) d (it_path_h it))
    else
      branch <- bit_put (it_branch it) (it_depth it) false ;;
      path_h <- path_put (it_path_h it) (it_depth it) h ;;
      iter_slide fuel true h (mkIter branch (u32 (it_depth it + 1)) path_h)
  else ret it.

(** A client loop: dereference, then [++], [n] times; yields the handles
    seen and the iterator afterwards. *)
Fixpoint iter_collect (n fuel : nat) (it : iter) : M (list handle * iter) :=
  match n with
  | O => ret ([], it)
  | S n' =>
      h <- iter_deref it ;;
      it' <- iter_incr fuel it ;;
      r <- iter_collect n' fuel it' ;;
      ret (h :: fst r, snd r)
  end.

(** The same going down: dereference and apply [--], [n] times. *)
Fixpoint iter_collect_back (n fuel : nat) (it : iter)
  : M (list handle * iter) :=
  match n with
  | O => ret ([], it)
  | S n' =>
      h <- iter_deref it ;;
      it' <- iter_decr fuel it ;;
      r <- iter_collect_back n' fuel it' ;;
      ret (h :: fst r, snd r)
  end.

(** *** build *)

(** [*p] on the input sequence; reading past its end is undefined. *)
Definition seq_deref (p : list handle) : M handle :=
  match p with
  | [] => undefined
  | h :: _ => fun s => if faulty h then Some (h, raise_err s) else Some (h, s)
  end.

(** [while (num_sub > 2)] *)
Fixpoint build_split (fuel : nat) (num_sub depth : Z) (branch rem : bset)
  : M (Z * Z * bset * bset) :=
  match fuel with
  | O => undefined
  | S fuel' =>
      if 2 <? num_sub then
        let num_sub := num_sub - 1 in
        rem' <- bit_put rem depth (negb (Z.land num_sub 1 =? 0)) ;;
        branch' <- bit_put branch depth false ;;
        build_split fuel' (Z.shiftr num_sub 1) (u32 (depth + 1)) branch' rem'
      else ret (num_sub, depth, branch, rem)
  end.

(** The one- or two-node subtree at the bottom. *)
Definition build_bottom (num_sub : Z) (p : list handle)
  : M (flow bool (handle * list handle)) :=
  if num_sub =? 2 then
    h <- seq_deref p ;;
    e <- read_error ;;
    if e then ret (Ret false) else
    let p := tl p in
    child <- seq_deref p ;;
    e <- read_error ;;
    if e then ret (Ret false) else
    let p := tl p in
    set_lt child null ;;;
    set_gt child null ;;;
    set_bf child 0 ;;;
    set_gt h child ;;;
    set_lt h null ;;;
    set_bf h 1 ;;;
    ret (Go (h, p))
  else
    h <- seq_deref p ;;
    e <- read_error ;;
    if e then ret (Ret false) else
    let p := tl p in
    set_lt h null ;;;
    set_gt h null ;;;
    set_bf h 0 ;;;
    ret (Go (h, p)).

(** [while (depth)]: attach finished greater subtrees to their parents. *)
Fixpoint build_unwind (fuel : nat) (h less_parent : handle)
    (num_sub depth : Z) (branch rem : bset)
  : M (flow bool (handle * handle * Z * Z)) :=
  match fuel with
  | O => undefined
  | S fuel' =>
      if depth =? 0 then ret (Go (h, less_parent, num_sub, depth)) else
      let depth := u32 (depth - 1) in
      b <- bit_get branch depth ;;
      if negb b then ret (Go (h, less_parent, num_sub, depth)) else
      let child := h in
      let h := less_parent in
      less_parent' <- get_gt h ;;
      e <- read_error ;;
      if e then ret (Ret false) else
      set_gt h child ;;;
      r <- bit_get rem depth ;;
      let num_sub := Z.shiftl num_sub 1 + (1 - Z.b2z r) in
      (if negb (Z.land num_sub (num_sub - 1) =? 0)
       then set_bf h 0 else set_bf h 1) ;;;
      build_unwind fuel' h less_parent' num_sub depth branch rem
  end.

(** The outer [for ( ; ; )]; [fuel_in] bounds the inner loops. *)
Fixpoint build_loop (fuel fuel_in : nat) (p : list handle)
    (num_nodes num_sub depth : Z) (branch rem : bset) (less_parent : handle)
  : M bool :=
  match fuel with
  | O => undefined
  | S fuel' =>
      sp <- build_split fuel_in num_sub depth branch rem ;;
      let '(num_sub, depth, branch, rem) := sp in
      bt <- build_bottom num_sub p ;;
      match bt with
      | Ret x => ret x
      | Go (h, p) =>
          uw <- build_unwind fuel_in h less_parent num_sub depth branch rem ;;
          match uw with
          | Ret x => ret x
          | Go (h, less_parent, num_sub, depth) =>
              if num_sub =? num_nodes then set_root h ;;; ret true else
              let child := h in
              h <- seq_deref p ;;
              e <- read_error ;;
              if e then ret false else
              let p := tl p in
              set_lt h child ;;;
              set_gt h less_parent ;;;
              let less_parent := h in
              branch' <- bit_put branch depth true ;;
              r <- bit_get rem depth ;;
              build_loop fuel' fuel_in p num_nodes (num_sub + Z.b2z r)
                (u32 (depth + 1)) branch' rem less_parent
          end
      end
  end.

Definition build (fuel : nat) (p : list handle) (num_nodes : Z) : M bool :=
  if num_nodes =? 0 then set_root null ;;; ret true
  else build_loop fuel fuel p num_nodes num_nodes 0 bset_new bset_new null.

(** A pass of the outer loop of [build] from the unwinding on, with fuel
    [fuel_uw] for the unwinding. *)
Definition build_resume (fuel fuel_uw fuel_in : nat) (p : list handle)
    (num_nodes : Z) (h less_parent : handle) (num_sub depth : Z)
    (branch rem : bset) : M bool :=
  uw <- build_unwind fuel_uw h less_parent num_sub depth branch rem ;;
  match uw with
  | Ret x => ret x
  | Go (h, less_parent, num_sub, depth) =>
      if num_sub =? num_nodes then set_root h ;;; ret true else
      let child := h in
      h <- seq_deref p ;;
      e <- read_error ;;
      if e then ret false else
      let p := tl p in
      set_lt h child ;;;
      set_gt h less_parent ;;;
      let less_parent := h in
      branch' <- bit_put branch depth true ;;
      r <- bit_get rem depth ;;
      build_loop fuel fuel_in p num_nodes (num_sub + Z.b2z r)
        (u32 (depth + 1)) branch' rem less_parent
  end.

(** ** Reading a store as a tree *)

(** [wf s t]: the links and factors stored in [s] spell out [t], and every
    node of [t] is readable. *)
Fixpoint wf (s : abs_plus_root) (t : tree) : Prop :=
  match t with
  | Leaf => True
  | Node l h b r =>
      h <> null /\ faulty h = false /\
      less s h = hd l /\ greater s h = hd r /\ balance_factor s h = b /\
      wf s l /\ wf s r
  end.

(** [Rep s t]: the tree owned by [s] is [t]; no node occurs twice and no read
    error is pending. *)
Definition Rep (s : abs_plus_root) (t : tree) : Prop :=
  root s = hd t /\ wf s t /\ NoDup (handles t) /\ rd_err s = false.

(** BST invariant: every key of the less subtree is below the node's key and
    every key of the greater subtree above it. *)
Fixpoint bst (t : tree) : Prop :=
  match t with
  | Leaf => True
  | Node l h _ r =>
      (forall x, In x (handles l) -> key_of x < key_of h) /\
      (forall x, In x (handles r) -> key_of h < key_of x) /\
      bst l /\ bst r
  end.

(** The invariant as the data model words it: a node's key against the keys
    of its non-null children. *)
Fixpoint child_ordered (t : tree) : Prop :=
  match t with
  | Leaf => True
  | Node l h _ r =>
      (hd l <> null -> key_of (hd l) < key_of h) /\
      (hd r <> null -> key_of h < key_of (hd r)) /\
      child_ordered l /\ child_ordered r
  end.

Definition keys (t : tree) : list Z := map key_of (handles t).

(** Rightmost / leftmost node of an in-order sequence satisfying [P];
    null when there is none. *)
Definition or_null (o : option handle) : handle :=
  match o with Some h => h | None => null end.
Definition rightmost (P : handle -> bool) (l : list handle) : handle :=
  or_null (find P (rev l)).
Definition leftmost (P : handle -> bool) (l : list handle) : handle :=
  or_null (find P l).

(** *** Contexts in the store *)

Definition f_node (f : frame) : handle := snd (fst (fst f)).

(** Node of the innermost frame: the parent of the hole. *)
Definition parent_of (c : ctx) : handle :=
  match c with [] => null | f :: _ => f_node f end.

(** Root handle of [plug c t] when the hole holds [p]. *)
Fixpoint top_of (c : ctx) (p : handle) : handle :=
  match c with [] => p | f :: c' => top_of c' (f_node f) end.

(** The branch bits a descent along [c] leaves behind: bit [d] is the branch
    taken at depth [d]. *)
Fixpoint bits_of (c : ctx) : bset :=
  match c with
  | [] => bset_new
  | (dir, _, _, _) :: c' => upd (bits_of c') (Z.of_nat (length c')) dir
  end.

(** In-order handles to the left and to the right of the hole. *)
Fixpoint ctx_left (c : ctx) : list handle :=
  match c with
  | [] => []
  | (dir, x, _, sib) :: c' =>
      ctx_left c' ++ (if dir then handles sib ++ [x] else [])
  end.
Fixpoint ctx_right (c : ctx) : list handle :=
  match c with
  | [] => []
  | (dir, x, _, sib) :: c' =>
      (if dir then [] else x :: handles sib) ++ ctx_right c'
  end.

Definition ctx_handles (c : ctx) : list handle := ctx_left c ++ ctx_right c.

(** [wfc s c p]: the frames of [c] are laid out in [s] around a hole whose
    root handle is [p]. *)
Fixpoint wfc (s : abs_plus_root) (c : ctx) (p : handle) : Prop :=
  match c with
  | [] => True
  | (dir, x, b, sib) :: c' =>
      x <> null /\ faulty x = false /\
      (if dir then greater s x = p /\ less s x = hd sib
       else less s x = p /\ greater s x = hd sib) /\
      balance_factor s x = b /\ wf s sib /\ wfc s c' x
  end.

(** *** The engine's algorithms read on trees *)

(** What [balance] does to the tree rooted at its argument.  The stored
    factor of the root is the one from before the height change, so its sign
    names the deeper side. *)
Definition balance_t (t : tree) : tree :=
  match t with
  | Leaf => Leaf
  | Node a x bx c =>
      if 0 <? bx then
        match c with
        | Leaf => t
        | Node b y by_ d =>
            if by_ <? 0 then
              match b with
              | Leaf => t
              | Node b1 z bz b2 =>
                  if negb (bz =? 0) then
                    if 0 <? bz
                    then Node (Node a x (-1) b1) z 0 (Node b2 y 0 d)
                    else Node (Node a x 0 b1) z 0 (Node b2 y 1 d)
                  else Node (Node a x 0 b1) z bz (Node b2 y 0 d)
              end
            else if by_ =? 0 then Node (Node a x 1 b) y (-1) d
            else Node (Node a x 0 b) y 0 d
        end
      else
        match a with
        | Leaf => t
        | Node d y by_ b =>
            if 0 <? by_ then
              match b with
              | Leaf => t
              | Node b1 z bz b2 =>
                  if negb (bz =? 0) then
                    if bz <? 0
                    then Node (Node d y 0 b1) z 0 (Node b2 x 1 c)
                    else Node (Node d y (-1) b1) z 0 (Node b2 x 0 c)
                  else Node (Node d y 0 b1) z bz (Node b2 x 0 c)
              end
            else if by_ =? 0 then Node d y 1 (Node b x (-1) c)
            else Node d y 0 (Node b x 0 c)
        end
  end.

(** The shapes on which [balance] dereferences no null handle. *)
Definition rotatable (t : tree) : Prop :=
  match t with
  | Leaf => False
  | Node a x bx c =>
      if 0 <? bx then
        match c with
        | Leaf => False
        | Node b y by_ d => if by_ <? 0 then b <> Leaf else True
        end
      else
        match a with
        | Leaf => False
        | Node d y by_ b => if 0 <? by_ then b <> Leaf else True
        end
  end.

(** [s'] has the fields of [s] at node [x]. *)
Definition same_fields (s s' : abs_plus_root) (x : handle) : Prop :=
  less s' x = less s x /\ greater s' x = greater s x /\
  balance_factor s' x = balance_factor s x.

(** [frame_eq L s s']: [s'] differs from [s] at most in the fields of the
    nodes listed in [L] and in the root. *)
Definition frame_eq (L : list handle) (s s' : abs_plus_root) : Prop :=
  rd_err s' = rd_err s /\
  forall x, ~ In x L ->
    less s' x = less s x /\ greater s' x = greater s x /\
    balance_factor s' x = balance_factor s x.

(** Stored balance factor at the root of a tree. *)
Definition bf_of (t : tree) : Z :=
  match t with Leaf => 0 | Node _ _ b _ => b end.

Definition f_dir (f : frame) : bool := fst (fst (fst f)).

(** Comparison result that led into the hole. *)
Definition last_cmp (c : ctx) : Z :=
  match c with [] => 0 | f :: _ => dir_of (f_dir f) end.

(** Path from the root of [t] to the place where key [k] belongs, pushed on
    [acc]. *)
Fixpoint ins_ctx (k : Z) (t : tree) (acc : ctx) : ctx :=
  match t with
  | Leaf => acc
  | Node l x b r =>
      if k <? key_of x then ins_ctx k l ((false, x, b, r) :: acc)
      else ins_ctx k r ((true, x, b, l) :: acc)
  end.

(** Deepest frame with a non-zero factor: the node, its parent, its depth. *)
Fixpoint last_unbal (c : ctx) : handle * handle * Z :=
  match c with
  | [] => (null, null, 0)
  | (_, x, b, _) :: c' =>
      if negb (b =? 0) then (x, parent_of c', Z.of_nat (length c'))
      else last_unbal c'
  end.

(** Frames below the deepest unbalanced frame, and the rest. *)
Fixpoint split_unbal (c : ctx) : ctx * ctx :=
  match c with
  | [] => ([], [])
  | (dir, x, b, sib) :: c' =>
      if negb (b =? 0) then ([], c)
      else let (lo, up) := split_unbal c' in ((dir, x, b, sib) :: lo, up)
  end.

(** The marking loop: every frame gets the factor of its branch. *)
Definition mark_frame (f : frame) : frame :=
  match f with (dir, x, _, sib) => (dir, x, dir_of dir, sib) end.
Definition mark (c : ctx) : ctx := map mark_frame c.

(** [insert] read on trees, for a key that is not in the tree. *)
Definition ins_tree (h : handle) (t : tree) : tree :=
  let (lo, up) := split_unbal (ins_ctx (key_of h) t []) in
  let sub := plug (mark lo) (Node Leaf h 0 Leaf) in
  match up with
  | [] => sub
  | (dir, x, b, sib) :: up' =>
      let b' := b + dir_of dir in
      if (b' =? -2) || (b' =? 2)
      then plug up' (balance_t (fill (dir, x, b, sib) sub))
      else plug up' (fill (dir, x, b', sib) sub)
  end.

Definition f_bf (f : frame) : Z := snd (fst f).

(** Store update of the link on side [dir]. *)
Definition put_link (dir : bool) (x q : handle) (s : abs_plus_root)
  : abs_plus_root :=
  if dir then put_greater x q s else put_less x q s.

(** The rotation [insert] may need is on a shape [balance] can handle. *)
Definition ins_rot_ok (h : handle) (t : tree) : Prop :=
  let (lo, up) := split_unbal (ins_ctx (key_of h) t []) in
  match up with
  | [] => True
  | (dir, x, b, sib) :: _ =>
      (b + dir_of dir =? -2) || (b + dir_of dir =? 2) = true ->
      rotatable (fill (dir, x, b, sib)
                   (plug (mark lo) (Node Leaf h 0 Leaf)))
  end.

(** Path from the root of [t] to the node carrying key [k], and the
    subtree rooted there. *)
Fixpoint find_ctx (k : Z) (t : tree) (acc : ctx) : option (ctx * tree) :=
  match t with
  | Leaf => None
  | Node l x b r =>
      if k <? key_of x then find_ctx k l ((false, x, b, r) :: acc)
      else if k =? key_of x then Some (acc, t)
      else find_ctx k r ((true, x, b, l) :: acc)
  end.

(** Walk to the greatest node of [t]: the frames passed and the subtree
    rooted at that node. *)
Fixpoint max_ctx (t : tree) (acc : ctx) : ctx * tree :=
  match t with
  | Leaf => (acc, Leaf)
  | Node l x b r =>
      match r with
      | Leaf => (acc, t)
      | Node _ _ _ _ => max_ctx r ((true, x, b, l) :: acc)
      end
  end.

(** Walk to the least node of [t]. *)
Fixpoint min_ctx (t : tree) (acc : ctx) : ctx * tree :=
  match t with
  | Leaf => (acc, Leaf)
  | Node l x b r =>
      match l with
      | Leaf => (acc, t)
      | Node _ _ _ _ => min_ctx l ((false, x, b, r) :: acc)
      end
  end.

(** One step of the climb of [remove] at the node of frame [f], with [t]
    in its hole; while [reduced] the subtree below lost one level.  Yields
    the subtree rooted at that place afterwards and whether it lost a level
    in turn. *)
Definition shrink_step (f : frame) (t : tree) (reduced : bool) : tree * bool :=
  let '(dir, x, b, sib) := f in
  if reduced then
    let b' := if dir_of dir <? 0 then b + 1 else b - 1 in
    if (b' =? -2) || (b' =? 2) then
      let t' := balance_t (fill (dir, x, b, sib) t) in (t', bf_of t' =? 0)
    else (fill (dir, x, b', sib) t, b' =? 0)
  else (fill (dir, x, b, sib) t, false).

(** The whole climb along [c]. *)
Fixpoint shrink_up (c : ctx) (t : tree) (reduced : bool) : tree :=
  match c with
  | [] => t
  | f :: c' =>
      shrink_up c' (fst (shrink_step f t reduced))
        (snd (shrink_step f t reduced))
  end.

(** The rotation of a step, if any, is on a shape [balance] can handle. *)
Definition shrink_step_ok (f : frame) (t : tree) (reduced : bool) : Prop :=
  let '(dir, x, b, sib) := f in
  let b' := if dir_of dir <? 0 then b + 1 else b - 1 in
  reduced = true -> (b' =? -2) || (b' =? 2) = true ->
  rotatable (fill (dir, x, b, sib) t).

Fixpoint shrink_ok (c : ctx) (t : tree) (reduced : bool) : Prop :=
  match c with
  | [] => True
  | f :: c' =>
      shrink_step_ok f t reduced /\
      shrink_ok c' (fst (shrink_step f t reduced))
        (snd (shrink_step f t reduced))
  end.

(** After the splice: the context around the place that lost a node, and
    what hangs there now. *)
Definition splice_of (c_rm : ctx) (t_rm : tree) : ctx * tree :=
  match t_rm with
  | Leaf => (c_rm, Leaf)
  | Node l rm b r =>
      if b <? 0 then
        match l with
        | Leaf => (c_rm, Leaf)
        | Node _ _ _ _ =>
            match max_ctx l [] with
            | (cw, Node l' m _ _) => (cw ++ (false, m, b, r) :: c_rm, l')
            | (_, Leaf) => (c_rm, Leaf)
            end
        end
      else
        match r with
        | Leaf => (c_rm, Leaf)
        | Node _ _ _ _ =>
            match min_ctx r [] with
            | (cw, Node _ m _ r') => (cw ++ (true, m, b, l) :: c_rm, r')
            | (_, Leaf) => (c_rm, Leaf)
            end
        end
  end.

(** [remove] read on trees. *)
Definition rem_tree (k : Z) (t : tree) : tree :=
  match find_ctx k t [] with
  | None => t
  | Some (c_rm, t_rm) =>
      let (c, hole) := splice_of c_rm t_rm in shrink_up c hole true
  end.

(** The replacement as the removal procedure is described: the greatest node
    of the less subtree when that subtree is deeper, otherwise the least node
    of the greater subtree; null when there is none. *)
Definition replacement (t_rm : tree) : handle :=
  match t_rm with
  | Leaf => null
  | Node l _ _ r =>
      if height r <? height l then last (handles l) null
      else List.hd null (handles r)
  end.

(** A context whose links have been turned around: each frame's branch link
    holds the node of the next frame up (null at the root). *)
Fixpoint wfrev (s : abs_plus_root) (c : ctx) : Prop :=
  match c with
  | [] => True
  | (dir, x, b, sib) :: c' =>
      x <> null /\ faulty x = false /\
      (if dir then greater s x = parent_of c' /\ less s x = hd sib
       else less s x = parent_of c' /\ greater s x = hd sib) /\
      balance_factor s x = b /\ wf s sib /\ wfrev s c'
  end.

(** What distinctness of the handles of a tree says about the parts the
    splice works on: the context of the removed node [rm], the other
    subtree of [rm], the walk context, the replacement [m] and what hangs
    below it. *)
Definition splice_facts (c_rm : ctx) (rm : handle) (other : tree) (cw : ctx)
    (m : handle) (hole : tree) : Prop :=
  m <> rm /\
  (~ In m (handles hole) /\ ~ In rm (handles hole)) /\
  (~ In m (handles other) /\ ~ In rm (handles other)) /\
  (~ In m (ctx_handles cw) /\ ~ In rm (ctx_handles cw)) /\
  (~ In m (ctx_handles c_rm) /\ ~ In rm (ctx_handles c_rm)) /\
  (forall x, In x (ctx_handles cw) ->
     ~ In x (handles hole) /\ ~ In x (handles other) /\
     ~ In x (ctx_handles c_rm)) /\
  (forall x, In x (ctx_handles c_rm) ->
     ~ In x (handles hole) /\ ~ In x (handles other)) /\
  NoDup (ctx_handles cw) /\ NoDup (ctx_handles c_rm).

(** *** Iterator positions *)

(** Nodes on the way from the root down to the current node [x]. *)
Definition path_nodes (c : ctx) (x : handle) : list handle :=
  map f_node (rev c) ++ [x].

(** [path_h[i]] is the node at depth [i + 1] of the way down. *)
Definition agree_path (path : Z -> handle) (L : list handle) : Prop :=
  forall i h, nth_error L (S i) = Some h -> path (Z.of_nat i) = h.

(** [branch[i]] is the branch taken at depth [i]. *)
Definition agree_bits (branch : bset) (c : ctx) : Prop :=
  forall i f, nth_error (rev c) i = Some f -> branch (Z.of_nat i) = f_dir f.

(** The iterator stands on [x], reached along [c]. *)
Definition it_pos (it : iter) (c : ctx) (x : handle) : Prop :=
  it_depth it = Z.of_nat (length c) /\
  agree_bits (it_branch it) c /\
  agree_path (it_path_h it) (path_nodes c x).

(** Climb while the branch taken was the greater one; stop on the first
    less branch.  [t] is what hangs below. *)
Fixpoint pop_ctx (c : ctx) (t : tree) : option (ctx * tree) :=
  match c with
  | [] => None
  | (dir, y, b, sib) :: c' =>
      if dir then pop_ctx c' (fill (dir, y, b, sib) t)
      else Some (c', fill (dir, y, b, sib) t)
  end.

(** The position after [++]. *)
Definition next_pos (c : ctx) (sub : tree) : option (ctx * tree) :=
  match sub with
  | Leaf => None
  | Node l x b r =>
      match r with
      | Leaf => pop_ctx c sub
      | Node _ _ _ _ => Some (min_ctx r ((true, x, b, l) :: c))
      end
  end.

(** In-order handles after the current node. *)
Definition todo (c : ctx) (sub : tree) : list handle :=
  match sub with
  | Leaf => ctx_right c
  | Node _ _ _ r => handles r ++ ctx_right c
  end.

(** Climb while the branch taken was the less one; stop on the first
    greater branch. *)
Fixpoint pop_ctx_back (c : ctx) (t : tree) : option (ctx * tree) :=
  match c with
  | [] => None
  | (dir, y, b, sib) :: c' =>
      if dir then Some (c', fill (dir, y, b, sib) t)
      else pop_ctx_back c' (fill (dir, y, b, sib) t)
  end.

(** The position after [--]. *)
Definition prev_pos (c : ctx) (sub : tree) : option (ctx * tree) :=
  match sub with
  | Leaf => None
  | Node l x b r =>
      match l with
      | Leaf => pop_ctx_back c sub
      | Node _ _ _ _ => Some (max_ctx l ((false, x, b, r) :: c))
      end
  end.

(** In-order handles before the current node. *)
Definition before (c : ctx) (sub : tree) : list handle :=
  match sub with
  | Leaf => ctx_left c
  | Node l _ _ _ => ctx_left c ++ handles l
  end.

(** The iterator of tree [t] stands on the root of [sub], which hangs in
    [c]. *)
Definition iter_at (t : tree) (it : iter) (c : ctx) (sub : tree) : Prop :=
  plug c sub = t /\ sub <> Leaf /\ it_pos it c (hd sub).

(** The descent of [search] and of [start_iter] for key [k] and search type
    [st]: the place of the node they settle on, [best] being the place of
    the best node passed so far. *)
Fixpoint seek_ctx (k st : Z) (t : tree) (acc : ctx)
    (best : option (ctx * tree)) : option (ctx * tree) :=
  match t with
  | Leaf => best
  | Node l x b r =>
      let cmp := cmp_k_n k x in
      if (cmp =? 0) && has_flag st EQUAL then Some (acc, t) else
      let cmp' := if cmp =? 0 then - target_of st else cmp in
      let best' :=
        if negb (cmp =? 0) && negb (target_of st =? 0)
           && same_sign cmp (target_of st)
        then Some (acc, t) else best in
      if cmp' <? 0 then seek_ctx k st l ((false, x, b, r) :: acc) best'
      else seek_ctx k st r ((true, x, b, l) :: acc) best'
  end.

(** [post_ok Q c]: started with no read error pending, a run of [c] that
    comes back satisfies [Q] on its result and the read-error flag. *)
Definition post_ok {A} (Q : A -> bool -> Prop) (c : M A) : Prop :=
  forall s a s', rd_err s = false -> c s = Some (a, s') -> Q a (rd_err s').

(** A place passed on the way down to [t], which hangs in [acc]. *)
Definition on_way (acc : ctx) (t : tree) (p : option (ctx * tree)) : Prop :=
  match p with
  | None => True
  | Some (cb, sb) => sb <> Leaf /\ exists c0, acc = c0 ++ cb /\ sb = plug c0 t
  end.

(** The depth member of an iterator standing at a place. *)
Definition depth_of (p : option (ctx * tree)) : Z :=
  match p with Some (c, _) => Z.of_nat (length c) | None => UNSIGNED_MAX end.

(** The node at a place, null for none. *)
Definition node_at (p : option (ctx * tree)) : handle :=
  match p with Some (_, sub) => hd sub | None => null end.

(** *** build read on trees *)

(** The tree [build] makes of the first [n] handles of [p]; [k] bounds the
    recursion. *)
Fixpoint build_t (k : nat) (n : Z) (p : list handle) : tree :=
  match k with
  | O => Leaf
  | S k' =>
      if 2 <? n then
        let m := n - 1 in
        let nl := Z.shiftr m 1 in
        let ng := nl + Z.b2z (negb (Z.land m 1 =? 0)) in
        Node (build_t k' nl p)
             (nth (Z.to_nat nl) p null)
             (if negb (Z.land n (n - 1) =? 0) then 0 else 1)
             (build_t k' ng (skipn (S (Z.to_nat nl)) p))
      else if n =? 2 then
        Node Leaf (nth 0 p null) 1 (Node Leaf (nth 1 p null) 0 Leaf)
      else if n =? 1 then Node Leaf (nth 0 p null) 0 Leaf
      else Leaf
  end.

(** Number of passes of the outer loop of [build] for a tree. *)
Fixpoint bottoms (t : tree) : nat :=
  match t with
  | Leaf => 0
  | Node Leaf _ _ Leaf => 1
  | Node Leaf _ _ (Node Leaf _ _ Leaf) => 1
  | Node l _ _ r => bottoms l + bottoms r
  end.

(** Depth of the nearest missing child. *)
Fixpoint minh (t : tree) : Z :=
  match t with
  | Leaf => 0
  | Node l _ _ r => 1 + Z.min (minh l) (minh r)
  end.

(** Number of nodes at depth [i]. *)
Fixpoint level_count (t : tree) (i : nat) : Z :=
  match t with
  | Leaf => 0
  | Node l _ _ r =>
      match i with
      | O => 1
      | S j => level_count l j + level_count r j
      end
  end.

(** Every stored balance factor satisfies [P]. *)
Fixpoint all_bf (P : Z -> Prop) (t : tree) : Prop :=
  match t with
  | Leaf => True
  | Node l _ b r => P b /\ all_bf P l /\ all_bf P r
  end.

(** At every node the greater subtree has as many nodes as the less one, or
    one more. *)
Fixpoint excess_greater (t : tree) : Prop :=
  match t with
  | Leaf => True
  | Node l _ _ r =>
      0 <= size r - size l <= 1 /\ excess_greater l /\ excess_greater r
  end.

(** ** Running the primitives *)

Lemma neq_null h : h <> null -> (h =? null) = false.
Proof. intro H. apply Z.eqb_neq. exact H. Qed.

Lemma run_bind {A B} (c : M A) (f : A -> M B) s a s' :
  c s = Some (a, s') -> bind c f s = f a s'.
Proof. unfold bind. intros ->. reflexivity. Qed.

Lemma run_get_lt h s :
  h <> null -> faulty h = false -> get_lt h s = Some (less s h, s).
Proof.
  intros Hn Hf. unfold get_lt, get_less. rewrite (neq_null _ Hn), Hf.
  reflexivity.
Qed.

Lemma run_get_gt h s :
  h <> null -> faulty h = false -> get_gt h s = Some (greater s h, s).
Proof.
  intros Hn Hf. unfold get_gt, get_greater. rewrite (neq_null _ Hn), Hf.
  reflexivity.
Qed.

Lemma run_get_lt_na h s :
  h <> null -> faulty h = false -> get_lt_na h s = Some (less s h, s).
Proof. exact (run_get_lt h s). Qed.

Lemma run_get_gt_na h s :
  h <> null -> faulty h = false -> get_gt_na h s = Some (greater s h, s).
Proof. exact (run_get_gt h s). Qed.

Lemma run_get_bf h s :
  h <> null -> faulty h = false ->
  get_bf h s = Some (balance_factor s h, s).
Proof.
  intros Hn Hf. unfold get_bf, get_balance_factor.
  rewrite (neq_null _ Hn), Hf. reflexivity.
Qed.

Lemma run_set_lt h v s :
  h <> null -> set_lt h v s = Some (tt, put_less h v s).
Proof. intros Hn. unfold set_lt, set_less. now rewrite (neq_null _ Hn). Qed.

Lemma run_set_gt h v s :
  h <> null -> set_gt h v s = Some (tt, put_greater h v s).
Proof. intros Hn. unfold set_gt, set_greater. now rewrite (neq_null _ Hn). Qed.

Lemma run_set_bf h v s :
  h <> null -> set_bf h v s = Some (tt, put_bf h v s).
Proof.
  intros Hn. unfold set_bf, set_balance_factor. now rewrite (neq_null _ Hn).
Qed.

Lemma run_read_error s : read_error s = Some (rd_err s, s).
Proof. reflexivity. Qed.

Lemma height_nonneg t : 0 <= height t.
Proof. induction t; cbn [height]; lia. Qed.

Lemma find_app {A} (P : A -> bool) (a b : list A) :
  find P (a ++ b) = match find P a with Some x => Some x | None => find P b end.
Proof.
  induction a as [|x a IH]; simpl; [reflexivity|].
  destruct (P x); [reflexivity | exact IH].
Qed.

Lemma find_none_iff {A} (P : A -> bool) (l : list A) :
  (forall x, In x l -> P x = false) -> find P l = None.
Proof.
  induction l as [|x l IH]; simpl; intros H; [reflexivity|].
  rewrite (H x (or_introl eq_refl)). apply IH. intros y Hy. apply H. now right.
Qed.

(** ** search *)

Lemma rev_handles_node l h b r :
  rev (handles (Node l h b r)) = rev (handles r) ++ h :: rev (handles l).
Proof.
  cbn [handles]. rewrite rev_app_distr. cbn [rev]. rewrite <- app_assoc.
  reflexivity.
Qed.

Lemma find_rev_none {A} (P : A -> bool) (l : list A) :
  (forall x, In x l -> P x = false) -> find P (rev l) = None.
Proof.
  intros H. apply find_none_iff. intros x Hx. apply H.
  now apply in_rev.
Qed.

Ltac fuel_pos fuel :=
  destruct fuel as [|fuel];
  [ exfalso;
    match goal with H : (height ?t < _)%Z |- _ =>
      pose proof (height_nonneg t); lia end
  | ].

(** Decide the integer tests left in the goal. *)
Ltac zbool :=
  repeat match goal with
  | |- context [?a <=? ?b] => destruct (Z.leb_spec a b); try lia
  | |- context [?a <? ?b] => destruct (Z.ltb_spec a b); try lia
  | |- context [?a =? ?b] => destruct (Z.eqb_spec a b); try lia
  end.

Lemma same_sign_vals :
  same_sign 1 1 = true /\ same_sign (-1) 1 = false /\
  same_sign 1 (-1) = false /\ same_sign (-1) (-1) = true.
Proof. repeat split; reflexivity. Qed.

(** Open direction [LESS]: the loop keeps the last node whose key is below
    (or, with [EQUAL], not above) [k]. *)
Lemma search_loop_less k st (P : handle -> bool) :
  (forall x, P x = if has_flag st EQUAL then key_of x <=? k
                   else key_of x <? k) ->
  forall t fuel m s,
    wf s t -> rd_err s = false -> bst t -> height t < Z.of_nat fuel ->
    search_loop fuel k st 1 (hd t) m s
    = Some (match find P (rev (handles t)) with Some y => y | None => m end, s).
Proof.
  intros HP. induction t as [|l IHl h b r IHr]; intros fuel m s Hwf He Hb Hf;
    fuel_pos fuel.
  - reflexivity.
  - cbn [wf] in Hwf. destruct Hwf as (Hn & Hfl & Hl & Hg & _ & Hwl & Hwr).
    cbn [bst] in Hb. destruct Hb as (Hlo & Hhi & Hbl & Hbr).
    cbn [height] in Hf.
    cbn [search_loop hd]. rewrite (neq_null _ Hn).
    rewrite rev_handles_node, find_app. cbn [find]. rewrite (HP h).
    unfold cmp_k_n, compare3.
    destruct (Z.ltb_spec k (key_of h)) as [Hlt|Hge].
    + (* k < key h: go less *)
      cbn. rewrite (run_bind _ _ _ _ _ (run_get_lt h s Hn Hfl)).
      rewrite (run_bind _ _ _ _ _ (run_read_error s)), He, Hl.
      rewrite IHl by (auto; lia).
      rewrite (find_rev_none P (handles r)).
      2:{ intros x Hx. rewrite HP. specialize (Hhi x Hx).
          destruct (has_flag st EQUAL); lia. }
      replace (if has_flag st EQUAL then key_of h <=? k else key_of h <? k)
        with false by (destruct (has_flag st EQUAL); lia).
      reflexivity.
    + destruct (Z.eqb_spec k (key_of h)) as [Heq|Hne].
      * (* k = key h *)
        rewrite (find_rev_none P (handles r)).
        2:{ intros x Hx. rewrite HP. specialize (Hhi x Hx).
            destruct (has_flag st EQUAL); lia. }
        destruct (has_flag st EQUAL) eqn:Eq.
        -- cbn. replace (key_of h <=? k) with true by lia. reflexivity.
        -- cbn. rewrite (run_bind _ _ _ _ _ (run_get_lt h s Hn Hfl)).
           rewrite (run_bind _ _ _ _ _ (run_read_error s)), He, Hl.
           rewrite IHl by (auto; lia).
           replace (key_of h <? k) with false by lia. reflexivity.
      * (* k > key h: candidate, go greater *)
        cbn. rewrite (run_bind _ _ _ _ _ (run_get_gt h s Hn Hfl)).
        rewrite (run_bind _ _ _ _ _ (run_read_error s)), He, Hg.
        rewrite IHr by (auto; lia).
        replace (if has_flag st EQUAL then key_of h <=? k else key_of h <? k)
          with true by (destruct (has_flag st EQUAL); lia).
        destruct (find P (rev (handles r))); reflexivity.
Qed.


(** Open direction [GREATER]: the loop keeps the first node whose key is
    above (or, with [EQUAL], not below) [k]. *)
Lemma search_loop_greater k st (P : handle -> bool) :
  has_flag st LESS = false ->
  (forall x, P x = if has_flag st EQUAL then k <=? key_of x
                   else k <? key_of x) ->
  forall t fuel m s,
    wf s t -> rd_err s = false -> bst t -> height t < Z.of_nat fuel ->
    search_loop fuel k st (-1) (hd t) m s
    = Some (match find P (handles t) with Some y => y | None => m end, s).
Proof.
  intros _ HP. induction t as [|l IHl h b r IHr]; intros fuel m s Hwf He Hb Hf;
    fuel_pos fuel.
  - reflexivity.
  - cbn [wf] in Hwf. destruct Hwf as (Hn & Hfl & Hl & Hg & _ & Hwl & Hwr).
    cbn [bst] in Hb. destruct Hb as (Hlo & Hhi & Hbl & Hbr).
    cbn [height] in Hf.
    cbn [search_loop hd]. rewrite (neq_null _ Hn).
    cbn [handles]. rewrite find_app. cbn [find]. rewrite (HP h).
    unfold cmp_k_n, compare3.
    destruct (Z.ltb_spec k (key_of h)) as [Hlt|Hge].
    + (* k < key h: candidate, go less *)
      cbn. rewrite (run_bind _ _ _ _ _ (run_get_lt h s Hn Hfl)).
      rewrite (run_bind _ _ _ _ _ (run_read_error s)), He, Hl.
      rewrite IHl by (auto; lia).
      destruct (find P (handles l)); [reflexivity|].
      destruct (has_flag st EQUAL); zbool; reflexivity.
    + rewrite (find_none_iff P (handles l)).
      2:{ intros x Hx. rewrite HP. specialize (Hlo x Hx).
          destruct (has_flag st EQUAL); lia. }
      destruct (Z.eqb_spec k (key_of h)) as [Heq|Hne].
      * destruct (has_flag st EQUAL) eqn:Eq.
        -- cbn. zbool. reflexivity.
        -- cbn. rewrite (run_bind _ _ _ _ _ (run_get_gt h s Hn Hfl)).
           rewrite (run_bind _ _ _ _ _ (run_read_error s)), He, Hg.
           rewrite IHr by (auto; lia). reflexivity.
      * cbn. rewrite (run_bind _ _ _ _ _ (run_get_gt h s Hn Hfl)).
        rewrite (run_bind _ _ _ _ _ (run_read_error s)), He, Hg.
        rewrite IHr by (auto; lia).
        destruct (has_flag st EQUAL); zbool; reflexivity.
Qed.

(** Mode [EQUAL] alone: only an exact match is returned. *)
Lemma search_loop_equal k :
  forall t fuel m s,
    wf s t -> rd_err s = false -> bst t -> height t < Z.of_nat fuel ->
    search_loop fuel k EQUAL 0 (hd t) m s
    = Some (match find (fun x => key_of x =? k) (handles t) with
            | Some y => y | None => m end, s).
Proof.
  induction t as [|l IHl h b r IHr]; intros fuel m s Hwf He Hb Hf;
    fuel_pos fuel.
  - reflexivity.
  - cbn [wf] in Hwf. destruct Hwf as (Hn & Hfl & Hl & Hg & _ & Hwl & Hwr).
    cbn [bst] in Hb. destruct Hb as (Hlo & Hhi & Hbl & Hbr).
    cbn [height] in Hf.
    cbn [search_loop hd]. rewrite (neq_null _ Hn).
    cbn [handles]. rewrite find_app. cbn [find].
    unfold cmp_k_n, compare3.
    destruct (Z.ltb_spec k (key_of h)) as [Hlt|Hge].
    + cbn. rewrite (run_bind _ _ _ _ _ (run_get_lt h s Hn Hfl)).
      rewrite (run_bind _ _ _ _ _ (run_read_error s)), He, Hl.
      rewrite IHl by (auto; lia).
      replace (key_of h =? k) with false by lia.
      rewrite (find_none_iff _ (handles r)).
      2:{ intros x Hx. specialize (Hhi x Hx). lia. }
      destruct (find _ (handles l)); reflexivity.
    + rewrite (find_none_iff _ (handles l)).
      2:{ intros x Hx. specialize (Hlo x Hx). lia. }
      destruct (Z.eqb_spec k (key_of h)) as [Heq|Hne].
      * cbn. replace (key_of h =? k) with true by lia. reflexivity.
      * cbn. rewrite (run_bind _ _ _ _ _ (run_get_gt h s Hn Hfl)).
        rewrite (run_bind _ _ _ _ _ (run_read_error s)), He, Hg.
        rewrite IHr by (auto; lia).
        replace (key_of h =? k) with false by lia. reflexivity.
Qed.

Lemma search_less_spec fuel k s t :
  Rep s t -> bst t -> height t < Z.of_nat fuel ->
  search fuel k LESS s
  = Some (rightmost (fun x => key_of x <? k) (handles t), s).
Proof.
  intros (Hr & Hwf & _ & He) Hb Hf. unfold search.
  rewrite (run_bind _ _ _ (root s) s eq_refl), Hr.
  change (target_of LESS) with 1.
  rewrite (search_loop_less k LESS (fun x => key_of x <? k)); auto.
Qed.

Lemma search_greater_spec fuel k s t :
  Rep s t -> bst t -> height t < Z.of_nat fuel ->
  search fuel k GREATER s
  = Some (leftmost (fun x => k <? key_of x) (handles t), s).
Proof.
  intros (Hr & Hwf & _ & He) Hb Hf. unfold search.
  rewrite (run_bind _ _ _ (root s) s eq_refl), Hr.
  change (target_of GREATER) with (-1).
  rewrite (search_loop_greater k GREATER (fun x => k <? key_of x)); auto.
Qed.

Lemma search_less_equal_spec fuel k s t :
  Rep s t -> bst t -> height t < Z.of_nat fuel ->
  search fuel k LESS_EQUAL s
  = Some (rightmost (fun x => key_of x <=? k) (handles t), s).
Proof.
  intros (Hr & Hwf & _ & He) Hb Hf. unfold search.
  rewrite (run_bind _ _ _ (root s) s eq_refl), Hr.
  change (target_of LESS_EQUAL) with 1.
  rewrite (search_loop_less k LESS_EQUAL (fun x => key_of x <=? k)); auto.
Qed.

Lemma search_greater_equal_spec fuel k s t :
  Rep s t -> bst t -> height t < Z.of_nat fuel ->
  search fuel k GREATER_EQUAL s
  = Some (leftmost (fun x => k <=? key_of x) (handles t), s).
Proof.
  intros (Hr & Hwf & _ & He) Hb Hf. unfold search.
  rewrite (run_bind _ _ _ (root s) s eq_refl), Hr.
  change (target_of GREATER_EQUAL) with (-1).
  rewrite (search_loop_greater k GREATER_EQUAL (fun x => k <=? key_of x));
    auto.
Qed.

Lemma search_equal_spec fuel k s t :
  Rep s t -> bst t -> height t < Z.of_nat fuel ->
  search fuel k EQUAL s
  = Some (leftmost (fun x => key_of x =? k) (handles t), s).
Proof.
  intros (Hr & Hwf & _ & He) Hb Hf. unfold search.
  rewrite (run_bind _ _ _ (root s) s eq_refl), Hr.
  change (target_of EQUAL) with 0.
  rewrite search_loop_equal; auto.
Qed.


(** Propositional closing step that leaves the section parameters alone. *)
Ltac ptauto := try clear max_depth; try clear key_of; try clear faulty; tauto.
Ltac pint :=
  try clear max_depth; try clear key_of; try clear faulty; intuition auto.

(** ** Stores and trees: frame lemmas *)

Lemma upd_same {A} (f : Z -> A) i v : upd f i v i = v.
Proof. unfold upd. now rewrite Z.eqb_refl. Qed.

Lemma upd_other {A} (f : Z -> A) i j v : j <> i -> upd f i v j = f j.
Proof. intros H. unfold upd. now rewrite (proj2 (Z.eqb_neq j i) H). Qed.

(** Two stores with the same node fields on the handles of a tree read the
    same tree. *)
Lemma wf_same s s' t :
  (forall x, In x (handles t) -> same_fields s s' x) -> wf s t -> wf s' t.
Proof.
  induction t as [|l IHl h b r IHr]; intros Hs Hwf; [exact I|].
  cbn [wf] in *. destruct Hwf as (Hn & Hf & Hl & Hg & Hb & Hwl & Hwr).
  destruct (Hs h) as (E1 & E2 & E3).
  { cbn [handles]. apply in_or_app. right. now left. }
  rewrite E1, E2, E3. repeat split; auto.
  - apply IHl; auto. intros x Hx. apply Hs. cbn [handles].
    apply in_or_app. now left.
  - apply IHr; auto. intros x Hx. apply Hs. cbn [handles].
    apply in_or_app. right. now right.
Qed.

Lemma same_put_less h v s x : x <> h -> same_fields s (put_less h v s) x.
Proof. intros H. repeat split; cbn. now apply upd_other. Qed.

Lemma same_put_greater h v s x : x <> h -> same_fields s (put_greater h v s) x.
Proof. intros H. repeat split; cbn. now apply upd_other. Qed.

Lemma same_put_bf h v s x : x <> h -> same_fields s (put_bf h v s) x.
Proof. intros H. repeat split; cbn. now apply upd_other. Qed.

Lemma not_in_neq (h : handle) l x : ~ In h l -> In x l -> x <> h.
Proof. intros H Hx ->. contradiction. Qed.

Lemma wf_put_less h v s t :
  ~ In h (handles t) -> wf s t -> wf (put_less h v s) t.
Proof.
  intros H. apply wf_same. intros x Hx. apply same_put_less.
  eapply not_in_neq; eauto.
Qed.

Lemma wf_put_greater h v s t :
  ~ In h (handles t) -> wf s t -> wf (put_greater h v s) t.
Proof.
  intros H. apply wf_same. intros x Hx. apply same_put_greater.
  eapply not_in_neq; eauto.
Qed.

Lemma wf_put_bf h v s t :
  ~ In h (handles t) -> wf s t -> wf (put_bf h v s) t.
Proof.
  intros H. apply wf_same. intros x Hx. apply same_put_bf.
  eapply not_in_neq; eauto.
Qed.

Lemma wf_put_root h s t : wf s t -> wf (put_root h s) t.
Proof. apply wf_same. intros x _. repeat split. Qed.

(** *** Plugging *)

Lemma handles_fill f t :
  handles (fill f t) = ctx_left [f] ++ handles t ++ ctx_right [f].
Proof.
  destruct f as [[[[] x] b] sib]; cbn [fill handles ctx_left ctx_right].
  - cbn. rewrite <- app_assoc, app_nil_r. reflexivity.
  - cbn. rewrite app_nil_r. reflexivity.
Qed.

Lemma handles_plug c : forall t,
  handles (plug c t) = ctx_left c ++ handles t ++ ctx_right c.
Proof.
  induction c as [|f c IH]; intros t.
  - cbn. now rewrite app_nil_r.
  - cbn [plug]. rewrite IH, handles_fill.
    destruct f as [[[[] x] b] sib]; cbn [ctx_left ctx_right];
      cbn [app]; repeat rewrite <- app_assoc; cbn [app];
      repeat rewrite app_nil_r; reflexivity.
Qed.

Lemma hd_fill f t : hd (fill f t) = f_node f.
Proof. destruct f as [[[[] x] b] sib]; reflexivity. Qed.

Lemma hd_plug c : forall t, hd (plug c t) = top_of c (hd t).
Proof.
  induction c as [|f c IH]; intros t; [reflexivity|].
  cbn [plug top_of]. rewrite IH, hd_fill. reflexivity.
Qed.

Lemma wf_fill s f t :
  wf s (fill f t) <-> wfc s [f] (hd t) /\ wf s t.
Proof.
  destruct f as [[[[] x] b] sib]; cbn [fill wf wfc]; ptauto.
Qed.

Lemma wf_plug s c : forall t,
  wf s (plug c t) <-> wfc s c (hd t) /\ wf s t.
Proof.
  induction c as [|f c IH]; intros t.
  - cbn. ptauto.
  - cbn [plug]. rewrite IH, wf_fill, hd_fill.
    destruct f as [[[[] x] b] sib]; cbn [wfc f_node fst snd]; ptauto.
Qed.

Lemma wfc_app s c1 c2 p :
  wfc s (c1 ++ c2) p <-> wfc s c1 p /\ wfc s c2 (top_of c1 p).
Proof.
  revert p. induction c1 as [|f c1 IH]; intros p.
  - cbn. ptauto.
  - cbn [app wfc top_of]. destruct f as [[[dir x] b] sib].
    rewrite IH. cbn [f_node fst snd]. ptauto.
Qed.

Lemma wfc_same s s' c : forall p,
  (forall x, In x (ctx_handles c) -> same_fields s s' x) ->
  wfc s c p -> wfc s' c p.
Proof.
  induction c as [|f c IH]; intros p Hs Hwf; [exact I|].
  destruct f as [[[dir x] b] sib]. cbn [wfc] in *.
  destruct Hwf as (Hn & Hf & Hl & Hb & Hws & Hwc).
  assert (Hx : In x (ctx_handles ((dir, x, b, sib) :: c))).
  { unfold ctx_handles. cbn [ctx_left ctx_right]. destruct dir.
    - apply in_or_app. left. apply in_or_app. right. apply in_or_app. right.
      now left.
    - apply in_or_app. right. now left. }
  destruct (Hs x Hx) as (E1 & E2 & E3). rewrite E1, E2, E3.
  repeat split; auto.
  - apply (wf_same s); auto. intros y Hy. apply Hs.
    unfold ctx_handles. cbn [ctx_left ctx_right]. destruct dir.
    + apply in_or_app. left. apply in_or_app. right. apply in_or_app.
      now left.
    + apply in_or_app. right. cbn. right. apply in_or_app. now left.
  - apply IH; auto. intros y Hy. apply Hs. unfold ctx_handles in *.
    cbn [ctx_left ctx_right]. apply in_app_or in Hy. destruct Hy as [Hy|Hy].
    + apply in_or_app. left. apply in_or_app. now left.
    + apply in_or_app. right. apply in_or_app. now right.
Qed.


(** ** Depth counters and branch bits *)

Lemma u32_small x : 0 <= x <= UNSIGNED_MAX -> u32 x = x.
Proof. unfold u32, UNSIGNED_MAX. intros H. apply Z.mod_small. lia. Qed.

Lemma run_bit_put b i v s :
  0 <= i < max_depth -> bit_put b i v s = Some (upd b i v, s).
Proof.
  intros H. unfold bit_put.
  replace ((0 <=? i) && (i <? max_depth)) with true; [reflexivity|].
  symmetry. apply andb_true_intro. split; [apply Z.leb_le | apply Z.ltb_lt]; lia.
Qed.

Lemma run_bit_get b i s :
  0 <= i < max_depth -> bit_get b i s = Some (b i, s).
Proof.
  intros H. unfold bit_get.
  replace ((0 <=? i) && (i <? max_depth)) with true; [reflexivity|].
  symmetry. apply andb_true_intro. split; [apply Z.leb_le | apply Z.ltb_lt]; lia.
Qed.

Lemma hd_nonnull s t : wf s t -> t <> Leaf -> hd t <> null.
Proof. destruct t; [congruence|]. cbn. intros (H & _) _. exact H. Qed.

Lemma hd_null_leaf s t : wf s t -> hd t = null -> t = Leaf.
Proof.
  destruct t; [reflexivity|]. cbn. intros (H & _) E. contradiction.
Qed.

Lemma in_keys x t : In x (handles t) -> In (key_of x) (keys t).
Proof. unfold keys. apply in_map. Qed.

(** ** remove: descent for an absent key *)

Lemma remove_find_absent k :
  max_depth <= UNSIGNED_MAX ->
  forall t fuel parent d branch csp s,
    wf s t -> rd_err s = false -> ~ In k (keys t) ->
    0 <= d -> d + height t <= max_depth -> height t < Z.of_nat fuel ->
    remove_find fuel k (hd t) parent d branch csp s = Some (Ret null, s).
Proof.
  intros Hmax.
  induction t as [|l IHl h b r IHr];
    intros fuel parent d branch csp s Hwf He Hk Hd Hdm Hf; fuel_pos fuel.
  - reflexivity.
  - cbn [wf] in Hwf. destruct Hwf as (Hn & Hfl & Hl & Hg & _ & Hwl & Hwr).
    cbn [height] in Hf, Hdm.
    pose proof (height_nonneg l). pose proof (height_nonneg r).
    assert (Hkh : k <> key_of h).
    { intros ->. apply Hk. apply in_keys. cbn [handles]. apply in_or_app.
      right. now left. }
    assert (Hkl : ~ In k (keys l)).
    { intros Hi. apply Hk. unfold keys in *. cbn [handles].
      rewrite map_app. apply in_or_app. now left. }
    assert (Hkr : ~ In k (keys r)).
    { intros Hi. apply Hk. unfold keys in *. cbn [handles].
      rewrite map_app. apply in_or_app. right. now right. }
    cbn [remove_find hd]. rewrite (neq_null _ Hn).
    unfold cmp_k_n, compare3.
    destruct (Z.ltb_spec k (key_of h)) as [Hlt|Hge].
    + cbn. rewrite (run_bind _ _ _ _ _ (run_get_lt h s Hn Hfl)).
      rewrite (run_bind _ _ _ _ _ (run_read_error s)), He, Hl.
      rewrite (run_bind _ _ _ _ _ (run_bit_put branch d false s ltac:(lia))).
      rewrite u32_small by lia. apply IHl; auto; lia.
    + destruct (Z.eqb_spec k (key_of h)) as [Heq|Hne]; [contradiction|].
      cbn. rewrite (run_bind _ _ _ _ _ (run_get_gt h s Hn Hfl)).
      rewrite (run_bind _ _ _ _ _ (run_read_error s)), He, Hg.
      rewrite (run_bind _ _ _ _ _ (run_bit_put branch d true s ltac:(lia))).
      rewrite u32_small by lia. apply IHr; auto; lia.
Qed.

(** C10: removing a key that no node of the tree carries returns null and
    leaves the store exactly as it was: no link, balance factor or root is
    written. *)
Theorem C10_remove_absent_key_unchanged fuel k s t :
  max_depth <= UNSIGNED_MAX ->
  Rep s t -> height t <= max_depth -> height t < Z.of_nat fuel ->
  ~ In k (keys t) ->
  remove fuel k s = Some (null, s).
Proof.
  intros Hmax (Hr & Hwf & _ & He) Hh Hf Hk.
  assert (Hu : remove_unlink fuel k s = Some (Ret null, s)).
  { unfold remove_unlink.
    rewrite (run_bind _ _ _ (root s) s eq_refl), Hr.
    rewrite (run_bind _ _ _ _ _
               (remove_find_absent k Hmax t fuel null 0 bset_new 0 s
                  Hwf He Hk ltac:(lia) ltac:(lia) Hf)).
    reflexivity. }
  unfold remove. rewrite (run_bind _ _ _ _ _ Hu). reflexivity.
Qed.


(** ** Running straight-line code *)

Lemma bind_get_bf {B} h (f : Z -> M B) s :
  h <> null -> faulty h = false ->
  bind (get_bf h) f s = f (balance_factor s h) s.
Proof. intros. apply run_bind. now apply run_get_bf. Qed.

Lemma bind_get_lt {B} h (f : handle -> M B) s :
  h <> null -> faulty h = false -> bind (get_lt h) f s = f (less s h) s.
Proof. intros. apply run_bind. now apply run_get_lt. Qed.

Lemma bind_get_gt {B} h (f : handle -> M B) s :
  h <> null -> faulty h = false -> bind (get_gt h) f s = f (greater s h) s.
Proof. intros. apply run_bind. now apply run_get_gt. Qed.

Lemma bind_get_lt_na {B} h (f : handle -> M B) s :
  h <> null -> faulty h = false -> bind (get_lt_na h) f s = f (less s h) s.
Proof. intros. apply run_bind. now apply run_get_lt. Qed.

Lemma bind_get_gt_na {B} h (f : handle -> M B) s :
  h <> null -> faulty h = false ->
  bind (get_gt_na h) f s = f (greater s h) s.
Proof. intros. apply run_bind. now apply run_get_gt. Qed.

Lemma bind_set_lt {B} h v (f : unit -> M B) s :
  h <> null -> bind (set_lt h v) f s = f tt (put_less h v s).
Proof. intros. apply run_bind. now apply run_set_lt. Qed.

Lemma bind_set_gt {B} h v (f : unit -> M B) s :
  h <> null -> bind (set_gt h v) f s = f tt (put_greater h v s).
Proof. intros. apply run_bind. now apply run_set_gt. Qed.

Lemma bind_set_bf {B} h v (f : unit -> M B) s :
  h <> null -> bind (set_bf h v) f s = f tt (put_bf h v s).
Proof. intros. apply run_bind. now apply run_set_bf. Qed.

Lemma bind_read_error {B} (f : bool -> M B) s :
  bind read_error f s = f (rd_err s) s.
Proof. reflexivity. Qed.

Lemma bind_get_root {B} (f : handle -> M B) s :
  bind get_root f s = f (root s) s.
Proof. reflexivity. Qed.

Lemma bind_set_root {B} h (f : unit -> M B) s :
  bind (set_root h) f s = f tt (put_root h s).
Proof. reflexivity. Qed.

Lemma bind_ret {A B} (a : A) (f : A -> M B) s : bind (ret a) f s = f a s.
Proof. reflexivity. Qed.

Lemma bind_bind {A B C} (c : M A) (f : A -> M B) (g : B -> M C) s :
  bind (bind c f) g s = bind c (fun a => bind (f a) g) s.
Proof. unfold bind. destruct (c s) as [[a s']|]; reflexivity. Qed.

Lemma bind_bit_put {B} b i v (f : bset -> M B) s :
  0 <= i < max_depth -> bind (bit_put b i v) f s = f (upd b i v) s.
Proof. intros. apply run_bind. now apply run_bit_put. Qed.

Lemma bind_bit_get {B} b i (f : bool -> M B) s :
  0 <= i < max_depth -> bind (bit_get b i) f s = f (b i) s.
Proof. intros. apply run_bind. now apply run_bit_get. Qed.

(** Projections of updated stores. *)
Ltac proj :=
  cbn [less greater balance_factor rd_err root
       put_less put_greater put_bf put_root raise_err].

(** One step of straight-line execution. *)
Ltac exec1 :=
  first
    [ rewrite bind_bind
    | rewrite bind_ret
    | rewrite bind_read_error
    | rewrite bind_get_root
    | rewrite bind_set_root
    | rewrite bind_get_bf by assumption
    | rewrite bind_get_lt by assumption
    | rewrite bind_get_gt by assumption
    | rewrite bind_get_lt_na by assumption
    | rewrite bind_get_gt_na by assumption
    | rewrite bind_set_lt by assumption
    | rewrite bind_set_gt by assumption
    | rewrite bind_set_bf by assumption ].

Ltac upd_eval :=
  repeat first [rewrite upd_same | rewrite upd_other by assumption].

Ltac exec := repeat (exec1; proj; upd_eval).


(** ** Distinct handles *)

Lemma NoDup_app_iff {A} (a b : list A) :
  NoDup (a ++ b) <->
  NoDup a /\ NoDup b /\ (forall x, In x a -> ~ In x b).
Proof.
  split.
  - intros H. split; [|split].
    + eapply NoDup_app_remove_r; eauto.
    + eapply NoDup_app_remove_l; eauto.
    + induction a as [|y a IH]; intros x Hx Hb; [contradiction|].
      cbn [app] in H. apply NoDup_cons_iff in H. destruct H as (Hy & Ha).
      destruct Hx as [->|Hx].
      * apply Hy. apply in_or_app. now right.
      * exact (IH Ha x Hx Hb).
  - intros (Ha & Hb & Hd). now apply NoDup_app.
Qed.

(** Break the [NoDup] facts in the context into their parts. *)
Ltac nd_prep :=
  cbn [handles] in *;
  repeat match goal with
  | H : NoDup (_ ++ _) |- _ =>
      apply NoDup_app_iff in H; destruct H as (? & ? & ?)
  | H : NoDup (_ :: _) |- _ =>
      apply NoDup_cons_iff in H; destruct H as (? & ?)
  | H : NoDup [] |- _ => clear H
  end.

Ltac nd_inst x :=
  repeat match goal with
  | H : forall a, In a _ -> ~ In a _ |- _ => specialize (H x)
  end.

Ltac nd_close :=
  repeat (progress (rewrite ?in_app_iff in *; cbn [In] in * ));
  try clear max_depth; try clear key_of; try clear faulty;
  solve [intuition (subst; try congruence)].

(** Solve [x <> y] or [~ In x l] from [NoDup] facts prepared by [nd_prep]. *)
Ltac nd_solve :=
  match goal with
  | |- ?x <> ?y =>
      let E := fresh in
      intro E;
      repeat match goal with
      | H : forall a, In a _ -> ~ In a _ |- _ =>
          pose proof (H x); specialize (H y)
      end;
      nd_close
  | |- ~ In ?x _ =>
      let E := fresh in
      intro E; nd_inst x; nd_close
  end.

Lemma nodup_double (a b1 b2 d : list handle) x y z :
  NoDup (a ++ x :: (b1 ++ z :: b2) ++ y :: d) ->
  x <> y /\ x <> z /\ y <> z /\ y <> x /\ z <> x /\ z <> y.
Proof.
  intros H. nd_prep. repeat split; nd_solve.
Qed.


(** ** balance *)

Ltac wf_split H :=
  cbn [wf] in H;
  let Hn := fresh "Hn" in let Hf := fresh "Hf" in
  let Hl := fresh "Hl" in let Hg := fresh "Hg" in
  let Hb := fresh "Hb" in let Hwl := fresh "Hwl" in let Hwr := fresh "Hwr" in
  destruct H as (Hn & Hf & Hl & Hg & Hb & Hwl & Hwr).

(** Membership in an explicit in-order list. *)
Ltac in_solve :=
  cbn [handles]; repeat (progress (rewrite ?in_app_iff; cbn [In]));
  auto 12.

(** Push a tree that the writes did not touch through the updated store. *)
Ltac wf_frame :=
  repeat lazymatch goal with
  | |- wf (put_root _ _) _ => apply wf_put_root
  | |- wf (put_less _ _ _) _ => apply wf_put_less; [nd_solve|]
  | |- wf (put_greater _ _ _) _ => apply wf_put_greater; [nd_solve|]
  | |- wf (put_bf _ _ _) _ => apply wf_put_bf; [nd_solve|]
  end;
  assumption.


(** Distinctness of a handle outside a list from three members of it. *)
Lemma outside3 (L : list handle) q x y z :
  ~ In q L -> In x L -> In y L -> In z L -> q <> x /\ q <> y /\ q <> z.
Proof. intros Hq Hx Hy Hz. repeat split; intros ->; contradiction. Qed.

Lemma outside2 (L : list handle) q x y :
  ~ In q L -> In x L -> In y L -> q <> x /\ q <> y.
Proof. intros Hq Hx Hy. repeat split; intros ->; contradiction. Qed.

Lemma nodup_single (a c d : list handle) x y :
  NoDup (a ++ x :: c ++ y :: d) -> x <> y /\ y <> x.
Proof. intros H. nd_prep. repeat split; nd_solve. Qed.

Ltac finish_double Hnd :=
  eexists; split; [reflexivity|]; split; [|split];
  [ cbn [wf hd]; proj; upd_eval; nd_prep; repeat split; auto; wf_frame
  | split; [reflexivity|]; intros q Hq; proj;
    match type of Hq with ~ In _ (handles (Node _ ?x _ (Node (Node _ ?z _ _) ?y _ _))) =>
      destruct (outside3 _ q x y z Hq) as (? & ? & ?); [in_solve ..|]
    | ~ In _ (handles (Node (Node _ ?y _ (Node _ ?z _ _)) ?x _ _)) =>
      destruct (outside3 _ q x y z Hq) as (? & ? & ?); [in_solve ..|]
    end;
    upd_eval; auto
  | reflexivity ].

Ltac finish_single Hnd :=
  eexists; split; [reflexivity|]; split; [|split];
  [ cbn [wf hd]; proj; upd_eval; nd_prep; repeat split; auto; wf_frame
  | split; [reflexivity|]; intros q Hq; proj;
    match type of Hq with ~ In _ (handles (Node _ ?x _ (Node _ ?y _ _))) =>
      destruct (outside2 _ q x y Hq) as (? & ?); [in_solve ..|]
    | ~ In _ (handles (Node (Node _ ?y _ _) ?x _ _)) =>
      destruct (outside2 _ q x y Hq) as (? & ?); [in_solve ..|]
    end;
    upd_eval; auto
  | reflexivity ].

Ltac neqs3 Hnd x y z :=
  assert (x <> y /\ x <> z /\ y <> z /\ y <> x /\ z <> x /\ z <> y)
    as (? & ? & ? & ? & ? & ?)
    by (clear - Hnd; nd_prep; repeat split; nd_solve).

Ltac neqs2 Hnd x y :=
  assert (x <> y /\ y <> x) as (? & ?)
    by (clear - Hnd; nd_prep; repeat split; nd_solve).

Lemma balance_correct s t :
  wf s t -> NoDup (handles t) -> rd_err s = false -> rotatable t ->
  exists s', balance (hd t) s = Some (hd (balance_t t), s') /\
             wf s' (balance_t t) /\ frame_eq (handles t) s s' /\
             root s' = root s.
Proof.
  intros Hwf Hnd He Hrot.
  destruct t as [|a x bx c]; [contradiction|].
  cbn [rotatable] in Hrot. wf_split Hwf. unfold balance. cbn [hd balance_t].
  exec. rewrite Hb.
  destruct (Z.ltb_spec 0 bx) as [Hpos|Hneg].
  - destruct c as [|b y by_ d]; [contradiction|].
    wf_split Hwr. exec. rewrite He, Hg. cbn [hd]. exec. rewrite Hb0.
    destruct (Z.ltb_spec by_ 0) as [Hyn|Hyp].
    + destruct b as [|b1 z bz b2]; [congruence|].
      wf_split Hwl0. exec. rewrite He, Hl0. cbn [hd]. exec.
      neqs3 Hnd x y z. rewrite Hb1.
      destruct (Z.eqb_spec bz 0) as [Hz|Hz]; cbn [negb].
      * exec. finish_double Hnd.
      * destruct (Z.ltb_spec 0 bz); exec; finish_double Hnd.
    + neqs2 Hnd x y. exec. rewrite Hb0.
      destruct (Z.eqb_spec by_ 0); exec; finish_single Hnd.
  - destruct a as [|d y by_ b]; [contradiction|].
    wf_split Hwl. exec. rewrite He, Hl. cbn [hd]. exec. rewrite Hb0.
    destruct (Z.ltb_spec 0 by_) as [Hyp|Hyn].
    + destruct b as [|b1 z bz b2]; [congruence|].
      wf_split Hwr0. exec. rewrite He, Hg0. cbn [hd]. exec.
      neqs3 Hnd x y z. rewrite Hb1.
      destruct (Z.eqb_spec bz 0) as [Hz|Hz]; cbn [negb].
      * exec. finish_double Hnd.
      * destruct (Z.ltb_spec bz 0); exec; finish_double Hnd.
    + neqs2 Hnd x y. exec. rewrite Hb0.
      destruct (Z.eqb_spec by_ 0); exec; finish_single Hnd.
Qed.



(** *** balance on trees: order, shape and heights *)

Lemma handles_balance_t t : handles (balance_t t) = handles t.
Proof.
  destruct t as [|a x bx c]; [reflexivity|]. cbn [balance_t].
  destruct (0 <? bx).
  - destruct c as [|b y by_ d]; [reflexivity|].
    destruct (by_ <? 0).
    + destruct b as [|b1 z bz b2]; [reflexivity|].
      destruct (negb (bz =? 0)); [destruct (0 <? bz)|];
        cbn [handles]; repeat rewrite <- app_assoc; cbn [app];
        repeat rewrite <- app_assoc; reflexivity.
    + destruct (by_ =? 0); cbn [handles]; repeat rewrite <- app_assoc;
        reflexivity.
  - destruct a as [|d y by_ b]; [reflexivity|].
    destruct (0 <? by_).
    + destruct b as [|b1 z bz b2]; [reflexivity|].
      destruct (negb (bz =? 0)); [destruct (bz <? 0)|];
        cbn [handles]; repeat rewrite <- app_assoc; cbn [app];
        repeat rewrite <- app_assoc; reflexivity.
    + destruct (by_ =? 0); cbn [handles]; repeat rewrite <- app_assoc;
        reflexivity.
Qed.

Ltac hpos :=
  repeat match goal with
  | |- context [height ?t] =>
      lazymatch goal with
      | H : 0 <= height t |- _ => fail
      | _ => pose proof (height_nonneg t)
      end
  | H : context [height ?t] |- _ =>
      lazymatch goal with
      | H : 0 <= height t |- _ => fail
      | _ => pose proof (height_nonneg t)
      end
  end.

(** Greater side two levels deeper. *)
Lemma balance_t_greater a x bx c :
  avl a -> avl c -> height c = height a + 2 -> 0 < bx ->
  rotatable (Node a x bx c) /\
  avl (balance_t (Node a x bx c)) /\
  height (balance_t (Node a x bx c))
    = (if bf_of c =? 0 then height c + 1 else height c) /\
  (bf_of (balance_t (Node a x bx c)) =? 0) = negb (bf_of c =? 0).
Proof.
  intros Ha Hc Hh Hpos. cbn [balance_t rotatable].
  replace (0 <? bx) with true by lia.
  destruct c as [|b y by_ d].
  { cbn [height] in Hh. hpos. lia. }
  cbn [avl height bf_of] in *. destruct Hc as (Hby & Hr & Hb & Hd).
  destruct (Z.ltb_spec by_ 0) as [Hn|Hp].
  - destruct b as [|b1 z bz b2].
    { cbn [height] in *. hpos. lia. }
    cbn [avl height] in *. destruct Hb as (Hbz & Hrz & Hb1 & Hb2).
    split; [congruence|].
    hpos.
    destruct (Z.eqb_spec bz 0) as [Hz|Hz]; cbn [negb];
      [|destruct (Z.ltb_spec 0 bz)];
      cbn [avl height bf_of]; zbool; repeat split; auto; try lia.
  - split; [exact I|]. hpos.
    destruct (Z.eqb_spec by_ 0) as [Hz|Hz];
      cbn [avl height bf_of]; zbool; repeat split; auto; try lia.
Qed.

(** Less side two levels deeper. *)
Lemma balance_t_less a x bx c :
  avl a -> avl c -> height a = height c + 2 -> bx <= 0 ->
  rotatable (Node a x bx c) /\
  avl (balance_t (Node a x bx c)) /\
  height (balance_t (Node a x bx c))
    = (if bf_of a =? 0 then height a + 1 else height a) /\
  (bf_of (balance_t (Node a x bx c)) =? 0) = negb (bf_of a =? 0).
Proof.
  intros Ha Hc Hh Hneg. cbn [balance_t rotatable].
  replace (0 <? bx) with false by lia.
  destruct a as [|d y by_ b].
  { cbn [height] in Hh. hpos. lia. }
  cbn [avl height bf_of] in *. destruct Ha as (Hby & Hr & Hd & Hb).
  destruct (Z.ltb_spec 0 by_) as [Hp|Hn].
  - destruct b as [|b1 z bz b2].
    { cbn [height] in *. hpos. lia. }
    cbn [avl height] in *. destruct Hb as (Hbz & Hrz & Hb1 & Hb2).
    split; [congruence|].
    hpos.
    destruct (Z.eqb_spec bz 0) as [Hz|Hz]; cbn [negb];
      [|destruct (Z.ltb_spec bz 0)];
      cbn [avl height bf_of]; zbool; repeat split; auto; try lia.
  - split; [exact I|]. hpos.
    destruct (Z.eqb_spec by_ 0) as [Hz|Hz];
      cbn [avl height bf_of]; zbool; repeat split; auto; try lia.
Qed.


(** ** insert: the descent *)

Lemma ins_ctx_plug k : forall t acc,
  plug (ins_ctx k t acc) Leaf = plug acc t.
Proof.
  induction t as [|l IHl x b r IHr]; intros acc; [reflexivity|].
  cbn [ins_ctx]. destruct (k <? key_of x); [rewrite IHl | rewrite IHr];
    reflexivity.
Qed.

Lemma not_in_keys_node k l x b r :
  ~ In k (keys (Node l x b r)) ->
  k <> key_of x /\ ~ In k (keys l) /\ ~ In k (keys r).
Proof.
  unfold keys. cbn [handles]. rewrite map_app. cbn [map].
  intros H. repeat split; intro E; apply H; apply in_or_app.
  - right. left. now symmetry.
  - now left.
  - right. now right.
Qed.

Lemma insert_descend_fresh h :
  max_depth <= UNSIGNED_MAX ->
  forall t acc fuel s,
    t <> Leaf -> wf s t -> rd_err s = false ->
    ~ In (key_of h) (keys t) ->
    Z.of_nat (length acc) + height t <= max_depth ->
    height t <= Z.of_nat fuel ->
    insert_descend fuel h (hd t) (parent_of acc) (Z.of_nat (length acc))
      (bits_of acc) (fst (fst (last_unbal acc))) (snd (fst (last_unbal acc)))
      (snd (last_unbal acc)) s
    = let c := ins_ctx (key_of h) t acc in
      Some (Go (parent_of c, last_cmp c, bits_of c,
                fst (fst (last_unbal c)), snd (fst (last_unbal c)),
                snd (last_unbal c)), s).
Proof.
  intros Hmax.
  induction t as [|l IHl x b r IHr]; intros acc fuel s Hne Hwf He Hk Hd Hf;
    [congruence|].
  wf_split Hwf. cbn [height] in Hd, Hf.
  pose proof (height_nonneg l). pose proof (height_nonneg r).
  destruct fuel as [|fuel]; [lia|].
  apply not_in_keys_node in Hk. destruct Hk as (Hkx & Hkl & Hkr).
  cbn [insert_descend hd]. exec. rewrite Hb.
  unfold cmp_n_n, compare3. cbn [ins_ctx].
  destruct (Z.ltb_spec (key_of h) (key_of x)) as [Hlt|Hge].
  - cbn. exec. rewrite He.
    rewrite bind_bit_put by lia. rewrite u32_small by lia.
    destruct l as [|ll lx lb lr].
    + cbn [hd]. rewrite Hl. cbn. destruct (negb (b =? 0)); reflexivity.
    + rewrite Hl. pose proof Hwl as Hwl'. wf_split Hwl'. cbn [hd]. rewrite (neq_null _ Hn0). cbn [negb].
      specialize (IHl ((false, x, b, r) :: acc) fuel s).
      cbn [parent_of f_node fst snd length bits_of last_unbal hd] in IHl.
      replace (Z.of_nat (length acc) + 1) with (Z.of_nat (S (length acc)))
        by lia.
      destruct (negb (b =? 0)); cbn [fst snd] in *; apply IHl; auto;
        try congruence; cbn [wf]; auto; try lia.
  - destruct (Z.eqb_spec (key_of h) (key_of x)) as [Heq|Hne']; [congruence|].
    cbn. exec. rewrite He.
    rewrite bind_bit_put by lia. rewrite u32_small by lia.
    destruct r as [|rl rx rb rr].
    + cbn [hd]. rewrite Hg. cbn. destruct (negb (b =? 0)); reflexivity.
    + rewrite Hg. pose proof Hwr as Hwr'. wf_split Hwr'. cbn [hd]. rewrite (neq_null _ Hn0). cbn [negb].
      specialize (IHr ((true, x, b, l) :: acc) fuel s).
      cbn [parent_of f_node fst snd length bits_of last_unbal hd] in IHr.
      replace (Z.of_nat (length acc) + 1) with (Z.of_nat (S (length acc)))
        by lia.
      destruct (negb (b =? 0)); cbn [fst snd] in *; apply IHr; auto;
        try congruence; cbn [wf]; auto; try lia.
Qed.

(** ** Contexts: bookkeeping *)

Lemma plug_app c1 c2 t : plug (c1 ++ c2) t = plug c2 (plug c1 t).
Proof.
  revert t. induction c1 as [|f c1 IH]; intros t; [reflexivity|].
  cbn [app plug]. apply IH.
Qed.

Lemma mark_length c : length (mark c) = length c.
Proof. unfold mark. apply length_map. Qed.

Lemma mark_nodes c : map f_node (mark c) = map f_node c.
Proof.
  unfold mark. rewrite map_map. apply map_ext.
  intros [[[dir x] b] sib]. reflexivity.
Qed.

Lemma mark_left c : ctx_left (mark c) = ctx_left c.
Proof.
  induction c as [|[[[dir x] b] sib] c IH]; [reflexivity|].
  cbn [mark map mark_frame ctx_left]. fold (mark c). now rewrite IH.
Qed.

Lemma mark_right c : ctx_right (mark c) = ctx_right c.
Proof.
  induction c as [|[[[dir x] b] sib] c IH]; [reflexivity|].
  cbn [mark map mark_frame ctx_right]. fold (mark c). now rewrite IH.
Qed.

Lemma mark_top c p : top_of (mark c) p = top_of c p.
Proof.
  revert p. induction c as [|[[[dir x] b] sib] c IH]; intros p; [reflexivity|].
  cbn [mark map mark_frame top_of]. fold (mark c). now rewrite IH.
Qed.

Lemma handles_plug_mark c t : handles (plug (mark c) t) = handles (plug c t).
Proof. now rewrite !handles_plug, mark_left, mark_right. Qed.

Lemma hd_plug_mark c t : hd (plug (mark c) t) = hd (plug c t).
Proof. now rewrite !hd_plug, mark_top. Qed.

Lemma in_ctx_nodes c x : In x (map f_node c) -> In x (ctx_handles c).
Proof.
  unfold ctx_handles.
  induction c as [|[[[dir y] b] sib] c IH]; cbn [map In]; [intros []|].
  cbn [f_node fst snd ctx_left ctx_right]. intros [->|H].
  - destruct dir; rewrite ?in_app_iff; cbn [In]; rewrite ?in_app_iff;
      cbn [In]; auto 8.
  - specialize (IH H). rewrite in_app_iff in IH.
    rewrite !in_app_iff. destruct IH; auto.
Qed.

Lemma in_plug_ctx c t x : In x (ctx_handles c) -> In x (handles (plug c t)).
Proof.
  rewrite handles_plug. unfold ctx_handles. rewrite !in_app_iff.
  intros [H|H]; auto.
Qed.

Lemma in_plug_hole c t x : In x (handles t) -> In x (handles (plug c t)).
Proof. rewrite handles_plug, !in_app_iff. auto. Qed.

Lemma nodup_plug c t :
  NoDup (handles (plug c t)) ->
  NoDup (handles t) /\ NoDup (ctx_handles c) /\
  (forall x, In x (handles t) -> ~ In x (ctx_handles c)).
Proof.
  rewrite handles_plug. unfold ctx_handles. intros H.
  apply NoDup_app_iff in H. destruct H as (Hl & H & Hd).
  apply NoDup_app_iff in H. destruct H as (Ht & Hr & Hd').
  repeat split; auto.
  - apply NoDup_app_iff. repeat split; auto.
    intros x Hx Hx'. apply (Hd x Hx). apply in_or_app. now right.
  - intros x Hx Hc. apply in_app_or in Hc. destruct Hc as [Hc|Hc].
    + apply (Hd x Hc). apply in_or_app. now left.
    + exact (Hd' x Hx Hc).
Qed.

(** Bit [i] of [bits_of c] is the branch of the [i]-th frame from the
    root. *)
Lemma bits_of_nth c : forall i f,
  nth_error (rev c) i = Some f -> bits_of c (Z.of_nat i) = f_dir f.
Proof.
  induction c as [|[[[dir x] b] sib] c IH]; intros i f Hi.
  - destruct i; discriminate.
  - cbn [rev] in Hi. cbn [bits_of].
    destruct (Nat.lt_ge_cases i (length (rev c))) as [Hlt|Hge].
    + rewrite nth_error_app1 in Hi by exact Hlt.
      rewrite length_rev in Hlt. rewrite upd_other by lia. now apply IH.
    + rewrite nth_error_app2 in Hi by exact Hge.
      destruct (i - length (rev c))%nat as [|n] eqn:E.
      * cbn in Hi. inversion Hi; subst f. rewrite length_rev in *.
        replace i with (length c) by lia. now rewrite upd_same.
      * cbn in Hi. destruct n; discriminate.
Qed.

(** ** insert: the marking loop *)

Lemma frame_eq_refl L s : frame_eq L s s.
Proof. split; [reflexivity|]. intros; auto. Qed.

Lemma frame_eq_trans L s1 s2 s3 :
  frame_eq L s1 s2 -> frame_eq L s2 s3 -> frame_eq L s1 s3.
Proof.
  intros (E1 & H1) (E2 & H2). split; [congruence|].
  intros x Hx. destruct (H1 x Hx) as (A1 & A2 & A3).
  destruct (H2 x Hx) as (B1 & B2 & B3). repeat split; congruence.
Qed.

Lemma frame_eq_weaken L L' s s' :
  (forall x, In x L -> In x L') -> frame_eq L s s' -> frame_eq L' s s'.
Proof. intros Hi (E & H). split; [exact E|]. intros x Hx. apply H. auto. Qed.

Lemma wf_frame_eq L s s' t :
  frame_eq L s s' -> (forall x, In x (handles t) -> ~ In x L) ->
  wf s t -> wf s' t.
Proof.
  intros (_ & H) Hd. apply wf_same. intros x Hx. apply H. now apply Hd.
Qed.

Lemma wfc_frame_eq L s s' c p :
  frame_eq L s s' -> (forall x, In x (ctx_handles c) -> ~ In x L) ->
  wfc s c p -> wfc s' c p.
Proof.
  intros (_ & H) Hd. apply wfc_same. intros x Hx. apply H. now apply Hd.
Qed.

Lemma insert_mark_correct h branch :
  max_depth <= UNSIGNED_MAX -> h <> null ->
  forall lo fuel d s,
    wf s (plug lo (Node Leaf h 0 Leaf)) ->
    NoDup (handles (plug lo (Node Leaf h 0 Leaf))) ->
    rd_err s = false ->
    (forall i f, nth_error (rev lo) i = Some f ->
                 branch (d + Z.of_nat i) = f_dir f) ->
    0 <= d -> d + Z.of_nat (length lo) <= max_depth ->
    (length lo < fuel)%nat ->
    exists s',
      insert_mark fuel h (hd (plug lo (Node Leaf h 0 Leaf))) d branch s
      = Some (Go tt, s') /\
      wf s' (plug (mark lo) (Node Leaf h 0 Leaf)) /\
      frame_eq (map f_node lo) s s' /\ root s' = root s /\
      less s' = less s /\ greater s' = greater s.
Proof.
  intros Hmax Hh.
  induction lo as [|f lo IH] using rev_ind; intros fuel d s Hwf Hnd He Hbr Hd Hdm Hf.
  - destruct fuel as [|fuel]; [cbn in Hf; lia|].
    cbn [plug hd insert_mark]. rewrite Z.eqb_refl.
    exists s. split; [reflexivity|]. split; [exact Hwf|].
    split; [apply frame_eq_refl|]. auto.
  - destruct fuel as [|fuel]; [cbn in Hf; lia|].
    rewrite length_app in Hdm, Hf. cbn [length] in Hdm, Hf.
    rewrite plug_app in *. cbn [plug] in *.
    set (N := Node Leaf h 0 Leaf) in *.
    destruct f as [[[dir x] b] sib].
    assert (Hbit : branch d = dir).
    { specialize (Hbr 0%nat (dir, x, b, sib)). rewrite rev_app_distr in Hbr.
      cbn in Hbr. rewrite Z.add_0_r in Hbr. now apply Hbr. }
    assert (Hbr' : forall i f, nth_error (rev lo) i = Some f ->
                     branch (d + 1 + Z.of_nat i) = f_dir f).
    { intros i f Hi. specialize (Hbr (S i) f). rewrite rev_app_distr in Hbr.
      cbn [rev app nth_error] in Hbr.
      replace (d + 1 + Z.of_nat i) with (d + Z.of_nat (S i)) by lia.
      now apply Hbr. }
    assert (Hhin : In h (handles (plug lo N))).
    { apply in_plug_hole. subst N. cbn. auto. }
    assert (Hx : ~ In x (handles (plug lo N)) /\
                 (forall y, In y (handles sib) ->
                    ~ In y (handles (plug lo N)) /\ y <> x)).
    { clear - Hnd. destruct dir; cbn [fill handles] in Hnd; nd_prep.
      - split; [nd_solve|]. intros y Hy. split; nd_solve.
      - split; [nd_solve|]. intros y Hy. split; nd_solve. }
    destruct Hx as (Hxn & Hsib).
    assert (Hhx : h <> x) by (intros ->; contradiction).
    assert (Hnd' : NoDup (handles (plug lo N))).
    { clear - Hnd. destruct dir; cbn [fill handles] in Hnd; nd_prep; auto. }
    rewrite hd_fill. cbn [f_node fst snd insert_mark].
    rewrite (proj2 (Z.eqb_neq h x) Hhx).
    rewrite bind_bit_get by lia. rewrite Hbit. rewrite u32_small by lia.
    assert (Hsub : exists s1 v,
      v = dir_of dir /\ s1 = put_bf x v s /\ x <> null /\ faulty x = false /\
      (if dir then greater s x = hd (plug lo N) /\ less s x = hd sib
       else less s x = hd (plug lo N) /\ greater s x = hd sib) /\
      wf s sib /\ wf s (plug lo N)).
    { exists (put_bf x (dir_of dir) s), (dir_of dir).
      destruct dir; cbn [fill] in Hwf; wf_split Hwf; repeat split; auto. }
    destruct Hsub as (s1 & v & Hv & Hs1 & Hxnn & Hxf & Hlinks & Hwsib & Hwsub).
    destruct (IH fuel (d + 1) s1) as (s' & Hrun & Hwf' & Hfr & Hroot & Hls & Hgs);
      auto; try lia.
    { subst s1. apply wf_put_bf; auto. }
    { subst s1. exact He. }
    exists s'. 
    split.
    { destruct dir; cbn [dir_of Z.ltb Z.compare]; exec; rewrite He;
        destruct Hlinks as (E1 & E2); rewrite E1;
        subst s1 v; exact Hrun. }
    assert (Hxlo : ~ In x (map f_node lo)).
    { intros Hi. apply Hxn. apply in_plug_ctx. now apply in_ctx_nodes. }
    destruct Hfr as (Hfe & Hfr).
    destruct (Hfr x Hxlo) as (F1 & F2 & F3).
    split; [|split; [|split; [|split]]].
    + unfold mark. rewrite map_app. cbn [map mark_frame]. fold (mark lo).
      rewrite plug_app. cbn [plug].
      apply wf_fill. split; [|exact Hwf'].
      cbn [wfc]. rewrite hd_plug_mark. rewrite F1, F2, F3. subst s1 v.
      proj. rewrite upd_same.
      repeat split; auto.
      apply (wf_same s); auto. intros y Hy.
      destruct (Hsib y Hy) as (Hy1 & Hy2).
      assert (Hylo : ~ In y (map f_node lo)).
      { intros Hi. apply Hy1. apply in_plug_ctx. now apply in_ctx_nodes. }
      destruct (Hfr y Hylo) as (G1 & G2 & G3). unfold same_fields.
      rewrite G1, G2, G3. proj. rewrite upd_other by auto. auto.
    + split; [subst s1; rewrite Hfe; reflexivity|].
      intros y Hy. rewrite map_app, in_app_iff in Hy. cbn [map In f_node fst snd] in Hy.
      assert (Hylo : ~ In y (map f_node lo)) by (intro; apply Hy; auto).
      assert (Hyx : y <> x) by (intros ->; apply Hy; auto).
      destruct (Hfr y Hylo) as (G1 & G2 & G3).
      rewrite G1, G2, G3. subst s1. proj. rewrite upd_other by auto. auto.
    + subst s1. rewrite Hroot. reflexivity.
    + subst s1. rewrite Hls. reflexivity.
    + subst s1. rewrite Hgs. reflexivity.
Qed.

(** ** Changing what hangs in the hole *)

Lemma wf_put_link dir h v s t :
  ~ In h (handles t) -> wf s t -> wf (put_link dir h v s) t.
Proof.
  destruct dir; cbn [put_link]; [apply wf_put_greater | apply wf_put_less].
Qed.

Lemma wfc_put_link dir h v s c p :
  ~ In h (ctx_handles c) -> wfc s c p -> wfc (put_link dir h v s) c p.
Proof.
  intros H. apply wfc_same. intros x Hx.
  assert (x <> h) by (intros ->; contradiction).
  destruct dir; cbn [put_link];
    [apply same_put_greater | apply same_put_less]; auto.
Qed.

Lemma nodup_ctx_cons dir x b sib c :
  NoDup (ctx_handles ((dir, x, b, sib) :: c)) ->
  ~ In x (handles sib) /\ ~ In x (ctx_handles c) /\
  NoDup (handles sib) /\ NoDup (ctx_handles c) /\
  (forall y, In y (handles sib) -> ~ In y (ctx_handles c)).
Proof.
  unfold ctx_handles. cbn [ctx_left ctx_right]. intros H.
  destruct dir; nd_prep.
  - split; [nd_solve|]. split; [nd_solve|]. split; [assumption|].
    split.
    + apply NoDup_app_iff. repeat split; auto. intros y Hy. nd_solve.
    + intros y Hy. nd_solve.
  - split; [nd_solve|]. split; [nd_solve|]. split; [assumption|].
    split.
    + apply NoDup_app_iff. repeat split; auto. intros y Hy. nd_solve.
    + intros y Hy. nd_solve.
Qed.

(** Re-pointing the parent of the hole. *)
Lemma wfc_rehole s dir x b sib c p q :
  wfc s ((dir, x, b, sib) :: c) p ->
  NoDup (ctx_handles ((dir, x, b, sib) :: c)) ->
  wfc (put_link dir x q s) ((dir, x, b, sib) :: c) q.
Proof.
  intros Hw Hnd. apply nodup_ctx_cons in Hnd.
  destruct Hnd as (Hxs & Hxc & _ & _ & _).
  cbn [wfc] in *. destruct Hw as (Hn & Hf & Hl & Hb & Hws & Hwc).
  repeat split; auto.
  - destruct dir; cbn [put_link]; proj; rewrite ?upd_same;
      destruct Hl; split; auto.
  - destruct dir; cbn [put_link]; proj; auto.
  - now apply wf_put_link.
  - now apply wfc_put_link.
Qed.

Lemma top_of_cons f c p q : top_of (f :: c) p = top_of (f :: c) q.
Proof. reflexivity. Qed.

Lemma top_of_nonempty c p q : c <> [] -> top_of c p = top_of c q.
Proof. destruct c; [congruence|]. reflexivity. Qed.

(** Swapping the subtree in the hole for one with the same root handle. *)
Lemma wf_plug_replace s s' c t t' L :
  wf s (plug c t) -> frame_eq L s s' ->
  (forall x, In x (ctx_handles c) -> ~ In x L) ->
  wf s' t' -> hd t' = hd t -> wf s' (plug c t').
Proof.
  intros Hw Hfr Hd Hw' Hhd. apply wf_plug in Hw. destruct Hw as (Hc & _).
  apply wf_plug. split; [|exact Hw']. rewrite Hhd.
  eapply wfc_frame_eq; eauto.
Qed.

(** ** insert: putting the phases together *)

Lemma split_unbal_spec c :
  c = fst (split_unbal c) ++ snd (split_unbal c) /\
  match snd (split_unbal c) with
  | [] => last_unbal c = (null, null, 0)
  | (dir, x, b, sib) :: up' =>
      (b =? 0) = false /\
      last_unbal c = (x, parent_of up', Z.of_nat (length up'))
  end.
Proof.
  induction c as [|[[[dir x] b] sib] c IH]; [cbn; auto|].
  cbn [split_unbal last_unbal].
  destruct (b =? 0) eqn:Eb; cbn [negb].
  - destruct (split_unbal c) as [lo up]. cbn [fst snd] in *.
    destruct IH as (IH1 & IH2). split; [cbn; congruence|exact IH2].
  - cbn [fst snd app]. auto.
Qed.

Lemma ins_ctx_nonempty k t acc : t <> Leaf -> ins_ctx k t acc <> [].
Proof.
  revert acc. induction t as [|l IHl x b r IHr]; intros acc Hne; [congruence|].
  cbn [ins_ctx]. destruct (k <? key_of x).
  - destruct l; [cbn; discriminate|]. apply IHl. discriminate.
  - destruct r; [cbn; discriminate|]. apply IHr. discriminate.
Qed.

Lemma handles_ins_ctx k t :
  handles t = ctx_left (ins_ctx k t []) ++ ctx_right (ins_ctx k t []).
Proof.
  rewrite <- (ins_ctx_plug k t []) at 1. rewrite handles_plug. reflexivity.
Qed.

Lemma ctx_left_app c1 c2 : ctx_left (c1 ++ c2) = ctx_left c2 ++ ctx_left c1.
Proof.
  induction c1 as [|[[[d x] b] sib] c1 IH]; cbn [app ctx_left].
  - now rewrite app_nil_r.
  - rewrite IH. now rewrite app_assoc.
Qed.

Lemma ctx_right_app c1 c2 :
  ctx_right (c1 ++ c2) = ctx_right c1 ++ ctx_right c2.
Proof.
  induction c1 as [|[[[d x] b] sib] c1 IH]; cbn [app ctx_right].
  - reflexivity.
  - rewrite IH. now rewrite app_assoc.
Qed.

Lemma handles_ins_tree h t :
  handles (ins_tree h t)
  = ctx_left (ins_ctx (key_of h) t []) ++ h :: ctx_right (ins_ctx (key_of h) t []).
Proof.
  unfold ins_tree.
  destruct (split_unbal_spec (ins_ctx (key_of h) t [])) as (Hc & _).
  destruct (split_unbal (ins_ctx (key_of h) t [])) as [lo up].
  cbn [fst snd] in Hc. rewrite Hc.
  destruct up as [|[[[dir x] b] sib] up'].
  - rewrite app_nil_r, handles_plug_mark, handles_plug. reflexivity.
  - assert (E : forall tt b0,
       handles tt = handles (fill (dir, x, b0, sib)
                      (plug lo (Node Leaf h 0 Leaf))) ->
       handles (plug up' tt)
       = ctx_left (lo ++ (dir, x, b, sib) :: up') ++
         h :: ctx_right (lo ++ (dir, x, b, sib) :: up')).
    { intros tt b0 E. rewrite handles_plug, E, handles_fill, handles_plug.
      rewrite ctx_left_app, ctx_right_app. cbn [ctx_left ctx_right handles].
      repeat rewrite <- app_assoc. cbn [app]. reflexivity. }
    destruct ((b + dir_of dir =? -2) || (b + dir_of dir =? 2)).
    + apply (E _ b). rewrite handles_balance_t.
      destruct dir; cbn [fill handles]; now rewrite handles_plug_mark.
    + apply (E _ (b + dir_of dir)).
      destruct dir; cbn [fill handles]; now rewrite handles_plug_mark.
Qed.

Lemma ins_ctx_length k : forall t acc,
  Z.of_nat (length (ins_ctx k t acc)) <= Z.of_nat (length acc) + height t.
Proof.
  induction t as [|l IHl x b r IHr]; intros acc; cbn [ins_ctx height].
  - lia.
  - destruct (k <? key_of x).
    + specialize (IHl ((false, x, b, r) :: acc)). cbn [length] in IHl. lia.
    + specialize (IHr ((true, x, b, l) :: acc)). cbn [length] in IHr. lia.
Qed.

(** A frame whose node keeps its links, over a new subtree with the old root
    handle. *)
Lemma wf_fill_update s s' dir u b b' sib t t' :
  wf s (fill (dir, u, b, sib) t) ->
  less s' u = less s u -> greater s' u = greater s u ->
  balance_factor s' u = b' ->
  (forall y, In y (handles sib) -> same_fields s s' y) ->
  wf s' t' -> hd t' = hd t ->
  wf s' (fill (dir, u, b', sib) t').
Proof.
  intros Hw E1 E2 E3 Hs Hw' Hhd.
  destruct dir; cbn [fill wf] in *; wf_split Hw;
    rewrite E1, E2, Hhd; repeat split; auto;
    eapply wf_same; eauto.
Qed.

Lemma nth_error_rev_split {A} (lo up : list A) (f : A) :
  nth_error (rev (lo ++ f :: up)) (length up) = Some f /\
  forall i, nth_error (rev (lo ++ f :: up)) (length up + 1 + i)
            = nth_error (rev lo) i.
Proof.
  rewrite rev_app_distr. cbn [rev]. rewrite <- app_assoc. cbn [app]. split.
  - rewrite nth_error_app2 by (rewrite length_rev; lia).
    rewrite length_rev, Nat.sub_diag. reflexivity.
  - intros i. rewrite nth_error_app2 by (rewrite length_rev; lia).
    rewrite length_rev.
    replace (length up + 1 + i - length up)%nat with (S i) by lia.
    reflexivity.
Qed.

Lemma insert_fresh_correct fuel h s t :
  max_depth <= UNSIGNED_MAX ->
  Rep s t -> h <> null -> faulty h = false ->
  ~ In h (handles t) -> ~ In (key_of h) (keys t) ->
  height t <= max_depth -> height t < Z.of_nat fuel ->
  ins_rot_ok h t ->
  exists s', insert fuel h s = Some (h, s') /\ Rep s' (ins_tree h t).
Proof.
  intros Hmax (Hroot & Hwf & Hnd & He) Hh Hfh Hfresh Hkey Hdepth Hfuel Hrot.
  set (N := Node Leaf h 0 Leaf).
  assert (HndT : NoDup (handles (ins_tree h t))).
  { rewrite handles_ins_tree. rewrite (handles_ins_ctx (key_of h) t) in Hnd, Hfresh.
    clear - Hnd Hfresh. nd_prep. apply NoDup_app_iff. repeat split; auto.
    - apply NoDup_cons_iff. split; auto. intro. apply Hfresh. apply in_or_app. auto.
    - intros x Hx [->|Hx']; [apply Hfresh; apply in_or_app; auto|].
      eapply H1; eauto. }
  unfold insert, insert_init. exec.
  set (s0 := put_bf h 0 (put_greater h null (put_less h null s))).
  assert (Hwf0 : wf s0 t) by (subst s0; wf_frame).
  assert (HN : wf s0 N).
  { subst s0 N. cbn [wf hd]. proj. rewrite !upd_same. repeat split; auto. }
  assert (Hr0 : root s0 = hd t) by (rewrite <- Hroot; reflexivity).
  assert (He0 : rd_err s0 = false) by exact He.
  clearbody s0.
  unfold insert_body. exec. rewrite Hr0.
  destruct t as [|l x b r].
  - (* empty tree *)
    cbn [hd]. cbn. eexists. split; [reflexivity|].
    split; [reflexivity|]. split; [|split; [exact HndT|exact He0]].
    change (ins_tree h Leaf) with N. apply wf_put_root. exact HN.
  - set (T := Node l x b r) in *.
    assert (HTne : T <> Leaf) by discriminate.
    rewrite (neq_null _ (hd_nonnull s0 T Hwf0 HTne)).
    pose proof (insert_descend_fresh h Hmax T [] fuel s0 HTne Hwf0 He0 Hkey)
      as Hdesc.
    cbn [length parent_of bits_of last_unbal fst snd] in Hdesc.
    change (Z.of_nat 0) with 0 in Hdesc.
    rewrite (run_bind _ _ _ _ _ (Hdesc ltac:(lia) ltac:(lia))).
    clear Hdesc.
    pose proof (ins_ctx_plug (key_of h) T []) as HplugC. cbn [plug] in HplugC.
    pose proof (ins_ctx_nonempty (key_of h) T [] HTne) as HCne.
    pose proof (ins_ctx_length (key_of h) T []) as HClen.
    cbn [length] in HClen. change (Z.of_nat 0) with 0 in HClen.
    unfold ins_tree, ins_rot_ok in *.
    remember (ins_ctx (key_of h) T []) as C eqn:EC0. clear EC0.
    destruct (split_unbal_spec C) as (HC & Hlu).
    destruct (split_unbal C) as [lo up]. cbn [fst snd] in *.
    assert (HndC : NoDup (ctx_handles C)).
    { unfold ctx_handles. rewrite <- HplugC, handles_plug in Hnd. exact Hnd. }
    assert (HhC : ~ In h (ctx_handles C)).
    { unfold ctx_handles. rewrite <- HplugC, handles_plug in Hfresh.
      exact Hfresh. }
    assert (HwC : wfc s0 C null).
    { rewrite <- HplugC in Hwf0. apply wf_plug in Hwf0. apply Hwf0. }
    assert (HndN : NoDup (handles (plug C N))).
    { rewrite handles_plug. unfold ctx_handles in *. subst N. cbn [handles app].
      clear - HndC HhC. nd_prep. apply NoDup_app_iff. repeat split; auto.
      - apply NoDup_cons_iff. split; auto. intro. apply HhC. apply in_or_app. auto.
      - intros y Hy [->|Hy']; [apply HhC; apply in_or_app; auto|].
        eapply H1; eauto. }
    (* attach the leaf *)
    assert (Hcons : exists dir0 p b0 sib0 C', C = (dir0, p, b0, sib0) :: C').
    { destruct C as [|[[[dir0 p] b0] sib0] C']; [congruence|]. eauto 6. }
    destruct Hcons as (dir0 & p & b0 & sib0 & C' & EC).
    replace (parent_of C) with p by (rewrite EC; reflexivity).
    replace (last_cmp C) with (dir_of dir0) by (rewrite EC; reflexivity).
    unfold insert_attach.
    assert (Hp : p <> null) by (rewrite EC in HwC; cbn [wfc] in HwC; apply HwC).
    set (sa := put_link dir0 p h s0).
    assert (Hatt : forall B (k : unit -> M B),
              bind (if dir_of dir0 <? 0 then set_lt p h else set_gt p h) k s0
              = k tt sa).
    { intros B k. subst sa. destruct dir0; cbn [dir_of Z.ltb Z.compare put_link];
        [apply bind_set_gt | apply bind_set_lt]; auto. }
    rewrite bind_bind, Hatt. clear Hatt.
    assert (HwCa : wfc sa C h).
    { subst sa. rewrite EC in *. apply (wfc_rehole s0 dir0 p b0 sib0 C' null h); auto. }
    assert (HpN : p <> h).
    { intros ->. apply HhC. apply in_ctx_nodes. rewrite EC. cbn. auto. }
    assert (HNa : wf sa N).
    { subst sa. apply wf_put_link; auto. subst N. cbn. intros [E|[]]. congruence. }
    assert (Hwa : wf sa (plug C N)) by (apply wf_plug; split; auto).
    assert (Hea : rd_err sa = false) by (subst sa; destruct dir0; exact He0).
    assert (Hra : root sa = hd (plug C N)).
    { rewrite hd_plug. 
      replace (root sa) with (root s0) by (subst sa; destruct dir0; reflexivity).
      rewrite Hr0, <- HplugC, hd_plug. apply top_of_nonempty. exact HCne. }
    clearbody sa. clear Hwf0 HN Hr0 He0 HwC s0 EC dir0 p b0 sib0 C' Hp HpN.
    destruct up as [|[[[diru u] bu] sibu] up'].
    + (* no unbalanced ancestor *)
      rewrite app_nil_r in HC. subst lo. rewrite Hlu. cbn [fst snd].
      rewrite Z.eqb_refl. exec. rewrite Hra.
      assert (Hne : plug C N <> Leaf).
      { intros E. apply (f_equal handles) in E. rewrite handles_plug in E.
        subst N. cbn in E. destruct (ctx_left C); discriminate. }
      rewrite (neq_null _ (hd_nonnull sa _ Hwa Hne)). cbn [negb].
      destruct (insert_mark_correct h (bits_of C) Hmax Hh C fuel 0 sa)
        as (s' & Hrun & Hw' & (Hfe & Hfr) & Hr' & _); auto; try lia.
      { intros i f Hi. cbn. now apply bits_of_nth. }
      rewrite (run_bind _ _ _ _ _ Hrun). cbn [insert_rebalance].
      unfold insert_rebalance. rewrite Z.eqb_refl. cbn [negb].
      exists s'. split; [reflexivity|].
      split; [rewrite Hr', Hra; now rewrite hd_plug_mark|].
      split; [exact Hw'|].
      split; [now rewrite handles_plug_mark | congruence].
    + (* [u] is the deepest ancestor with a non-zero factor *)
      destruct Hlu as (Hbu & Hlu). rewrite Hlu. cbn [fst snd].
      set (fu := (diru, u, bu, sibu)) in *.
      set (sub := plug lo N) in *.
      assert (HCeq : plug C N = plug up' (fill fu sub)).
      { rewrite HC. unfold sub. rewrite plug_app. reflexivity. }
      rewrite HCeq in Hwa, HndN, Hra.
      apply wf_plug in Hwa. destruct Hwa as (Hwup & Hwfu).
      destruct (nodup_plug _ _ HndN) as (Hndfu & Hndup & Hdisj).
      assert (Hwsub : wf sa sub /\ u <> null /\ faulty u = false /\
                balance_factor sa u = bu /\
                (if diru then greater sa u else less sa u) = hd sub).
      { subst fu. destruct diru; cbn [fill wf] in Hwfu; wf_split Hwfu;
          repeat split; auto. }
      destruct Hwsub as (Hwsub & Hu & Hfu & Hbfu & Hlink).
      assert (Hlen : Z.of_nat (length C)
                     = Z.of_nat (length lo) + 1 + Z.of_nat (length up')).
      { rewrite HC, length_app. cbn [length]. lia. }
      destruct (nth_error_rev_split lo up' fu) as (Hnth0 & Hnth).
      rewrite <- HC in Hnth0, Hnth.
      rewrite (neq_null _ Hu). rewrite bind_bind.
      rewrite bind_bit_get by lia.
      rewrite (bits_of_nth C _ _ Hnth0). cbn [fu f_dir fst snd].
      rewrite u32_small by (unfold UNSIGNED_MAX in *; lia).
      exec. rewrite Hbfu.
      assert (Hhh : forall B (k : handle -> M B),
                bind (if dir_of diru <? 0 then get_lt u else get_gt u) k sa
                = k (hd sub) sa).
      { intros B k. rewrite <- Hlink.
        destruct diru; cbn [dir_of Z.ltb Z.compare];
          [apply bind_get_gt | apply bind_get_lt]; auto. }
      rewrite Hhh. clear Hhh. exec. rewrite Hea.
      assert (Hubf : (if dir_of diru <? 0 then bu - 1 else bu + 1)
                     = bu + dir_of diru) by (destruct diru; cbn; lia).
      rewrite Hubf.
      assert (Hsubne : sub <> Leaf).
      { intros E. apply (f_equal handles) in E. unfold sub in E.
        rewrite handles_plug in E. subst N. cbn in E.
        destruct (ctx_left lo); discriminate. }
      assert (Hux : ~ In u (handles sub) /\
                (forall y, In y (handles sibu) -> ~ In y (handles sub) /\ y <> u) /\
                NoDup (handles sub)).
      { clear - Hndfu. subst fu. destruct diru; cbn [fill handles] in Hndfu;
          nd_prep; (split; [nd_solve|]); (split; [|assumption]);
          intros y Hy; split; nd_solve. }
      destruct Hux as (Hux & Hsibx & Hndsub).
      assert (Hbits : forall i f, nth_error (rev lo) i = Some f ->
                bits_of C (Z.of_nat (length up') + 1 + Z.of_nat i) = f_dir f).
      { intros i f Hi.
        replace (Z.of_nat (length up') + 1 + Z.of_nat i)
          with (Z.of_nat (length up' + 1 + i)) by lia.
        apply bits_of_nth. rewrite Hnth. exact Hi. }
      assert (Hlo_in : forall y, In y (map f_node lo) -> In y (handles sub)).
      { intros y Hy. unfold sub. apply in_plug_ctx. now apply in_ctx_nodes. }
      destruct ((bu + dir_of diru =? -2) || (bu + dir_of diru =? 2)) eqn:Ebal.
      * (* rotation needed *)
        replace (negb (bu + dir_of diru =? -2) && negb (bu + dir_of diru =? 2))
          with false by (rewrite <- negb_orb, Ebal; reflexivity).
        exec. rewrite (neq_null _ (hd_nonnull sa _ Hwsub Hsubne)). cbn [negb].
        destruct (insert_mark_correct h (bits_of C) Hmax Hh lo fuel
                    (Z.of_nat (length up') + 1) sa)
          as (s1 & Hrun & Hw1 & (Hfe1 & Hfr1) & Hr1 & Hl1 & Hg1); auto; try lia.
        fold N sub. rewrite (run_bind _ _ _ _ _ Hrun).
        unfold insert_rebalance. rewrite (neq_null _ Hu). cbn [negb].
        set (sub' := plug (mark lo) N) in *.
        assert (Hu1 : ~ In u (map f_node lo)) by (intros Hi; apply Hux; auto).
        assert (Hwfu1 : wf s1 (fill fu sub')).
        { destruct (Hfr1 u Hu1) as (F1 & F2 & F3).
          apply (wf_fill_update sa s1 diru u bu bu sibu sub sub'); auto.
          - congruence.
          - intros y Hy. apply Hfr1. intros Hi.
            apply (proj1 (Hsibx y Hy)). auto.
          - unfold sub', sub. apply hd_plug_mark. }
        assert (Hhs : handles (fill fu sub') = handles (fill fu sub)).
        { rewrite !handles_fill. unfold sub', sub.
          now rewrite handles_plug_mark. }
        assert (Hndfu1 : NoDup (handles (fill fu sub'))) by (rewrite Hhs; auto).
        destruct (balance_correct s1 (fill fu sub') Hwfu1 Hndfu1)
          as (s2 & Hrun2 & Hw2 & (Hfe2 & Hfr2) & Hr2); [congruence|auto|].
        rewrite hd_fill in Hrun2. cbn [fu f_node fst snd] in Hrun2.
        rewrite (run_bind _ _ _ _ _ Hrun2). exec.
        replace (rd_err s2) with false by congruence.
        set (t2 := balance_t (fill fu sub')) in *.
        assert (Hht2 : handles t2 = handles (fill fu sub)).
        { unfold t2. now rewrite handles_balance_t. }
        assert (Hwup2 : wfc s2 up' u).
        { rewrite hd_fill in Hwup. cbn [fu f_node fst snd] in Hwup.
          apply (wfc_frame_eq (handles (fill fu sub')) s1 s2); [split; auto| |].
          - intros y Hy Hi. rewrite Hhs in Hi. exact (Hdisj y Hi Hy).
          - apply (wfc_frame_eq (map f_node lo) sa s1); [split; auto| |auto].
            intros y Hy Hi. apply (Hdisj y); auto.
            rewrite handles_fill. apply in_or_app. right. apply in_or_app.
            left. auto. }
        destruct up' as [|[[[dirp pp] bp] sibp] up''].
        -- (* [u] was the root *)
           cbn [parent_of]. rewrite Z.eqb_refl. exec.
           eexists. split; [reflexivity|].
           split; [reflexivity|]. split; [apply wf_put_root; exact Hw2|].
           split; [auto|]. proj. congruence.
        -- cbn [parent_of f_node fst snd].
           assert (Hpp : pp <> null) by (cbn [wfc] in Hwup2; apply Hwup2).
           rewrite (neq_null _ Hpp).
           cbn [length] in *.
           rewrite u32_small by (unfold UNSIGNED_MAX in *; lia).
           rewrite bind_bind.
           rewrite bind_bit_get by lia.
           assert (Hnthp : nth_error (rev C) (length up'')
                           = Some (dirp, pp, bp, sibp)).
           { rewrite HC.
             pose proof (nth_error_rev_split (lo ++ [fu]) up''
                           (dirp, pp, bp, sibp)) as [Hx _].
             rewrite <- app_assoc in Hx. exact Hx. }
           replace (Z.of_nat (S (length up'')) - 1)
             with (Z.of_nat (length up'')) by lia.
           rewrite (bits_of_nth C _ _ Hnthp). cbn [f_dir fst snd].
           set (s3 := put_link dirp pp (hd t2) s2).
           assert (Hfin : forall B (k : unit -> M B),
                     bind (if dir_of dirp <? 0 then set_lt pp (hd t2)
                           else set_gt pp (hd t2)) k s2 = k tt s3).
           { intros B k. subst s3.
             destruct dirp; cbn [dir_of Z.ltb Z.compare put_link];
               [apply bind_set_gt | apply bind_set_lt]; auto. }
           rewrite Hfin. exec.
           exists s3. split; [reflexivity|].
           assert (Hppt : ~ In pp (handles t2)).
           { rewrite Hht2. intros Hi. apply (Hdisj pp Hi).
             apply in_ctx_nodes. cbn. auto. }
           split; [|split; [|split]].
           ++ rewrite hd_plug. cbn [top_of].
              replace (root s3) with (root sa)
                by (subst s3; destruct dirp; cbn; congruence).
              rewrite Hra, hd_plug. reflexivity.
           ++ apply wf_plug. split.
              ** subst s3. eapply wfc_rehole; eauto.
              ** subst s3. apply wf_put_link; auto.
           ++ assumption.
           ++ subst s3. destruct dirp; cbn; congruence.
      * (* the factor of [u] absorbs the growth *)
        replace (negb (bu + dir_of diru =? -2) && negb (bu + dir_of diru =? 2))
          with true by (rewrite <- negb_orb, Ebal; reflexivity).
        exec. rewrite (neq_null _ (hd_nonnull sa _ Hwsub Hsubne)). cbn [negb].
        set (sb := put_bf u (bu + dir_of diru) sa).
        assert (Hwsb : wf sb sub) by (subst sb; apply wf_put_bf; auto).
        destruct (insert_mark_correct h (bits_of C) Hmax Hh lo fuel
                    (Z.of_nat (length up') + 1) sb)
          as (s1 & Hrun & Hw1 & (Hfe1 & Hfr1) & Hr1 & Hl1 & Hg1); auto; try lia.
        fold N sub. rewrite (run_bind _ _ _ _ _ Hrun).
        unfold insert_rebalance. rewrite Z.eqb_refl. cbn [negb].
        set (sub' := plug (mark lo) N) in *.
        assert (Hu1 : ~ In u (map f_node lo)) by (intros Hi; apply Hux; auto).
        destruct (Hfr1 u Hu1) as (F1 & F2 & F3).
        assert (Hwfu1 : wf s1 (fill (diru, u, bu + dir_of diru, sibu) sub')).
        { apply (wf_fill_update sa s1 diru u bu _ sibu sub sub'); auto.
          - rewrite F3. subst sb. proj. apply upd_same.
          - intros y Hy. destruct (Hsibx y Hy) as (Hy1 & Hy2).
            assert (Hy3 : ~ In y (map f_node lo)) by (intros Hi; apply Hy1; auto).
            destruct (Hfr1 y Hy3) as (G1 & G2 & G3). unfold same_fields.
            rewrite G1, G2, G3. subst sb. proj. rewrite upd_other by auto. auto.
          - unfold sub', sub. apply hd_plug_mark. }
        exists s1. split; [reflexivity|].
        split; [|split; [|split]].
        -- rewrite Hr1. subst sb. proj. rewrite Hra. rewrite !hd_plug, !hd_fill.
           reflexivity.
        -- apply wf_plug. split; [|exact Hwfu1].
           rewrite hd_fill in *. cbn [fu f_node fst snd] in *.
           apply (wfc_frame_eq (map f_node lo) sb s1); [split; auto| |].
           ++ intros y Hy Hi. apply (Hdisj y); auto.
              rewrite handles_fill. apply in_or_app. right. apply in_or_app.
              left. auto.
           ++ subst sb. apply (wfc_same sa); auto. intros y Hy.
              apply same_put_bf. intros ->. apply (Hdisj u); auto.
              rewrite handles_fill. cbn. destruct diru; cbn;
                rewrite ?in_app_iff; cbn; auto 6.
        -- assumption.
        -- rewrite Hfe1. subst sb. exact Hea.
Qed.



(** ** Order: the BST invariant and the in-order key sequence *)

Lemma ssorted_app_iff (a b : list Z) :
  StronglySorted Z.lt (a ++ b) <->
  StronglySorted Z.lt a /\ StronglySorted Z.lt b /\
  (forall x y, In x a -> In y b -> x < y).
Proof.
  induction a as [|z a IH]; cbn [app].
  - split.
    + intros H. repeat split; auto. constructor. intros x y [].
    + intros (_ & H & _). exact H.
  - split.
    + intros H. apply StronglySorted_inv in H. destruct H as (Hs & Hf).
      apply IH in Hs. destruct Hs as (Ha & Hb & Hab).
      rewrite Forall_forall in Hf.
      repeat split; auto.
      * constructor; auto. apply Forall_forall. intros x Hx. apply Hf.
        apply in_or_app. now left.
      * intros x y [->|Hx] Hy; [apply Hf; apply in_or_app; now right|].
        now apply Hab.
    + intros (Ha & Hb & Hab). apply StronglySorted_inv in Ha.
      destruct Ha as (Ha & Hf). rewrite Forall_forall in Hf.
      constructor.
      * apply IH. repeat split; auto. intros x y Hx Hy. apply Hab; auto.
        now right.
      * apply Forall_forall. intros x Hx. apply in_app_or in Hx.
        destruct Hx as [Hx|Hx]; [now apply Hf|]. apply Hab; auto. now left.
Qed.

Lemma ssorted_cons_iff (z : Z) (a : list Z) :
  StronglySorted Z.lt (z :: a) <->
  StronglySorted Z.lt a /\ (forall y, In y a -> z < y).
Proof.
  split.
  - intros H. apply StronglySorted_inv in H. destruct H as (Hs & Hf).
    rewrite Forall_forall in Hf. auto.
  - intros (Hs & Hf). constructor; auto. now apply Forall_forall.
Qed.

Lemma in_keys_iff z t : In z (keys t) <-> exists x, In x (handles t) /\ key_of x = z.
Proof.
  unfold keys. rewrite in_map_iff. split; intros (x & A & B); eauto.
Qed.

(** The BST invariant says exactly that the in-order keys ascend. *)
Lemma bst_sorted t : bst t <-> StronglySorted Z.lt (keys t).
Proof.
  induction t as [|l IHl x b r IHr].
  - cbn. split; auto. intros _. constructor.
  - cbn [bst]. unfold keys in *. cbn [handles]. rewrite map_app. cbn [map].
    rewrite ssorted_app_iff, ssorted_cons_iff, <- IHl, <- IHr.
    split.
    + intros (Hlo & Hhi & Hl & Hr). repeat split; auto.
      * intros y Hy. apply in_map_iff in Hy. destruct Hy as (z & <- & Hz).
        auto.
      * intros a c Ha [<-|Hc].
        -- apply in_map_iff in Ha. destruct Ha as (z & <- & Hz). auto.
        -- apply in_map_iff in Ha. destruct Ha as (z & <- & Hz).
           apply in_map_iff in Hc. destruct Hc as (w & <- & Hw).
           specialize (Hlo z Hz). specialize (Hhi w Hw). lia.
    + intros (Hl & (Hr & Hhi) & Hlo). repeat split; auto.
      * intros y Hy. apply Hlo; [now apply in_map | now left].
      * intros y Hy. apply Hhi. now apply in_map.
Qed.

Lemma bst_child_ordered t : bst t -> child_ordered t.
Proof.
  induction t as [|l IHl x b r IHr]; [auto|].
  cbn [bst child_ordered]. intros (Hlo & Hhi & Hl & Hr).
  repeat split; auto.
  - intros Hn. apply Hlo. destruct l; [contradiction|]. cbn. 
    apply in_or_app. right. now left.
  - intros Hn. apply Hhi. destruct r; [contradiction|]. cbn.
    apply in_or_app. right. now left.
Qed.

Lemma ins_ctx_bounds k : forall t acc,
  bst t -> ~ In k (keys t) ->
  (forall x, In x (ctx_left acc) -> key_of x < k) ->
  (forall x, In x (ctx_right acc) -> k < key_of x) ->
  (forall x, In x (ctx_left (ins_ctx k t acc)) -> key_of x < k) /\
  (forall x, In x (ctx_right (ins_ctx k t acc)) -> k < key_of x).
Proof.
  induction t as [|l IHl x b r IHr]; intros acc Hb Hk HL HR; [cbn; auto|].
  cbn [bst] in Hb. destruct Hb as (Hlo & Hhi & Hbl & Hbr).
  apply not_in_keys_node in Hk. destruct Hk as (Hkx & Hkl & Hkr).
  cbn [ins_ctx]. destruct (Z.ltb_spec k (key_of x)) as [Hlt|Hge].
  - apply IHl; [exact Hbl|exact Hkl| |].
    + cbn [ctx_left]. intros y Hy. rewrite app_nil_r in Hy. auto.
    + cbn [ctx_right]. intros y Hy. cbn [app In] in Hy.
      destruct Hy as [<-|Hy]; [exact Hlt|].
      apply in_app_or in Hy. destruct Hy as [Hy|Hy]; auto.
      specialize (Hhi y Hy). lia.
  - apply IHr; [exact Hbr|exact Hkr| |].
    + cbn [ctx_left]. intros y Hy. apply in_app_or in Hy.
      destruct Hy as [Hy|Hy]; auto. apply in_app_or in Hy.
      destruct Hy as [Hy|[<-|[]]]; [specialize (Hlo y Hy)|]; lia.
    + cbn [ctx_right]. intros y Hy. cbn [app] in Hy. auto.
Qed.

Lemma ins_tree_bst h t :
  bst t -> ~ In (key_of h) (keys t) -> bst (ins_tree h t).
Proof.
  intros Hb Hk.
  destruct (ins_ctx_bounds (key_of h) t [] Hb Hk) as (HL & HR);
    [intros x [] | intros x [] |].
  apply bst_sorted. apply bst_sorted in Hb. unfold keys in *.
  rewrite handles_ins_tree. rewrite (handles_ins_ctx (key_of h) t) in Hb.
  rewrite map_app in *. cbn [map].
  apply ssorted_app_iff in Hb. destruct Hb as (Ha & Hc & Hac).
  apply ssorted_app_iff. split; [exact Ha|]. split.
  - apply ssorted_cons_iff. split; [exact Hc|].
    intros y Hy. apply in_map_iff in Hy. destruct Hy as (z & <- & Hz). auto.
  - intros a c Ha' [<-|Hc'].
    + apply in_map_iff in Ha'. destruct Ha' as (z & <- & Hz). auto.
    + now apply Hac.
Qed.

(** ** Balance: heights under plugging *)

Lemma height_fill_eq f t t' :
  height t' = height t -> height (fill f t') = height (fill f t).
Proof. destruct f as [[[[] x] b] sib]; cbn [fill height]; lia. Qed.

Lemma height_plug_eq c : forall t t',
  height t' = height t -> height (plug c t') = height (plug c t).
Proof.
  induction c as [|f c IH]; intros t t' H; [exact H|].
  cbn [plug]. apply IH. now apply height_fill_eq.
Qed.

Lemma avl_fill f t :
  avl (fill f t) <->
  avl t /\ match f with
           | (true, _, b, sib) =>
               b = height t - height sib /\ -1 <= b <= 1 /\ avl sib
           | (false, _, b, sib) =>
               b = height sib - height t /\ -1 <= b <= 1 /\ avl sib
           end.
Proof.
  destruct f as [[[[] x] b] sib]; cbn [fill avl]; ptauto.
Qed.

Lemma avl_plug_hole c : forall t, avl (plug c t) -> avl t.
Proof.
  induction c as [|f c IH]; intros t H; [exact H|].
  cbn [plug] in H. apply IH in H. apply avl_fill in H. apply H.
Qed.

Lemma avl_plug_replace c : forall t t',
  avl (plug c t) -> avl t' -> height t' = height t -> avl (plug c t').
Proof.
  induction c as [|f c IH]; intros t t' H Ha Hh; [exact Ha|].
  cbn [plug] in *. apply (IH (fill f t)); auto.
  - pose proof (avl_plug_hole _ _ H) as Hf. apply avl_fill in Hf.
    apply avl_fill. destruct Hf as (_ & Hf). split; [exact Ha|].
    destruct f as [[[[] x] b] sib]; rewrite Hh; exact Hf.
  - now apply height_fill_eq.
Qed.

(** ** insert keeps the tree balanced *)

Lemma split_unbal_zero c :
  Forall (fun f => f_bf f = 0) (fst (split_unbal c)).
Proof.
  induction c as [|[[[dir x] b] sib] c IH]; [constructor|].
  cbn [split_unbal]. destruct (Z.eqb_spec b 0) as [->|Hb]; cbn [negb].
  - destruct (split_unbal c) as [lo up]. cbn [fst] in *.
    constructor; auto.
  - constructor.
Qed.

Lemma bf_of_plug_mark lo : forall t,
  lo <> [] ->
  bf_of (plug (mark lo) t) = 1 \/ bf_of (plug (mark lo) t) = -1.
Proof.
  induction lo as [|[[[dir x] b] sib] lo IH]; intros t Hne; [congruence|].
  cbn [mark map mark_frame plug]. fold (mark lo).
  destruct lo as [|f lo'].
  - cbn [mark map plug]. destruct dir; cbn; auto.
  - apply IH. discriminate.
Qed.

Lemma grow_avl lo : forall t t',
  Forall (fun f => f_bf f = 0) lo ->
  avl (plug lo t) -> avl t' -> height t' = height t + 1 ->
  avl (plug (mark lo) t') /\
  height (plug (mark lo) t') = height (plug lo t) + 1.
Proof.
  induction lo as [|[[[dir x] b] sib] lo IH]; intros t t' Hz Ha Ha' Hh.
  - cbn. auto.
  - apply Forall_cons_iff in Hz. destruct Hz as (Hb & Hz).
    cbn [f_bf fst snd] in Hb. subst b.
    cbn [mark map mark_frame plug] in *. fold (mark lo).
    pose proof (avl_plug_hole _ _ Ha) as Hf. apply avl_fill in Hf.
    destruct Hf as (Hat & Hf).
    apply (IH (fill (dir, x, 0, sib) t)); auto.
    + apply avl_fill. split; [exact Ha'|].
      destruct dir; cbn [dir_of]; repeat split; try lia; apply Hf.
    + destruct dir; cbn [fill height]; lia.
Qed.

Lemma plug_leaf_nonempty lo : 0 < height (plug lo Leaf) -> lo <> [].
Proof. intros H ->. cbn in H. lia. Qed.

Lemma avl_plug_replace_le c t t' :
  avl (plug c t) -> avl t' -> height t' = height t ->
  avl (plug c t') /\ height (plug c t') <= height (plug c t) + 1.
Proof.
  intros Ha Ha' Hh. split; [exact (avl_plug_replace c t t' Ha Ha' Hh)|].
  rewrite (height_plug_eq c t t' Hh). lia.
Qed.

Lemma ins_tree_avl_height h t :
  avl t ->
  (avl (ins_tree h t) /\ height (ins_tree h t) <= height t + 1) /\
  ins_rot_ok h t.
Proof.
  intros Ha. unfold ins_tree, ins_rot_ok.
  pose proof (ins_ctx_plug (key_of h) t []) as HplugC. cbn [plug] in HplugC.
  remember (ins_ctx (key_of h) t []) as C eqn:EC0. clear EC0.
  destruct (split_unbal_spec C) as (HC & Hlu).
  pose proof (split_unbal_zero C) as Hz.
  destruct (split_unbal C) as [lo up]. cbn [fst snd] in *.
  set (N := Node Leaf h 0 Leaf).
  assert (HaN : avl N) by (cbn; lia).
  rewrite <- HplugC, HC, plug_app in Ha. rewrite <- HplugC, HC, plug_app.
  destruct up as [|[[[diru u] bu] sibu] up'].
  - split; [|exact I]. cbn [plug] in Ha |- *.
    destruct (grow_avl lo Leaf N) as (G1 & G2); auto.
    split; [exact G1 | lia].
  - cbn [plug] in Ha |- *. destruct Hlu as (Hbu & _).
    pose proof (avl_plug_hole _ _ Ha) as Hf. apply avl_fill in Hf.
    destruct Hf as (Halo & Hf).
    destruct (grow_avl lo Leaf N Hz Halo HaN eq_refl) as (Hasub & Hhsub).
    set (sub := plug (mark lo) N) in *.
    set (old := plug lo Leaf) in *.
    assert (Hbu' : bu <> 0) by (intros ->; discriminate).
    pose proof (height_nonneg sibu). pose proof (height_nonneg old).
    destruct diru; cbn [dir_of] in *; destruct Hf as (Hb & Hr & Hasib).
    + (* grew on the greater side *)
      destruct (Z.eq_dec bu 1) as [Ebu|Hn1]; [clear Hbu; rewrite Ebu in *|].
      * assert (Hlo : lo <> []) by (apply plug_leaf_nonempty; fold old; lia).
        destruct (balance_t_greater sibu u 1 sub Hasib Hasub) as
          (Hrot & Hab & Hhb & _); [lia|lia|].
        replace ((1 + 1 =? -2) || (1 + 1 =? 2)) with true by reflexivity.
        split; [|intros _; exact Hrot].
        apply (avl_plug_replace_le up' (fill (true, u, 1, sibu) old)); auto.
        cbn [fill height]. rewrite Hhb.
        destruct (bf_of_plug_mark lo N Hlo) as [E|E]; fold sub in E;
          rewrite E;
          match goal with |- context [?a =? 0] =>
            destruct (Z.eqb_spec a 0) end; lia.
      * assert (Ebu : bu = -1) by lia. clear Hbu. rewrite Ebu in *.
        replace ((-1 + 1 =? -2) || (-1 + 1 =? 2)) with false by reflexivity.
        split; [|intros; discriminate].
        apply (avl_plug_replace_le up' (fill (true, u, -1, sibu) old)); auto.
        -- apply avl_fill. split; [exact Hasub|]. repeat split; auto; lia.
        -- cbn [fill height]. lia.
    + (* grew on the less side *)
      destruct (Z.eq_dec bu (-1)) as [Ebu|Hn1]; [clear Hbu; rewrite Ebu in *|].
      * assert (Hlo : lo <> []) by (apply plug_leaf_nonempty; fold old; lia).
        destruct (balance_t_less sub u (-1) sibu Hasub Hasib) as
          (Hrot & Hab & Hhb & _); [lia|lia|].
        replace ((-1 + -1 =? -2) || (-1 + -1 =? 2)) with true by reflexivity.
        split; [|intros _; exact Hrot].
        apply (avl_plug_replace_le up' (fill (false, u, -1, sibu) old)); auto.
        cbn [fill height]. rewrite Hhb.
        destruct (bf_of_plug_mark lo N Hlo) as [E|E]; fold sub in E;
          rewrite E;
          match goal with |- context [?a =? 0] =>
            destruct (Z.eqb_spec a 0) end; lia.
      * assert (Ebu : bu = 1) by lia. clear Hbu. rewrite Ebu in *.
        replace ((1 + -1 =? -2) || (1 + -1 =? 2)) with false by reflexivity.
        split; [|intros; discriminate].
        apply (avl_plug_replace_le up' (fill (false, u, 1, sibu) old)); auto.
        -- apply avl_fill. split; [exact Hasub|]. repeat split; auto; lia.
        -- cbn [fill height]. lia.
Qed.

Lemma ins_tree_avl h t :
  avl t -> avl (ins_tree h t) /\ ins_rot_ok h t.
Proof.
  intros Ha. destruct (ins_tree_avl_height h t Ha) as ((A & _) & B).
  split; assumption.
Qed.

(** ** insert: a key that is already present *)

Lemma insert_descend_dup h x :
  max_depth <= UNSIGNED_MAX -> key_of x = key_of h ->
  forall t fuel parent d branch u pu ud s,
    wf s t -> rd_err s = false -> bst t -> In x (handles t) ->
    0 <= d -> d + height t <= max_depth -> height t <= Z.of_nat fuel ->
    insert_descend fuel h (hd t) parent d branch u pu ud s
    = Some (Ret x, s).
Proof.
  intros Hmax Hkx.
  induction t as [|l IHl y b r IHr];
    intros fuel parent d branch u pu ud s Hwf He Hb Hin Hd Hdm Hf;
    [contradiction|].
  wf_split Hwf. cbn [bst] in Hb. destruct Hb as (Hlo & Hhi & Hbl & Hbr).
  cbn [height] in Hdm, Hf.
  pose proof (height_nonneg l). pose proof (height_nonneg r).
  destruct fuel as [|fuel]; [lia|].
  cbn [handles] in Hin. apply in_app_or in Hin.
  cbn [insert_descend hd]. exec. unfold cmp_n_n, compare3.
  destruct Hin as [Hin|[->|Hin]].
  - (* in the less subtree *)
    specialize (Hlo x Hin).
    replace (key_of h <? key_of y) with true by lia. cbn.
    exec. rewrite He. rewrite bind_bit_put by lia.
    rewrite u32_small by lia. rewrite Hl.
    assert (Hne : l <> Leaf) by (intros ->; contradiction).
    rewrite (neq_null _ (hd_nonnull s l Hwl Hne)). cbn [negb].
    apply IHl; auto; lia.
  - replace (key_of h <? key_of x) with false by lia.
    replace (key_of h =? key_of x) with true by lia. reflexivity.
  - specialize (Hhi x Hin).
    replace (key_of h <? key_of y) with false by lia.
    replace (key_of h =? key_of y) with false by lia. cbn.
    exec. rewrite He. rewrite bind_bit_put by lia.
    rewrite u32_small by lia. rewrite Hg.
    assert (Hne : r <> Leaf) by (intros ->; contradiction).
    rewrite (neq_null _ (hd_nonnull s r Hwr Hne)). cbn [negb].
    apply IHr; auto; lia.
Qed.

Lemma insert_dup_correct fuel h x s t :
  max_depth <= UNSIGNED_MAX ->
  Rep s t -> bst t -> h <> null -> ~ In h (handles t) ->
  In x (handles t) -> key_of x = key_of h ->
  height t <= max_depth -> height t < Z.of_nat fuel ->
  let s' := put_bf h 0 (put_greater h null (put_less h null s)) in
  insert fuel h s = Some (x, s') /\ Rep s' t.
Proof.
  intros Hmax (Hroot & Hwf & Hnd & He) Hb Hh Hfresh Hin Hkx Hdepth Hfuel s'.
  assert (Hwf' : wf s' t) by (subst s'; wf_frame).
  assert (Hne : t <> Leaf) by (intros ->; contradiction).
  split.
  - unfold insert, insert_init. exec. fold s'. unfold insert_body. exec.
    replace (root s') with (hd t) by (rewrite <- Hroot; reflexivity).
    rewrite (neq_null _ (hd_nonnull s' t Hwf' Hne)).
    rewrite (run_bind _ _ _ _ _
               (insert_descend_dup h x Hmax Hkx t fuel null 0 bset_new
                  null null 0 s' Hwf' He Hb Hin ltac:(lia) ltac:(lia)
                  ltac:(lia))).
    reflexivity.
  - split; [exact Hroot|]. split; [exact Hwf'|]. split; [exact Hnd|exact He].
Qed.

(** C6: inserting a node whose key is already in the tree returns the node
    that was there (not the argument) and leaves the root and the in-order
    node sequence as they were: the store after the call still reads as the
    same tree. *)
Theorem C6_insert_duplicate_returns_existing fuel h x s t :
  max_depth <= UNSIGNED_MAX ->
  Rep s t -> bst t -> avl t ->
  h <> null -> ~ In h (handles t) ->
  In x (handles t) -> key_of x = key_of h ->
  height t <= max_depth -> height t < Z.of_nat fuel ->
  exists s',
    insert fuel h s = Some (x, s') /\ x <> h /\
    root s' = root s /\ Rep s' t.
Proof.
  intros Hmax HR Hb Ha Hh Hfresh Hin Hkx Hdepth Hfuel.
  destruct (insert_dup_correct fuel h x s t Hmax HR Hb Hh Hfresh Hin Hkx
              Hdepth Hfuel) as (Hrun & HR').
  eexists. split; [exact Hrun|]. split; [|split; [reflexivity|exact HR']].
  intros ->. contradiction.
Qed.

(** C9: [insert] first writes null, null and 0 into the less link, the
    greater link and the balance factor of its argument, and only then
    descends; when the key is already present the pre-existing node is
    returned and the argument keeps these overwritten fields. *)
Theorem C9_insert_overwrites_argument fuel h s :
  max_depth <= UNSIGNED_MAX -> h <> null ->
  let s1 := put_bf h 0 (put_greater h null (put_less h null s)) in
  insert_init h s = Some (tt, s1) /\
  less s1 h = null /\ greater s1 h = null /\ balance_factor s1 h = 0 /\
  insert fuel h s = insert_body fuel h s1 /\
  (forall t x,
     Rep s t -> bst t -> ~ In h (handles t) ->
     In x (handles t) -> key_of x = key_of h ->
     height t <= max_depth -> height t < Z.of_nat fuel ->
     insert fuel h s = Some (x, s1)).
Proof.
  intros Hmax Hh s1.
  assert (Hinit : insert_init h s = Some (tt, s1)).
  { unfold insert_init. exec. apply run_set_bf. exact Hh. }
  split; [exact Hinit|].
  split; [subst s1; proj; apply upd_same|].
  split; [subst s1; proj; apply upd_same|].
  split; [subst s1; proj; apply upd_same|].
  split.
  - unfold insert. now rewrite (run_bind _ _ _ _ _ Hinit).
  - intros t x HR Hb Hfresh Hin Hkx Hd Hf.
    apply (insert_dup_correct fuel h x s t); auto.
Qed.

Lemma insert_preserves fuel h s t :
  max_depth <= UNSIGNED_MAX ->
  Rep s t -> bst t -> avl t ->
  h <> null -> faulty h = false -> ~ In h (handles t) ->
  height t <= max_depth -> height t < Z.of_nat fuel ->
  exists r s' t',
    insert fuel h s = Some (r, s') /\ Rep s' t' /\ bst t' /\ avl t'.
Proof.
  intros Hmax HR Hb Ha Hh Hfh Hfresh Hd Hf.
  destruct (in_dec Z.eq_dec (key_of h) (keys t)) as [Hin|Hnin].
  - apply in_keys_iff in Hin. destruct Hin as (x & Hx & Hkx).
    destruct (insert_dup_correct fuel h x s t Hmax HR Hb Hh Hfresh Hx Hkx
                Hd Hf) as (Hrun & HR').
    eauto 8.
  - destruct (ins_tree_avl h t Ha) as (Ha' & Hrot).
    destruct (insert_fresh_correct fuel h s t Hmax HR Hh Hfh Hfresh Hnin
                Hd Hf Hrot) as (s' & Hrun & HR').
    exists h, s', (ins_tree h t).
    split; [exact Hrun|]. split; [exact HR'|]. split; [|exact Ha'].
    now apply ins_tree_bst.
Qed.


(** ** remove: finding the node and its replacement *)

Lemma find_ctx_spec k : forall t acc c t_rm,
  find_ctx k t acc = Some (c, t_rm) ->
  plug c t_rm = plug acc t /\
  (exists l rm b r, t_rm = Node l rm b r /\ key_of rm = k) /\
  Z.of_nat (length c) + height t_rm <= Z.of_nat (length acc) + height t /\
  exists c0, c = c0 ++ acc.
Proof.
  induction t as [|l IHl x b r IHr]; intros acc c t_rm H; [discriminate|].
  cbn [find_ctx] in H.
  destruct (Z.ltb_spec k (key_of x)).
  - apply IHl in H. destruct H as (H1 & H2 & H3 & (c0 & H4)).
    cbn [plug fill length height] in *. repeat split; auto; try lia.
    exists (c0 ++ [(false, x, b, r)]). rewrite <- app_assoc. exact H4.
  - destruct (Z.eqb_spec k (key_of x)).
    + inversion H; subst. repeat split; auto; try lia.
      * eauto 6.
      * exists []. reflexivity.
    + apply IHr in H. destruct H as (H1 & H2 & H3 & (c0 & H4)).
      cbn [plug fill length height] in *. repeat split; auto; try lia.
      exists (c0 ++ [(true, x, b, l)]). rewrite <- app_assoc. exact H4.
Qed.

Lemma find_ctx_present k : forall t acc,
  bst t -> In k (keys t) -> exists c t_rm, find_ctx k t acc = Some (c, t_rm).
Proof.
  induction t as [|l IHl x b r IHr]; intros acc Hb Hin; [contradiction|].
  cbn [bst] in Hb. destruct Hb as (Hlo & Hhi & Hbl & Hbr).
  cbn [find_ctx]. unfold keys in Hin. cbn [handles] in Hin.
  rewrite map_app in Hin. cbn [map] in Hin. apply in_app_or in Hin.
  destruct (Z.ltb_spec k (key_of x)).
  - apply IHl; auto. destruct Hin as [Hin|[E|Hin]]; auto; [lia|].
    apply in_map_iff in Hin. destruct Hin as (y & <- & Hy).
    specialize (Hhi y Hy). lia.
  - destruct (Z.eqb_spec k (key_of x)); [eauto|].
    apply IHr; auto. destruct Hin as [Hin|[E|Hin]]; auto; [|lia].
    apply in_map_iff in Hin. destruct Hin as (y & <- & Hy).
    specialize (Hlo y Hy). lia.
Qed.

Lemma find_ctx_absent k : forall t acc,
  ~ In k (keys t) -> find_ctx k t acc = None.
Proof.
  induction t as [|l IHl x b r IHr]; intros acc Hk; [reflexivity|].
  apply not_in_keys_node in Hk. destruct Hk as (Hkx & Hkl & Hkr).
  cbn [find_ctx]. destruct (k <? key_of x); [now apply IHl|].
  destruct (Z.eqb_spec k (key_of x)); [contradiction|]. now apply IHr.
Qed.

Lemma remove_find_present k :
  max_depth <= UNSIGNED_MAX ->
  forall t acc fuel s c t_rm,
    wf s t -> rd_err s = false ->
    find_ctx k t acc = Some (c, t_rm) ->
    Z.of_nat (length acc) + height t <= max_depth ->
    height t < Z.of_nat fuel ->
    remove_find fuel k (hd t) (parent_of acc) (Z.of_nat (length acc))
      (bits_of acc) (last_cmp acc) s
    = Some (Go (hd t_rm, parent_of c, Z.of_nat (length c), bits_of c,
                last_cmp c), s).
Proof.
  intros Hmax.
  induction t as [|l IHl x b r IHr]; intros acc fuel s c t_rm Hwf He Hfind Hd Hf;
    [discriminate|].
  wf_split Hwf. cbn [height] in Hd, Hf.
  pose proof (height_nonneg l). pose proof (height_nonneg r).
  destruct fuel as [|fuel]; [lia|].
  cbn [find_ctx] in Hfind.
  cbn [remove_find hd]. rewrite (neq_null _ Hn). unfold cmp_k_n, compare3.
  destruct (Z.ltb_spec k (key_of x)) as [Hlt|Hge].
  - cbn. exec. rewrite He. rewrite bind_bit_put by lia.
    rewrite u32_small by lia. rewrite Hl.
    specialize (IHl ((false, x, b, r) :: acc) fuel s c t_rm Hwl He Hfind).
    cbn [parent_of f_node fst snd length bits_of last_cmp f_dir dir_of] in IHl.
    replace (Z.of_nat (length acc) + 1) with (Z.of_nat (S (length acc)))
      by lia.
    apply IHl; lia.
  - destruct (Z.eqb_spec k (key_of x)) as [Heq|Hne].
    + inversion Hfind; subst. reflexivity.
    + cbn. exec. rewrite He. rewrite bind_bit_put by lia.
      rewrite u32_small by lia. rewrite Hg.
      specialize (IHr ((true, x, b, l) :: acc) fuel s c t_rm Hwr He Hfind).
      cbn [parent_of f_node fst snd length bits_of last_cmp f_dir dir_of] in IHr.
      replace (Z.of_nat (length acc) + 1) with (Z.of_nat (S (length acc)))
        by lia.
      apply IHr; lia.
Qed.

Lemma max_ctx_spec : forall t acc,
  t <> Leaf ->
  exists cw l' m bm,
    max_ctx t acc = (cw ++ acc, Node l' m bm Leaf) /\
    t = plug cw (Node l' m bm Leaf) /\
    Forall (fun f => f_dir f = true) cw /\
    Z.of_nat (length cw) + 1 + height l' <= height t.
Proof.
  induction t as [|l IHl x b r IHr]; intros acc Hne; [congruence|].
  cbn [max_ctx]. destruct r as [|rl rx rb rr].
  - exists [], l, x, b. cbn [app plug length height].
    pose proof (height_nonneg l). repeat split; auto. lia.
  - destruct (IHr ((true, x, b, l) :: acc)) as (cw & l' & m & bm & E & Ep & Hd & Hh);
      [discriminate|].
    exists (cw ++ [(true, x, b, l)]), l', m, bm.
    rewrite E, <- app_assoc. repeat split; auto.
    + rewrite plug_app. cbn [plug fill]. now rewrite <- Ep.
    + apply Forall_app. split; auto.
    + rewrite length_app. cbn [length]. 
      change (height (Node l x b (Node rl rx rb rr)))
        with (1 + Z.max (height l) (height (Node rl rx rb rr))). lia.
Qed.

Lemma min_ctx_spec : forall t acc,
  t <> Leaf ->
  exists cw r' m bm,
    min_ctx t acc = (cw ++ acc, Node Leaf m bm r') /\
    t = plug cw (Node Leaf m bm r') /\
    Forall (fun f => f_dir f = false) cw /\
    Z.of_nat (length cw) + 1 + height r' <= height t.
Proof.
  induction t as [|l IHl x b r IHr]; intros acc Hne; [congruence|].
  cbn [min_ctx]. destruct l as [|ll lx lb lr].
  - exists [], r, x, b. cbn [app plug length height].
    pose proof (height_nonneg r). repeat split; auto. lia.
  - destruct (IHl ((false, x, b, r) :: acc)) as (cw & r' & m & bm & E & Ep & Hd & Hh);
      [discriminate|].
    exists (cw ++ [(false, x, b, r)]), r', m, bm.
    rewrite E, <- app_assoc. repeat split; auto.
    + rewrite plug_app. cbn [plug fill]. now rewrite <- Ep.
    + apply Forall_app. split; auto.
    + rewrite length_app. cbn [length].
      change (height (Node (Node ll lx lb lr) x b r))
        with (1 + Z.max (height (Node ll lx lb lr)) (height r)). lia.
Qed.

Lemma remove_walk_max :
  max_depth <= UNSIGNED_MAX ->
  forall t acc fuel s,
    t <> Leaf -> wf s t -> rd_err s = false ->
    Z.of_nat (length acc) + height t <= max_depth ->
    height t <= Z.of_nat fuel ->
    remove_walk fuel 1 (parent_of acc) (hd t) (Z.of_nat (length acc))
      (bits_of acc) s
    = let c := fst (max_ctx t acc) in
      Some (Go (parent_of c, hd (snd (max_ctx t acc)),
                Z.of_nat (length c) + 1,
                upd (bits_of c) (Z.of_nat (length c)) true), s).
Proof.
  intros Hmax.
  induction t as [|l IHl x b r IHr]; intros acc fuel s Hne Hwf He Hd Hf;
    [congruence|].
  wf_split Hwf. cbn [height] in Hd, Hf.
  pose proof (height_nonneg l). pose proof (height_nonneg r).
  destruct fuel as [|fuel]; [lia|].
  cbn [remove_walk hd max_ctx].
  replace (1 <? 0) with false by reflexivity. cbn [negb].
  exec. rewrite bind_bit_put by lia. exec. rewrite He.
  rewrite u32_small by lia. rewrite Hg.
  destruct r as [|rl rx rb rr].
  - cbn [hd]. rewrite Z.eqb_refl. cbn [negb fst snd hd]. reflexivity.
  - pose proof Hwr as Hwr'. wf_split Hwr'. cbn [hd].
    rewrite (neq_null _ Hn0). cbn [negb].
    specialize (IHr ((true, x, b, l) :: acc) fuel s).
    cbn [parent_of f_node fst snd length bits_of hd] in IHr.
    replace (Z.of_nat (length acc) + 1) with (Z.of_nat (S (length acc)))
      by lia.
    apply IHr; auto; try discriminate; lia.
Qed.

Lemma remove_walk_min :
  max_depth <= UNSIGNED_MAX ->
  forall t acc fuel s,
    t <> Leaf -> wf s t -> rd_err s = false ->
    Z.of_nat (length acc) + height t <= max_depth ->
    height t <= Z.of_nat fuel ->
    remove_walk fuel (-1) (parent_of acc) (hd t) (Z.of_nat (length acc))
      (bits_of acc) s
    = let c := fst (min_ctx t acc) in
      Some (Go (parent_of c, hd (snd (min_ctx t acc)),
                Z.of_nat (length c) + 1,
                upd (bits_of c) (Z.of_nat (length c)) false), s).
Proof.
  intros Hmax.
  induction t as [|l IHl x b r IHr]; intros acc fuel s Hne Hwf He Hd Hf;
    [congruence|].
  wf_split Hwf. cbn [height] in Hd, Hf.
  pose proof (height_nonneg l). pose proof (height_nonneg r).
  destruct fuel as [|fuel]; [lia|].
  cbn [remove_walk hd min_ctx].
  replace (-1 <? 0) with true by reflexivity. cbn [negb].
  exec. rewrite bind_bit_put by lia. exec. rewrite He.
  rewrite u32_small by lia. rewrite Hl.
  destruct l as [|ll lx lb lr].
  - cbn [hd]. rewrite Z.eqb_refl. cbn [negb fst snd hd]. reflexivity.
  - pose proof Hwl as Hwl'. wf_split Hwl'. cbn [hd].
    rewrite (neq_null _ Hn0). cbn [negb].
    specialize (IHl ((false, x, b, r) :: acc) fuel s).
    cbn [parent_of f_node fst snd length bits_of hd] in IHl.
    replace (Z.of_nat (length acc) + 1) with (Z.of_nat (S (length acc)))
      by lia.
    apply IHl; auto; try discriminate; lia.
Qed.

(** ** remove: the splice *)

Lemma in_ctx_single d y b sib x :
  In x (ctx_handles [(d, y, b, sib)]) <-> x = y \/ In x (handles sib).
Proof.
  unfold ctx_handles. cbn [ctx_left ctx_right]. destruct d; cbn [app].
  - rewrite !in_app_iff. cbn [In]. split.
    + intros [[H|[H|[]]]|[]]; auto.
    + intros [->|H]; auto.
  - rewrite app_nil_r. cbn [In]. split.
    + intros [H|H]; auto.
    + intros [->|H]; auto.
Qed.

Lemma ctx_handles_app c1 c2 x :
  In x (ctx_handles (c1 ++ c2)) <->
  In x (ctx_handles c1) \/ In x (ctx_handles c2).
Proof.
  unfold ctx_handles. rewrite ctx_left_app, ctx_right_app, !in_app_iff.
  ptauto.
Qed.

Lemma ctx_handles_cons f c x :
  In x (ctx_handles (f :: c)) <->
  In x (ctx_handles [f]) \/ In x (ctx_handles c).
Proof. apply (ctx_handles_app [f] c). Qed.

Lemma fill_as_plug f t : fill f t = plug [f] t.
Proof. reflexivity. Qed.

Lemma splice_distinct c_rm d rm b other cw m bm hole :
  NoDup (handles (plug c_rm (fill (d, rm, b, other)
                   (plug cw (fill (d, m, bm, Leaf) hole))))) ->
  splice_facts c_rm rm other cw m hole.
Proof.
  intros H.
  apply nodup_plug in H. destruct H as (H1 & Hc & Hd1).
  rewrite fill_as_plug in H1, Hd1.
  pose proof (nodup_plug _ _ H1) as (H2 & Hf & Hd2).
  pose proof (nodup_plug _ _ H2) as (H3 & Hw & Hd3).
  rewrite fill_as_plug in H3, Hd3.
  pose proof (nodup_plug _ _ H3) as (H4 & _ & Hd4).
  set (tm := plug [(d, m, bm, Leaf)] hole) in *.
  set (W := plug cw tm) in *.
  set (X := plug [(d, rm, b, other)] W) in *.
  assert (Hm3 : In m (handles tm)).
  { apply in_plug_ctx. apply in_ctx_single. auto. }
  assert (Hm2 : In m (handles W)) by (apply in_plug_hole; exact Hm3).
  assert (Hm1 : In m (handles X)) by (apply in_plug_hole; exact Hm2).
  assert (Hrm1 : In rm (handles X)).
  { apply in_plug_ctx. apply in_ctx_single. auto. }
  assert (Hh3 : forall x, In x (handles hole) -> In x (handles tm))
    by (intros; now apply in_plug_hole).
  assert (Hh2 : forall x, In x (handles hole) -> In x (handles W))
    by (intros; apply in_plug_hole; auto).
  assert (Hh1 : forall x, In x (handles hole) -> In x (handles X))
    by (intros; apply in_plug_hole; auto).
  assert (Ho1 : forall x, In x (handles other) -> In x (handles X)).
  { intros x Hx. apply in_plug_ctx. apply in_ctx_single. auto. }
  assert (Hw2 : forall x, In x (ctx_handles cw) -> In x (handles W))
    by (intros; now apply in_plug_ctx).
  assert (Hw1 : forall x, In x (ctx_handles cw) -> In x (handles X))
    by (intros; apply in_plug_hole; auto).
  assert (Hsingle : forall x, In x (handles W) -> x <> rm /\ ~ In x (handles other)).
  { intros x Hx. split.
    - intros ->. apply (Hd2 rm Hx). apply in_ctx_single. auto.
    - intros Hi. apply (Hd2 x Hx). apply in_ctx_single. auto. }
  unfold splice_facts.
  split; [apply (Hsingle m Hm2)|].
  split; [split|].
  { intros Hi. apply (Hd4 m Hi). apply in_ctx_single. auto. }
  { intros Hi. apply (proj1 (Hsingle rm (Hh2 rm Hi))). reflexivity. }
  split; [split|].
  { apply (Hsingle m Hm2). }
  { intros Hi. unfold ctx_handles in Hf. cbn [ctx_left ctx_right] in Hf.
    clear - Hf Hi. destruct d; cbn [app] in Hf; nd_prep; nd_inst rm; nd_close. }
  split; [split|].
  { exact (Hd3 m Hm3). }
  { intros Hi. apply (proj1 (Hsingle rm (Hw2 rm Hi))). reflexivity. }
  split; [split|].
  { exact (Hd1 m Hm1). }
  { exact (Hd1 rm Hrm1). }
  split.
  { intros x Hx. split; [|split].
    - intros Hi. exact (Hd3 x (Hh3 x Hi) Hx).
    - apply (Hsingle x (Hw2 x Hx)).
    - exact (Hd1 x (Hw1 x Hx)). }
  split.
  { intros x Hx. split.
    - intros Hi. exact (Hd1 x (Hh1 x Hi) Hx).
    - intros Hi. exact (Hd1 x (Ho1 x Hi) Hx). }
  split; assumption.
Qed.


Lemma ctx_right_all_true cw :
  Forall (fun f => f_dir f = true) cw -> ctx_right cw = [].
Proof.
  induction 1 as [|[[[d x] b] sib] cw Hd _ IH]; [reflexivity|].
  cbn [f_dir fst] in Hd. subst d. cbn [ctx_right app]. exact IH.
Qed.

Lemma ctx_left_all_false cw :
  Forall (fun f => f_dir f = false) cw -> ctx_left cw = [].
Proof.
  induction 1 as [|[[[d x] b] sib] cw Hd _ IH]; [reflexivity|].
  cbn [f_dir fst] in Hd. subst d. cbn [ctx_left]. rewrite IH. reflexivity.
Qed.

(** In-order effect of the splice: [rm] disappears, nothing else moves. *)
Lemma handles_splice d c_rm rm b other cw m bm hole :
  Forall (fun f => f_dir f = negb d) cw ->
  exists A B,
    handles (plug c_rm (fill (d, rm, b, other)
               (plug cw (fill (d, m, bm, Leaf) hole)))) = A ++ rm :: B /\
    handles (plug (cw ++ (d, m, b, other) :: c_rm) hole) = A ++ B.
Proof.
  intros Hd. rewrite !handles_plug, ctx_left_app, ctx_right_app.
  destruct d; cbn [negb] in Hd.
  - rewrite (ctx_left_all_false cw Hd).
    exists (ctx_left c_rm ++ handles other),
           (m :: handles hole ++ ctx_right cw ++ ctx_right c_rm).
    cbn [fill handles ctx_left ctx_right app]. rewrite handles_plug.
    rewrite (ctx_left_all_false cw Hd). cbn [handles app].
    repeat rewrite <- app_assoc. cbn [app]. repeat rewrite <- app_assoc.
    split; reflexivity.
  - rewrite (ctx_right_all_true cw Hd).
    exists (ctx_left c_rm ++ ctx_left cw ++ handles hole ++ [m]),
           (handles other ++ ctx_right c_rm).
    cbn [fill handles ctx_left ctx_right app]. rewrite handles_plug.
    rewrite (ctx_right_all_true cw Hd). cbn [handles app].
    repeat rewrite <- app_assoc. cbn [app]. repeat rewrite <- app_assoc.
    rewrite ?app_nil_r. cbn [app].
    split; reflexivity.
Qed.

Lemma run_put_link {B} dir x q (k : unit -> M B) s :
  x <> null ->
  bind (if dir_of dir <? 0 then set_lt x q else set_gt x q) k s
  = k tt (put_link dir x q s).
Proof.
  intros Hx. destruct dir; cbn [dir_of Z.ltb Z.compare put_link];
    [apply bind_set_gt | apply bind_set_lt]; auto.
Qed.

Lemma run_put_link_bit {B} (dir : bool) x q (k : unit -> M B) s :
  x <> null ->
  bind (if dir then set_gt x q else set_lt x q) k s
  = k tt (put_link dir x q s).
Proof.
  intros Hx. destruct dir; cbn [put_link];
    [apply bind_set_gt | apply bind_set_lt]; auto.
Qed.

Lemma put_link_root dir x q s : root (put_link dir x q s) = root s.
Proof. destruct dir; reflexivity. Qed.

Lemma put_link_err dir x q s : rd_err (put_link dir x q s) = rd_err s.
Proof. destruct dir; reflexivity. Qed.

Lemma same_put_link dir h v s x : x <> h -> same_fields s (put_link dir h v s) x.
Proof.
  destruct dir; cbn [put_link]; [apply same_put_greater | apply same_put_less].
Qed.

Lemma wfc_nonnull s c p : wfc s c p -> c <> [] -> parent_of c <> null.
Proof.
  destruct c as [|[[[d x] b] sib] c]; [congruence|]. cbn. intros (H & _) _.
  exact H.
Qed.

Lemma wfc_put_less h v s c p :
  ~ In h (ctx_handles c) -> wfc s c p -> wfc (put_less h v s) c p.
Proof.
  intros H. apply wfc_same. intros x Hx. apply same_put_less.
  intros ->. contradiction.
Qed.

Lemma wfc_put_greater h v s c p :
  ~ In h (ctx_handles c) -> wfc s c p -> wfc (put_greater h v s) c p.
Proof.
  intros H. apply wfc_same. intros x Hx. apply same_put_greater.
  intros ->. contradiction.
Qed.

Lemma wfc_put_bf h v s c p :
  ~ In h (ctx_handles c) -> wfc s c p -> wfc (put_bf h v s) c p.
Proof.
  intros H. apply wfc_same. intros x Hx. apply same_put_bf.
  intros ->. contradiction.
Qed.

Lemma wfc_put_root h s c p : wfc s c p -> wfc (put_root h s) c p.
Proof. apply wfc_same. intros x _. repeat split. Qed.

(** Frame steps whose side conditions are at hand. *)
Ltac frames :=
  repeat lazymatch goal with
  | |- wf (put_root _ _) _ => apply wf_put_root
  | |- wf (put_less _ _ _) _ => apply wf_put_less; [assumption|]
  | |- wf (put_greater _ _ _) _ => apply wf_put_greater; [assumption|]
  | |- wf (put_bf _ _ _) _ => apply wf_put_bf; [assumption|]
  | |- wf (put_link _ _ _ _) _ => apply wf_put_link; [assumption|]
  | |- wfc (put_root _ _) _ _ => apply wfc_put_root
  | |- wfc (put_less _ _ _) _ _ => apply wfc_put_less; [assumption|]
  | |- wfc (put_greater _ _ _) _ _ => apply wfc_put_greater; [assumption|]
  | |- wfc (put_bf _ _ _) _ _ => apply wfc_put_bf; [assumption|]
  | |- wfc (put_link _ _ _ _) _ _ => apply wfc_put_link; [assumption|]
  end;
  try assumption.

Lemma remove_splice_node d c_rm rm b other cw m bm hole branch s :
  max_depth <= UNSIGNED_MAX ->
  wf s (plug c_rm (fill (d, rm, b, other)
          (plug cw (fill (d, m, bm, Leaf) hole)))) ->
  NoDup (handles (plug c_rm (fill (d, rm, b, other)
          (plug cw (fill (d, m, bm, Leaf) hole))))) ->
  root s = hd (plug c_rm (fill (d, rm, b, other)
          (plug cw (fill (d, m, bm, Leaf) hole)))) ->
  rd_err s = false ->
  Forall (fun f => f_dir f = negb d) cw ->
  (forall i f, nth_error (rev c_rm) i = Some f ->
               branch (Z.of_nat i) = f_dir f) ->
  Z.of_nat (length c_rm) <= max_depth ->
  exists s1,
    remove_splice rm (parent_of c_rm) (Z.of_nat (length c_rm))
      (parent_of (cw ++ [(d, rm, b, other)])) m (hd hole) branch
      (last_cmp (cw ++ (d, m, b, other) :: c_rm)) s
    = Some (parent_of (cw ++ (d, m, b, other) :: c_rm), s1) /\
    wf s1 (plug (cw ++ (d, m, b, other) :: c_rm) hole) /\
    root s1 = hd (plug (cw ++ (d, m, b, other) :: c_rm) hole) /\
    rd_err s1 = false.
Proof.
  intros Hmax Hwf Hnd Hroot He Hdirs Hbits Hlen.
  pose proof (splice_distinct _ _ _ _ _ _ _ _ _ Hnd)
    as (F1 & (F2a & F2b) & (F3a & F3b) & (F4a & F4b) & (F5a & F5b) &
        F6 & F7 & F8a & F8b).
  set (frm := (d, rm, b, other)) in *.
  set (fm := (d, m, bm, Leaf)) in *.
  set (C1 := cw ++ [frm]).
  apply wf_plug in Hwf. destruct Hwf as (Hwc & Hwf).
  rewrite hd_fill in Hwc. cbn [frm f_node fst snd] in Hwc.
  assert (HwC1 : wfc s C1 m /\ wf s hole /\ m <> null /\ faulty m = false).
  { replace (fill frm (plug cw (fill fm hole))) with (plug C1 (fill fm hole))
      in Hwf by (unfold C1; rewrite plug_app; reflexivity).
    apply wf_plug in Hwf. destruct Hwf as (A & B0). rewrite hd_fill in A.
    split; [exact A|]. subst fm. destruct d; cbn [fill wf] in B0; wf_split B0;
      auto. }
  destruct HwC1 as (HwC1 & Hwhole & Hm & Hfm).
  assert (HndC1 : NoDup (ctx_handles C1)).
  { apply nodup_plug in Hnd. destruct Hnd as (Hnd & _).
    replace (fill frm (plug cw (fill fm hole))) with (plug C1 (fill fm hole))
      in Hnd by (unfold C1; rewrite plug_app; reflexivity).
    apply nodup_plug in Hnd. apply Hnd. }
  (* first write: unhook the replacement *)
  assert (Hrm : rm <> null /\ faulty rm = false).
  { unfold C1 in HwC1. apply wfc_app in HwC1. destruct HwC1 as (_ & A).
    cbn [wfc frm] in A. split; apply A. }
  destruct Hrm as (Hrm & Hfrm).
  unfold remove_splice.
  set (p1 := parent_of C1).
  set (d1 := f_dir (List.hd frm C1)).
  assert (Hp1 : p1 <> null).
  { unfold p1. apply (wfc_nonnull s C1 m HwC1).
    unfold C1. destruct cw; discriminate. }
  rewrite (neq_null _ Hp1).
  assert (Hcsp : last_cmp (cw ++ (d, m, b, other) :: c_rm) = dir_of d1).
  { unfold d1, C1. destruct cw as [|[[[d2 x2] b2] sib2] cw']; reflexivity. }
  rewrite Hcsp. rewrite run_put_link by exact Hp1.
  set (s' := put_link d1 p1 (hd hole) s).
  assert (HwC1' : wfc s' C1 (hd hole)).
  { unfold s', d1, p1, C1 in *.
    destruct cw as [|[[[d2 x2] b2] sib2] cw']; cbn [app List.hd f_dir fst snd parent_of f_node] in *;
      eapply wfc_rehole; eauto. }
  assert (Hp1_in : In p1 (ctx_handles C1)).
  { unfold p1, C1. apply in_ctx_nodes.
    destruct cw as [|[[[d2 x2] b2] sib2] cw']; cbn; auto. }
  assert (Hp1_cases : p1 = rm \/ In p1 (ctx_handles cw)).
  { unfold C1 in Hp1_in. apply ctx_handles_app in Hp1_in.
    destruct Hp1_in as [A|A]; auto. apply in_ctx_single in A.
    destruct A as [A|A]; auto. exfalso.
    unfold p1, C1 in A. destruct cw as [|[[[d2 x2] b2] sib2] cw'];
      cbn [app parent_of f_node fst snd frm] in A.
    - contradiction.
    - destruct (F6 x2) as (_ & G & _); [apply in_ctx_nodes; cbn; auto|].
      contradiction. }
  assert (Hp1_hole : ~ In p1 (handles hole)).
  { destruct Hp1_cases as [->|A]; auto. apply (F6 p1 A). }
  assert (Hp1_c : ~ In p1 (ctx_handles c_rm)).
  { destruct Hp1_cases as [->|A]; auto. apply (F6 p1 A). }
  assert (Hp1_m : p1 <> m).
  { destruct Hp1_cases as [->|A]; [congruence|]. intros ->. contradiction. }
  assert (Hwhole' : wf s' hole) by (apply wf_put_link; auto).
  assert (Hwc' : wfc s' c_rm rm) by (apply wfc_put_link; auto).
  assert (He' : rd_err s' = false) by (unfold s'; rewrite put_link_err; auto).
  assert (Hroot' : root s' = root s) by apply put_link_root.
  unfold C1 in HwC1'. apply wfc_app in HwC1'. destruct HwC1' as (Hwcw' & Hwfrm').
  set (p := top_of cw (hd hole)) in *.
  cbn [wfc frm] in Hwfrm'.
  destruct Hwfrm' as (_ & _ & Hlinks & Hbf' & Hwo' & _).
  clearbody s'.
  (* second step: the replacement takes over the fields of [rm] *)
  replace (if p1 =? rm then m else p1)
    with (parent_of (cw ++ (d, m, b, other) :: c_rm)).
  2:{ unfold p1, C1. destruct cw as [|[[[d2 x2] b2] sib2] cw'];
        cbn [app parent_of f_node fst snd frm].
      - now rewrite Z.eqb_refl.
      - symmetry. rewrite (proj2 (Z.eqb_neq x2 rm)); auto.
        intros ->. apply F4b. apply in_ctx_nodes. cbn. auto. }
  rewrite (proj2 (Z.eqb_neq m rm) F1). cbn [negb].
  exec. rewrite Hbf'.
  set (s2 := put_bf m b (put_greater m (greater s' rm)
                          (put_less m (less s' rm) s'))).
  assert (Hwfm2 : wfc s2 [(d, m, b, other)] p).
  { cbn [wfc]. unfold s2. proj. rewrite !upd_same.
    split; [exact Hm|]. split; [exact Hfm|].
    split; [destruct d; exact Hlinks|]. split; [reflexivity|].
    split; [frames|exact I]. }
  assert (Hwcw2 : wfc s2 cw (hd hole)) by (unfold s2; frames).
  assert (Hwhole2 : wf s2 hole) by (unfold s2; frames).
  assert (Hwc2 : wfc s2 c_rm rm) by (unfold s2; frames).
  assert (He2 : rd_err s2 = false) by exact He'.
  assert (Hroot2 : root s2 = root s) by exact Hroot'.
  clearbody s2.
  (* third step: hang the replacement under the parent of [rm] *)
  assert (Hfin : forall s3,
            wfc s3 c_rm m -> wfc s3 cw (hd hole) ->
            wfc s3 [(d, m, b, other)] p -> wf s3 hole ->
            wf s3 (plug (cw ++ (d, m, b, other) :: c_rm) hole)).
  { intros s3 A1 A2 A3 A4. apply wf_plug. split; [|exact A4].
    apply wfc_app. split; [exact A2|]. fold p. cbn [wfc] in *.
    destruct A3 as (B1 & B2 & B3 & B4 & B5 & _). auto 10. }
  assert (Hhd : hd (plug (cw ++ (d, m, b, other) :: c_rm) hole)
                = top_of c_rm m).
  { rewrite hd_plug. clear. induction cw as [|f cw IH]; [reflexivity|].
    cbn [app top_of]. destruct cw; [reflexivity|]. exact IH. }
  rewrite Hhd.
  destruct c_rm as [|[[[dp pp] bp] sibp] c''].
  - cbn [parent_of]. rewrite Z.eqb_refl. exec.
    eexists. split; [reflexivity|].
    split; [apply Hfin; frames|]. split; [reflexivity|exact He2].
  - cbn [parent_of f_node fst snd].
    assert (Hpp : pp <> null) by (cbn [wfc] in Hwc2; apply Hwc2).
    rewrite (neq_null _ Hpp). cbn [length] in *.
    rewrite u32_small by (unfold UNSIGNED_MAX in *; lia).
    rewrite bind_bind, bind_bit_get by lia.
    replace (Z.of_nat (S (length c'')) - 1) with (Z.of_nat (length c''))
      by lia.
    rewrite (Hbits (length c'') (dp, pp, bp, sibp)).
    2:{ cbn [rev]. rewrite nth_error_app2 by (rewrite length_rev; lia).
        rewrite length_rev, Nat.sub_diag. reflexivity. }
    cbn [f_dir fst snd]. rewrite run_put_link_bit by exact Hpp.
    assert (Hpp_in : In pp (ctx_handles ((dp, pp, bp, sibp) :: c'')))
      by (apply in_ctx_nodes; cbn; auto).
    destruct (F7 pp Hpp_in) as (G1 & G2).
    assert (Hpp_cw : ~ In pp (ctx_handles cw)).
    { intros Hi. apply (F6 pp Hi). exact Hpp_in. }
    assert (Hpp_m : pp <> m) by (intros ->; contradiction).
    eexists. split; [reflexivity|].
    split; [|split].
    + apply Hfin; frames.
      * eapply wfc_rehole; eauto.
      * cbn [wfc] in *. destruct Hwfm2 as (B1 & B2 & B3 & B4 & B5 & _).
        split; [auto|]. split; [auto|].
        split.
        { destruct dp, d; cbn [put_link]; proj;
            rewrite ?upd_other by auto; exact B3. }
        split; [destruct dp; cbn [put_link]; proj; try rewrite upd_other by auto; exact B4|].
        split; [frames|exact I].
    + rewrite put_link_root. rewrite Hroot2, Hroot, hd_plug. reflexivity.
    + rewrite put_link_err. exact He2.
Qed.

Lemma remove_splice_leaf c_rm l rm b r branch s :
  wf s (plug c_rm (Node l rm b r)) ->
  NoDup (handles (plug c_rm (Node l rm b r))) ->
  root s = hd (plug c_rm (Node l rm b r)) ->
  rd_err s = false ->
  exists s1,
    remove_splice rm (parent_of c_rm) (Z.of_nat (length c_rm))
      (parent_of c_rm) rm null branch (last_cmp c_rm) s
    = Some (parent_of c_rm, s1) /\
    wf s1 (plug c_rm Leaf) /\ root s1 = hd (plug c_rm Leaf) /\
    rd_err s1 = false.
Proof.
  intros Hwf Hnd Hroot He.
  apply wf_plug in Hwf. destruct Hwf as (Hwc & Hwf). cbn [hd] in Hwc.
  wf_split Hwf.
  apply nodup_plug in Hnd. destruct Hnd as (_ & Hndc & Hdisj).
  unfold remove_splice. rewrite Z.eqb_refl. cbn [negb].
  destruct c_rm as [|[[[dp pp] bp] sibp] c''].
  - cbn [parent_of]. rewrite Z.eqb_refl. exec.
    replace (null =? rm) with false by (symmetry; apply Z.eqb_neq; congruence).
    eexists. split; [reflexivity|]. cbn [plug hd wf]. proj. auto.
  - cbn [parent_of f_node fst snd last_cmp f_dir].
    assert (Hpp : pp <> null) by (cbn [wfc] in Hwc; apply Hwc).
    rewrite (neq_null _ Hpp). rewrite run_put_link by exact Hpp. exec.
    assert (Hpprm : pp <> rm).
    { intros ->. apply (Hdisj rm); [cbn; apply in_or_app; right; now left|].
      apply in_ctx_nodes. cbn. auto. }
    rewrite (proj2 (Z.eqb_neq pp rm) Hpprm).
    eexists. split; [reflexivity|]. split; [|split].
    + apply wf_plug. split; [|exact I]. cbn [hd].
      eapply wfc_rehole; eauto.
    + rewrite put_link_root, Hroot, !hd_plug. reflexivity.
    + rewrite put_link_err. exact He.
Qed.

Lemma max_ctx_node l x b r acc :
  max_ctx (Node l x b r) acc
  = match r with
    | Leaf => (acc, Node l x b r)
    | Node _ _ _ _ => max_ctx r ((true, x, b, l) :: acc)
    end.
Proof. reflexivity. Qed.

Lemma min_ctx_node l x b r acc :
  min_ctx (Node l x b r) acc
  = match l with
    | Leaf => (acc, Node l x b r)
    | Node _ _ _ _ => min_ctx l ((false, x, b, r) :: acc)
    end.
Proof. reflexivity. Qed.

Lemma max_ctx_acc : forall t acc,
  max_ctx t acc = (fst (max_ctx t []) ++ acc, snd (max_ctx t [])).
Proof.
  induction t as [|l IHl x b r IHr]; intros acc; [reflexivity|].
  rewrite !max_ctx_node. destruct r as [|rl rx rb rr]; [reflexivity|].
  rewrite (IHr ((true, x, b, l) :: acc)).
  rewrite (IHr (_ :: nil)).
  cbn [fst snd]. now rewrite <- app_assoc.
Qed.

Lemma min_ctx_acc : forall t acc,
  min_ctx t acc = (fst (min_ctx t []) ++ acc, snd (min_ctx t [])).
Proof.
  induction t as [|l IHl x b r IHr]; intros acc; [reflexivity|].
  rewrite !min_ctx_node. destruct l as [|ll lx lb lr]; [reflexivity|].
  rewrite (IHl ((false, x, b, r) :: acc)).
  rewrite (IHl (_ :: nil)).
  cbn [fst snd]. now rewrite <- app_assoc.
Qed.

(** Bits of two contexts that branch alike. *)
Lemma bits_same_dirs c c' branch :
  map f_dir c = map f_dir c' ->
  (forall i f, nth_error (rev c') i = Some f ->
               branch (Z.of_nat i) = f_dir f) ->
  forall i f, nth_error (rev c) i = Some f -> branch (Z.of_nat i) = f_dir f.
Proof.
  intros Hm Hb i f Hi.
  assert (Hd : nth_error (map f_dir (rev c)) i = Some (f_dir f))
    by (rewrite nth_error_map, Hi; reflexivity).
  rewrite map_rev, Hm, <- map_rev, nth_error_map in Hd.
  destruct (nth_error (rev c') i) as [f'|] eqn:E; [|discriminate].
  cbn in Hd. assert (Hd' : f_dir f' = f_dir f) by congruence.
  rewrite <- Hd'. now apply Hb.
Qed.

Lemma bits_upd_beyond c v :
  forall i f, nth_error (rev c) i = Some f ->
    upd (bits_of c) (Z.of_nat (length c)) v (Z.of_nat i) = f_dir f.
Proof.
  intros i f Hi.
  assert (Hlt : (i < length (rev c))%nat).
  { apply nth_error_Some. rewrite Hi. discriminate. }
  rewrite length_rev in Hlt. rewrite upd_other by lia.
  now apply bits_of_nth.
Qed.


(** ** remove: choosing the replacement *)

Lemma remove_choose_leaf c_rm l rm b r fuel s :
  max_depth <= UNSIGNED_MAX ->
  wf s (Node l rm b r) -> rd_err s = false ->
  (if b <? 0 then l else r) = Leaf ->
  Z.of_nat (length c_rm) < max_depth ->
  remove_choose fuel rm (parent_of c_rm) (Z.of_nat (length c_rm))
    (bits_of c_rm) (last_cmp c_rm) s
  = Some (Go (parent_of c_rm, rm, null,
              upd (bits_of c_rm) (Z.of_nat (length c_rm)) (negb (b <? 0)),
              last_cmp c_rm), s).
Proof.
  intros Hmax Hwf He Hleaf Hlen. wf_split Hwf.
  unfold remove_choose. exec. rewrite Hb.
  destruct (b <? 0); subst; exec; rewrite bind_bit_put by lia; exec;
    rewrite He; [rewrite Hl | rewrite Hg]; cbn [hd]; rewrite Z.eqb_refl;
    reflexivity.
Qed.

Lemma remove_choose_node d c_rm rm b other cw m bm hole fuel s :
  max_depth <= UNSIGNED_MAX ->
  d = negb (b <? 0) ->
  (if d
   then min_ctx (plug cw (fill (d, m, bm, Leaf) hole)) [] =
          (cw, fill (d, m, bm, Leaf) hole)
   else max_ctx (plug cw (fill (d, m, bm, Leaf) hole)) [] =
          (cw, fill (d, m, bm, Leaf) hole)) ->
  Forall (fun f => f_dir f = negb d) cw ->
  wf s (fill (d, rm, b, other) (plug cw (fill (d, m, bm, Leaf) hole))) ->
  ~ In rm (ctx_handles cw) ->
  rd_err s = false ->
  Z.of_nat (length c_rm) + 1 +
    height (plug cw (fill (d, m, bm, Leaf) hole)) <= max_depth ->
  height (plug cw (fill (d, m, bm, Leaf) hole)) <= Z.of_nat fuel ->
  exists branch',
    remove_choose fuel rm (parent_of c_rm) (Z.of_nat (length c_rm))
      (bits_of c_rm) (last_cmp c_rm) s
    = Some (Go (parent_of (cw ++ [(d, rm, b, other)]), m, hd hole, branch',
                last_cmp (cw ++ (d, m, b, other) :: c_rm)), s) /\
    (forall i f,
       nth_error (rev (cw ++ (d, m, b, other) :: c_rm)) i = Some f ->
       branch' (Z.of_nat i) = f_dir f).
Proof.
  intros Hmax Hd Hext Hdirs Hwf Hrmcw He Hbound Hfuel.
  set (tm := fill (d, m, bm, Leaf) hole) in *.
  set (W := plug cw tm) in *.
  set (acc := ((d, rm, b, other) : frame) :: c_rm).
  assert (HWne : W <> Leaf).
  { intros E. apply (f_equal handles) in E. unfold W, tm in E.
    rewrite handles_plug, handles_fill in E. cbn [handles] in E.
    destruct (ctx_left cw); [|discriminate].
    destruct d; cbn in E; [discriminate|].
    destruct (handles hole); discriminate. }
  assert (Hrm : rm <> null /\ faulty rm = false /\ balance_factor s rm = b /\
                (if d then greater s rm else less s rm) = hd W /\ wf s W).
  { destruct d; cbn [fill] in Hwf; wf_split Hwf; auto. }
  destruct Hrm as (Hrm & Hfrm & Hbf & Hlink & HwW).
  pose proof (height_nonneg W).
  assert (Hm : wf s tm /\ m <> null /\ faulty m = false /\
               (if d then greater s m else less s m) = hd hole).
  { apply wf_plug in HwW. destruct HwW as (_ & A). split; [exact A|].
    unfold tm in A. destruct d; cbn [fill] in A; wf_split A; auto. }
  destruct Hm as (Hwtm & Hm & Hfm & Hmlink).
  set (C' := cw ++ acc).
  assert (Hwalk :
    remove_walk fuel (dir_of (negb d)) rm (hd W)
      (Z.of_nat (length c_rm) + 1) (upd (bits_of c_rm) (Z.of_nat (length c_rm)) d) s
    = Some (Go (parent_of C', m, Z.of_nat (length C') + 1,
                upd (bits_of C') (Z.of_nat (length C')) (negb d)), s)).
  { replace (Z.of_nat (length c_rm) + 1) with (Z.of_nat (length acc)).
    2:{ unfold acc; cbn [length]. rewrite Nat2Z.inj_succ. reflexivity. }
    change (upd (bits_of c_rm) (Z.of_nat (length c_rm)) d) with (bits_of acc).
    change rm with (parent_of acc) at 1.
    destruct d; cbn [negb dir_of].
    - rewrite (remove_walk_min Hmax W acc fuel s); auto.
      + rewrite min_ctx_acc, Hext. cbn [fst snd]. unfold tm. cbn [fill hd].
        reflexivity.
      + unfold acc. cbn [length]. lia.
    - rewrite (remove_walk_max Hmax W acc fuel s); auto.
      + rewrite max_ctx_acc, Hext. cbn [fst snd]. unfold tm. cbn [fill hd].
        reflexivity.
      + unfold acc. cbn [length]. lia. }
  unfold remove_choose. exec. rewrite Hbf.
  assert (Hchild : forall B (k : handle -> M B),
            bind (if b <? 0 then get_lt rm else get_gt rm) k s = k (hd W) s).
  { intros B k. rewrite <- Hlink. subst d.
    destruct (b <? 0); cbn [negb];
      [apply bind_get_lt | apply bind_get_gt]; auto. }
  rewrite Hchild. rewrite bind_bit_put by lia. exec. rewrite He.
  rewrite u32_small by (unfold UNSIGNED_MAX in *; lia).
  rewrite (neq_null _ (hd_nonnull s W HwW HWne)). cbn [negb].
  replace (- (if b <? 0 then -1 else 1)) with (dir_of (negb d))
    by (subst d; destruct (b <? 0); reflexivity).
  rewrite <- Hd.
  rewrite (run_bind _ _ _ _ _ Hwalk).
  assert (Hchild2 : forall B (k : handle -> M B),
            bind (if 0 <? dir_of (negb d) then get_lt_na m else get_gt_na m) k s
            = k (hd hole) s).
  { intros B k. rewrite <- Hmlink. destruct d; cbn [negb dir_of Z.ltb Z.compare];
      [apply bind_get_gt_na | apply bind_get_lt_na]; auto. }
  rewrite Hchild2.
  assert (Hpar : parent_of C' = parent_of (cw ++ [(d, rm, b, other)])).
  { unfold C', acc. destruct cw; reflexivity. }
  assert (Hcsp : (if parent_of C' =? rm then - dir_of (negb d)
                  else dir_of (negb d))
                 = last_cmp (cw ++ (d, m, b, other) :: c_rm)).
  { unfold C', acc. destruct cw as [|[[[d2 x2] b2] sib2] cw'].
    - cbn [app parent_of f_node fst snd last_cmp f_dir]. rewrite Z.eqb_refl.
      destruct d; reflexivity.
    - cbn [app parent_of f_node fst snd last_cmp f_dir].
      apply Forall_cons_iff in Hdirs. destruct Hdirs as (Hd2 & _).
      cbn [f_dir fst] in Hd2. subst d2.
      rewrite (proj2 (Z.eqb_neq x2 rm)); [reflexivity|].
      intros ->. apply Hrmcw. apply in_ctx_nodes. cbn. auto. }
  rewrite Hcsp, Hpar.
  eexists. split; [reflexivity|].
  apply (bits_same_dirs _ C').
  - unfold C', acc. rewrite !map_app. reflexivity.
  - apply bits_upd_beyond.
Qed.

(** ** remove: turning the path around *)

Lemma wfrev_same s s' c :
  (forall x, In x (ctx_handles c) -> same_fields s s' x) ->
  wfrev s c -> wfrev s' c.
Proof.
  induction c as [|f c IH]; intros Hs Hwf; [exact I|].
  destruct f as [[[dir x] b] sib]. cbn [wfrev] in *.
  destruct Hwf as (Hn & Hf & Hl & Hb & Hws & Hwc).
  assert (Hx : In x (ctx_handles ((dir, x, b, sib) :: c))).
  { apply in_ctx_nodes. cbn. auto. }
  destruct (Hs x Hx) as (E1 & E2 & E3).
  split; [exact Hn|]. split; [exact Hf|].
  split; [rewrite E1, E2; exact Hl|].
  split; [rewrite E3; exact Hb|].
  split.
  - apply (wf_same s); [|exact Hws].
    intros y Hy. apply Hs. apply ctx_handles_cons. left.
    apply in_ctx_single. auto.
  - apply IH; [|exact Hwc].
    intros y Hy. apply Hs. apply ctx_handles_cons. auto.
Qed.

Lemma wfrev_put_link dir h v s c :
  ~ In h (ctx_handles c) -> wfrev s c -> wfrev (put_link dir h v s) c.
Proof.
  intros Hh. apply wfrev_same. intros x Hx. apply same_put_link.
  intros ->. contradiction.
Qed.

Lemma wfrev_frame_eq L s s' c :
  frame_eq L s s' -> (forall x, In x (ctx_handles c) -> ~ In x L) ->
  wfrev s c -> wfrev s' c.
Proof.
  intros (_ & Hf) Hd. apply wfrev_same. intros x Hx.
  destruct (Hf x (Hd x Hx)) as (A & B & C). repeat split; assumption.
Qed.

Lemma nodup_ctx_app c1 c2 :
  NoDup (ctx_handles (c1 ++ c2)) ->
  NoDup (ctx_handles c1) /\ NoDup (ctx_handles c2) /\
  (forall x, In x (ctx_handles c1) -> ~ In x (ctx_handles c2)).
Proof.
  unfold ctx_handles. rewrite ctx_left_app, ctx_right_app. intros H.
  nd_prep. split; [|split].
  - apply NoDup_app_iff. split; [assumption|]. split; [assumption|].
    intros x Hx. nd_inst x. nd_close.
  - apply NoDup_app_iff. split; [assumption|]. split; [assumption|].
    intros x Hx. nd_inst x. nd_close.
  - intros x Hx. nd_inst x. nd_close.
Qed.

Lemma top_of_snoc c f p : top_of (c ++ [f]) p = f_node f.
Proof.
  revert p. induction c as [|g c IH]; intros p; [reflexivity|].
  cbn [app top_of]. apply IH.
Qed.

Lemma put_link_fields (dir : bool) x q s :
  (if dir then greater (put_link dir x q s) x = q /\
               less (put_link dir x q s) x = less s x
   else less (put_link dir x q s) x = q /\
        greater (put_link dir x q s) x = greater s x) /\
  balance_factor (put_link dir x q s) x = balance_factor s x.
Proof.
  destruct dir; unfold put_link; proj; upd_eval; auto.
Qed.

Lemma frame_eq_put_link dir x q s : frame_eq [x] s (put_link dir x q s).
Proof.
  split; [apply put_link_err|]. intros y Hy.
  apply same_put_link. intros ->. apply Hy. now left.
Qed.

Lemma remove_thread_correct f0 p branch :
  max_depth <= UNSIGNED_MAX ->
  forall mid co s fuel,
    wfc s (f0 :: mid) p -> wfrev s co -> rd_err s = false ->
    NoDup (ctx_handles ((f0 :: mid) ++ co)) ->
    (forall i f, nth_error (rev ((f0 :: mid) ++ co)) i = Some f ->
                 branch (Z.of_nat i) = f_dir f) ->
    Z.of_nat (length ((f0 :: mid) ++ co)) <= max_depth ->
    (length mid < fuel)%nat ->
    exists s',
      remove_thread fuel (f_node f0) (top_of (f0 :: mid) p) (parent_of co)
        (Z.of_nat (length co)) branch s
      = Some (Go (parent_of (mid ++ co), Z.of_nat (length (mid ++ co))), s') /\
      wfrev s' (mid ++ co) /\ frame_eq (map f_node mid) s s' /\
      root s' = root s.
Proof.
  intros Hmax mid.
  induction mid as [|f mid IH] using rev_ind;
    intros co s fuel Hwfc Hrev He Hnd Hbr Hlen Hfuel.
  - destruct fuel as [|fuel]; [lia|].
    cbn [top_of remove_thread]. rewrite Z.eqb_refl.
    exists s. split; [reflexivity|]. split; [exact Hrev|].
    split; [apply frame_eq_refl | reflexivity].
  - destruct fuel as [|fuel]; [lia|].
    destruct f as [[[d x] b] sib].
    rewrite app_comm_cons in Hwfc. apply wfc_app in Hwfc.
    destruct Hwfc as (Hin & Hf). cbn [wfc] in Hf.
    destruct Hf as (Hxn & Hxf & Hxl & Hxb & Hxs & _).
    rewrite app_comm_cons, top_of_snoc. cbn [f_node fst snd].
    rewrite app_comm_cons in Hnd, Hbr, Hlen.
    match type of Hnd with
    | NoDup (ctx_handles ?L) =>
        assert (Heq : L = (f0 :: mid) ++ (d, x, b, sib) :: co)
          by (rewrite <- app_assoc; reflexivity)
    end.
    rewrite Heq in Hnd, Hbr, Hlen. clear Heq.
    pose proof (nodup_ctx_app _ _ Hnd) as (Hnd1 & Hnd2 & Hdis).
    pose proof (nodup_ctx_cons _ _ _ _ _ Hnd2) as (Hxsib & Hxco & _ & _ & _).
    assert (Hxin : ~ In x (ctx_handles (f0 :: mid))).
    { intros Hx. apply (Hdis x Hx). apply in_ctx_nodes. cbn. auto. }
    assert (Hx0 : x <> f_node f0).
    { intros E. apply Hxin. apply in_ctx_nodes. rewrite E. cbn. auto. }
    cbn [remove_thread]. rewrite (proj2 (Z.eqb_neq _ _) Hx0).
    rewrite length_app in Hlen. cbn [length] in Hlen.
    rewrite bind_bit_get by lia.
    destruct (nth_error_rev_split (f0 :: mid) co (d, x, b, sib)) as (Hnth & _).
    rewrite (Hbr _ _ Hnth). cbn [f_dir fst].
    rewrite u32_small by (unfold UNSIGNED_MAX in *; lia).
    set (s1 := put_link d x (parent_of co) s).
    assert (Hstep : forall B (k : handle -> M B),
      @bind handle B
        (if d then (c <- get_gt x ;; set_gt x (parent_of co) ;;; ret c)
         else (c <- get_lt x ;; set_lt x (parent_of co) ;;; ret c)) k s
      = k (top_of (f0 :: mid) p) s1).
    { intros B k. unfold s1, put_link. destruct d; destruct Hxl as (Hxl & _);
        rewrite <- Hxl; exec; reflexivity. }
    rewrite Hstep. rewrite bind_read_error.
    replace (rd_err s1) with false by (unfold s1; rewrite put_link_err; auto).
    destruct (IH ((d, x, b, sib) :: co) s1 fuel) as (s' & Hrun & Hrev' & Hfr & Hroot).
    + unfold s1. apply wfc_put_link; assumption.
    + cbn [wfrev]. unfold s1.
      pose proof (put_link_fields d x (parent_of co) s) as (Hlk & Hbf).
      split; [exact Hxn|]. split; [exact Hxf|].
      split.
      { destruct d; destruct Hlk as (A1 & A2); destruct Hxl as (_ & A3);
          rewrite A1, A2, A3; auto. }
      split; [rewrite Hbf; exact Hxb|].
      split; [apply wf_put_link; assumption|].
      apply wfrev_put_link; assumption.
    + unfold s1. rewrite put_link_err. exact He.
    + exact Hnd.
    + exact Hbr.
    + rewrite length_app. cbn [length]. exact Hlen.
    + rewrite length_app in Hfuel. cbn [length] in Hfuel. lia.
    + cbn [length parent_of f_node fst snd] in Hrun.
      rewrite Nat2Z.inj_succ in Hrun. unfold Z.succ in Hrun.
      rewrite Hrun. rewrite <- !app_assoc. cbn [app].
      eexists. split; [reflexivity|]. split; [exact Hrev'|].
      split.
      * apply (frame_eq_trans _ s s1 s').
        -- apply (frame_eq_weaken [x]); [|apply frame_eq_put_link].
           intros y [<-|[]]. rewrite map_app. apply in_or_app. right.
           cbn. auto.
        -- apply (frame_eq_weaken (map f_node mid)); [|exact Hfr].
           intros y Hy. rewrite map_app. apply in_or_app. auto.
      * rewrite Hroot. unfold s1. apply put_link_root.
Qed.

(** ** remove: the climb *)

Lemma wf_root_fields s t :
  wf s t -> t <> Leaf ->
  hd t <> null /\ faulty (hd t) = false /\
  balance_factor s (hd t) = bf_of t.
Proof.
  destruct t as [|l x b r]; intros Hwf Hne; [congruence|].
  wf_split Hwf. cbn [hd bf_of]. auto.
Qed.

Lemma fill_fields s dir x b sib t :
  wf s (fill (dir, x, b, sib) t) ->
  x <> null /\ faulty x = false /\ balance_factor s x = b /\
  wf s sib /\ wf s t.
Proof.
  intros Hwf. destruct dir; cbn [fill] in Hwf; wf_split Hwf; auto.
Qed.

Lemma fill_nonleaf f t : fill f t <> Leaf.
Proof. destruct f as [[[[|] x] b] sib]; discriminate. Qed.

Lemma handles_shrink_step f t reduced :
  handles (fst (shrink_step f t reduced)) = handles (fill f t).
Proof.
  destruct f as [[[dir x] b] sib]. unfold shrink_step.
  destruct reduced; [|reflexivity].
  destruct ((_ =? -2) || (_ =? 2)); cbn [fst].
  - apply handles_balance_t.
  - destruct dir; reflexivity.
Qed.

Lemma remove_adjust_correct dir x b sib t reduced s :
  wf s (fill (dir, x, b, sib) t) ->
  NoDup (handles (fill (dir, x, b, sib) t)) ->
  rd_err s = false ->
  shrink_step_ok (dir, x, b, sib) t reduced ->
  exists s1,
    remove_adjust x reduced (dir_of dir) s
    = Some (Go (hd (fst (shrink_step (dir, x, b, sib) t reduced)),
                snd (shrink_step (dir, x, b, sib) t reduced)), s1) /\
    wf s1 (fst (shrink_step (dir, x, b, sib) t reduced)) /\
    frame_eq (handles (fill (dir, x, b, sib) t)) s s1 /\
    root s1 = root s.
Proof.
  intros Hwf Hnd He Hok.
  pose proof (fill_fields _ _ _ _ _ _ Hwf) as (Hxn & Hxf & Hxb & Hws & Hwt).
  unfold remove_adjust, shrink_step. destruct reduced.
  - rewrite bind_get_bf by assumption. rewrite Hxb.
    cbn [shrink_step_ok] in Hok. specialize (Hok eq_refl).
    destruct (((if dir_of dir <? 0 then b + 1 else b - 1) =? -2)
              || ((if dir_of dir <? 0 then b + 1 else b - 1) =? 2)) eqn:E2.
    + specialize (Hok eq_refl).
      destruct (balance_correct _ _ Hwf Hnd He Hok)
        as (s1 & Hrun & Hwf1 & Hfr & Hroot).
      rewrite hd_fill in Hrun. cbn [f_node fst snd] in Hrun.
      rewrite (run_bind _ _ _ _ _ Hrun). rewrite bind_read_error.
      replace (rd_err s1) with false by (destruct Hfr as (-> & _); auto).
      assert (Hne : balance_t (fill (dir, x, b, sib) t) <> Leaf).
      { intros E. apply (f_equal handles) in E.
        rewrite handles_balance_t in E. revert E.
        destruct dir; cbn [fill handles]; intros E;
          apply (f_equal (@length handle)) in E;
          rewrite ?length_app in E; cbn [length] in E;
          rewrite ?length_app in E; cbn [length] in E; lia. }
      destruct (wf_root_fields _ _ Hwf1 Hne) as (Hn1 & Hf1 & Hb1).
      rewrite bind_get_bf by assumption. rewrite Hb1. cbn [fst snd].
      exists s1. split; [reflexivity|]. split; [exact Hwf1|].
      split; [exact Hfr| exact Hroot].
    + rewrite bind_set_bf by assumption. cbn [fst snd].
      eexists. split; [destruct dir; reflexivity|].
      split; [|split].
      * eapply wf_fill_update; [exact Hwf|..]; proj; upd_eval; auto.
        -- intros y Hy. apply same_put_bf. intros ->.
           apply nodup_plug with (c := [(dir, x, b, sib)]) in Hnd.
           destruct Hnd as (_ & Hc & _).
           apply nodup_ctx_cons in Hc. destruct Hc as (Hc & _). contradiction.
        -- apply wf_put_bf; [|exact Hwt]. intros Hx.
           apply nodup_plug with (c := [(dir, x, b, sib)]) in Hnd.
           destruct Hnd as (_ & _ & Hd). apply (Hd x Hx).
           apply in_ctx_nodes. cbn. auto.
      * split; [reflexivity|]. intros y Hy. apply same_put_bf.
        intros ->. apply Hy. rewrite handles_fill.
        destruct dir; cbn [ctx_left ctx_right app]; in_solve.
      * reflexivity.
  - exists s. split; [destruct dir; reflexivity|]. cbn [fst].
    split; [exact Hwf|]. split; [apply frame_eq_refl | reflexivity].
Qed.

Lemma remove_climb_correct branch :
  max_depth <= UNSIGNED_MAX ->
  forall C f t reduced s fuel,
    wf s (fill f t) -> wfrev s C -> rd_err s = false ->
    NoDup (handles (plug (f :: C) t)) ->
    (forall i g, nth_error (rev C) i = Some g ->
                 branch (Z.of_nat i) = f_dir g) ->
    Z.of_nat (length C) <= max_depth ->
    shrink_ok (f :: C) t reduced ->
    (length C < fuel)%nat ->
    exists s',
      remove_climb fuel (f_node f) (parent_of C) (Z.of_nat (length C)) branch
        reduced (dir_of (f_dir f)) s
      = Some (Go (hd (shrink_up (f :: C) t reduced)), s') /\
      wf s' (shrink_up (f :: C) t reduced) /\
      rd_err s' = false /\ root s' = root s.
Proof.
  intros Hmax C.
  induction C as [|f1 C IH];
    intros f t reduced s fuel Hwf Hrev He Hnd Hbr Hlen Hok Hfuel;
    (destruct fuel as [|fuel]; [lia|]);
    destruct f as [[[dir x] b] sib];
    match type of Hnd with
    | NoDup (handles (plug (_ :: ?c) _)) =>
        pose proof (nodup_plug c (fill (dir, x, b, sib) t) Hnd)
          as (Hndf & HndC & Hdis)
    end;
    cbn [shrink_ok] in Hok; destruct Hok as (Hok1 & Hok2);
    destruct (remove_adjust_correct _ _ _ _ _ _ _ Hwf Hndf He Hok1)
      as (s1 & Hrun & Hwf1 & Hfr & Hroot);
    pose proof (handles_shrink_step (dir, x, b, sib) t reduced) as Hh;
    cbn [remove_climb f_node f_dir fst snd];
    rewrite (run_bind _ _ _ _ _ Hrun); cbn [shrink_up];
    set (t1 := fst (shrink_step (dir, x, b, sib) t reduced)) in *;
    set (r1 := snd (shrink_step (dir, x, b, sib) t reduced)) in *;
    assert (He1 : rd_err s1 = false) by (destruct Hfr as (-> & _); exact He).
  - cbn [parent_of]. rewrite Z.eqb_refl. exists s1.
    split; [reflexivity|]. split; [exact Hwf1|]. split; assumption.
  - destruct f1 as [[[d1 x1] b1] sib1].
    assert (Hrev1 : wfrev s1 ((d1, x1, b1, sib1) :: C)).
    { apply (wfrev_frame_eq _ s s1 _ Hfr); [|exact Hrev].
      intros y Hy Hy'. exact (Hdis y Hy' Hy). }
    cbn [wfrev] in Hrev1.
    destruct Hrev1 as (Hn1 & Hf1 & Hl1 & Hb1 & Hws1 & HrevC).
    pose proof (nodup_ctx_cons _ _ _ _ _ HndC)
      as (Hx1sib & Hx1C & _ & HndC' & _).
    assert (Hx1t : ~ In x1 (handles t1)).
    { rewrite Hh. intros Hx. apply (Hdis x1 Hx).
      apply in_ctx_nodes. cbn. auto. }
    cbn [parent_of f_node fst snd length]. cbn [length] in Hlen.
    rewrite (neq_null _ Hn1).
    rewrite Nat2Z.inj_succ in *. unfold Z.succ in *.
    rewrite Z.add_simpl_r.
    rewrite u32_small by (unfold UNSIGNED_MAX in *; lia).
    rewrite bind_bit_get by lia.
    assert (Hbit : branch (Z.of_nat (length C)) = d1).
    { apply (Hbr (length C) (d1, x1, b1, sib1)). cbn [rev].
      rewrite nth_error_app2 by (rewrite length_rev; lia).
      rewrite length_rev, Nat.sub_diag. reflexivity. }
    rewrite Hbit.
    set (s2 := put_link d1 x1 (hd t1) s1).
    assert (Hstep : forall B (k : handle -> M B),
      @bind handle B
        (if dir_of d1 <? 0
         then (p <- get_lt x1 ;; set_lt x1 (hd t1) ;;; ret p)
         else (p <- get_gt x1 ;; set_gt x1 (hd t1) ;;; ret p)) k s1
      = k (parent_of C) s2).
    { intros B k. unfold s2, put_link.
      destruct d1; destruct Hl1 as (Hl1 & _); rewrite <- Hl1;
        cbn [dir_of Z.ltb Z.compare]; exec; reflexivity. }
    rewrite Hstep, bind_read_error.
    replace (rd_err s2) with false by (unfold s2; rewrite put_link_err; auto).
    destruct (IH (d1, x1, b1, sib1) t1 r1 s2 fuel)
      as (s' & Hrun' & Hwf' & He' & Hroot').
    + apply wf_fill. split.
      * cbn [wfc]. unfold s2.
        pose proof (put_link_fields d1 x1 (hd t1) s1) as (Hlk & Hbf).
        split; [exact Hn1|]. split; [exact Hf1|].
        split.
        { destruct d1; destruct Hlk as (A1 & A2); destruct Hl1 as (_ & A3);
            rewrite A1, A2, A3; auto. }
        split; [rewrite Hbf; exact Hb1|].
        split; [apply wf_put_link; assumption | exact I].
      * unfold s2. apply wf_put_link; assumption.
    + unfold s2. apply wfrev_put_link; assumption.
    + unfold s2. rewrite put_link_err. exact He1.
    + cbn [plug]. cbn [plug] in Hnd.
      rewrite handles_plug, handles_fill, Hh.
      rewrite handles_plug, handles_fill in Hnd. exact Hnd.
    + intros i g Hg. apply Hbr. cbn [rev].
      rewrite nth_error_app1; [exact Hg|].
      apply nth_error_Some. congruence.
    + lia.
    + exact Hok2.
    + cbn [length] in Hfuel. lia.
    + cbn [f_node f_dir fst snd] in Hrun'. rewrite Hrun'.
      exists s'. split; [reflexivity|]. split; [exact Hwf'|].
      split; [exact He'|]. rewrite Hroot'. unfold s2.
      rewrite put_link_root. exact Hroot.
Qed.

(** ** remove: the way back to the root *)

Lemma handles_shrink_up : forall c t reduced,
  handles (shrink_up c t reduced) = handles (plug c t).
Proof.
  induction c as [|f c IH]; intros t reduced; [reflexivity|].
  cbn [shrink_up plug]. rewrite IH, !handles_plug, handles_shrink_step.
  reflexivity.
Qed.

Lemma remove_retrace_correct C hole branch rm s fuel :
  max_depth <= UNSIGNED_MAX ->
  wf s (plug C hole) -> root s = hd (plug C hole) -> rd_err s = false ->
  NoDup (handles (plug C hole)) ->
  (forall i g, nth_error (rev C) i = Some g ->
               branch (Z.of_nat i) = f_dir g) ->
  Z.of_nat (length C) <= max_depth ->
  (length C < fuel)%nat ->
  shrink_ok C hole true ->
  exists s',
    remove_retrace fuel rm (parent_of C) branch (last_cmp C) s
    = Some (rm, s') /\
    wf s' (shrink_up C hole true) /\
    root s' = hd (shrink_up C hole true) /\ rd_err s' = false.
Proof.
  intros Hmax Hwf Hroot He Hnd Hbr Hlen Hfuel Hok.
  unfold remove_retrace. destruct C as [|f0 mid].
  - cbn [parent_of]. rewrite Z.eqb_refl. cbn [negb].
    exists s. split; [reflexivity|]. split; [exact Hwf|]. split; assumption.
  - pose proof (proj1 (wf_plug _ _ _) Hwf) as (Hwfc & Hwh).
    assert (Hpn : parent_of (f0 :: mid) <> null).
    { apply (wfc_nonnull _ _ _ Hwfc). discriminate. }
    rewrite (neq_null _ Hpn). cbn [negb].
    rewrite bind_get_root, Hroot, hd_plug.
    pose proof (nodup_plug _ _ Hnd) as (Hndh & Hndc & Hdis).
    destruct (remove_thread_correct f0 (hd hole) branch Hmax mid [] s fuel)
      as (s1 & Hrun1 & Hrev1 & Hfr1 & Hroot1).
    + exact Hwfc.
    + exact I.
    + exact He.
    + rewrite app_nil_r. exact Hndc.
    + rewrite app_nil_r. exact Hbr.
    + rewrite app_nil_r. exact Hlen.
    + cbn [length] in Hfuel. lia.
    + cbn [parent_of length] in Hrun1. rewrite app_nil_r in Hrun1, Hrev1.
      cbn [parent_of]. change (Z.of_nat 0) with 0 in Hrun1.
      rewrite (run_bind _ _ _ _ _ Hrun1).
      assert (Hmidc : forall x, In x (map f_node mid) ->
                                In x (ctx_handles mid)).
      { intros x. apply in_ctx_nodes. }
      cbn [plug] in Hnd.
      pose proof (nodup_plug _ _ Hnd) as (Hndf & Hndm & Hdism).
      destruct (remove_climb_correct branch Hmax mid f0 hole true s1 fuel)
        as (s2 & Hrun2 & Hwf2 & He2 & Hroot2).
      * apply (wf_frame_eq _ s s1 _ Hfr1).
        -- intros x Hx Hx'. exact (Hdism x Hx (Hmidc x Hx')).
        -- cbn [plug] in Hwf. apply wf_plug in Hwf. apply Hwf.
      * exact Hrev1.
      * destruct Hfr1 as (-> & _). exact He.
      * exact Hnd.
      * intros i g Hg. apply Hbr. cbn [rev].
        rewrite nth_error_app1; [exact Hg|].
        apply nth_error_Some. congruence.
      * cbn [length] in Hlen. lia.
      * exact Hok.
      * cbn [length] in Hfuel. lia.
      * cbn [last_cmp]. rewrite (run_bind _ _ _ _ _ Hrun2).
        rewrite bind_set_root.
        eexists. split; [reflexivity|].
        split; [apply wf_put_root; exact Hwf2|].
        split; [reflexivity | exact He2].
Qed.

(** ** remove: a key that is present *)

(** The two shapes of the splice: nothing hangs on the side [remove] looks
    at, or the walk finds a replacement [m] there. *)
Lemma splice_view c_rm l rm b r :
  ((if b <? 0 then l else r) = Leaf /\
   splice_of c_rm (Node l rm b r) = (c_rm, Leaf)) \/
  exists cw m bm hole other,
    Node l rm b r
    = fill (negb (b <? 0), rm, b, other)
        (plug cw (fill (negb (b <? 0), m, bm, Leaf) hole)) /\
    Forall (fun f => f_dir f = negb (negb (b <? 0))) cw /\
    (if negb (b <? 0)
     then min_ctx (plug cw (fill (negb (b <? 0), m, bm, Leaf) hole)) [] =
            (cw, fill (negb (b <? 0), m, bm, Leaf) hole)
     else max_ctx (plug cw (fill (negb (b <? 0), m, bm, Leaf) hole)) [] =
            (cw, fill (negb (b <? 0), m, bm, Leaf) hole)) /\
    splice_of c_rm (Node l rm b r)
    = (cw ++ (negb (b <? 0), m, b, other) :: c_rm, hole) /\
    Z.of_nat (length cw) + 1 + height hole
    <= height (plug cw (fill (negb (b <? 0), m, bm, Leaf) hole)) /\
    height (plug cw (fill (negb (b <? 0), m, bm, Leaf) hole)) + 1
    <= height (Node l rm b r).
Proof.
  unfold splice_of. destruct (b <? 0); cbn [negb].
  - destruct l as [|l1 x1 b1 r1]; [left; auto|]. right.
    destruct (max_ctx_spec (Node l1 x1 b1 r1) []) as (cw & l' & m & bm & E & Ep & Hd & Hh);
      [discriminate|].
    rewrite app_nil_r in E. rewrite E.
    exists cw, m, bm, l', r. cbn [fill]. rewrite <- Ep.
    split; [reflexivity|]. split; [exact Hd|]. split; [exact E|].
    split; [reflexivity|]. split; [exact Hh|].
    cbn [height]. lia.
  - destruct r as [|l1 x1 b1 r1]; [left; auto|]. right.
    destruct (min_ctx_spec (Node l1 x1 b1 r1) []) as (cw & r' & m & bm & E & Ep & Hd & Hh);
      [discriminate|].
    rewrite app_nil_r in E. rewrite E.
    exists cw, m, bm, r', l. cbn [fill]. rewrite <- Ep.
    split; [reflexivity|]. split; [exact Hd|]. split; [exact E|].
    split; [reflexivity|]. split; [exact Hh|].
    cbn [height]. lia.
Qed.

Lemma nth_error_rev_outer (cw c : ctx) (g : frame) i f :
  nth_error (rev c) i = Some f ->
  nth_error (rev (cw ++ g :: c)) i = Some f.
Proof.
  intros H. rewrite rev_app_distr. cbn [rev]. rewrite <- app_assoc.
  rewrite nth_error_app1; [exact H|]. apply nth_error_Some. congruence.
Qed.

Lemma nodup_drop {A} (a b : list A) x : NoDup (a ++ x :: b) -> NoDup (a ++ b).
Proof. apply NoDup_remove_1. Qed.

Lemma remove_unlink_present k t s fuel c_rm l rm b r :
  max_depth <= UNSIGNED_MAX -> Rep s t ->
  find_ctx k t [] = Some (c_rm, Node l rm b r) ->
  height t <= max_depth -> height t < Z.of_nat fuel ->
  exists branch s1,
    remove_unlink fuel k s
    = Some (Go (rm, parent_of (fst (splice_of c_rm (Node l rm b r))), branch,
                last_cmp (fst (splice_of c_rm (Node l rm b r)))), s1) /\
    Rep s1 (plug (fst (splice_of c_rm (Node l rm b r)))
              (snd (splice_of c_rm (Node l rm b r)))) /\
    (forall i g,
       nth_error (rev (fst (splice_of c_rm (Node l rm b r)))) i = Some g ->
       branch (Z.of_nat i) = f_dir g) /\
    Z.of_nat (length (fst (splice_of c_rm (Node l rm b r)))) < height t.
Proof.
  intros Hmax (Hroot & Hwf & Hnd & He) Hfind Hh Hfuel.
  destruct (find_ctx_spec _ _ _ _ _ Hfind) as (Hplug & _ & Hlen & _).
  cbn [plug length] in Hplug, Hlen. change (Z.of_nat 0) with 0 in Hlen.
  pose proof (remove_find_present k Hmax t [] fuel s _ _ Hwf He Hfind) as Hrun0.
  cbn [length parent_of last_cmp bits_of] in Hrun0.
  change (Z.of_nat 0) with 0 in Hrun0.
  specialize (Hrun0 ltac:(lia) Hfuel). cbn [hd] in Hrun0.
  unfold remove_unlink.
  rewrite bind_get_root, Hroot, (run_bind _ _ _ _ _ Hrun0).
  rewrite <- Hplug in Hwf, Hnd, Hroot.
  pose proof (proj1 (wf_plug _ _ _) Hwf) as (Hwfc & Hwrm).
  pose proof (height_nonneg l). pose proof (height_nonneg r).
  pose proof (height_nonneg t).
  destruct (splice_view c_rm l rm b r)
    as [(Hleaf & Es) | (cw & m & bm & hole & other & Et & Hd & Hext & Es & Hh1 & Hh2)];
    rewrite Es in *; cbn [fst snd].
  - cbn [height] in Hlen.
    rewrite (run_bind _ _ _ _ _
               (remove_choose_leaf c_rm l rm b r fuel s Hmax Hwrm He Hleaf
                  ltac:(lia))).
    destruct (remove_splice_leaf c_rm l rm b r
                (upd (bits_of c_rm) (Z.of_nat (length c_rm)) (negb (b <? 0)))
                s Hwf Hnd Hroot He)
      as (s1 & Hrun1 & Hwf1 & Hroot1 & He1).
    rewrite (run_bind _ _ _ _ _ Hrun1).
    assert (Hnd1 : NoDup (handles (plug c_rm Leaf))).
    { rewrite handles_plug in *. cbn [handles app] in *.
      apply NoDup_app_iff in Hnd. destruct Hnd as (N1 & N2 & N3).
      apply NoDup_app_iff in N2. destruct N2 as (N2 & N4 & N5).
      apply NoDup_app_iff. split; [exact N1|]. split; [exact N4|].
      intros x Hx Hx'. apply (N3 x Hx). apply in_or_app. auto. }
    eexists. exists s1. split; [reflexivity|].
    split; [repeat split; assumption|].
    split; [apply bits_upd_beyond | lia].
  - remember (negb (b <? 0)) as d eqn:Ed in *.
    rewrite Et in Hwf, Hnd, Hroot, Hwrm.
    pose proof (splice_distinct _ _ _ _ _ _ _ _ _ Hnd) as Hfacts.
    destruct Hfacts as (_ & _ & _ & (_ & Hrmcw) & _).
    pose proof (height_nonneg hole).
    destruct (remove_choose_node d c_rm rm b other cw m bm hole
                fuel s Hmax Ed Hext Hd Hwrm Hrmcw He)
      as (branch' & Hrun1 & Hbr).
    { lia. }
    { lia. }
    rewrite (run_bind _ _ _ _ _ Hrun1).
    destruct (remove_splice_node d c_rm rm b other cw m bm hole
                branch' s Hmax Hwf Hnd Hroot He Hd)
      as (s1 & Hrun2 & Hwf1 & Hroot1 & He1).
    + intros i f Hf. apply Hbr. apply nth_error_rev_outer. exact Hf.
    + lia.
    + rewrite (run_bind _ _ _ _ _ Hrun2).
      destruct (handles_splice d c_rm rm b other cw m bm hole Hd)
        as (A & B & EA & EB).
      rewrite EA in Hnd. pose proof (nodup_drop _ _ _ Hnd) as Hnd1.
      rewrite <- EB in Hnd1.
      exists branch', s1. split; [reflexivity|].
      split; [repeat split; assumption|].
      split; [exact Hbr|].
      rewrite length_app. cbn [length].
      rewrite Nat2Z.inj_add, Nat2Z.inj_succ. lia.
Qed.

Lemma remove_present_run k t s fuel c_rm l rm b r :
  max_depth <= UNSIGNED_MAX -> Rep s t ->
  find_ctx k t [] = Some (c_rm, Node l rm b r) ->
  height t <= max_depth -> height t < Z.of_nat fuel ->
  shrink_ok (fst (splice_of c_rm (Node l rm b r)))
    (snd (splice_of c_rm (Node l rm b r))) true ->
  exists s', remove fuel k s = Some (rm, s') /\ Rep s' (rem_tree k t).
Proof.
  intros Hmax HRep Hfind Hh Hfuel Hok.
  destruct (remove_unlink_present k t s fuel c_rm l rm b r
              Hmax HRep Hfind Hh Hfuel)
    as (branch & s1 & Hrun1 & (Hroot1 & Hwf1 & Hnd1 & He1) & Hbr & Hlen).
  unfold remove, rem_tree. rewrite Hfind, (run_bind _ _ _ _ _ Hrun1).
  destruct (splice_of c_rm (Node l rm b r)) as [C hole]. cbn [fst snd] in *.
  destruct (remove_retrace_correct C hole branch rm s1 fuel
              Hmax Hwf1 Hroot1 He1 Hnd1 Hbr)
    as (s2 & Hrun2 & Hwf2 & Hroot2 & He2); [lia | lia | exact Hok |].
  exists s2. split; [exact Hrun2|].
  split; [exact Hroot2|]. split; [exact Hwf2|].
  split; [rewrite handles_shrink_up; exact Hnd1 | exact He2].
Qed.


(** ** remove: the invariants *)

Lemma shrink_step_avl dir x b sib t t0 (reduced : bool) :
  avl (fill (dir, x, b, sib) t0) -> avl t ->
  height t = height t0 - (if reduced then 1 else 0) ->
  avl (fst (shrink_step (dir, x, b, sib) t reduced)) /\
  height (fst (shrink_step (dir, x, b, sib) t reduced))
  = height (fill (dir, x, b, sib) t0)
    - (if snd (shrink_step (dir, x, b, sib) t reduced) then 1 else 0) /\
  shrink_step_ok (dir, x, b, sib) t reduced.
Proof.
  intros Ha Hat Hh. pose proof (height_nonneg t). pose proof (height_nonneg t0).
  pose proof (height_nonneg sib).
  unfold shrink_step, shrink_step_ok. destruct reduced.
  - destruct dir; cbn [dir_of fill avl height] in *;
      destruct Ha as (Hb & Hr & Ha1 & Ha2).
    + replace (1 <? 0) with false by reflexivity.
      destruct (Z.eqb_spec (b - 1) (-2)) as [E|E]; cbn [orb].
      * destruct (balance_t_less sib x b t Ha1 Hat ltac:(lia) ltac:(lia))
          as (Hrot & Hav & Hht & Hbf).
        cbn [fst snd]. split; [exact Hav|]. split; [|intros _ _; exact Hrot].
        rewrite Hht, Hbf. destruct (bf_of sib =? 0); cbn [negb]; lia.
      * destruct (Z.eqb_spec (b - 1) 2) as [E2|E2]; [lia|]. cbn [fst snd].
        split; [cbn [avl]; repeat split; auto; lia|].
        split; [|intros _ F; discriminate F].
        cbn [height]. destruct (Z.eqb_spec (b - 1) 0); lia.
    + replace (-1 <? 0) with true by reflexivity.
      destruct (Z.eqb_spec (b + 1) 2) as [E|E];
        [rewrite orb_true_r | rewrite orb_false_r].
      * destruct (balance_t_greater t x b sib Hat Ha2 ltac:(lia) ltac:(lia))
          as (Hrot & Hav & Hht & Hbf).
        cbn [fst snd]. split; [exact Hav|]. split; [|intros _ _; exact Hrot].
        rewrite Hht, Hbf. destruct (bf_of sib =? 0); cbn [negb]; lia.
      * destruct (Z.eqb_spec (b + 1) (-2)) as [E2|E2]; [lia|]. cbn [fst snd].
        split; [cbn [avl]; repeat split; auto; lia|].
        split; [|intros _ F; discriminate F].
        cbn [height]. destruct (Z.eqb_spec (b + 1) 0); lia.
  - cbn [fst snd]. split; [|split; [|intros F; discriminate F]].
    + apply avl_fill. apply avl_fill in Ha. destruct Ha as (_ & Ha).
      split; [exact Hat|]. destruct dir; rewrite Hh, Z.sub_0_r; exact Ha.
    + rewrite Z.sub_0_r. apply height_fill_eq. lia.
Qed.

Lemma shrink_avl : forall c t t0 (reduced : bool),
  avl (plug c t0) -> avl t ->
  height t = height t0 - (if reduced then 1 else 0) ->
  avl (shrink_up c t reduced) /\ shrink_ok c t reduced.
Proof.
  induction c as [|[[[dir x] b] sib] c IH]; intros t t0 reduced Ha Hat Hh.
  - split; [exact Hat | exact I].
  - cbn [plug] in Ha.
    destruct (shrink_step_avl dir x b sib t t0 reduced
                (avl_plug_hole _ _ Ha) Hat Hh) as (Ha1 & Hh1 & Hok1).
    destruct (IH _ _ _ Ha Ha1 Hh1) as (Ha2 & Hok2).
    cbn [shrink_up shrink_ok]. split; [exact Ha2|]. split; assumption.
Qed.

(** In an AVL tree nothing hangs below a victim whose chosen side is
    empty. *)
Lemma avl_leaf_case l rm b r :
  avl (Node l rm b r) -> (if b <? 0 then l else r) = Leaf ->
  l = Leaf /\ r = Leaf.
Proof.
  cbn [avl]. intros (Hb & Hr & _ & _) Hleaf.
  pose proof (height_nonneg l). pose proof (height_nonneg r).
  destruct (Z.ltb_spec b 0).
  - subst l. cbn [height] in *. lia.
  - subst r. cbn [height] in *. split; [|reflexivity].
    destruct l; [reflexivity|]. cbn [height] in *.
    pose proof (height_nonneg l1). pose proof (height_nonneg l2). lia.
Qed.

Lemma splice_avl c_rm l rm b r :
  avl (plug c_rm (Node l rm b r)) ->
  avl (shrink_up (fst (splice_of c_rm (Node l rm b r)))
         (snd (splice_of c_rm (Node l rm b r))) true) /\
  shrink_ok (fst (splice_of c_rm (Node l rm b r)))
    (snd (splice_of c_rm (Node l rm b r))) true.
Proof.
  intros Ha.
  destruct (splice_view c_rm l rm b r)
    as [(Hleaf & Es) | (cw & m & bm & hole & other & Et & Hd & Hext & Es & Hh1 & Hh2)];
    rewrite Es; cbn [fst snd].
  - destruct (avl_leaf_case _ _ _ _ (avl_plug_hole _ _ Ha) Hleaf) as (-> & ->).
    apply (shrink_avl c_rm Leaf (Node Leaf rm b Leaf) true Ha I).
    reflexivity.
  - remember (negb (b <? 0)) as d eqn:Ed in *. clear Ed. rewrite Et in Ha.
    set (W := plug cw (fill (d, m, bm, Leaf) hole)) in *.
    assert (Ha' : avl (plug (cw ++ (d, m, b, other) :: c_rm)
                         (fill (d, m, bm, Leaf) hole))).
    { rewrite plug_app. cbn [plug]. fold W.
      apply (avl_plug_replace c_rm (fill (d, rm, b, other) W)); [exact Ha| |].
      - apply avl_fill. apply avl_plug_hole in Ha. apply avl_fill in Ha.
        destruct d; exact Ha.
      - destruct d; reflexivity. }
    apply (shrink_avl _ hole (fill (d, m, bm, Leaf) hole) true Ha').
    + apply avl_plug_hole in Ha'. apply avl_fill in Ha'. apply Ha'.
    + pose proof (height_nonneg hole).
      destruct d; cbn [fill height]; lia.
Qed.

Lemma rem_tree_handles k t c_rm l rm b r :
  avl t -> find_ctx k t [] = Some (c_rm, Node l rm b r) ->
  exists A B, handles t = A ++ rm :: B /\ handles (rem_tree k t) = A ++ B.
Proof.
  intros Ha Hfind.
  destruct (find_ctx_spec _ _ _ _ _ Hfind) as (Hplug & _).
  cbn [plug] in Hplug. unfold rem_tree. rewrite Hfind.
  rewrite <- Hplug in Ha |- *. clear Hplug Hfind.
  destruct (splice_view c_rm l rm b r)
    as [(Hleaf & Es) | (cw & m & bm & hole & other & Et & Hd & Hext & Es & Hh1 & Hh2)];
    rewrite Es, handles_shrink_up.
  - destruct (avl_leaf_case _ _ _ _ (avl_plug_hole _ _ Ha) Hleaf) as (-> & ->).
    exists (ctx_left c_rm), (ctx_right c_rm).
    rewrite !handles_plug. split; reflexivity.
  - rewrite Et. apply handles_splice. exact Hd.
Qed.

Lemma sorted_drop (A B : list Z) z :
  StronglySorted Z.lt (A ++ z :: B) -> StronglySorted Z.lt (A ++ B).
Proof.
  intros H. apply ssorted_app_iff in H. destruct H as (H1 & H2 & H3).
  apply ssorted_cons_iff in H2. destruct H2 as (H2 & _).
  apply ssorted_app_iff. split; [exact H1|]. split; [exact H2|].
  intros x y Hx Hy. apply H3; [exact Hx | now right].
Qed.

Lemma rem_tree_bst k t c_rm l rm b r :
  avl t -> bst t -> find_ctx k t [] = Some (c_rm, Node l rm b r) ->
  bst (rem_tree k t).
Proof.
  intros Ha Hb Hfind.
  destruct (rem_tree_handles _ _ _ _ _ _ _ Ha Hfind) as (A & B & EA & EB).
  apply bst_sorted. apply bst_sorted in Hb. unfold keys in *.
  rewrite EB. rewrite EA in Hb. rewrite map_app in *. cbn [map] in Hb.
  exact (sorted_drop _ _ _ Hb).
Qed.

(** After the splice the victim's place holds the replacement. *)
Lemma splice_replacement c_rm l rm b r :
  avl (Node l rm b r) ->
  exists X,
    plug (fst (splice_of c_rm (Node l rm b r)))
      (snd (splice_of c_rm (Node l rm b r))) = plug c_rm X /\
    hd X = replacement (Node l rm b r).
Proof.
  intros Ha.
  destruct (splice_view c_rm l rm b r)
    as [(Hleaf & Es) | (cw & m & bm & hole & other & Et & Hd & Hext & Es & Hh1 & Hh2)];
    rewrite Es; cbn [fst snd].
  - destruct (avl_leaf_case _ _ _ _ Ha Hleaf) as (-> & ->).
    exists Leaf. split; reflexivity.
  - exists (fill (negb (b <? 0), m, b, other) (plug cw hole)).
    split; [rewrite plug_app; reflexivity|].
    rewrite hd_fill. cbn [f_node fst snd].
    cbn [avl] in Ha. destruct Ha as (Hb & _).
    unfold replacement. destruct (Z.ltb_spec b 0) as [Hlt|Hge];
      cbn [negb fill] in *; injection Et as El Er.
    + replace (height r <? height l) with true
        by (symmetry; apply Z.ltb_lt; lia).
      rewrite El, handles_plug, (ctx_right_all_true cw Hd), app_nil_r.
      cbn [handles]. rewrite !app_assoc. symmetry. apply last_last.
    + replace (height r <? height l) with false
        by (symmetry; apply Z.ltb_ge; lia).
      rewrite Er, handles_plug, (ctx_left_all_false cw Hd).
      reflexivity.
Qed.

(** ** Claim C2 *)

(** C2. For a tree satisfying the invariants and a key [k] present in it,
    [remove] returns the node [rm] whose key is [k].  Up to the splice the
    victim's place (the context [c_rm] of [rm]) receives a subtree [X] whose
    root is the replacement: the greatest node of the victim's less subtree
    when that subtree is deeper, otherwise the least node of its greater
    subtree, null when both are empty.  Afterwards the in-order key sequence
    is the prior one with [k] deleted. *)
Theorem C2_remove_present_key fuel k s t :
  max_depth <= UNSIGNED_MAX ->
  Rep s t -> bst t -> avl t ->
  height t <= max_depth -> height t < Z.of_nat fuel ->
  In k (keys t) ->
  exists rm c_rm t_rm,
    t = plug c_rm t_rm /\ hd t_rm = rm /\ key_of rm = k /\
    (exists X path branch csp s1,
       remove_unlink fuel k s = Some (Go (rm, path, branch, csp), s1) /\
       Rep s1 (plug c_rm X) /\ hd X = replacement t_rm) /\
    (exists s' t' A B,
       remove fuel k s = Some (rm, s') /\ Rep s' t' /\
       keys t = A ++ k :: B /\ keys t' = A ++ B).
Proof.
  intros Hmax HRep Hbst Havl Hh Hfuel Hk.
  destruct (find_ctx_present k t [] Hbst Hk) as (c_rm & t_rm & Hfind).
  destruct (find_ctx_spec _ _ _ _ _ Hfind)
    as (Hplug & (l & rm & b & r & -> & Hkey) & _).
  cbn [plug] in Hplug.
  exists rm, c_rm, (Node l rm b r).
  split; [symmetry; exact Hplug|]. split; [reflexivity|].
  split; [exact Hkey|].
  assert (Harm : avl (plug c_rm (Node l rm b r))) by (rewrite Hplug; exact Havl).
  split.
  - destruct (remove_unlink_present k t s fuel c_rm l rm b r
                Hmax HRep Hfind Hh Hfuel)
      as (branch & s1 & Hrun1 & HRep1 & _).
    destruct (splice_replacement c_rm l rm b r (avl_plug_hole _ _ Harm))
      as (X & HX & Hrep).
    rewrite HX in HRep1.
    exists X. do 3 eexists. exists s1.
    split; [exact Hrun1|]. split; [exact HRep1 | exact Hrep].
  - destruct (splice_avl c_rm l rm b r Harm) as (_ & Hok).
    destruct (remove_present_run k t s fuel c_rm l rm b r
                Hmax HRep Hfind Hh Hfuel Hok) as (s' & Hrun & HRep').
    destruct (rem_tree_handles _ _ _ _ _ _ _ Havl Hfind) as (A & B & EA & EB).
    exists s', (rem_tree k t), (map key_of A), (map key_of B).
    split; [exact Hrun|]. split; [exact HRep'|].
    unfold keys. rewrite EA, EB, !map_app. cbn [map]. rewrite Hkey.
    split; reflexivity.
Qed.

(** [remove] keeps the invariants, whether the key is present or not. *)
Lemma remove_preserves fuel k s t :
  max_depth <= UNSIGNED_MAX ->
  Rep s t -> bst t -> avl t ->
  height t <= max_depth -> height t < Z.of_nat fuel ->
  exists r s' t',
    remove fuel k s = Some (r, s') /\ Rep s' t' /\ bst t' /\ avl t'.
Proof.
  intros Hmax HRep Hbst Havl Hh Hfuel.
  destruct (find_ctx k t []) as [[c_rm t_rm]|] eqn:Hfind.
  - destruct (find_ctx_spec _ _ _ _ _ Hfind)
      as (Hplug & (l & rm & b & r & -> & Hkey) & _).
    cbn [plug] in Hplug.
    assert (Harm : avl (plug c_rm (Node l rm b r)))
      by (rewrite Hplug; exact Havl).
    destruct (splice_avl c_rm l rm b r Harm) as (Ha' & Hok).
    destruct (remove_present_run k t s fuel c_rm l rm b r
                Hmax HRep Hfind Hh Hfuel Hok) as (s' & Hrun & HRep').
    exists rm, s', (rem_tree k t).
    split; [exact Hrun|]. split; [exact HRep'|].
    split; [exact (rem_tree_bst _ _ _ _ _ _ _ Havl Hbst Hfind)|].
    unfold rem_tree. rewrite Hfind.
    destruct (splice_of c_rm (Node l rm b r)). exact Ha'.
  - assert (Hk : ~ In k (keys t)).
    { intros Hk. destruct (find_ctx_present k t [] Hbst Hk) as (c & u & E).
      congruence. }
    exists null, s, t.
    split; [|split; [exact HRep | split; assumption]].
    destruct HRep as (Hr & Hwf & Hnd & He).
    assert (Hu : remove_unlink fuel k s = Some (Ret null, s)).
    { unfold remove_unlink.
      rewrite (run_bind _ _ _ (root s) s eq_refl), Hr.
      rewrite (run_bind _ _ _ _ _
                 (remove_find_absent k Hmax t fuel null 0 bset_new 0 s
                    Hwf He Hk ltac:(lia) ltac:(lia) Hfuel)).
      reflexivity. }
    unfold remove. rewrite (run_bind _ _ _ _ _ Hu). reflexivity.
Qed.


(** [remove] of a key that is present, in one statement. *)
Lemma remove_present_keys fuel k s t :
  max_depth <= UNSIGNED_MAX ->
  Rep s t -> bst t -> avl t ->
  height t <= max_depth -> height t < Z.of_nat fuel ->
  In k (keys t) ->
  exists rm s' t' A B,
    remove fuel k s = Some (rm, s') /\ key_of rm = k /\ In rm (handles t) /\
    Rep s' t' /\ bst t' /\ avl t' /\
    keys t = A ++ k :: B /\ keys t' = A ++ B.
Proof.
  intros Hmax HRep Hbst Havl Hh Hfuel Hk.
  destruct (find_ctx_present k t [] Hbst Hk) as (c_rm & t_rm & Hfind).
  destruct (find_ctx_spec _ _ _ _ _ Hfind)
    as (Hplug & (l & rm & b & r & -> & Hkey) & _).
  cbn [plug] in Hplug.
  assert (Harm : avl (plug c_rm (Node l rm b r))) by (rewrite Hplug; exact Havl).
  destruct (splice_avl c_rm l rm b r Harm) as (Ha' & Hok).
  destruct (remove_present_run k t s fuel c_rm l rm b r
              Hmax HRep Hfind Hh Hfuel Hok) as (s' & Hrun & HRep').
  destruct (rem_tree_handles _ _ _ _ _ _ _ Havl Hfind) as (A & B & EA & EB).
  exists rm, s', (rem_tree k t), (map key_of A), (map key_of B).
  split; [exact Hrun|]. split; [exact Hkey|].
  split; [rewrite EA; apply in_or_app; right; now left|].
  split; [exact HRep'|].
  split; [exact (rem_tree_bst _ _ _ _ _ _ _ Havl Hbst Hfind)|].
  split.
  { unfold rem_tree. rewrite Hfind.
    destruct (splice_of c_rm (Node l rm b r)). exact Ha'. }
  unfold keys. rewrite EA, EB, !map_app. cbn [map]. rewrite Hkey.
  split; reflexivity.
Qed.

(** A list without repetition splits around an element in one way only. *)
Lemma split_unique (A B L R : list Z) z :
  NoDup (A ++ z :: B) -> A ++ z :: B = L ++ z :: R -> A = L /\ B = R.
Proof.
  revert L. induction A as [|a A IH]; intros L Hnd E.
  - destruct L as [|x L]; cbn [app] in *.
    + injection E as E. auto.
    + injection E as <- E. apply NoDup_cons_iff in Hnd.
      destruct Hnd as (Hn & _). exfalso. apply Hn. rewrite E.
      apply in_or_app. right. now left.
  - destruct L as [|x L]; cbn [app] in *.
    + injection E as -> E. apply NoDup_cons_iff in Hnd.
      destruct Hnd as (Hn & _). exfalso. apply Hn.
      apply in_or_app. right. now left.
    + injection E as -> E. apply NoDup_cons_iff in Hnd.
      destruct Hnd as (_ & Hnd). destruct (IH L Hnd E) as (-> & ->). auto.
Qed.

Lemma sorted_nodup (l : list Z) : StronglySorted Z.lt l -> NoDup l.
Proof.
  induction 1 as [|a l Hs IH Hall]; constructor; [|exact IH].
  intros Hin. rewrite Forall_forall in Hall. specialize (Hall a Hin). lia.
Qed.

(** ** Claim C3 *)

(** C3 (as the code has it).  When the key of [h] is not yet in the tree,
    [insert h] followed by [remove (key h)] gives back [h] and a tree with
    the in-order key sequence from before the insertion. *)
Theorem C3_insert_remove_round_trip fuel h s t :
  max_depth <= UNSIGNED_MAX ->
  Rep s t -> bst t -> avl t ->
  h <> null -> faulty h = false ->
  ~ In (key_of h) (keys t) ->
  height t < max_depth -> height t + 1 < Z.of_nat fuel ->
  exists s1 s2 t2,
    insert fuel h s = Some (h, s1) /\
    remove fuel (key_of h) s1 = Some (h, s2) /\
    Rep s2 t2 /\ bst t2 /\ avl t2 /\ keys t2 = keys t.
Proof.
  intros Hmax HRep Hbst Havl Hh Hf Hkey Hd Hfuel.
  assert (Hfresh : ~ In h (handles t)).
  { intros Hi. apply Hkey. unfold keys. apply in_map. exact Hi. }
  destruct (ins_tree_avl_height h t Havl) as ((Hai & Hhi) & Hrot).
  destruct (insert_fresh_correct fuel h s t Hmax HRep Hh Hf Hfresh Hkey
              ltac:(lia) ltac:(lia) Hrot) as (s1 & Hrun1 & HRep1).
  pose proof (ins_tree_bst h t Hbst Hkey) as Hbi.
  assert (Hin : In (key_of h) (keys (ins_tree h t))).
  { unfold keys. rewrite handles_ins_tree, map_app. apply in_or_app.
    right. now left. }
  destruct (remove_present_keys fuel (key_of h) s1 (ins_tree h t) Hmax HRep1
              Hbi Hai ltac:(lia) ltac:(lia) Hin)
    as (rm & s2 & t2 & A & B & Hrun2 & Hkrm & Hrmin & HRep2 & Hb2 & Ha2 & EA & EB).
  assert (Hsplit : keys (ins_tree h t)
                   = map key_of (ctx_left (ins_ctx (key_of h) t []))
                     ++ key_of h
                     :: map key_of (ctx_right (ins_ctx (key_of h) t []))).
  { unfold keys. rewrite handles_ins_tree, map_app. reflexivity. }
  assert (Hnd : NoDup (A ++ key_of h :: B)).
  { rewrite <- EA. apply sorted_nodup. apply bst_sorted. exact Hbi. }
  rewrite EA in Hsplit. destruct (split_unique _ _ _ _ _ Hnd Hsplit) as (-> & ->).
  assert (Erm : rm = h).
  { destruct HRep1 as (_ & _ & Hndh & _).
    rewrite handles_ins_tree in Hrmin, Hndh.
    apply in_app_or in Hrmin. destruct Hrmin as [Hl|[E|Hr]]; [|auto|].
    - exfalso. apply Hkey. rewrite <- Hkrm. unfold keys.
      rewrite (handles_ins_ctx (key_of h) t), map_app. apply in_or_app.
      left. apply in_map. exact Hl.
    - exfalso. apply Hkey. rewrite <- Hkrm. unfold keys.
      rewrite (handles_ins_ctx (key_of h) t), map_app. apply in_or_app.
      right. apply in_map. exact Hr. }
  subst rm.
  exists s1, s2, t2. split; [exact Hrun1|]. split; [exact Hrun2|].
  split; [exact HRep2|]. split; [exact Hb2|]. split; [exact Ha2|].
  rewrite EB. unfold keys.
  rewrite (handles_ins_ctx (key_of h) t), map_app. reflexivity.
Qed.

(** ** Claim C5 *)

(** C5 (as the code has it).  [search k LESS] yields the rightmost node whose
    key is strictly below [k] and [search k GREATER] the leftmost node whose
    key is strictly above [k]; null when there is none. *)
Theorem C5_search_less_greater_strict fuel k s t :
  Rep s t -> bst t -> height t < Z.of_nat fuel ->
  search fuel k LESS s
  = Some (rightmost (fun x => key_of x <? k) (handles t), s) /\
  search fuel k GREATER s
  = Some (leftmost (fun x => k <? key_of x) (handles t), s).
Proof.
  intros HRep Hbst Hfuel. split.
  - exact (search_less_spec fuel k s t HRep Hbst Hfuel).
  - exact (search_greater_spec fuel k s t HRep Hbst Hfuel).
Qed.

(** ** Claim C7 *)

(** C7. In a tree holding exactly the keys 10, 20, 30, 40, 50,
    [search 25 LESS_EQUAL] yields the node with key 20,
    [search 25 GREATER_EQUAL] the node with key 30, and [search 25 EQUAL]
    yields null. *)
Theorem C7_search_between_keys fuel s t :
  Rep s t -> keys t = [10; 20; 30; 40; 50] -> height t < Z.of_nat fuel ->
  exists a b,
    In a (handles t) /\ key_of a = 20 /\
    In b (handles t) /\ key_of b = 30 /\
    search fuel 25 LESS_EQUAL s = Some (a, s) /\
    search fuel 25 GREATER_EQUAL s = Some (b, s) /\
    search fuel 25 EQUAL s = Some (null, s).
Proof.
  intros HRep Hkeys Hfuel.
  assert (Hbst : bst t).
  { apply bst_sorted. rewrite Hkeys.
    repeat (constructor; [|repeat (constructor; [lia|]); constructor]).
    constructor. }
  rewrite (search_less_equal_spec fuel 25 s t HRep Hbst Hfuel).
  rewrite (search_greater_equal_spec fuel 25 s t HRep Hbst Hfuel).
  rewrite (search_equal_spec fuel 25 s t HRep Hbst Hfuel).
  unfold keys in Hkeys.
  destruct (handles t) as [|h1 [|h2 [|h3 [|h4 [|h5 [|h6 hs]]]]]];
    try discriminate Hkeys.
  cbn [map] in Hkeys. injection Hkeys as K1 K2 K3 K4 K5.
  exists h2, h3. unfold rightmost, leftmost. cbn [rev app find In].
  rewrite K1, K2, K3, K4, K5. cbn.
  repeat split; auto.
Qed.


(** ** The iterator *)

Lemma height_plug_ge c : forall t,
  Z.of_nat (length c) + height t <= height (plug c t).
Proof.
  induction c as [|[[[dir x] b] sib] c IH]; intros t; cbn [plug length].
  - lia.
  - specialize (IH (fill (dir, x, b, sib) t)).
    pose proof (height_nonneg sib). pose proof (height_nonneg t).
    rewrite Nat2Z.inj_succ.
    destruct dir; cbn [fill height] in IH |- *; lia.
Qed.

Lemma agree_path_prefix path L L' :
  agree_path path (L ++ L') -> agree_path path L.
Proof.
  intros H i h Hi. apply H. rewrite nth_error_app1; [exact Hi|].
  apply nth_error_Some. congruence.
Qed.

Lemma agree_path_snoc path L y :
  agree_path path L ->
  agree_path (upd path (Z.of_nat (length L) - 1) y) (L ++ [y]).
Proof.
  intros H i h Hi.
  destruct (Nat.lt_ge_cases (S i) (length L)) as [Hlt|Hge].
  - rewrite nth_error_app1 in Hi by exact Hlt.
    rewrite upd_other by lia. apply H. exact Hi.
  - rewrite nth_error_app2 in Hi by exact Hge.
    destruct (S i - length L)%nat as [|n] eqn:E.
    + cbn in Hi. injection Hi as <-.
      replace (Z.of_nat (length L) - 1) with (Z.of_nat i) by lia.
      apply upd_same.
    + cbn in Hi. destruct n; discriminate.
Qed.

Lemma agree_bits_push branch c d x b sib :
  agree_bits branch c ->
  agree_bits (upd branch (Z.of_nat (length c)) d) ((d, x, b, sib) :: c).
Proof.
  intros H i f Hi. cbn [rev] in Hi.
  destruct (Nat.lt_ge_cases i (length (rev c))) as [Hlt|Hge].
  - rewrite nth_error_app1 in Hi by exact Hlt. rewrite length_rev in Hlt.
    rewrite upd_other by lia. apply H. exact Hi.
  - rewrite nth_error_app2 in Hi by exact Hge. rewrite length_rev in *.
    destruct (i - length c)%nat as [|n] eqn:E.
    + cbn in Hi. injection Hi as <-.
      replace (Z.of_nat i) with (Z.of_nat (length c)) by lia.
      rewrite upd_same. reflexivity.
    + cbn in Hi. destruct n; discriminate.
Qed.

Lemma agree_bits_pop branch f c :
  agree_bits branch (f :: c) -> agree_bits branch c.
Proof.
  intros H i g Hi. apply H. cbn [rev].
  rewrite nth_error_app1; [exact Hi|]. apply nth_error_Some. congruence.
Qed.

Lemma agree_bits_head branch d x b sib c :
  agree_bits branch ((d, x, b, sib) :: c) ->
  branch (Z.of_nat (length c)) = d.
Proof.
  intros H. apply (H (length c) (d, x, b, sib)). cbn [rev].
  rewrite nth_error_app2 by (rewrite length_rev; apply Nat.le_refl).
  rewrite length_rev, Nat.sub_diag. reflexivity.
Qed.

Lemma path_nodes_cons f c x :
  path_nodes (f :: c) x = path_nodes c (f_node f) ++ [x].
Proof.
  unfold path_nodes. cbn [rev]. rewrite map_app. reflexivity.
Qed.

Lemma path_nodes_length c x : length (path_nodes c x) = S (length c).
Proof.
  unfold path_nodes. rewrite length_app, length_map, length_rev.
  cbn [length]. lia.
Qed.

Lemma path_nodes_last c x : nth_error (path_nodes c x) (length c) = Some x.
Proof.
  unfold path_nodes.
  rewrite nth_error_app2 by (rewrite length_map, length_rev; apply Nat.le_refl).
  rewrite length_map, length_rev, Nat.sub_diag. reflexivity.
Qed.

Lemma it_pos_push it c x b sib d y :
  it_pos it c x ->
  it_pos (mkIter (upd (it_branch it) (Z.of_nat (length c)) d)
            (Z.of_nat (length c) + 1)
            (upd (it_path_h it) (Z.of_nat (length c)) y))
    ((d, x, b, sib) :: c) y.
Proof.
  intros (Hd & Hb & Hp). unfold it_pos. cbn [it_depth it_branch it_path_h].
  split; [cbn [length]; lia|]. split; [apply agree_bits_push; exact Hb|].
  rewrite path_nodes_cons. cbn [f_node fst snd].
  replace (Z.of_nat (length c))
    with (Z.of_nat (length (path_nodes c x)) - 1)
    by (rewrite path_nodes_length; lia).
  apply agree_path_snoc. exact Hp.
Qed.

Lemma bind_path_get {B} p i (f : handle -> M B) s :
  0 <= i < max_depth - 1 -> bind (path_get p i) f s = f (p i) s.
Proof.
  intros Hi. unfold bind, path_get.
  replace ((0 <=? i) && (i <? max_depth - 1)) with true; [reflexivity|].
  symmetry. apply andb_true_intro. split; [apply Z.leb_le | apply Z.ltb_lt]; lia.
Qed.

Lemma bind_path_put {B} p i h (f : (Z -> handle) -> M B) s :
  0 <= i < max_depth - 1 -> bind (path_put p i h) f s = f (upd p i h) s.
Proof.
  intros Hi. unfold bind, path_put.
  replace ((0 <=? i) && (i <? max_depth - 1)) with true; [reflexivity|].
  symmetry. apply andb_true_intro. split; [apply Z.leb_le | apply Z.ltb_lt]; lia.
Qed.

Lemma run_path_get p i s :
  0 <= i < max_depth - 1 -> path_get p i s = Some (p i, s).
Proof.
  intros Hi. unfold path_get.
  replace ((0 <=? i) && (i <? max_depth - 1)) with true; [reflexivity|].
  symmetry. apply andb_true_intro. split; [apply Z.leb_le | apply Z.ltb_lt]; lia.
Qed.

Lemma iter_deref_pos it c x s :
  max_depth <= UNSIGNED_MAX ->
  it_pos it c x -> root s = top_of c x ->
  Z.of_nat (length c) < max_depth ->
  iter_deref it s = Some (x, s).
Proof.
  intros Hmax (Hd & Hb & Hp) Hroot Hlen. unfold iter_deref. rewrite Hd.
  rewrite (proj2 (Z.eqb_neq _ _)) by lia.
  destruct c as [|f c].
  - cbn [length top_of] in *. change (Z.of_nat 0 =? 0) with true. cbv iota.
    unfold get_root. rewrite Hroot. reflexivity.
  - cbn [length]. rewrite Nat2Z.inj_succ. unfold Z.succ.
    rewrite (proj2 (Z.eqb_neq _ _)) by lia.
    rewrite Z.add_simpl_r. cbn [length] in Hlen.
    rewrite Nat2Z.inj_succ in Hlen.
    rewrite run_path_get by lia.
    rewrite (Hp (length c) x); [reflexivity|].
    apply (path_nodes_last (f :: c) x).
Qed.

Lemma u32_pred_succ n :
  Z.of_nat n < UNSIGNED_MAX ->
  u32 (u32 (Z.of_nat n - 1) + 1) = Z.of_nat n.
Proof.
  intros H. destruct n as [|n].
  - reflexivity.
  - rewrite Nat2Z.inj_succ in *. unfold Z.succ in *. rewrite Z.add_simpl_r.
    rewrite (u32_small (Z.of_nat n)) by (unfold UNSIGNED_MAX in *; lia).
    apply u32_small. unfold UNSIGNED_MAX in *. lia.
Qed.

Lemma start_iter_least_loop_spec s :
  max_depth <= UNSIGNED_MAX -> rd_err s = false ->
  forall u c path fuel,
    u <> Leaf -> wf s u ->
    agree_path path (map f_node (rev c)) ->
    Z.of_nat (length c) + height u <= max_depth ->
    height u < Z.of_nat fuel ->
    exists path',
      start_iter_least_loop fuel (hd u) (u32 (Z.of_nat (length c) - 1)) path s
      = Some ((Z.of_nat (length (fst (min_ctx u c))), path'), s) /\
      agree_path path' (path_nodes (fst (min_ctx u c)) (hd (snd (min_ctx u c)))).
Proof.
  intros Hmax He.
  induction u as [|l IHl x b r _]; intros c path fuel Hne Hwf Hp Hlen Hfuel;
    [congruence|].
  wf_split Hwf. cbn [height] in Hlen, Hfuel.
  pose proof (height_nonneg l). pose proof (height_nonneg r).
  destruct fuel as [|fuel]; [lia|].
  cbn [start_iter_least_loop hd]. rewrite (neq_null _ Hn).
  set (path1 := if (length c =? 0)%nat then path
                else upd path (Z.of_nat (length c) - 1) x).
  assert (Hput : forall B (k : (Z -> handle) -> M B),
    bind (if negb (u32 (Z.of_nat (length c) - 1) =? UNSIGNED_MAX)
          then path_put path (u32 (Z.of_nat (length c) - 1)) x
          else ret path) k s = k path1 s).
  { intros B k. unfold path1. destruct c as [|f c]; [reflexivity|].
    cbn [length Nat.eqb] in *. rewrite Nat2Z.inj_succ in *.
    unfold Z.succ in *. rewrite Z.add_simpl_r.
    rewrite u32_small by (unfold UNSIGNED_MAX in *; lia).
    rewrite (proj2 (Z.eqb_neq _ _)) by lia. cbn [negb].
    apply bind_path_put. lia. }
  assert (Hp1 : agree_path path1 (path_nodes c x)).
  { unfold path1, path_nodes. destruct c as [|f c].
    - intros i h Hi. destruct i; discriminate.
    - replace (Z.of_nat (length (f :: c)))
        with (Z.of_nat (length (map f_node (rev (f :: c)))))
        by (rewrite length_map, length_rev; reflexivity).
      cbn [length Nat.eqb]. apply agree_path_snoc. exact Hp. }
  rewrite Hput. rewrite u32_pred_succ by lia.
  rewrite bind_get_lt by assumption. rewrite bind_read_error, He, Hl.
  rewrite min_ctx_node.
  destruct l as [|l1 y by_ l2].
  - destruct fuel as [|fuel]; [cbn [height] in Hfuel; lia|].
    cbn [start_iter_least_loop hd]. rewrite Z.eqb_refl.
    exists path1. split; [reflexivity | exact Hp1].
  - destruct (IHl ((false, x, b, r) :: c) path1 fuel) as (path' & Hrun & Hagree).
    + discriminate.
    + exact Hwl.
    + cbn [rev]. rewrite map_app. exact Hp1.
    + cbn [length]. rewrite Nat2Z.inj_succ. lia.
    + lia.
    + cbn [length] in Hrun. rewrite Nat2Z.inj_succ in Hrun.
      unfold Z.succ in Hrun. rewrite Z.add_simpl_r in Hrun.
      rewrite u32_small in Hrun by (unfold UNSIGNED_MAX in *; lia).
      exists path'. split; [exact Hrun | exact Hagree].
Qed.

Lemma iter_slide_spec s :
  max_depth <= UNSIGNED_MAX -> rd_err s = false ->
  forall u c it fuel,
    u <> Leaf -> wf s u -> it_pos it c (hd u) ->
    Z.of_nat (length c) + height u <= max_depth ->
    height u <= Z.of_nat fuel ->
    exists it',
      iter_slide fuel false (hd u) it s = Some (it', s) /\
      it_pos it' (fst (min_ctx u c)) (hd (snd (min_ctx u c))).
Proof.
  intros Hmax He.
  induction u as [|l IHl x b r _]; intros c it fuel Hne Hwf Hpos Hlen Hfuel;
    [congruence|].
  wf_split Hwf. cbn [height] in Hlen, Hfuel.
  pose proof (height_nonneg l). pose proof (height_nonneg r).
  destruct fuel as [|fuel]; [lia|].
  cbn [iter_slide hd] in *.
  rewrite bind_get_lt by assumption. rewrite bind_read_error, He, Hl.
  rewrite min_ctx_node.
  destruct l as [|l1 y by_ l2].
  - cbn [hd]. rewrite Z.eqb_refl. exists it. split; [reflexivity | exact Hpos].
  - assert (Hy : hd (Node l1 y by_ l2) <> null)
      by (apply (hd_nonnull s); [exact Hwl | discriminate]).
    rewrite (neq_null _ Hy).
    pose proof Hpos as (Hd & _). rewrite Hd.
    cbn [height] in Hlen, Hfuel.
    pose proof (height_nonneg l1). pose proof (height_nonneg l2).
    rewrite bind_bit_put by lia. rewrite bind_path_put by lia.
    rewrite u32_small by (unfold UNSIGNED_MAX in *; lia).
    apply (IHl ((false, x, b, r) :: c)).
    + discriminate.
    + exact Hwl.
    + apply it_pos_push. exact Hpos.
    + cbn [length height]. rewrite Nat2Z.inj_succ. lia.
    + cbn [height]. lia.
Qed.

Lemma iter_pop_spec s branch :
  forall c t fuel,
    agree_bits branch c ->
    Z.of_nat (length c) <= max_depth -> max_depth <= UNSIGNED_MAX ->
    (length c < fuel)%nat ->
    iter_pop fuel false branch (Z.of_nat (length c)) s
    = Some (match pop_ctx c t with
            | Some (c', _) => Z.of_nat (length c')
            | None => UNSIGNED_MAX
            end, s).
Proof.
  induction c as [|[[[d y] b] sib] c IH]; intros t fuel Hb Hlen Hmax Hfuel;
    (destruct fuel as [|fuel]; [lia|]).
  - reflexivity.
  - cbn [iter_pop length pop_ctx] in *. rewrite Nat2Z.inj_succ in *.
    unfold Z.succ in *.
    rewrite (proj2 (Z.eqb_neq _ _)) by lia. rewrite Z.add_simpl_r.
    rewrite u32_small by (unfold UNSIGNED_MAX in *; lia).
    rewrite bind_bit_get by lia.
    match goal with
    | |- context [Bool.eqb ?v false] =>
        replace v with d
          by (symmetry; exact (agree_bits_head _ _ _ _ _ _ Hb))
    end.
    destruct d; cbn [Bool.eqb].
    + apply IH; [exact (agree_bits_pop _ _ _ Hb) | lia | exact Hmax | lia].
    + reflexivity.
Qed.

Lemma pop_ctx_spec : forall c t c' t',
  pop_ctx c t = Some (c', t') ->
  exists pre y b sib,
    c = pre ++ (false, y, b, sib) :: c' /\
    t' = fill (false, y, b, sib) (plug pre t) /\
    Forall (fun f => f_dir f = true) pre.
Proof.
  induction c as [|[[[d y] b] sib] c IH]; intros t c' t' H; [discriminate|].
  cbn [pop_ctx] in H. destruct d.
  - destruct (IH _ _ _ H) as (pre & y' & b' & sib' & -> & -> & Hall).
    exists ((true, y, b, sib) :: pre), y', b', sib'.
    split; [reflexivity|]. split; [reflexivity|].
    constructor; [reflexivity | exact Hall].
  - injection H as <- <-. exists [], y, b, sib.
    split; [reflexivity|]. split; [reflexivity | constructor].
Qed.

Lemma pop_ctx_none : forall c t,
  pop_ctx c t = None -> Forall (fun f => f_dir f = true) c.
Proof.
  induction c as [|[[[d y] b] sib] c IH]; intros t H; [constructor|].
  cbn [pop_ctx] in H. destruct d; [|discriminate].
  constructor; [reflexivity | exact (IH _ H)].
Qed.

Lemma agree_bits_suffix branch pre c :
  agree_bits branch (pre ++ c) -> agree_bits branch c.
Proof.
  intros H i f Hi. apply H. rewrite rev_app_distr.
  rewrite nth_error_app1; [exact Hi|]. apply nth_error_Some. congruence.
Qed.

Lemma min_ctx_plug u c :
  u <> Leaf ->
  plug (fst (min_ctx u c)) (snd (min_ctx u c)) = plug c u /\
  snd (min_ctx u c) <> Leaf /\
  exists cw, fst (min_ctx u c) = cw ++ c /\
             Forall (fun f => f_dir f = false) cw /\
             exists m bm r', snd (min_ctx u c) = Node Leaf m bm r' /\
                             u = plug cw (Node Leaf m bm r').
Proof.
  intros Hne.
  destruct (min_ctx_spec u c Hne) as (cw & r' & m & bm & E & Eu & Hall & _).
  rewrite E. cbn [fst snd]. split; [rewrite plug_app, <- Eu; reflexivity|].
  split; [discriminate|].
  exists cw. split; [reflexivity|]. split; [exact Hall|].
  exists m, bm, r'. split; [reflexivity | exact Eu].
Qed.

Lemma next_pos_some c sub c' sub' :
  next_pos c sub = Some (c', sub') ->
  plug c' sub' = plug c sub /\ sub' <> Leaf /\
  todo c sub = hd sub' :: todo c' sub'.
Proof.
  destruct sub as [|l x b r]; [discriminate|]. cbn [next_pos todo].
  destruct r as [|r1 y by_ r2].
  - intros H.
    destruct (pop_ctx_spec _ _ _ _ H) as (pre & z & bz & sib & -> & -> & Hall).
    split; [rewrite plug_app; reflexivity|]. split; [discriminate|].
    cbn [fill hd todo handles app].
    rewrite ctx_right_app, (ctx_right_all_true pre Hall). reflexivity.
  - intros H. injection H as H.
    change (min_ctx (Node r1 y by_ r2) ((true, x, b, l) :: c) = (c', sub'))
      in H.
    destruct (min_ctx_plug (Node r1 y by_ r2) ((true, x, b, l) :: c))
      as (Hp & Hn & cw & Ec & Hall & m & bm & r' & Es & Eu); [discriminate|].
    rewrite H in Hp, Hn, Ec, Es. cbn [fst snd] in *. subst c' sub'.
    split; [exact Hp|]. split; [discriminate|].
    rewrite Eu, handles_plug, (ctx_left_all_false cw Hall).
    cbn [hd todo handles app]. rewrite ctx_right_app.
    cbn [ctx_right app]. rewrite <- !app_assoc. reflexivity.
Qed.

Lemma next_pos_none c sub :
  sub <> Leaf -> next_pos c sub = None -> todo c sub = [].
Proof.
  destruct sub as [|l x b r]; [congruence|]. intros _. cbn [next_pos todo].
  destruct r as [|r1 y by_ r2]; [|discriminate].
  intros H. apply pop_ctx_none in H. apply ctx_right_all_true. exact H.
Qed.

Lemma iter_incr_spec fuel s t it c sub :
  max_depth <= UNSIGNED_MAX ->
  Rep s t -> height t <= max_depth -> height t < Z.of_nat fuel ->
  iter_at t it c sub ->
  iter_deref it s = Some (hd sub, s) /\
  exists it',
    iter_incr fuel it s = Some (it', s) /\
    match next_pos c sub with
    | Some (c', sub') => iter_at t it' c' sub'
    | None => it_depth it' = UNSIGNED_MAX
    end.
Proof.
  intros Hmax (Hroot & Hwf & _ & He) Hh Hfuel (Hplug & Hne & Hpos).
  pose proof (height_plug_ge c sub) as Hge. rewrite Hplug in Hge.
  rewrite <- Hplug in Hwf, Hroot. rewrite hd_plug in Hroot.
  apply wf_plug in Hwf. destruct Hwf as (Hwfc & Hws).
  destruct sub as [|l x b r]; [congruence|].
  pose proof Hws as Hws'. wf_split Hws'. cbn [height hd] in *.
  pose proof (height_nonneg l). pose proof (height_nonneg r).
  assert (Hderef : iter_deref it s = Some (x, s)).
  { apply (iter_deref_pos it c x s Hmax Hpos Hroot). lia. }
  split; [exact Hderef|].
  pose proof Hpos as (Hd & Hbits & Hp).
  unfold iter_incr. rewrite Hd.
  rewrite (proj2 (Z.eqb_neq _ _)) by lia. cbn [negb].
  rewrite (run_bind _ _ _ _ _ Hderef).
  rewrite bind_get_gt by assumption. rewrite bind_read_error, He, Hg.
  cbn [next_pos]. destruct r as [|r1 y by_ r2].
  - cbn [hd]. rewrite Z.eqb_refl.
    rewrite (run_bind _ _ _ _ _
               (iter_pop_spec s (it_branch it) c (Node l x b Leaf) fuel Hbits
                  ltac:(lia) Hmax ltac:(lia))).
    eexists. split; [reflexivity|].
    destruct (pop_ctx c (Node l x b Leaf)) as [[c' sub']|] eqn:Epop;
      [|reflexivity].
    destruct (pop_ctx_spec _ _ _ _ Epop) as (pre & z & bz & sib & Ec & Es & Hall).
    split; [|split].
    + rewrite <- Hplug, Ec, Es, plug_app. reflexivity.
    + rewrite Es. discriminate.
    + unfold it_pos. cbn [it_depth it_branch it_path_h].
      split; [reflexivity|]. rewrite Ec in Hbits, Hp. split.
      * apply (agree_bits_suffix _ (pre ++ [(false, z, bz, sib)])).
        rewrite <- app_assoc. exact Hbits.
      * rewrite Es. cbn [fill hd]. unfold path_nodes in *.
        rewrite rev_app_distr in Hp. cbn [rev] in Hp.
        rewrite !map_app in Hp. cbn [map f_node fst snd] in Hp.
        rewrite <- !app_assoc in Hp.
        rewrite app_assoc in Hp. exact (agree_path_prefix _ _ _ Hp).
  - assert (Hy : hd (Node r1 y by_ r2) <> null)
      by (apply (hd_nonnull s); [exact Hwr | discriminate]).
    rewrite (neq_null _ Hy).
    cbn [height] in Hge.
    pose proof (height_nonneg r1). pose proof (height_nonneg r2).
    rewrite bind_bit_put by lia. rewrite bind_path_put by lia.
    rewrite u32_small by (unfold UNSIGNED_MAX in *; lia).
    destruct (iter_slide_spec s Hmax He (Node r1 y by_ r2)
                ((true, x, b, l) :: c)
                (mkIter (upd (it_branch it) (Z.of_nat (length c)) true)
                   (Z.of_nat (length c) + 1)
                   (upd (it_path_h it) (Z.of_nat (length c))
                      (hd (Node r1 y by_ r2)))) fuel)
      as (it' & Hrun & Hpos').
    + discriminate.
    + exact Hwr.
    + apply it_pos_push. exact Hpos.
    + cbn [length height]. rewrite Nat2Z.inj_succ. lia.
    + cbn [height]. lia.
    + exists it'. split; [exact Hrun|].
      destruct (min_ctx_plug (Node r1 y by_ r2) ((true, x, b, l) :: c))
        as (Hp' & Hn' & _); [discriminate|].
      destruct (min_ctx (Node r1 y by_ r2) ((true, x, b, l) :: c))
        as [c' sub']. cbn [fst snd] in *.
      split; [rewrite Hp'; exact Hplug|]. split; assumption.
Qed.

Lemma iter_collect_spec fuel s t :
  max_depth <= UNSIGNED_MAX ->
  Rep s t -> height t <= max_depth -> height t < Z.of_nat fuel ->
  forall n it c sub,
    iter_at t it c sub -> length (todo c sub) = n ->
    exists it_last it_end,
      iter_collect (S n) fuel it s
      = Some ((hd sub :: todo c sub, it_end), s) /\
      iter_deref it_last s = Some (last (hd sub :: todo c sub) null, s) /\
      iter_incr fuel it_last s = Some (it_end, s) /\
      it_depth it_end = UNSIGNED_MAX.
Proof.
  intros Hmax HRep Hh Hfuel.
  induction n as [|n IH]; intros it c sub Hat Hlen;
    destruct (iter_incr_spec fuel s t it c sub Hmax HRep Hh Hfuel Hat)
      as (Hderef & it' & Hincr & Hnext);
    pose proof Hat as (_ & Hne & _);
    cbn [iter_collect];
    rewrite (run_bind _ _ _ _ _ Hderef), (run_bind _ _ _ _ _ Hincr).
  - destruct (todo c sub) as [|z zs] eqn:Et; [|discriminate].
    destruct (next_pos c sub) as [[c' sub']|] eqn:En.
    + destruct (next_pos_some _ _ _ _ En) as (_ & _ & E). congruence.
    + exists it, it'. split; [reflexivity|]. split; [exact Hderef|].
      split; [exact Hincr | exact Hnext].
  - destruct (next_pos c sub) as [[c' sub']|] eqn:En.
    + destruct (next_pos_some _ _ _ _ En) as (_ & _ & E).
      rewrite E in Hlen |- *. cbn [length] in Hlen.
      destruct (IH it' c' sub' Hnext ltac:(lia))
        as (it_last & it_end & Hrun & Hdl & Hil & Hend).
      rewrite (run_bind _ _ _ _ _ Hrun). cbn [fst snd].
      exists it_last, it_end. split; [reflexivity|].
      split; [exact Hdl|]. split; [exact Hil | exact Hend].
    + rewrite (next_pos_none _ _ Hne En) in Hlen. discriminate.
Qed.

(** ** Claim C8 *)

(** C8. On a non-empty tree satisfying the invariants, [start_iter_least]
    puts the iterator on the least node; dereferencing and applying [++] as
    many times as the tree has nodes yields every node exactly once, in
    ascending key order; the [++] applied on the greatest node leaves the
    iterator invalid, and dereferencing it then yields null. *)
Theorem C8_iterator_enumerates_ascending fuel it s t :
  max_depth <= UNSIGNED_MAX ->
  Rep s t -> bst t -> t <> Leaf ->
  height t <= max_depth -> height t < Z.of_nat fuel ->
  exists it0 it_last it_end,
    start_iter_least fuel it s = Some (it0, s) /\
    iter_deref it0 s = Some (List.hd null (handles t), s) /\
    (forall y, In y (handles t) ->
               key_of (List.hd null (handles t)) <= key_of y) /\
    iter_collect (length (handles t)) fuel it0 s
    = Some ((handles t, it_end), s) /\
    NoDup (handles t) /\ StronglySorted Z.lt (map key_of (handles t)) /\
    iter_deref it_last s = Some (last (handles t) null, s) /\
    (forall y, In y (handles t) ->
               key_of y <= key_of (last (handles t) null)) /\
    iter_incr fuel it_last s = Some (it_end, s) /\
    it_depth it_end = UNSIGNED_MAX /\
    iter_deref it_end s = Some (null, s).
Proof.
  intros Hmax HRep Hbst Hne Hh Hfuel.
  pose proof HRep as (Hroot & Hwf & Hnd & He).
  destruct (start_iter_least_loop_spec s Hmax He t [] (it_path_h it) fuel
              Hne Hwf) as (path0 & Hloop & Hpath0).
  { intros i h Hi. destruct i; discriminate. }
  { cbn [length]. lia. }
  { exact Hfuel. }
  change (u32 (Z.of_nat (length (@nil frame)) - 1)) with UNSIGNED_MAX in Hloop.
  destruct (min_ctx_plug t [] Hne)
    as (Hplug & Hsne & cw & Ec & Hall & m & bm & r' & Es & Et).
  rewrite app_nil_r in Ec.
  set (c0 := fst (min_ctx t [])) in *. set (sub0 := snd (min_ctx t [])) in *.
  cbn [plug] in Hplug.
  set (it0 := mkIter (bset_reset (it_branch it)) (Z.of_nat (length c0)) path0).
  assert (Hat : iter_at t it0 c0 sub0).
  { split; [exact Hplug|]. split; [exact Hsne|].
    split; [reflexivity|]. split; [|exact Hpath0].
    intros i f Hi. cbn [it_branch it0]. unfold bset_reset.
    apply nth_error_In in Hi. apply in_rev in Hi.
    rewrite Ec in Hi. rewrite Forall_forall in Hall.
    symmetry. exact (Hall f Hi). }
  assert (Hlist : handles t = hd sub0 :: todo c0 sub0).
  { rewrite <- Hplug, handles_plug, Ec, (ctx_left_all_false cw Hall), Es.
    reflexivity. }
  destruct (iter_collect_spec fuel s t Hmax HRep Hh Hfuel
              (length (todo c0 sub0)) it0 c0 sub0 Hat eq_refl)
    as (it_last & it_end & Hrun & Hdl & Hil & Hend).
  destruct (iter_incr_spec fuel s t it0 c0 sub0 Hmax HRep Hh Hfuel Hat)
    as (Hderef0 & _).
  pose proof (proj1 (bst_sorted t) Hbst) as Hsorted. unfold keys in Hsorted.
  exists it0, it_last, it_end.
  split.
  { unfold start_iter_least. rewrite bind_get_root, Hroot.
    rewrite (run_bind _ _ _ _ _ Hloop). reflexivity. }
  rewrite Hlist. cbn [List.hd length].
  split; [exact Hderef0|].
  split.
  { intros y [<-|Hy]; [lia|]. rewrite Hlist in Hsorted. cbn [map] in Hsorted.
    apply ssorted_cons_iff in Hsorted. destruct Hsorted as (_ & Hlt).
    specialize (Hlt (key_of y) (in_map key_of _ _ Hy)). lia. }
  split; [exact Hrun|].
  split; [rewrite <- Hlist; exact Hnd|].
  split; [rewrite <- Hlist; exact Hsorted|].
  split; [exact Hdl|].
  split.
  { rewrite <- Hlist. intros y Hy.
    assert (Hnn : handles t <> []) by (rewrite Hlist; discriminate).
    destruct (exists_last Hnn) as (L & z & EL). rewrite EL in *.
    rewrite last_last. rewrite map_app in Hsorted.
    apply ssorted_app_iff in Hsorted. destruct Hsorted as (_ & _ & Hlt).
    apply in_app_or in Hy. destruct Hy as [Hy|[<-|[]]]; [|lia].
    specialize (Hlt (key_of y) (key_of z) (in_map key_of _ _ Hy)).
    cbn [map In] in Hlt. specialize (Hlt (or_introl eq_refl)). lia. }
  split; [exact Hil|]. split; [exact Hend|].
  unfold iter_deref. rewrite Hend. reflexivity.
Qed.

(** ** subst *)

Lemma subst_find_spec n s :
  rd_err s = false ->
  forall t acc fuel,
    wf s t -> height t < Z.of_nat fuel ->
    subst_find fuel n (hd t) (parent_of acc) (last_cmp acc) s
    = Some (match find_ctx (key_of n) t acc with
            | Some (c, t_rm) => Go (hd t_rm, parent_of c, last_cmp c)
            | None => Ret null
            end, s).
Proof.
  intros He.
  induction t as [|l IHl x b r IHr]; intros acc fuel Hwf Hf;
    (destruct fuel as [|fuel];
     [match type of Hf with height ?u < _ => pose proof (height_nonneg u) end;
      lia|]).
  - reflexivity.
  - wf_split Hwf. cbn [height] in Hf.
    pose proof (height_nonneg l). pose proof (height_nonneg r).
    cbn [subst_find hd find_ctx]. rewrite (neq_null _ Hn).
    unfold cmp_n_n, compare3.
    destruct (Z.ltb_spec (key_of n) (key_of x)) as [Hlt|Hge].
    + cbn. exec. rewrite He, Hl.
      apply (IHl ((false, x, b, r) :: acc)); [exact Hwl | lia].
    + destruct (Z.eqb_spec (key_of n) (key_of x)) as [Heq|Hne].
      * reflexivity.
      * cbn. exec. rewrite He, Hg.
        apply (IHr ((true, x, b, l) :: acc)); [exact Hwr | lia].
Qed.

Lemma nodup_replace (A B : list handle) h n :
  NoDup (A ++ h :: B) -> ~ In n (A ++ h :: B) -> NoDup (A ++ n :: B).
Proof.
  intros Hnd Hn. apply NoDup_app_iff in Hnd. destruct Hnd as (N1 & N2 & N3).
  apply NoDup_cons_iff in N2. destruct N2 as (N4 & N5).
  apply NoDup_app_iff. split; [exact N1|]. split.
  - apply NoDup_cons_iff. split; [|exact N5].
    intros Hi. apply Hn. apply in_or_app. right. now right.
  - intros x Hx [<-|Hx'].
    + apply Hn. apply in_or_app. now left.
    + apply (N3 x Hx). now right.
Qed.

(** [subst] on a key that is in the tree: the new node takes the place of
    the old one. *)
Lemma subst_present_correct fuel n s t c l h b r :
  Rep s t -> find_ctx (key_of n) t [] = Some (c, Node l h b r) ->
  n <> null -> faulty n = false -> ~ In n (handles t) ->
  height t < Z.of_nat fuel ->
  exists s', subst fuel n s = Some (h, s') /\ Rep s' (plug c (Node l n b r)).
Proof.
  intros (Hroot & Hwf & Hnd & He) Hfind Hn Hfn Hfresh Hfuel.
  destruct (find_ctx_spec _ _ _ _ _ Hfind) as (Hplug & _).
  cbn [plug] in Hplug.
  pose proof (subst_find_spec n s He t [] fuel Hwf Hfuel) as Hrun.
  rewrite Hfind in Hrun. cbn [parent_of last_cmp hd] in Hrun.
  unfold subst. rewrite bind_get_root, Hroot, (run_bind _ _ _ _ _ Hrun).
  rewrite <- Hplug in Hwf, Hnd, Hroot, Hfresh.
  pose proof (proj1 (wf_plug _ _ _) Hwf) as (Hwfc & Hwh).
  pose proof (nodup_plug _ _ Hnd) as (Hndh & Hndc & Hdis).
  wf_split Hwh.
  assert (Hnc : ~ In n (ctx_handles c)).
  { intros Hi. apply Hfresh. apply in_plug_ctx. exact Hi. }
  assert (Hnl : ~ In n (handles l)).
  { intros Hi. apply Hfresh. apply in_plug_hole. cbn [handles].
    apply in_or_app. now left. }
  assert (Hnr : ~ In n (handles r)).
  { intros Hi. apply Hfresh. apply in_plug_hole. cbn [handles].
    apply in_or_app. right. now right. }
  exec. rewrite Hl, Hg, Hb.
  set (s1 := put_bf n b (put_greater n (hd r) (put_less n (hd l) s))).
  assert (Hw1 : wf s1 (Node l n b r)).
  { unfold s1. cbn [wf]. proj. upd_eval.
    repeat split; auto; frames. }
  assert (Hc1 : wfc s1 c h) by (unfold s1; frames).
  assert (Hnd' : NoDup (handles (plug c (Node l n b r)))).
  { rewrite handles_plug in Hnd, Hfresh |- *. cbn [handles] in *.
    rewrite <- app_assoc in Hnd, Hfresh |- *. rewrite app_assoc in Hnd, Hfresh |- *.
    cbn [app] in *. exact (nodup_replace _ _ _ _ Hnd Hfresh). }
  destruct c as [|[[[dir p] bp] sib] c'].
  - cbn [parent_of]. rewrite Z.eqb_refl. exec.
    eexists. split; [reflexivity|].
    split; [reflexivity|]. split; [apply wf_put_root; exact Hw1|].
    split; [exact Hnd' | exact He].
  - cbn [parent_of last_cmp f_node f_dir fst snd].
    pose proof (wfc_nonnull _ _ _ Hwfc ltac:(discriminate)) as Hpn.
    cbn [parent_of f_node fst snd] in Hpn.
    rewrite (neq_null _ Hpn). rewrite run_put_link by exact Hpn.
    assert (Hpin : In p (ctx_handles ((dir, p, bp, sib) :: c')))
      by (apply in_ctx_nodes; cbn; auto).
    assert (Hpl : ~ In p (handles (Node l n b r))).
    { cbn [handles]. intros Hi. apply in_app_or in Hi.
      destruct Hi as [Hi|[Hi|Hi]].
      - apply (Hdis p); [cbn [handles]; apply in_or_app; now left | exact Hpin].
      - subst p. exact (Hnc Hpin).
      - apply (Hdis p); [cbn [handles]; apply in_or_app; right; now right
                        | exact Hpin]. }
    eexists. split; [reflexivity|]. split; [|split; [|split]].
    + rewrite put_link_root. fold s1. unfold s1. proj.
      rewrite Hroot, !hd_plug. apply top_of_cons.
    + apply wf_plug. split.
      * cbn [hd]. apply wfc_rehole with (p := h); assumption.
      * apply wf_put_link; assumption.
    + exact Hnd'.
    + rewrite put_link_err. exact He.
Qed.

Lemma subst_preserves fuel n s t :
  Rep s t -> bst t -> avl t ->
  n <> null -> faulty n = false -> ~ In n (handles t) ->
  height t < Z.of_nat fuel ->
  exists r s' t',
    subst fuel n s = Some (r, s') /\ Rep s' t' /\ bst t' /\ avl t' /\
    keys t' = keys t.
Proof.
  intros HRep Hbst Havl Hn Hfn Hfresh Hfuel.
  destruct (find_ctx (key_of n) t []) as [[c t_rm]|] eqn:Hfind.
  - destruct (find_ctx_spec _ _ _ _ _ Hfind)
      as (Hplug & (l & h & b & r & -> & Hkey) & _).
    cbn [plug] in Hplug.
    destruct (subst_present_correct fuel n s t c l h b r HRep Hfind Hn Hfn
                Hfresh Hfuel) as (s' & Hrun & HRep').
    assert (Hkeys : keys (plug c (Node l n b r)) = keys t).
    { rewrite <- Hplug. unfold keys. rewrite !handles_plug. cbn [handles].
      rewrite !map_app. cbn [map]. rewrite Hkey. reflexivity. }
    exists h, s', (plug c (Node l n b r)).
    split; [exact Hrun|]. split; [exact HRep'|].
    split; [apply bst_sorted; rewrite Hkeys; apply bst_sorted; exact Hbst|].
    split; [|exact Hkeys].
    rewrite <- Hplug in Havl.
    apply (avl_plug_replace c (Node l h b r)); [exact Havl | | reflexivity].
    apply avl_plug_hole in Havl. exact Havl.
  - pose proof HRep as (Hroot & Hwf & Hnd & He).
    pose proof (subst_find_spec n s He t [] fuel Hwf Hfuel) as Hrun.
    rewrite Hfind in Hrun. cbn [parent_of last_cmp] in Hrun.
    exists null, s, t. split.
    + unfold subst. rewrite bind_get_root, Hroot, (run_bind _ _ _ _ _ Hrun).
      reflexivity.
    + split; [exact HRep|]. split; [exact Hbst|]. split; [exact Havl|].
      reflexivity.
Qed.


(** ** build: the shape *)

(** Linear arithmetic with division by two. *)
Ltac zdiv :=
  try clear max_depth; try clear key_of; try clear faulty;
  Z.div_mod_to_equations; lia.

Lemma shiftr1 m : Z.shiftr m 1 = m / 2.
Proof. rewrite Z.shiftr_div_pow2 by lia. reflexivity. Qed.

Lemma land1 m : Z.land m 1 = m mod 2.
Proof. change 1 with (Z.ones 1) at 1. rewrite Z.land_ones by lia. reflexivity. Qed.

Lemma rem_bit m : Z.b2z (negb (Z.land m 1 =? 0)) = m mod 2.
Proof.
  rewrite land1. destruct (Z.eqb_spec (m mod 2) 0) as [E|E]; cbn.
  - lia.
  - zdiv.
Qed.

Lemma log2_half n : 2 <= n -> Z.log2 (n / 2) = Z.log2 n - 1.
Proof.
  intros H. rewrite <- shiftr1, Z.log2_shiftr by lia.
  assert (1 <= Z.log2 n) by (apply (Z.log2_le_mono 2 n) in H; exact H).
  lia.
Qed.

Lemma pow2_test n :
  2 <= n ->
  Z.log2 n - Z.log2 (n - 1) = if Z.land n (n - 1) =? 0 then 1 else 0.
Proof.
  intros H. pose proof (Z.log2_spec (n - 1) ltac:(lia)) as Hs.
  pose proof (Z.log2_nonneg (n - 1)) as Hk.
  set (k := Z.log2 (n - 1)) in *.
  destruct (Z.eq_dec n (2 ^ Z.succ k)) as [E|E].
  - rewrite E at 1. rewrite Z.log2_pow2 by lia.
    replace (n - 1) with (Z.ones (Z.succ k))
      by (rewrite Z.ones_equiv; lia).
    rewrite Z.land_ones by lia. rewrite E, Z.mod_same by lia.
    cbn. lia.
  - assert (El : Z.log2 n = k) by (apply Z.log2_unique; lia).
    rewrite El.
    destruct (Z.eqb_spec (Z.land n (n - 1)) 0) as [E0|E0]; [|lia].
    exfalso.
    assert (Hb : Z.testbit (Z.land n (n - 1)) k = true).
    { assert (T1 : Z.testbit n k = true)
        by (rewrite <- El; apply Z.bit_log2; lia).
      assert (T2 : Z.testbit (n - 1) k = true)
        by (unfold k; apply Z.bit_log2; lia).
      rewrite Z.land_spec, T1, T2. reflexivity. }
    rewrite E0, Z.bits_0 in Hb. discriminate.
Qed.

Lemma size_nonneg t : 0 <= size t.
Proof. induction t; cbn [size]; lia. Qed.

Lemma minh_nonneg t : 0 <= minh t.
Proof. induction t; cbn [minh]; lia. Qed.

(** The sizes of the two parts of a subtree of more than two nodes. *)
Lemma build_parts n :
  2 < n ->
  let nl := Z.shiftr (n - 1) 1 in
  let ng := nl + Z.b2z (negb (Z.land (n - 1) 1 =? 0)) in
  nl = (n - 1) / 2 /\ ng = n / 2 /\ 1 <= nl /\ nl <= ng /\ ng < n /\
  nl + ng + 1 = n /\ 0 <= ng - nl <= 1.
Proof.
  intros H nl ng. unfold ng, nl. rewrite rem_bit, shiftr1.
  zdiv.
Qed.

Lemma size_build_t : forall k n p,
  0 <= n <= Z.of_nat k -> size (build_t k n p) = n.
Proof.
  induction k as [|k IH]; intros n p Hn; [cbn; lia|].
  cbn [build_t]. destruct (Z.ltb_spec 2 n) as [H2|H2].
  - destruct (build_parts n H2) as (_ & _ & H1 & H3 & H4 & H5 & _).
    cbn [size]. rewrite !IH by lia. lia.
  - destruct (Z.eqb_spec n 2); [cbn; lia|].
    destruct (Z.eqb_spec n 1); cbn; lia.
Qed.

Lemma height_build_t : forall k n p,
  1 <= n <= Z.of_nat k -> height (build_t k n p) = Z.log2 n + 1.
Proof.
  induction k as [|k IH]; intros n p Hn; [lia|].
  cbn [build_t]. destruct (Z.ltb_spec 2 n) as [H2|H2].
  - destruct (build_parts n H2) as (_ & Eg & H1 & H3 & H4 & _).
    cbn [height]. rewrite !IH by lia.
    pose proof (Z.log2_le_mono _ _ H3). rewrite Eg in *.
    rewrite log2_half in * by lia. lia.
  - destruct (Z.eqb_spec n 2) as [->|]; [reflexivity|].
    destruct (Z.eqb_spec n 1) as [->|]; [reflexivity|lia].
Qed.

Lemma height_build_t_0 k p : height (build_t k 0 p) = 0.
Proof. destruct k; reflexivity. Qed.

Lemma minh_build_t : forall k n p,
  0 <= n <= Z.of_nat k -> minh (build_t k n p) = Z.log2 (n + 1).
Proof.
  induction k as [|k IH]; intros n p Hn.
  - replace n with 0 by lia. reflexivity.
  - cbn [build_t]. destruct (Z.ltb_spec 2 n) as [H2|H2].
    + destruct (build_parts n H2) as (El & Eg & H1 & H3 & H4 & H5 & _).
      cbn [minh]. rewrite !IH by lia.
      assert (Hm : Z.log2 (Z.shiftr (n - 1) 1 + 1)
                   <= Z.log2 (Z.shiftr (n - 1) 1
                              + Z.b2z (negb (Z.land (n - 1) 1 =? 0)) + 1))
        by (apply Z.log2_le_mono; lia).
      rewrite Z.min_l by exact Hm.
      replace (Z.shiftr (n - 1) 1 + 1) with ((n + 1) / 2)
        by (rewrite El; zdiv).
      rewrite log2_half by lia. lia.
    + destruct (Z.eqb_spec n 2) as [->|]; [reflexivity|].
      destruct (Z.eqb_spec n 1) as [->|]; [reflexivity|].
      replace n with 0 by lia. reflexivity.
Qed.

Lemma avl_build_t : forall k n p,
  0 <= n <= Z.of_nat k -> avl (build_t k n p).
Proof.
  induction k as [|k IH]; intros n p Hn; [exact I|].
  cbn [build_t]. destruct (Z.ltb_spec 2 n) as [H2|H2].
  - destruct (build_parts n H2) as (El & Eg & H1 & H3 & H4 & H5 & _).
    cbn [avl]. rewrite !height_build_t by lia.
    split; [|split; [|split; apply IH; lia]].
    + rewrite Eg, El. clear - H2.
      rewrite (log2_half n), (log2_half (n - 1)) by lia.
      pose proof (pow2_test n ltac:(lia)) as Ht.
      destruct (Z.land n (n - 1) =? 0); cbn [negb]; lia.
    + destruct (Z.land n (n - 1) =? 0); cbn [negb]; lia.
  - destruct (Z.eqb_spec n 2); [cbn; lia|].
    destruct (Z.eqb_spec n 1); cbn; lia.
Qed.

Lemma all_bf_build_t : forall k n p,
  all_bf (fun b => b = 0 \/ b = 1) (build_t k n p).
Proof.
  induction k as [|k IH]; intros n p; [exact I|].
  cbn [build_t]. destruct (2 <? n).
  - cbn [all_bf]. split; [destruct (negb _); auto|]. split; apply IH.
  - destruct (n =? 2); [cbn; auto 6|]. destruct (n =? 1); cbn; auto.
Qed.

Lemma excess_build_t : forall k n p,
  0 <= n <= Z.of_nat k -> excess_greater (build_t k n p).
Proof.
  induction k as [|k IH]; intros n p Hn; [exact I|].
  cbn [build_t]. destruct (Z.ltb_spec 2 n) as [H2|H2].
  - destruct (build_parts n H2) as (El & Eg & H1 & H3 & H4 & H5 & H6).
    cbn [excess_greater]. rewrite !size_build_t by lia.
    split; [exact H6|]. split; apply IH; lia.
  - destruct (Z.eqb_spec n 2); [cbn; lia|].
    destruct (Z.eqb_spec n 1); cbn; lia.
Qed.

(** Above the nearest missing child every level is full. *)
Lemma level_count_full : forall t i,
  Z.of_nat i < minh t -> level_count t i = 2 ^ Z.of_nat i.
Proof.
  induction t as [|l IHl x b r IHr]; intros i Hi; cbn [minh] in Hi.
  - lia.
  - destruct i as [|j]; [reflexivity|]. cbn [level_count].
    rewrite Nat2Z.inj_succ in *. rewrite IHl, IHr by lia.
    rewrite Z.pow_succ_r by lia. lia.
Qed.

Lemma firstn_mid {A} (d : A) : forall a b (p : list A),
  (a < length p)%nat ->
  firstn (a + S b) p = firstn a p ++ nth a p d :: firstn b (skipn (S a) p).
Proof.
  induction a as [|a IH]; intros b p Hl; destruct p as [|x p];
    cbn [length] in Hl; try lia.
  - reflexivity.
  - cbn [Nat.add firstn app nth skipn]. f_equal. apply IH. lia.
Qed.

Lemma skipn_nth {A} (d : A) : forall a (p : list A),
  (a < length p)%nat -> skipn a p = nth a p d :: skipn (S a) p.
Proof.
  induction a as [|a IH]; intros p Hl; destruct p as [|x p];
    cbn [length] in Hl; try lia.
  - reflexivity.
  - cbn [skipn nth]. apply IH. lia.
Qed.

Lemma handles_build_t : forall k n p,
  0 <= n <= Z.of_nat k -> n <= Z.of_nat (length p) ->
  handles (build_t k n p) = firstn (Z.to_nat n) p.
Proof.
  induction k as [|k IH]; intros n p Hn Hp.
  - replace n with 0 by lia. reflexivity.
  - cbn [build_t]. destruct (Z.ltb_spec 2 n) as [H2|H2].
    + destruct (build_parts n H2) as (El & Eg & H1 & H3 & H4 & H5 & _).
      cbn [handles].
      set (nl := Z.shiftr (n - 1) 1) in *.
      set (ng := nl + Z.b2z (negb (Z.land (n - 1) 1 =? 0))) in *.
      rewrite !IH; try lia.
      * replace (Z.to_nat n) with (Z.to_nat nl + S (Z.to_nat ng))%nat by lia.
        symmetry. apply firstn_mid. lia.
      * rewrite length_skipn. lia.
    + destruct (Z.eqb_spec n 2) as [->|].
      * destruct p as [|a [|b p]]; cbn [length] in Hp; try lia. reflexivity.
      * destruct (Z.eqb_spec n 1) as [->|].
        -- destruct p as [|a p]; cbn [length] in Hp; try lia. reflexivity.
        -- replace n with 0 by lia. reflexivity.
Qed.

Lemma bottoms_node l x b r :
  l <> Leaf -> bottoms (Node l x b r) = (bottoms l + bottoms r)%nat.
Proof. destruct l; [congruence|]. reflexivity. Qed.

Lemma build_t_nonleaf k n p : 1 <= n <= Z.of_nat k -> build_t k n p <> Leaf.
Proof.
  intros Hn E. apply (f_equal size) in E.
  rewrite size_build_t in E by lia. cbn in E. lia.
Qed.

Lemma bottoms_pos t : t <> Leaf -> (1 <= bottoms t)%nat.
Proof.
  induction t as [|l IHl x b r IHr]; intros Hne; [congruence|].
  destruct l as [|l1 y c l2].
  - destruct r as [|[|r11 z1 c1 r12] z c' [|r21 z2 c2 r22]]; cbn; try lia.
    all: cbn in IHr; specialize (IHr ltac:(discriminate)); lia.
  - rewrite bottoms_node by discriminate.
    specialize (IHl ltac:(discriminate)). lia.
Qed.

(** ** build: running the loops *)

Lemma build_split_stable : forall fi n d br rm s,
  n <= Z.of_nat fi -> (1 <= fi)%nat ->
  build_split (S fi) n d br rm s = build_split fi n d br rm s.
Proof.
  induction fi as [|fi IH]; intros n d br rm s Hn Hfi; [lia|].
  cbn [build_split]. destruct (Z.ltb_spec 2 n) as [H2|H2]; [|reflexivity].
  unfold bind.
  destruct (bit_put rm d _ s) as [[rm' s1]|]; [|reflexivity].
  destruct (bit_put br d false s1) as [[br' s2]|]; [|reflexivity].
  change (build_split (S fi) (Z.shiftr (n - 1) 1) (u32 (d + 1)) br' rm' s2
          = build_split fi (Z.shiftr (n - 1) 1) (u32 (d + 1)) br' rm' s2).
  destruct (build_parts n H2) as (El & _ & H1 & _).
  apply IH; [rewrite El; zdiv | lia].
Qed.

Lemma build_split_small fi n d br rm s :
  n <= 2 -> build_split (S fi) n d br rm s = Some ((n, d, br, rm), s).
Proof.
  intros Hn. cbn [build_split].
  destruct (Z.ltb_spec 2 n); [lia | reflexivity].
Qed.

Lemma build_split_step fi n d br rm s :
  max_depth <= UNSIGNED_MAX ->
  2 < n -> n <= Z.of_nat fi -> 0 <= d < max_depth ->
  build_split fi n d br rm s
  = build_split fi (Z.shiftr (n - 1) 1) (d + 1) (upd br d false)
      (upd rm d (negb (Z.land (n - 1) 1 =? 0))) s.
Proof.
  intros Hmax H2 Hn Hd. destruct fi as [|fi]; [lia|].
  destruct (build_parts n H2) as (El & _ & H1 & _).
  rewrite (build_split_stable fi (Z.shiftr (n - 1) 1)) by (try rewrite El; zdiv).
  cbn [build_split]. destruct (Z.ltb_spec 2 n); [|lia].
  rewrite bind_bit_put by lia. rewrite bind_bit_put by lia.
  rewrite u32_small by (unfold UNSIGNED_MAX in *; lia). reflexivity.
Qed.

Lemma build_unwind_mono : forall fu h lp n d br rm s r,
  build_unwind fu h lp n d br rm s = Some r ->
  build_unwind (S fu) h lp n d br rm s = Some r.
Proof.
  induction fu as [|fu IH]; intros h lp n d br rm s r H; [discriminate|].
  cbn [build_unwind] in H. cbn [build_unwind].
  destruct (d =? 0); [exact H|].
  unfold bind in *.
  destruct (bit_get br (u32 (d - 1)) s) as [[b s1]|]; [|discriminate].
  destruct (negb b); [exact H|].
  destruct (get_gt lp s1) as [[lp' s2]|]; [|discriminate].
  destruct (read_error s2) as [[e s3]|]; [|discriminate].
  destruct e; [exact H|].
  destruct (set_gt lp h s3) as [[u s4]|]; [|discriminate].
  destruct (bit_get rm (u32 (d - 1)) s4) as [[rb s5]|]; [|discriminate].
  destruct (_ : M unit) as [[u' s6]|]; [|discriminate].
  apply IH. exact H.
Qed.

Lemma build_unwind_mono_le fu fu' h lp n d br rm s r :
  (fu <= fu')%nat ->
  build_unwind fu h lp n d br rm s = Some r ->
  build_unwind fu' h lp n d br rm s = Some r.
Proof.
  induction 1 as [|m Hle IH]; intros H; [exact H|].
  apply build_unwind_mono. apply IH. exact H.
Qed.

Lemma build_resume_mono f fu fu' fi p N h lp n d br rm s r :
  (fu <= fu')%nat ->
  build_resume f fu fi p N h lp n d br rm s = Some r ->
  build_resume f fu' fi p N h lp n d br rm s = Some r.
Proof.
  intros Hle H. unfold build_resume, bind in *.
  destruct (build_unwind fu h lp n d br rm s) as [[uw s1]|] eqn:E;
    [|discriminate].
  rewrite (build_unwind_mono_le fu fu' _ _ _ _ _ _ _ _ Hle E). exact H.
Qed.

Lemma bind_seq_deref {B} h p (k : handle -> M B) s :
  faulty h = false -> bind (seq_deref (h :: p)) k s = k h s.
Proof. intros Hf. unfold bind, seq_deref. rewrite Hf. reflexivity. Qed.

Lemma frame_eq_same L s s' :
  rd_err s' = rd_err s ->
  (forall x, ~ In x L -> same_fields s s' x) -> frame_eq L s s'.
Proof. intros He H. split; [exact He|]. intros x Hx. apply (H x Hx). Qed.

Lemma build_bottom_two h c rest s :
  h <> null -> c <> null -> c <> h ->
  faulty h = false -> faulty c = false -> rd_err s = false ->
  exists s1,
    build_bottom 2 (h :: c :: rest) s = Some (Go (h, rest), s1) /\
    wf s1 (Node Leaf h 1 (Node Leaf c 0 Leaf)) /\
    frame_eq [h; c] s s1.
Proof.
  intros Hh Hc Hch Hfh Hfc He. unfold build_bottom.
  change (2 =? 2) with true. cbv iota.
  rewrite bind_seq_deref by exact Hfh. rewrite bind_read_error, He.
  cbn [tl]. rewrite bind_seq_deref by exact Hfc. rewrite bind_read_error, He.
  cbn [tl]. exec.
  assert (Hhc : h <> c) by congruence.
  eexists. split; [reflexivity|]. split.
  - cbn [wf hd]. proj. upd_eval. repeat split; auto.
  - apply frame_eq_same; [reflexivity|]. intros y Hy.
    assert (y <> h /\ y <> c) as (Hyh & Hyc)
      by (split; intros ->; apply Hy; cbn; auto).
    unfold same_fields. proj. upd_eval. repeat split; reflexivity.
Qed.

Lemma build_bottom_one h rest s :
  h <> null -> faulty h = false -> rd_err s = false ->
  exists s1,
    build_bottom 1 (h :: rest) s = Some (Go (h, rest), s1) /\
    wf s1 (Node Leaf h 0 Leaf) /\ frame_eq [h] s s1.
Proof.
  intros Hh Hfh He. unfold build_bottom.
  change (1 =? 2) with false. cbv iota.
  rewrite bind_seq_deref by exact Hfh. rewrite bind_read_error, He.
  cbn [tl]. exec.
  eexists. split; [reflexivity|]. split.
  - cbn [wf hd]. proj. upd_eval. repeat split; auto.
  - apply frame_eq_same; [reflexivity|]. intros y Hy.
    assert (Hyh : y <> h) by (intros ->; apply Hy; cbn; auto).
    unfold same_fields. proj. upd_eval. repeat split; reflexivity.
Qed.

Lemma build_loop_bottom f fi p N n d br rm lp s :
  n <= 2 -> (1 <= fi)%nat ->
  build_loop (S f) fi p N n d br rm lp s
  = bind (build_bottom n p)
      (fun bt => match bt with
                 | Ret x => ret x
                 | Go (h, p') => build_resume f fi fi p' N h lp n d br rm
                 end) s.
Proof.
  intros Hn Hfi. destruct fi as [|fi]; [lia|].
  cbn [build_loop]. rewrite (run_bind _ _ _ _ _ (build_split_small fi n d br rm s Hn)).
  reflexivity.
Qed.

Lemma build_loop_descend F fi p N n d br rm lp s :
  max_depth <= UNSIGNED_MAX ->
  2 < n -> n <= Z.of_nat fi -> 0 <= d < max_depth ->
  build_loop F fi p N n d br rm lp s
  = build_loop F fi p N (Z.shiftr (n - 1) 1) (d + 1) (upd br d false)
      (upd rm d (negb (Z.land (n - 1) 1 =? 0))) lp s.
Proof.
  intros Hmax H2 Hn Hd. destruct F as [|F]; [reflexivity|].
  cbn [build_loop]. unfold bind at 1.
  rewrite (build_split_step fi n d br rm s Hmax H2 Hn Hd). reflexivity.
Qed.

Lemma build_size_back n :
  2 < n ->
  Z.shiftl (Z.shiftr (n - 1) 1 + Z.b2z (negb (Z.land (n - 1) 1 =? 0))) 1
  + (1 - Z.b2z (negb (Z.land (n - 1) 1 =? 0))) = n.
Proof.
  intros H. rewrite rem_bit, shiftr1, Z.shiftl_mul_pow2 by lia.
  change (2 ^ 1) with 2. zdiv.
Qed.


(** Building the subtree of [n] nodes at depth [d], in continuation style:
    whatever holds after resuming the pass from the finished subtree holds
    for the loop entered with [num_sub = n]. *)
Lemma build_sub_wp fi N (Q : bool * abs_plus_root -> Prop) :
  max_depth <= UNSIGNED_MAX ->
  forall k n d br rm lp p s f fu,
    1 <= n <= Z.of_nat k -> n <= N -> n <= Z.of_nat (length p) ->
    (forall h, In h (handles (build_t k n p)) ->
               h <> null /\ faulty h = false) ->
    NoDup (handles (build_t k n p)) ->
    rd_err s = false ->
    0 <= d -> d + height (build_t k n p) <= max_depth ->
    Z.of_nat fu + n <= Z.of_nat fi ->
    (forall s1 br1 rm1,
       wf s1 (build_t k n p) ->
       frame_eq (handles (build_t k n p)) s s1 ->
       (forall i, 0 <= i < d -> br1 i = br i /\ rm1 i = rm i) ->
       exists r,
         build_resume f fu fi (skipn (Z.to_nat n) p) N (hd (build_t k n p))
           lp n d br1 rm1 s1 = Some r /\ Q r) ->
    exists r,
      build_loop (bottoms (build_t k n p) + f) fi p N n d br rm lp s = Some r /\
      Q r.
Proof.
  intros Hmax.
  induction k as [|k IH];
    intros n d br rm lp p s f fu Hn HN Hp Hok Hnd He Hd Hh Hfu HK; [lia|].
  destruct (Z.ltb_spec 2 n) as [H2|H2].
  - (* more than two nodes *)
    destruct (build_parts n H2) as (El & Eg & H1 & H3 & H4 & H5 & H6).
    pose proof (build_size_back n H2) as Hback.
    revert Hok Hnd Hh HK. cbn [build_t].
    rewrite (proj2 (Z.ltb_lt 2 n) H2).
    set (nl := Z.shiftr (n - 1) 1) in *.
    set (rb := negb (Z.land (n - 1) 1 =? 0)) in *.
    set (ng := nl + Z.b2z rb) in *.
    set (x := nth (Z.to_nat nl) p null).
    set (bf := if negb (Z.land n (n - 1) =? 0) then 0 else 1).
    set (tl_ := build_t k nl p).
    set (tg := build_t k ng (skipn (S (Z.to_nat nl)) p)).
    clear El Eg.
    intros Hok Hnd Hh HK. cbn [handles height hd] in *.
    assert (Hlne : tl_ <> Leaf) by (apply build_t_nonleaf; lia).
    assert (Hgne : tg <> Leaf) by (apply build_t_nonleaf; lia).
    pose proof (height_nonneg tl_). pose proof (height_nonneg tg).
    assert (Hx : x <> null /\ faulty x = false)
      by (apply Hok; apply in_or_app; right; now left).
    destruct Hx as (Hxn & Hxf).
    apply NoDup_app_iff in Hnd. destruct Hnd as (Hndl & Hndg & Hdis).
    apply NoDup_cons_iff in Hndg. destruct Hndg as (Hxg & Hndg).
    assert (Hxl : ~ In x (handles tl_)).
    { intros Hi. apply (Hdis x Hi). now left. }
    assert (Hlg : forall y, In y (handles tl_) -> ~ In y (handles tg)).
    { intros y Hy Hy'. apply (Hdis y Hy). now right. }
    rewrite (bottoms_node _ _ _ _ Hlne).
    replace (bottoms tl_ + bottoms tg + f)%nat
      with (bottoms tl_ + (bottoms tg + f))%nat by lia.
    rewrite build_loop_descend by lia. fold nl. fold rb.
    apply (IH nl (d + 1) (upd br d false) (upd rm d rb) lp p s
             (bottoms tg + f)%nat 1%nat); fold tl_; try lia.
    + intros h Hi. apply Hok. apply in_or_app. now left.
    + exact Hndl.
    + exact He.
    + fold tl_. intros s1 br1 rm1 Hw1 Hfr1 Hb1.
      destruct (Hb1 d ltac:(lia)) as (Eb & Er).
      rewrite upd_same in Eb, Er.
      assert (He1 : rd_err s1 = false) by (destruct Hfr1 as (-> & _); exact He).
      unfold build_resume. cbn [build_unwind].
      rewrite (proj2 (Z.eqb_neq (d + 1) 0)) by lia.
      rewrite Z.add_simpl_r, u32_small by (unfold UNSIGNED_MAX in *; lia).
      rewrite bind_bind, bind_bit_get by lia. rewrite Eb. cbn [negb].
      rewrite bind_ret. cbv beta iota.
      rewrite (proj2 (Z.eqb_neq nl N)) by lia.
      rewrite (skipn_nth null (Z.to_nat nl) p) by lia. fold x.
      rewrite bind_seq_deref by exact Hxf. rewrite bind_read_error, He1.
      cbn [tl]. exec. rewrite bind_bit_put by lia.
      rewrite bind_bit_get by lia. rewrite Er.
      rewrite u32_small by (unfold UNSIGNED_MAX in *; lia). fold ng.
      set (s2 := put_greater x lp (put_less x (hd tl_) s1)).
      apply (IH ng (d + 1) (upd br1 d true) rm1 x
               (skipn (S (Z.to_nat nl)) p) s2 f (S fu)); fold tg; try lia.
      * rewrite length_skipn. lia.
      * intros h Hi. apply Hok. apply in_or_app. right. now right.
      * exact Hndg.
      * exact He1.
      * fold tg. intros s3 br3 rm3 Hw3 Hfr3 Hb3.
        destruct (Hb3 d ltac:(lia)) as (Eb3 & Er3).
        rewrite upd_same in Eb3.
        assert (He3 : rd_err s3 = false)
          by (destruct Hfr3 as (-> & _); exact He1).
        destruct Hfr3 as (_ & Hfr3).
        destruct (Hfr3 x Hxg) as (Hl3 & Hg3 & _).
        unfold s2 in Hl3, Hg3. revert Hl3 Hg3. proj. upd_eval.
        intros Hl3 Hg3.
        unfold build_resume. cbn [build_unwind].
        rewrite (proj2 (Z.eqb_neq (d + 1) 0)) by lia.
        rewrite Z.add_simpl_r, u32_small by (unfold UNSIGNED_MAX in *; lia).
        rewrite bind_bind, bind_bit_get by lia. rewrite Eb3. cbn [negb].
        exec. rewrite Hg3, He3. exec.
        rewrite bind_bit_get by lia. rewrite Er3, Er.
        rewrite Hback. fold bf.
        replace (if negb (Z.land n (n - 1) =? 0)
                 then set_bf x 0 else set_bf x 1) with (set_bf x bf)
          by (unfold bf; destruct (negb (Z.land n (n - 1) =? 0)); reflexivity).
        exec.
        set (s4 := put_bf x bf (put_greater x (hd tg) s3)).
        rewrite skipn_skipn.
        replace (Z.to_nat ng + S (Z.to_nat nl))%nat with (Z.to_nat n) by lia.
        apply (HK s4 br3 rm3).
        -- cbn [wf]. unfold s4. proj. upd_eval.
           split; [exact Hxn|]. split; [exact Hxf|].
           split; [exact Hl3|]. split; [reflexivity|]. split; [reflexivity|].
           split.
           ++ apply wf_put_bf; [exact Hxl|].
              apply wf_put_greater; [exact Hxl|].
              apply (wf_frame_eq (handles tg) s2 s3).
              ** split; [rewrite He3; unfold s2; proj; rewrite He1; reflexivity
                        | exact Hfr3].
              ** exact Hlg.
              ** unfold s2. apply wf_put_greater; [exact Hxl|].
                 apply wf_put_less; [exact Hxl | exact Hw1].
           ++ apply wf_put_bf; [exact Hxg|].
              apply wf_put_greater; [exact Hxg | exact Hw3].
        -- apply frame_eq_same; [unfold s4; proj; rewrite He3, He; reflexivity|].
           intros y Hy.
           assert (Hyl : ~ In y (handles tl_))
             by (intros Hi; apply Hy; apply in_or_app; now left).
           assert (Hyx : y <> x)
             by (intros ->; apply Hy; apply in_or_app; right; now left).
           assert (Hyg : ~ In y (handles tg))
             by (intros Hi; apply Hy; apply in_or_app; right; now right).
           destruct Hfr1 as (_ & Hfr1).
           destruct (Hfr1 y Hyl) as (A1 & A2 & A3).
           destruct (Hfr3 y Hyg) as (B1 & B2 & B3).
           unfold s2 in B1, B2, B3. revert B1 B2 B3.
           unfold same_fields, s4. proj. upd_eval. intros B1 B2 B3.
           rewrite B1, B2, B3, A1, A2, A3. repeat split; reflexivity.
        -- intros i Hi. destruct (Hb3 i ltac:(lia)) as (C1 & C2).
           destruct (Hb1 i ltac:(lia)) as (D1 & D2).
           rewrite upd_other in C1, D1, D2 by lia.
           rewrite C1, C2, D1, D2. split; reflexivity.
  - (* one or two nodes *)
    revert Hok Hnd Hh HK. cbn [build_t].
    destruct (Z.ltb_spec 2 n) as [|_]; [lia|].
    assert (Hfi : (1 <= fi)%nat) by lia.
    destruct (Z.eqb_spec n 2) as [->|Hn2].
    + destruct p as [|h [|c rest]]; cbn [length] in Hp; try lia.
      cbn [nth handles app hd bottoms Nat.add]. intros Hok Hnd Hh HK.
      destruct (Hok h ltac:(cbn; auto)) as (Hhn & Hhf).
      destruct (Hok c ltac:(cbn; auto)) as (Hcn & Hcf).
      assert (Hch : c <> h).
      { intros ->. apply NoDup_cons_iff in Hnd. destruct Hnd as (Hn' & _).
        apply Hn'. now left. }
      destruct (build_bottom_two h c rest s Hhn Hcn Hch Hhf Hcf He)
        as (s1 & Hrun & Hw1 & Hfr1).
      rewrite build_loop_bottom by lia.
      rewrite (run_bind _ _ _ _ _ Hrun).
      destruct (HK s1 br rm Hw1 Hfr1 ltac:(intros; split; reflexivity))
        as (r & Hres & HQ).
      exists r. split; [|exact HQ].
      apply (build_resume_mono f fu fi); [lia | exact Hres].
    + destruct (Z.eqb_spec n 1) as [->|]; [|lia].
      destruct p as [|h rest]; cbn [length] in Hp; try lia.
      cbn [nth handles app hd bottoms Nat.add]. intros Hok Hnd Hh HK.
      destruct (Hok h ltac:(cbn; auto)) as (Hhn & Hhf).
      destruct (build_bottom_one h rest s Hhn Hhf He)
        as (s1 & Hrun & Hw1 & Hfr1).
      rewrite build_loop_bottom by lia.
      rewrite (run_bind _ _ _ _ _ Hrun).
      destruct (HK s1 br rm Hw1 Hfr1 ltac:(intros; split; reflexivity))
        as (r & Hres & HQ).
      exists r. split; [|exact HQ].
      apply (build_resume_mono f fu fi); [lia | exact Hres].
Qed.

Lemma bottoms_le_size t : Z.of_nat (bottoms t) <= size t.
Proof.
  induction t as [|l IHl x b r IHr]; [cbn; lia|].
  pose proof (size_nonneg l). pose proof (size_nonneg r).
  destruct l as [|l1 y c l2].
  - destruct r as [|[|r11 z1 c1 r12] z c' [|r21 z2 c2 r22]];
      cbn [bottoms size Nat.add] in *; lia.
  - rewrite bottoms_node by discriminate. cbn [size] in *. lia.
Qed.

(** [build] of a non-empty sequence. *)
Lemma build_correct fuel p s :
  max_depth <= UNSIGNED_MAX -> rd_err s = false ->
  p <> [] ->
  (forall h, In h p -> h <> null /\ faulty h = false) -> NoDup p ->
  height (build_t (length p) (Z.of_nat (length p)) p) <= max_depth ->
  Z.of_nat (length p) + 1 <= Z.of_nat fuel ->
  exists s',
    build fuel p (Z.of_nat (length p)) s = Some (true, s') /\
    Rep s' (build_t (length p) (Z.of_nat (length p)) p).
Proof.
  intros Hmax He Hne Hok Hnd Hh Hfuel.
  set (n := Z.of_nat (length p)) in *.
  set (t := build_t (length p) n p) in *.
  assert (Hn : 1 <= n) by (destruct p; [congruence | unfold n; cbn [length]; lia]).
  assert (Hht : handles t = p).
  { unfold t. rewrite handles_build_t by lia. unfold n.
    rewrite Nat2Z.id. apply firstn_all. }
  pose proof (bottoms_le_size t) as Hbs.
  unfold t in Hbs at 2. rewrite size_build_t in Hbs by lia. fold t in Hbs.
  unfold build. rewrite (proj2 (Z.eqb_neq n 0)) by lia.
  destruct (build_sub_wp fuel n
              (fun r => exists s', r = (true, s') /\ Rep s' t) Hmax
              (length p) n 0 bset_new bset_new null p s
              (fuel - bottoms t)%nat 1%nat) as (r & Hrun & s' & -> & HRep);
    fold t; try lia.
  - rewrite Hht. exact Hok.
  - rewrite Hht. exact Hnd.
  - exact He.
  - intros s1 br1 rm1 Hw1 Hfr1 _.
    unfold build_resume. cbn [build_unwind].
    change (0 =? 0) with true. cbv iota. rewrite bind_ret. cbv beta iota.
    rewrite Z.eqb_refl. rewrite bind_set_root.
    eexists. split; [reflexivity|]. eexists. split; [reflexivity|].
    split; [reflexivity|]. split; [apply wf_put_root; exact Hw1|].
    split; [rewrite Hht; exact Hnd|].
    destruct Hfr1 as (E & _). proj. rewrite E. exact He.
  - fold t in Hrun.
    replace (bottoms t + (fuel - bottoms t))%nat with fuel in Hrun by lia.
    exists s'. split; [exact Hrun | exact HRep].
Qed.

(** ** Claim C4 *)

(** C4. For a non-empty ascending sequence [p] of distinct nodes, [build]
    returns true and leaves a tree whose in-order sequence is [p], whose
    height is the ceiling of log2 (n + 1), whose levels above the deepest
    are full, where at every node the greater subtree has as many nodes as
    the less subtree or one more, and where every stored balance factor is
    0 or 1. *)
Theorem C4_build_shape fuel p s :
  max_depth <= UNSIGNED_MAX -> rd_err s = false ->
  p <> [] ->
  (forall h, In h p -> h <> null /\ faulty h = false) ->
  StronglySorted Z.lt (map key_of p) ->
  Z.log2_up (Z.of_nat (length p) + 1) <= max_depth ->
  Z.of_nat (length p) + 1 <= Z.of_nat fuel ->
  exists s' t,
    build fuel p (Z.of_nat (length p)) s = Some (true, s') /\
    Rep s' t /\ handles t = p /\
    height t = Z.log2_up (Z.of_nat (length p) + 1) /\
    (forall i, Z.of_nat i < height t - 1 ->
               level_count t i = 2 ^ Z.of_nat i) /\
    excess_greater t /\
    all_bf (fun b => b = 0 \/ b = 1) t.
Proof.
  intros Hmax He Hne Hok Hsorted Hlog Hfuel.
  set (n := Z.of_nat (length p)) in *.
  assert (Hn : 1 <= n) by (destruct p; [congruence | unfold n; cbn [length]; lia]).
  assert (Hnd : NoDup p).
  { apply sorted_nodup in Hsorted. exact (NoDup_map_inv _ _ Hsorted). }
  assert (Hheight : height (build_t (length p) n p) = Z.log2_up (n + 1)).
  { rewrite height_build_t by lia. rewrite Z.log2_up_eqn by lia.
    replace (Z.pred (n + 1)) with n by lia. lia. }
  destruct (build_correct fuel p s Hmax He Hne Hok Hnd) as (s' & Hrun & HRep).
  - fold n. rewrite Hheight. exact Hlog.
  - exact Hfuel.
  - fold n in Hrun, HRep.
    exists s', (build_t (length p) n p).
    split; [exact Hrun|]. split; [exact HRep|].
    split.
    { rewrite handles_build_t by lia. unfold n. rewrite Nat2Z.id.
      apply firstn_all. }
    split; [exact Hheight|].
    split.
    { intros i Hi. apply level_count_full.
      rewrite minh_build_t by lia. rewrite height_build_t in Hi by lia.
      assert (Z.log2 n <= Z.log2 (n + 1)) by (apply Z.log2_le_mono; lia).
      lia. }
    split; [apply excess_build_t; lia | apply all_bf_build_t].
Qed.

(** [build] leaves a tree satisfying the invariants. *)
Lemma build_preserves fuel p s :
  max_depth <= UNSIGNED_MAX -> rd_err s = false ->
  (forall h, In h p -> h <> null /\ faulty h = false) ->
  StronglySorted Z.lt (map key_of p) ->
  Z.log2_up (Z.of_nat (length p) + 1) <= max_depth ->
  Z.of_nat (length p) + 1 <= Z.of_nat fuel ->
  exists s' t,
    build fuel p (Z.of_nat (length p)) s = Some (true, s') /\
    Rep s' t /\ bst t /\ avl t /\ handles t = p.
Proof.
  intros Hmax He Hok Hsorted Hlog Hfuel.
  destruct p as [|h0 p0].
  - exists (put_root null s), Leaf. split; [reflexivity|].
    split; [|split; [exact I | split; [exact I | reflexivity]]].
    split; [reflexivity|]. split; [exact I|]. split; [constructor | exact He].
  - set (p := h0 :: p0) in *. set (n := Z.of_nat (length p)) in *.
    assert (Hn : 1 <= n) by (unfold n, p; cbn [length]; lia).
    assert (Hnd : NoDup p).
    { apply sorted_nodup in Hsorted. exact (NoDup_map_inv _ _ Hsorted). }
    assert (Hheight : height (build_t (length p) n p) = Z.log2_up (n + 1)).
    { rewrite height_build_t by lia. rewrite Z.log2_up_eqn by lia.
      replace (Z.pred (n + 1)) with n by lia. lia. }
    assert (Hht : handles (build_t (length p) n p) = p).
    { rewrite handles_build_t by lia. unfold n. rewrite Nat2Z.id.
      apply firstn_all. }
    destruct (build_correct fuel p s Hmax He ltac:(discriminate) Hok Hnd)
      as (s' & Hrun & HRep).
    + fold n. rewrite Hheight. exact Hlog.
    + exact Hfuel.
    + fold n in Hrun, HRep. exists s', (build_t (length p) n p).
      split; [exact Hrun|]. split; [exact HRep|].
      split; [apply bst_sorted; unfold keys; rewrite Hht; exact Hsorted|].
      split; [apply avl_build_t; lia | exact Hht].
Qed.


(** ** Claim C1 *)

(** C1. [insert], [remove], [subst] and [build], run without read error on a
    tree satisfying the BST invariant (in-order keys strictly ascending) and
    the AVL invariant, leave a tree satisfying them: the keys of a node's
    non-null children lie on the proper sides of the node's key, and every
    stored balance factor is in -1 .. 1 and is the height of the greater
    subtree minus the height of the less subtree. *)
Theorem C1_mutators_preserve_invariants fuel s t :
  max_depth <= UNSIGNED_MAX ->
  Rep s t -> bst t -> avl t ->
  height t <= max_depth -> height t < Z.of_nat fuel ->
  (forall h, h <> null -> faulty h = false -> ~ In h (handles t) ->
     exists r s' t',
       insert fuel h s = Some (r, s') /\
       Rep s' t' /\ bst t' /\ child_ordered t' /\ avl t') /\
  (forall k,
     exists r s' t',
       remove fuel k s = Some (r, s') /\
       Rep s' t' /\ bst t' /\ child_ordered t' /\ avl t') /\
  (forall n, n <> null -> faulty n = false -> ~ In n (handles t) ->
     exists r s' t',
       subst fuel n s = Some (r, s') /\
       Rep s' t' /\ bst t' /\ child_ordered t' /\ avl t') /\
  (forall p,
     (forall h, In h p -> h <> null /\ faulty h = false) ->
     StronglySorted Z.lt (map key_of p) ->
     Z.log2_up (Z.of_nat (length p) + 1) <= max_depth ->
     Z.of_nat (length p) + 1 <= Z.of_nat fuel ->
     exists s' t',
       build fuel p (Z.of_nat (length p)) s = Some (true, s') /\
       Rep s' t' /\ bst t' /\ child_ordered t' /\ avl t').
Proof.
  intros Hmax HRep Hbst Havl Hh Hfuel.
  split; [|split; [|split]].
  - intros h Hn Hf Hfresh.
    destruct (insert_preserves fuel h s t Hmax HRep Hbst Havl Hn Hf Hfresh
                Hh Hfuel) as (r & s' & t' & Hrun & HR & Hb & Ha).
    exists r, s', t'. split; [exact Hrun|]. split; [exact HR|].
    split; [exact Hb|]. split; [exact (bst_child_ordered t' Hb) | exact Ha].
  - intros k.
    destruct (remove_preserves fuel k s t Hmax HRep Hbst Havl Hh Hfuel)
      as (r & s' & t' & Hrun & HR & Hb & Ha).
    exists r, s', t'. split; [exact Hrun|]. split; [exact HR|].
    split; [exact Hb|]. split; [exact (bst_child_ordered t' Hb) | exact Ha].
  - intros n Hn Hf Hfresh.
    destruct (subst_preserves fuel n s t HRep Hbst Havl Hn Hf Hfresh Hfuel)
      as (r & s' & t' & Hrun & HR & Hb & Ha & _).
    exists r, s', t'. split; [exact Hrun|]. split; [exact HR|].
    split; [exact Hb|]. split; [exact (bst_child_ordered t' Hb) | exact Ha].
  - intros p Hok Hsorted Hlog Hfp.
    destruct HRep as (_ & _ & _ & He).
    destruct (build_preserves fuel p s Hmax He Hok Hsorted Hlog Hfp)
      as (s' & t' & Hrun & HR & Hb & Ha & _).
    exists s', t'. split; [exact Hrun|]. split; [exact HR|].
    split; [exact Hb|]. split; [exact (bst_child_ordered t' Hb) | exact Ha].
Qed.


(** * Further properties of the engine *)

(** ** search_least, search_greatest *)

Lemma search_least_loop_spec s :
  rd_err s = false ->
  forall t parent fuel,
    wf s t -> height t < Z.of_nat fuel ->
    search_least_loop fuel (hd t) parent s
    = Some (List.hd parent (handles t), s).
Proof.
  intros He.
  induction t as [|l IHl x b r _]; intros parent fuel Hwf Hf;
    (destruct fuel as [|fuel];
     [match type of Hf with height ?u < _ => pose proof (height_nonneg u) end;
      lia|]).
  - reflexivity.
  - wf_split Hwf. cbn [height] in Hf.
    pose proof (height_nonneg l). pose proof (height_nonneg r).
    cbn [search_least_loop hd]. rewrite (neq_null _ Hn).
    rewrite bind_get_lt by assumption. rewrite bind_read_error, He, Hl.
    rewrite (IHl x fuel Hwl ltac:(lia)). cbn [handles].
    destruct (handles l); reflexivity.
Qed.

Lemma last_cons {A} : forall (b : list A) x d, last (x :: b) d = last b x.
Proof.
  induction b as [|z b IHb]; intros x d; [reflexivity|].
  change (last (x :: z :: b) d) with (last (z :: b) d).
  rewrite (IHb z d), (IHb z x). reflexivity.
Qed.

Lemma last_app_cons {A} (a b : list A) x d :
  last (a ++ x :: b) d = last b x.
Proof.
  induction a as [|y a IH]; cbn [app]; [apply last_cons|].
  rewrite last_cons. destruct a as [|y' a'].
  - cbn [app]. rewrite last_cons. reflexivity.
  - cbn [app] in *. rewrite last_cons in IH. rewrite last_cons. exact IH.
Qed.

Lemma search_greatest_loop_spec s :
  rd_err s = false ->
  forall t parent fuel,
    wf s t -> height t < Z.of_nat fuel ->
    search_greatest_loop fuel (hd t) parent s
    = Some (last (handles t) parent, s).
Proof.
  intros He.
  induction t as [|l _ x b r IHr]; intros parent fuel Hwf Hf;
    (destruct fuel as [|fuel];
     [match type of Hf with height ?u < _ => pose proof (height_nonneg u) end;
      lia|]).
  - reflexivity.
  - wf_split Hwf. cbn [height] in Hf.
    pose proof (height_nonneg l). pose proof (height_nonneg r).
    cbn [search_greatest_loop hd]. rewrite (neq_null _ Hn).
    rewrite bind_get_gt by assumption. rewrite bind_read_error, He, Hg.
    rewrite (IHr x fuel Hwr ltac:(lia)). cbn [handles].
    rewrite last_app_cons. reflexivity.
Qed.

(** Keys of a search tree ascend along the in-order sequence. *)
Lemma bst_first_last t :
  bst t ->
  forall y, In y (handles t) ->
    key_of (List.hd null (handles t)) <= key_of y /\
    key_of y <= key_of (last (handles t) null).
Proof.
  intros Hb y Hy. apply bst_sorted in Hb. unfold keys in Hb.
  destruct (handles t) as [|x0 L] eqn:E; [destruct Hy|].
  split.
  - cbn [List.hd]. destruct Hy as [<-|Hy]; [lia|].
    cbn [map] in Hb. apply ssorted_cons_iff in Hb. destruct Hb as (_ & Hlt).
    specialize (Hlt (key_of y) (in_map key_of _ _ Hy)). lia.
  - assert (Hnn : x0 :: L <> []) by discriminate.
    destruct (exists_last Hnn) as (L' & z & EL). rewrite EL in *.
    rewrite last_last. rewrite map_app in Hb.
    apply ssorted_app_iff in Hb. destruct Hb as (_ & _ & Hlt).
    apply in_app_or in Hy. destruct Hy as [Hy|[<-|[]]]; [|lia].
    specialize (Hlt (key_of y) (key_of z) (in_map key_of _ _ Hy)).
    cbn [map In] in Hlt. specialize (Hlt (or_introl eq_refl)). lia.
Qed.

(** X1. [search_least] yields the first node of the in-order sequence and
    [search_greatest] the last one, null on an empty tree, and neither
    touches the store; in a search tree these carry the least and the
    greatest key. *)
Theorem X1_search_least_greatest fuel s t :
  Rep s t -> height t < Z.of_nat fuel ->
  search_least fuel s = Some (List.hd null (handles t), s) /\
  search_greatest fuel s = Some (last (handles t) null, s) /\
  (bst t ->
   forall y, In y (handles t) ->
     key_of (List.hd null (handles t)) <= key_of y /\
     key_of y <= key_of (last (handles t) null)).
Proof.
  intros (Hroot & Hwf & _ & He) Hf. split; [|split].
  - unfold search_least. rewrite bind_get_root, Hroot.
    apply search_least_loop_spec; assumption.
  - unfold search_greatest. rewrite bind_get_root, Hroot.
    apply search_greatest_loop_spec; assumption.
  - apply bst_first_last.
Qed.

(** ** search with the EQUAL flag *)

Lemma find_split {A} (P : A -> bool) : forall l r,
  find P l = Some r ->
  exists a b, l = a ++ r :: b /\ P r = true /\
              forall y, In y a -> P y = false.
Proof.
  induction l as [|x l IH]; intros r H; [discriminate|].
  cbn [find] in H. destruct (P x) eqn:Ex.
  - injection H as <-. exists [], l. split; [reflexivity|].
    split; [exact Ex|]. intros y [].
  - destruct (IH r H) as (a & b & -> & Hr & Ha).
    exists (x :: a), b. split; [reflexivity|]. split; [exact Hr|].
    intros y [<-|Hy]; [exact Ex | exact (Ha y Hy)].
Qed.

Lemma find_none_all {A} (P : A -> bool) : forall l,
  find P l = None -> forall y, In y l -> P y = false.
Proof.
  induction l as [|x l IH]; intros H y Hy; [destruct Hy|].
  cbn [find] in H. destruct (P x) eqn:Ex; [discriminate|].
  destruct Hy as [<-|Hy]; [exact Ex | exact (IH H y Hy)].
Qed.

Lemma wf_in s : forall t x,
  wf s t -> In x (handles t) -> x <> null /\ faulty x = false.
Proof.
  induction t as [|l IHl h b r IHr]; intros x Hwf Hx; [destruct Hx|].
  wf_split Hwf. cbn [handles] in Hx. apply in_app_or in Hx.
  destruct Hx as [Hx|[<-|Hx]]; [exact (IHl x Hwl Hx) | auto
                               | exact (IHr x Hwr Hx)].
Qed.

(** The leftmost node satisfying [P] in a sequence of ascending keys. *)
Lemma leftmost_cases (P : handle -> bool) (l : list handle) :
  (forall x, In x l -> x <> null) ->
  StronglySorted Z.lt (map key_of l) ->
  (leftmost P l = null /\ forall y, In y l -> P y = false) \/
  (leftmost P l <> null /\ In (leftmost P l) l /\
   P (leftmost P l) = true /\
   forall y, In y l -> P y = true -> key_of (leftmost P l) <= key_of y).
Proof.
  intros Hnn Hs. unfold leftmost. destruct (find P l) as [r|] eqn:E.
  - right. cbn [or_null].
    destruct (find_split P l r E) as (a & b & -> & Hr & Ha).
    assert (Hin : In r (a ++ r :: b)) by (apply in_or_app; right; now left).
    split; [exact (Hnn r Hin)|]. split; [exact Hin|]. split; [exact Hr|].
    intros y Hy Py. rewrite map_app in Hs. cbn [map] in Hs.
    apply ssorted_app_iff in Hs. destruct Hs as (_ & Hs & _).
    apply ssorted_cons_iff in Hs. destruct Hs as (_ & Hlt).
    apply in_app_or in Hy. destruct Hy as [Hy|[<-|Hy]].
    + rewrite (Ha y Hy) in Py. discriminate.
    + lia.
    + specialize (Hlt (key_of y) (in_map key_of _ _ Hy)). lia.
  - left. split; [reflexivity | exact (find_none_all P l E)].
Qed.

(** The rightmost one. *)
Lemma rightmost_cases (P : handle -> bool) (l : list handle) :
  (forall x, In x l -> x <> null) ->
  StronglySorted Z.lt (map key_of l) ->
  (rightmost P l = null /\ forall y, In y l -> P y = false) \/
  (rightmost P l <> null /\ In (rightmost P l) l /\
   P (rightmost P l) = true /\
   forall y, In y l -> P y = true -> key_of y <= key_of (rightmost P l)).
Proof.
  intros Hnn Hs. unfold rightmost. destruct (find P (rev l)) as [r|] eqn:E.
  - right. cbn [or_null].
    destruct (find_split P (rev l) r E) as (a & b & Erev & Hr & Ha).
    assert (El : l = rev b ++ r :: rev a).
    { rewrite <- (rev_involutive l), Erev, rev_app_distr. cbn [rev].
      rewrite <- app_assoc. reflexivity. }
    assert (Hin : In r l) by (rewrite El; apply in_or_app; right; now left).
    split; [exact (Hnn r Hin)|]. split; [exact Hin|]. split; [exact Hr|].
    intros y Hy Py. rewrite El in Hs, Hy. rewrite map_app in Hs.
    cbn [map] in Hs. apply ssorted_app_iff in Hs.
    destruct Hs as (_ & _ & Hlt).
    apply in_app_or in Hy. destruct Hy as [Hy|[<-|Hy]].
    + specialize (Hlt (key_of y) (key_of r) (in_map key_of _ _ Hy)
                    (or_introl eq_refl)). lia.
    + lia.
    + apply in_rev in Hy. rewrite (Ha y Hy) in Py. discriminate.
  - left. split; [reflexivity|]. intros y Hy.
    apply (find_none_all P (rev l) E). apply in_rev.
    rewrite rev_involutive. exact Hy.
Qed.

Lemma rep_nonnull s t : Rep s t -> forall x, In x (handles t) -> x <> null.
Proof.
  intros (_ & Hwf & _) x Hx. exact (proj1 (wf_in s t x Hwf Hx)).
Qed.

(** X2. [search k EQUAL] is the membership test: it yields the node
    carrying the key [k] when there is one and null when there is none, and
    leaves the store as it was. *)
Theorem X2_search_equal_membership fuel k s t :
  Rep s t -> bst t -> height t < Z.of_nat fuel ->
  exists r,
    search fuel k EQUAL s = Some (r, s) /\
    (In k (keys t) -> In r (handles t) /\ key_of r = k) /\
    (~ In k (keys t) -> r = null).
Proof.
  intros HRep Hbst Hf.
  rewrite (search_equal_spec fuel k s t HRep Hbst Hf).
  eexists. split; [reflexivity|].
  destruct (leftmost_cases (fun x => key_of x =? k) (handles t)
              (rep_nonnull s t HRep) (proj1 (bst_sorted t) Hbst))
    as [(E & Hnone) | (Hn & Hin & HP & _)].
  - rewrite E. split; [|reflexivity].
    intros Hk. apply in_keys_iff in Hk. destruct Hk as (x & Hx & Ex).
    specialize (Hnone x Hx). cbv beta in Hnone.
    rewrite Ex, Z.eqb_refl in Hnone. discriminate.
  - cbv beta in HP. apply Z.eqb_eq in HP. split; [auto|].
    intros Hk. exfalso. apply Hk. rewrite <- HP. apply in_keys. exact Hin.
Qed.

(** X3. With the EQUAL flag added the bounds are inclusive:
    [search k LESS_EQUAL] yields the node of the greatest key that is at
    most [k], [search k GREATER_EQUAL] the node of the least key that is at
    least [k]; each yields null exactly when no node qualifies. *)
Theorem X3_search_inclusive_bounds fuel k s t :
  Rep s t -> bst t -> height t < Z.of_nat fuel ->
  exists a b,
    search fuel k LESS_EQUAL s = Some (a, s) /\
    search fuel k GREATER_EQUAL s = Some (b, s) /\
    ((a = null /\ forall y, In y (handles t) -> k < key_of y) \/
     (a <> null /\ In a (handles t) /\ key_of a <= k /\
      forall y, In y (handles t) -> key_of y <= k -> key_of y <= key_of a)) /\
    ((b = null /\ forall y, In y (handles t) -> key_of y < k) \/
     (b <> null /\ In b (handles t) /\ k <= key_of b /\
      forall y, In y (handles t) -> k <= key_of y -> key_of b <= key_of y)).
Proof.
  intros HRep Hbst Hf.
  rewrite (search_less_equal_spec fuel k s t HRep Hbst Hf).
  rewrite (search_greater_equal_spec fuel k s t HRep Hbst Hf).
  do 2 eexists. split; [reflexivity|]. split; [reflexivity|]. split.
  - destruct (rightmost_cases (fun x => key_of x <=? k) (handles t)
                (rep_nonnull s t HRep) (proj1 (bst_sorted t) Hbst))
      as [(E & Hnone) | (Hn & Hin & HP & Hmax)].
    + left. split; [exact E|]. intros y Hy. specialize (Hnone y Hy).
      cbv beta in Hnone. apply Z.leb_gt in Hnone. exact Hnone.
    + right. split; [exact Hn|]. split; [exact Hin|].
      cbv beta in HP. apply Z.leb_le in HP. split; [exact HP|].
      intros y Hy Hle. apply (Hmax y Hy). apply Z.leb_le. exact Hle.
  - destruct (leftmost_cases (fun x => k <=? key_of x) (handles t)
                (rep_nonnull s t HRep) (proj1 (bst_sorted t) Hbst))
      as [(E & Hnone) | (Hn & Hin & HP & Hmin)].
    + left. split; [exact E|]. intros y Hy. specialize (Hnone y Hy).
      cbv beta in Hnone. apply Z.leb_gt in Hnone. exact Hnone.
    + right. split; [exact Hn|]. split; [exact Hin|].
      cbv beta in HP. apply Z.leb_le in HP. split; [exact HP|].
      intros y Hy Hle. apply (Hmin y Hy). apply Z.leb_le. exact Hle.
Qed.

(** ** insert of a new key *)

(** X4. [insert] of a node whose key is not in the tree yields that node
    and puts it at the place its key asks for: the in-order sequence is the
    former one with the node put between the smaller and the greater keys,
    the invariants are kept and the height grows by one at most. *)
Theorem X4_insert_new_key_in_order fuel h s t :
  max_depth <= UNSIGNED_MAX ->
  Rep s t -> bst t -> avl t ->
  h <> null -> faulty h = false -> ~ In (key_of h) (keys t) ->
  height t <= max_depth -> height t < Z.of_nat fuel ->
  exists s' t' A B,
    insert fuel h s = Some (h, s') /\ Rep s' t' /\ bst t' /\ avl t' /\
    handles t = A ++ B /\ handles t' = A ++ h :: B /\
    (forall x, In x A -> key_of x < key_of h) /\
    (forall x, In x B -> key_of h < key_of x) /\
    height t' <= height t + 1.
Proof.
  intros Hmax HRep Hbst Havl Hh Hf Hkey Hd Hfuel.
  assert (Hfresh : ~ In h (handles t)).
  { intros Hi. apply Hkey. apply in_keys. exact Hi. }
  destruct (ins_tree_avl_height h t Havl) as ((Hai & Hhi) & Hrot).
  destruct (insert_fresh_correct fuel h s t Hmax HRep Hh Hf Hfresh Hkey
              Hd Hfuel Hrot) as (s' & Hrun & HRep').
  pose proof (ins_tree_bst h t Hbst Hkey) as Hbi.
  exists s', (ins_tree h t), (ctx_left (ins_ctx (key_of h) t [])),
    (ctx_right (ins_ctx (key_of h) t [])).
  split; [exact Hrun|]. split; [exact HRep'|]. split; [exact Hbi|].
  split; [exact Hai|]. split; [apply handles_ins_ctx|].
  split; [apply handles_ins_tree|].
  apply bst_sorted in Hbi. unfold keys in Hbi.
  rewrite handles_ins_tree, map_app in Hbi. cbn [map] in Hbi.
  apply ssorted_app_iff in Hbi. destruct Hbi as (_ & Hr & Hlt).
  apply ssorted_cons_iff in Hr. destruct Hr as (_ & Hgt).
  split; [|split; [|exact Hhi]].
  - intros x Hx. apply (Hlt (key_of x) (key_of h)); [now apply in_map | now left].
  - intros x Hx. apply Hgt. now apply in_map.
Qed.

(** ** The height after remove *)

Lemma shrink_height : forall c t t0 (reduced : bool),
  avl (plug c t0) -> avl t ->
  height t = height t0 - (if reduced then 1 else 0) ->
  height (plug c t0) - 1 <= height (shrink_up c t reduced) <= height (plug c t0).
Proof.
  induction c as [|[[[dir x] b] sib] c IH]; intros t t0 reduced Ha Hat Hh.
  - cbn [plug shrink_up]. destruct reduced; lia.
  - cbn [plug] in Ha |- *.
    destruct (shrink_step_avl dir x b sib t t0 reduced
                (avl_plug_hole _ _ Ha) Hat Hh) as (Ha1 & Hh1 & _).
    cbn [shrink_up]. exact (IH _ _ _ Ha Ha1 Hh1).
Qed.

Lemma rem_tree_height k t c_rm l rm b r :
  avl t -> find_ctx k t [] = Some (c_rm, Node l rm b r) ->
  height t - 1 <= height (rem_tree k t) <= height t.
Proof.
  intros Ha Hfind.
  destruct (find_ctx_spec _ _ _ _ _ Hfind) as (Hplug & _).
  cbn [plug] in Hplug. unfold rem_tree. rewrite Hfind.
  rewrite <- Hplug in Ha |- *. clear Hplug Hfind.
  destruct (splice_view c_rm l rm b r)
    as [(Hleaf & Es) | (cw & m & bm & hole & other & Et & Hd & Hext & Es & Hh1 & Hh2)];
    rewrite Es.
  - destruct (avl_leaf_case _ _ _ _ (avl_plug_hole _ _ Ha) Hleaf) as (-> & ->).
    apply (shrink_height c_rm Leaf (Node Leaf rm b Leaf) true Ha I).
    reflexivity.
  - remember (negb (b <? 0)) as d eqn:Ed in *. clear Ed. rewrite Et in Ha |- *.
    set (W := plug cw (fill (d, m, bm, Leaf) hole)) in *.
    assert (Hhe : height (fill (d, m, b, other) W)
                  = height (fill (d, rm, b, other) W))
      by (destruct d; reflexivity).
    assert (Ha' : avl (plug (cw ++ (d, m, b, other) :: c_rm)
                         (fill (d, m, bm, Leaf) hole))).
    { rewrite plug_app. cbn [plug]. fold W.
      apply (avl_plug_replace c_rm (fill (d, rm, b, other) W)); [exact Ha| |exact Hhe].
      apply avl_fill. apply avl_plug_hole in Ha. apply avl_fill in Ha.
      destruct d; exact Ha. }
    assert (Hht : height (plug (cw ++ (d, m, b, other) :: c_rm)
                            (fill (d, m, bm, Leaf) hole))
                  = height (plug c_rm (fill (d, rm, b, other) W))).
    { rewrite plug_app. cbn [plug]. fold W. apply height_plug_eq. exact Hhe. }
    rewrite <- Hht.
    apply (shrink_height _ hole (fill (d, m, bm, Leaf) hole) true Ha').
    + apply avl_plug_hole in Ha'. apply avl_fill in Ha'. apply Ha'.
    + pose proof (height_nonneg hole).
      destruct d; cbn [fill height]; lia.
Qed.

Lemma remove_present_height fuel k s t :
  max_depth <= UNSIGNED_MAX ->
  Rep s t -> bst t -> avl t ->
  height t <= max_depth -> height t < Z.of_nat fuel ->
  In k (keys t) ->
  exists rm s' t' A B,
    remove fuel k s = Some (rm, s') /\ key_of rm = k /\
    Rep s' t' /\ bst t' /\ avl t' /\
    handles t = A ++ rm :: B /\ handles t' = A ++ B /\
    height t - 1 <= height t' <= height t.
Proof.
  intros Hmax HRep Hbst Havl Hh Hfuel Hk.
  destruct (find_ctx_present k t [] Hbst Hk) as (c_rm & t_rm & Hfind).
  destruct (find_ctx_spec _ _ _ _ _ Hfind)
    as (Hplug & (l & rm & b & r & -> & Hkey) & _).
  cbn [plug] in Hplug.
  assert (Harm : avl (plug c_rm (Node l rm b r))) by (rewrite Hplug; exact Havl).
  destruct (splice_avl c_rm l rm b r Harm) as (Ha' & Hok).
  destruct (remove_present_run k t s fuel c_rm l rm b r
              Hmax HRep Hfind Hh Hfuel Hok) as (s' & Hrun & HRep').
  destruct (rem_tree_handles _ _ _ _ _ _ _ Havl Hfind) as (A & B & EA & EB).
  exists rm, s', (rem_tree k t), A, B.
  split; [exact Hrun|]. split; [exact Hkey|].
  split; [exact HRep'|].
  split; [exact (rem_tree_bst _ _ _ _ _ _ _ Havl Hbst Hfind)|].
  split.
  { unfold rem_tree. rewrite Hfind.
    destruct (splice_of c_rm (Node l rm b r)). exact Ha'. }
  split; [exact EA|]. split; [exact EB|].
  exact (rem_tree_height _ _ _ _ _ _ _ Havl Hfind).
Qed.

(** X5. [remove] of a present key never makes the tree higher and lowers
    it by one level at most; the tree holds one node less. *)
Theorem X5_remove_height_and_size fuel k s t :
  max_depth <= UNSIGNED_MAX ->
  Rep s t -> bst t -> avl t ->
  height t <= max_depth -> height t < Z.of_nat fuel ->
  In k (keys t) ->
  exists rm s' t',
    remove fuel k s = Some (rm, s') /\ Rep s' t' /\
    height t - 1 <= height t' <= height t /\
    S (length (handles t')) = length (handles t).
Proof.
  intros Hmax HRep Hbst Havl Hh Hfuel Hk.
  destruct (remove_present_height fuel k s t Hmax HRep Hbst Havl Hh Hfuel Hk)
    as (rm & s' & t' & A & B & Hrun & _ & HRep' & _ & _ & EA & EB & Hht).
  exists rm, s', t'. split; [exact Hrun|]. split; [exact HRep'|].
  split; [exact Hht|].
  rewrite EA, EB, !length_app. cbn [length]. lia.
Qed.

(** ** Lookup after insert and after remove *)

Lemma find_all_none {A} (P : A -> bool) : forall l,
  (forall y, In y l -> P y = false) -> find P l = None.
Proof.
  induction l as [|x l IH]; intros H; [reflexivity|].
  cbn [find]. rewrite (H x (or_introl eq_refl)).
  apply IH. intros y Hy. apply H. now right.
Qed.

(** X6. A node that has just been inserted under a new key is what
    [search] with EQUAL finds for that key; a key that has just been
    removed is not found any more. *)
Theorem X6_lookup_after_insert_and_remove fuel h k s t :
  max_depth <= UNSIGNED_MAX ->
  Rep s t -> bst t -> avl t ->
  h <> null -> faulty h = false -> ~ In (key_of h) (keys t) ->
  height t <= max_depth -> height t + 1 < Z.of_nat fuel ->
  (exists s1,
     insert fuel h s = Some (h, s1) /\
     search fuel (key_of h) EQUAL s1 = Some (h, s1)) /\
  (In k (keys t) ->
   exists rm s2,
     remove fuel k s = Some (rm, s2) /\
     search fuel k EQUAL s2 = Some (null, s2)).
Proof.
  intros Hmax HRep Hbst Havl Hh Hf Hkey Hd Hfuel. split.
  - assert (Hfresh : ~ In h (handles t)).
    { intros Hi. apply Hkey. apply in_keys. exact Hi. }
    destruct (ins_tree_avl_height h t Havl) as ((Hai & Hhi) & Hrot).
    destruct (insert_fresh_correct fuel h s t Hmax HRep Hh Hf Hfresh Hkey
                Hd ltac:(lia) Hrot) as (s1 & Hrun & HRep1).
    pose proof (ins_tree_bst h t Hbst Hkey) as Hbi.
    exists s1. split; [exact Hrun|].
    rewrite (search_equal_spec fuel (key_of h) s1 (ins_tree h t) HRep1 Hbi
               ltac:(lia)).
    f_equal. f_equal. unfold leftmost. rewrite handles_ins_tree, find_app.
    rewrite find_all_none.
    + cbn [find]. rewrite Z.eqb_refl. reflexivity.
    + intros x Hx. apply Z.eqb_neq. intros E. apply Hkey. rewrite <- E.
      unfold keys. rewrite (handles_ins_ctx (key_of h) t), map_app.
      apply in_or_app. left. now apply in_map.
  - intros Hk.
    destruct (remove_present_height fuel k s t Hmax HRep Hbst Havl
                Hd ltac:(lia) Hk)
      as (rm & s2 & t2 & A & B & Hrun & Hkrm & HRep2 & Hb2 & Ha2 & EA & EB & Hht).
    exists rm, s2. split; [exact Hrun|].
    rewrite (search_equal_spec fuel k s2 t2 HRep2 Hb2 ltac:(lia)).
    f_equal. f_equal. unfold leftmost. rewrite find_all_none; [reflexivity|].
    intros x Hx. apply Z.eqb_neq. intros E.
    assert (Hnd : NoDup (map key_of (A ++ rm :: B))).
    { rewrite <- EA. apply sorted_nodup. apply bst_sorted. exact Hbst. }
    rewrite map_app in Hnd. cbn [map] in Hnd.
    apply NoDup_remove_2 in Hnd. apply Hnd. rewrite <- map_app, <- EB, Hkrm, <- E.
    now apply in_map.
Qed.

(** ** remove followed by insert *)

(** In a sequence of ascending keys the place of an element is fixed by
    what stands around it. *)
Lemma sorted_place : forall (A L B R : list handle) x,
  StronglySorted Z.lt (map key_of (A ++ x :: B)) ->
  StronglySorted Z.lt (map key_of (L ++ x :: R)) ->
  A ++ B = L ++ R -> A = L /\ B = R.
Proof.
  induction A as [|a A IH]; intros L B R x HA HL E.
  - destruct L as [|y L]; cbn [app] in *; [auto|]. exfalso.
    subst B. cbn [map] in HA, HL.
    apply ssorted_cons_iff in HA. destruct HA as (_ & HA).
    apply ssorted_cons_iff in HL. destruct HL as (_ & HL).
    specialize (HA (key_of y) (or_introl eq_refl)).
    specialize (HL (key_of x)). rewrite map_app in HL. cbn [map] in HL.
    assert (key_of y < key_of x) by (apply HL, in_or_app; right; now left).
    lia.
  - destruct L as [|y L]; cbn [app] in *.
    + exfalso. subst R. cbn [map] in HA, HL.
      apply ssorted_cons_iff in HA. destruct HA as (_ & HA).
      apply ssorted_cons_iff in HL. destruct HL as (_ & HL).
      specialize (HL (key_of a) (or_introl eq_refl)).
      specialize (HA (key_of x)). rewrite map_app in HA. cbn [map] in HA.
      assert (key_of a < key_of x) by (apply HA, in_or_app; right; now left).
      lia.
    + injection E as <- E. cbn [map] in HA, HL.
      apply ssorted_cons_iff in HA. destruct HA as (HA & _).
      apply ssorted_cons_iff in HL. destruct HL as (HL & _).
      destruct (IH L B R x HA HL E) as (-> & ->). auto.
Qed.

(** X7. Taking a node out with [remove] and putting the node that was
    returned back with [insert] restores the in-order sequence of nodes
    (the shape may differ), and the invariants hold again. *)
Theorem X7_remove_then_insert_restores fuel k s t :
  max_depth <= UNSIGNED_MAX ->
  Rep s t -> bst t -> avl t ->
  height t <= max_depth -> height t < Z.of_nat fuel ->
  In k (keys t) ->
  exists rm s1 s2 t2,
    remove fuel k s = Some (rm, s1) /\
    insert fuel rm s1 = Some (rm, s2) /\
    Rep s2 t2 /\ bst t2 /\ avl t2 /\ handles t2 = handles t.
Proof.
  intros Hmax HRep Hbst Havl Hh Hfuel Hk.
  destruct (remove_present_height fuel k s t Hmax HRep Hbst Havl Hh Hfuel Hk)
    as (rm & s1 & t1 & A & B & Hrun & Hkrm & HRep1 & Hb1 & Ha1 & EA & EB & Hht).
  assert (Hs : StronglySorted Z.lt (map key_of (A ++ rm :: B))).
  { rewrite <- EA. apply bst_sorted. exact Hbst. }
  assert (Hkey : ~ In (key_of rm) (keys t1)).
  { unfold keys. rewrite EB. apply sorted_nodup in Hs.
    rewrite map_app in Hs. cbn [map] in Hs. apply NoDup_remove_2 in Hs.
    rewrite map_app. exact Hs. }
  assert (Hfresh : ~ In rm (handles t1)).
  { intros Hi. apply Hkey. apply in_keys. exact Hi. }
  destruct HRep as (_ & Hwf & _ & _).
  destruct (wf_in s t rm Hwf) as (Hn & Hf).
  { rewrite EA. apply in_or_app. right. now left. }
  destruct (ins_tree_avl_height rm t1 Ha1) as ((Hai & Hhi) & Hrot).
  destruct (insert_fresh_correct fuel rm s1 t1 Hmax HRep1 Hn Hf Hfresh Hkey
              ltac:(lia) ltac:(lia) Hrot) as (s2 & Hrun2 & HRep2).
  pose proof (ins_tree_bst rm t1 Hb1 Hkey) as Hbi.
  exists rm, s1, s2, (ins_tree rm t1).
  split; [exact Hrun|]. split; [exact Hrun2|]. split; [exact HRep2|].
  split; [exact Hbi|]. split; [exact Hai|].
  rewrite handles_ins_tree, EA.
  apply bst_sorted in Hbi. unfold keys in Hbi. rewrite handles_ins_tree in Hbi.
  pose proof (handles_ins_ctx (key_of rm) t1) as Hsplit. rewrite EB in Hsplit.
  destruct (sorted_place _ _ _ _ _ Hs Hbi Hsplit) as (-> & ->). reflexivity.
Qed.

(** ** subst *)

(** X8. [subst] puts the new node in the place of the node of the tree
    that has the same key and yields the node displaced: the in-order
    sequence is the former one with that node exchanged, heights and
    invariants are kept.  When no node has the key, it yields null and
    leaves the store as it was. *)
Theorem X8_subst_exchanges_node fuel n s t :
  Rep s t -> bst t -> avl t ->
  n <> null -> faulty n = false -> ~ In n (handles t) ->
  height t < Z.of_nat fuel ->
  (In (key_of n) (keys t) ->
   exists h s' t' A B,
     subst fuel n s = Some (h, s') /\ key_of h = key_of n /\
     handles t = A ++ h :: B /\ handles t' = A ++ n :: B /\
     Rep s' t' /\ bst t' /\ avl t' /\ height t' = height t) /\
  (~ In (key_of n) (keys t) -> subst fuel n s = Some (null, s)).
Proof.
  intros HRep Hbst Havl Hn Hfn Hfresh Hfuel. split; intros Hk.
  - destruct (find_ctx_present (key_of n) t [] Hbst Hk) as (c & t_rm & Hfind).
    destruct (find_ctx_spec _ _ _ _ _ Hfind)
      as (Hplug & (l & h & b & r & -> & Hkey) & _).
    cbn [plug] in Hplug.
    destruct (subst_present_correct fuel n s t c l h b r HRep Hfind Hn Hfn
                Hfresh Hfuel) as (s' & Hrun & HRep').
    exists h, s', (plug c (Node l n b r)),
      (ctx_left c ++ handles l), (handles r ++ ctx_right c).
    assert (Hh : handles (plug c (Node l n b r))
                 = (ctx_left c ++ handles l) ++ n :: handles r ++ ctx_right c).
    { rewrite handles_plug. cbn [handles]. rewrite <- !app_assoc. reflexivity. }
    assert (Hkeys : keys (plug c (Node l n b r)) = keys t).
    { rewrite <- Hplug. unfold keys. rewrite !handles_plug. cbn [handles].
      rewrite !map_app. cbn [map]. rewrite Hkey. reflexivity. }
    split; [exact Hrun|]. split; [exact Hkey|].
    split.
    { rewrite <- Hplug, handles_plug. cbn [handles].
      rewrite <- !app_assoc. reflexivity. }
    split; [exact Hh|]. split; [exact HRep'|].
    split; [apply bst_sorted; rewrite Hkeys; apply bst_sorted; exact Hbst|].
    rewrite <- Hplug in Havl |- *. split.
    + apply (avl_plug_replace c (Node l h b r)); [exact Havl | | reflexivity].
      apply avl_plug_hole in Havl. exact Havl.
    + apply height_plug_eq. reflexivity.
  - pose proof HRep as (Hroot & Hwf & Hnd & He).
    pose proof (subst_find_spec n s He t [] fuel Hwf Hfuel) as Hrun.
    rewrite (find_ctx_absent _ _ [] Hk) in Hrun. cbn [parent_of last_cmp] in Hrun.
    unfold subst. rewrite bind_get_root, Hroot, (run_bind _ _ _ _ _ Hrun).
    reflexivity.
Qed.

(** ** purge, is_empty *)

(** X9. [is_empty] answers true exactly when the tree has no node, and
    changes nothing.  After [purge] the store holds the empty tree:
    [is_empty] answers true and every [search] yields null, whatever the
    tree was before. *)
Theorem X9_purge_is_empty fuel k st s t :
  Rep s t ->
  is_empty s = Some (match t with Leaf => true | Node _ _ _ _ => false end, s) /\
  exists s',
    purge s = Some (tt, s') /\ Rep s' Leaf /\
    is_empty s' = Some (true, s') /\
    search (S fuel) k st s' = Some (null, s').
Proof.
  intros (Hroot & Hwf & Hnd & He). split.
  - unfold is_empty. rewrite bind_get_root, Hroot. unfold ret.
    destruct t as [|l h b r]; [reflexivity|].
    cbn [hd]. destruct Hwf as (Hh & _). rewrite (neq_null _ Hh). reflexivity.
  - exists (put_root null s). split; [reflexivity|].
    split; [|split; reflexivity].
    split; [reflexivity|]. split; [exact I|]. split; [constructor | exact He].
Qed.

(** ** balance *)

(** X10. Called on a node whose subtrees are AVL trees that differ in
    height by two, the stored balance factor having the sign of the deeper
    side, [balance] yields the root of an AVL tree of the same nodes in the
    same order, as high as before or one level lower.  It writes no field
    outside the subtree and leaves the root of the tree alone. *)
Theorem X10_balance_restores_avl s a x bx c :
  wf s (Node a x bx c) -> NoDup (handles (Node a x bx c)) ->
  rd_err s = false -> avl a -> avl c ->
  (height c = height a + 2 /\ 0 < bx) \/ (height a = height c + 2 /\ bx <= 0) ->
  exists s' t',
    balance x s = Some (hd t', s') /\ wf s' t' /\ avl t' /\
    handles t' = handles (Node a x bx c) /\
    height (Node a x bx c) - 1 <= height t' <= height (Node a x bx c) /\
    frame_eq (handles (Node a x bx c)) s s' /\ root s' = root s.
Proof.
  intros Hwf Hnd He Ha Hc Hcase.
  assert (Hb : rotatable (Node a x bx c) /\ avl (balance_t (Node a x bx c)) /\
               height (Node a x bx c) - 1 <= height (balance_t (Node a x bx c))
               <= height (Node a x bx c)).
  { destruct Hcase as [(Hh & Hs)|(Hh & Hs)].
    - destruct (balance_t_greater a x bx c Ha Hc Hh Hs) as (Hr & Hav & Hht & _).
      split; [exact Hr|]. split; [exact Hav|]. rewrite Hht.
      cbn [height]. destruct (bf_of c =? 0); lia.
    - destruct (balance_t_less a x bx c Ha Hc Hh Hs) as (Hr & Hav & Hht & _).
      split; [exact Hr|]. split; [exact Hav|]. rewrite Hht.
      cbn [height]. destruct (bf_of a =? 0); lia. }
  destruct Hb as (Hrot & Hav & Hht).
  destruct (balance_correct s (Node a x bx c) Hwf Hnd He Hrot)
    as (s' & Hrun & Hwf' & Hfr & Hroot).
  exists s', (balance_t (Node a x bx c)).
  split; [exact Hrun|]. split; [exact Hwf'|]. split; [exact Hav|].
  split; [apply handles_balance_t|]. split; [exact Hht|].
  split; [exact Hfr | exact Hroot].
Qed.

(** ** The searches and read errors *)

Lemma search_loop_reads : forall fuel k st tc h m s r s',
  search_loop fuel k st tc h m s = Some (r, s') ->
  s' = s \/ (s' = raise_err s /\ r = null).
Proof.
  induction fuel as [|fuel IH]; intros k st tc h m s r s' H; [discriminate|].
  cbn [search_loop] in H.
  destruct (h =? null) eqn:Hn; [injection H as <- <-; now left|].
  destruct ((cmp_k_n k h =? 0) && has_flag st EQUAL);
    [injection H as <- <-; now left|].
  destruct ((if cmp_k_n k h =? 0 then - tc else cmp_k_n k h) <? 0);
    unfold get_lt, get_gt, get_less, get_greater, bind, read_error in H;
    rewrite Hn in H; destruct (faulty h); cbv beta iota in H;
    cbn [rd_err raise_err] in H;
    try (injection H as <- <-; right; split; reflexivity);
    (destruct (rd_err s);
     [injection H as <- <-; left; reflexivity | exact (IH _ _ _ _ _ _ _ _ H)]).
Qed.

Lemma search_end_loop_reads (to_greater : bool) : forall fuel h parent s r s',
  (if to_greater then search_greatest_loop fuel h parent s
   else search_least_loop fuel h parent s) = Some (r, s') ->
  s' = s \/ (s' = raise_err s /\ r = null).
Proof.
  induction fuel as [|fuel IH]; intros h parent s r s' H;
    [destruct to_greater; discriminate|].
  destruct to_greater; cbn [search_greatest_loop search_least_loop] in H;
    (destruct (h =? null) eqn:Hn; [injection H as <- <-; now left|]);
    unfold get_lt, get_gt, get_less, get_greater, bind, read_error in H;
    rewrite Hn in H; destruct (faulty h); cbv beta iota in H;
    cbn [rd_err raise_err] in H;
    try (injection H as <- <-; right; split; reflexivity);
    (destruct (rd_err s);
     [injection H as <- <-; left; reflexivity | exact (IH _ _ _ _ _ H)]).
Qed.

(** X11. Whatever the store holds, a search that comes back either leaves
    the store exactly as it was, or has met a failing read: then the only
    change is the latched read error and the result is null.  The searches
    write no link, balance factor or root, and never yield a node once a
    read has failed. *)
Theorem X11_search_read_error fuel k st (op : M handle) s r s' :
  In op [search fuel k st; search_least fuel; search_greatest fuel] ->
  rd_err s = false ->
  op s = Some (r, s') ->
  (s' = s /\ rd_err s' = false) \/
  (s' = raise_err s /\ rd_err s' = true /\ r = null).
Proof.
  intros Hop He H.
  assert (Hr : s' = s \/ (s' = raise_err s /\ r = null)).
  { destruct Hop as [<-|[<-|[<-|[]]]].
    - exact (search_loop_reads _ _ _ _ _ _ _ _ _ H).
    - exact (search_end_loop_reads false _ _ _ _ _ _ H).
    - exact (search_end_loop_reads true _ _ _ _ _ _ H). }
  destruct Hr as [->|(-> & ->)]; [left | right]; auto.
Qed.

(** ** start_iter *)

Lemma on_way_step acc f t best :
  on_way acc (fill f t) best -> on_way (f :: acc) t best.
Proof.
  destruct best as [[cb sb]|]; [|exact (fun H => H)].
  intros (Hne & c0 & -> & ->). split; [exact Hne|].
  exists (f :: c0). split; reflexivity.
Qed.

(** [search] settles on the node of the place [seek_ctx] computes. *)
Lemma search_loop_seek k st s :
  rd_err s = false ->
  forall t acc best fuel,
    wf s t -> height t < Z.of_nat fuel ->
    search_loop fuel k st (target_of st) (hd t) (node_at best) s
    = Some (node_at (seek_ctx k st t acc best), s).
Proof.
  intros He.
  induction t as [|l IHl x b r IHr]; intros acc best fuel Hwf Hfu;
    (destruct fuel as [|fuel];
     [match type of Hfu with height ?u < _ => pose proof (height_nonneg u) end;
      lia|]).
  - reflexivity.
  - wf_split Hwf. cbn [search_loop seek_ctx hd]. rewrite (neq_null _ Hn).
    destruct ((cmp_k_n k x =? 0) && has_flag st EQUAL); [reflexivity|].
    pose proof (height_nonneg l). pose proof (height_nonneg r).
    cbn [height] in Hfu.
    destruct ((if cmp_k_n k x =? 0 then - target_of st else cmp_k_n k x) <? 0).
    + rewrite (run_bind _ _ _ _ _ (run_get_lt x s Hn Hf)), Hl.
      unfold read_error at 1. unfold bind at 1. rewrite He.
      destruct (negb (cmp_k_n k x =? 0) && negb (target_of st =? 0)
                && same_sign (cmp_k_n k x) (target_of st)).
      * apply (IHl _ (Some (acc, Node l x b r))); [exact Hwl | lia].
      * apply IHl; [exact Hwl | lia].
    + rewrite (run_bind _ _ _ _ _ (run_get_gt x s Hn Hf)), Hg.
      unfold read_error at 1. unfold bind at 1. rewrite He.
      destruct (negb (cmp_k_n k x =? 0) && negb (target_of st =? 0)
                && same_sign (cmp_k_n k x) (target_of st)).
      * apply (IHr _ (Some (acc, Node l x b r))); [exact Hwr | lia].
      * apply IHr; [exact Hwr | lia].
Qed.

Lemma it_pos_push_at br pa acc x b sib (d : bool) y n :
  it_pos (mkIter br (Z.of_nat (length acc)) pa) acc x ->
  n = Z.of_nat (length acc) ->
  it_pos (mkIter (upd br n d) (Z.of_nat (length ((d, x, b, sib) :: acc)))
            (upd pa n y))
    ((d, x, b, sib) :: acc) y.
Proof.
  intros Hpos ->.
  destruct (it_pos_push _ _ _ b sib d y Hpos) as (_ & Hb & Hp).
  split; [reflexivity|]. split; [exact Hb | exact Hp].
Qed.

(** The comparison result that steers the descent is not zero when the
    search type has one of the three flags. *)
Lemma steer_nonzero k st x :
  has_flag st EQUAL = true \/ target_of st <> 0 ->
  (cmp_k_n k x =? 0) && has_flag st EQUAL = false ->
  (if cmp_k_n k x =? 0 then - target_of st else cmp_k_n k x) <> 0.
Proof.
  intros Hst Hfound. destruct (Z.eqb_spec (cmp_k_n k x) 0) as [E|E]; [|exact E].
  cbn [andb] in Hfound. destruct Hst as [Hst|Hst]; [congruence | lia].
Qed.

Lemma start_iter_loop_spec k st s :
  max_depth <= UNSIGNED_MAX -> rd_err s = false ->
  has_flag st EQUAL = true \/ target_of st <> 0 ->
  forall t acc best br pa fuel d,
    t <> Leaf -> wf s t ->
    it_pos (mkIter br (Z.of_nat (length acc)) pa) acc (hd t) ->
    on_way acc t best ->
    d = Z.of_nat (length acc) ->
    Z.of_nat (length acc) + height t <= max_depth ->
    height t <= Z.of_nat fuel ->
    exists br' pa' cf tf,
      start_iter_loop fuel k st (target_of st) (hd t) d
        (mkIter br (depth_of best) pa) s
      = Some (mkIter br' (depth_of (seek_ctx k st t acc best)) pa', s) /\
      it_pos (mkIter br' (Z.of_nat (length cf)) pa') cf (hd tf) /\
      on_way cf tf (seek_ctx k st t acc best) /\
      plug cf tf = plug acc t.
Proof.
  intros Hmax He Hst.
  induction t as [|l IHl x b r IHr];
    intros acc best br pa fuel d Hne Hwf Hpos Hway Hd Hlen Hfuel; [congruence|].
  wf_split Hwf. cbn [height] in Hlen, Hfuel.
  pose proof (height_nonneg l). pose proof (height_nonneg r).
  destruct fuel as [|fuel]; [lia|].
  cbn [start_iter_loop seek_ctx hd it_branch it_depth it_path_h] in *.
  cbv zeta.
  destruct ((cmp_k_n k x =? 0) && has_flag st EQUAL) eqn:Efound.
  { exists br, pa, acc, (Node l x b r). subst d.
    split; [reflexivity|]. split; [exact Hpos|]. split; [|reflexivity].
    split; [discriminate|]. exists []. split; reflexivity. }
  pose proof (steer_nonzero k st x Hst Efound) as Hnz.
  set (cmp' := if cmp_k_n k x =? 0 then - target_of st else cmp_k_n k x) in *.
  set (cond := negb (cmp_k_n k x =? 0) && negb (target_of st =? 0)
               && same_sign (cmp_k_n k x) (target_of st)).
  match goal with
  | |- context [seek_ctx k st l _ ?B] => set (best' := B)
  end.
  assert (Hd' : (if cond then d else depth_of best) = depth_of best').
  { unfold best'. destruct cond; [exact Hd | reflexivity]. }
  assert (Hway' : on_way acc (Node l x b r) best').
  { unfold best'. destruct cond; [|exact Hway].
    split; [discriminate|]. exists []. split; reflexivity. }
  rewrite Hd'. clearbody best' cmp'. clear Hd' Hway.
  destruct (Z.ltb_spec cmp' 0) as [Hdir|Hdir].
  - rewrite bind_get_lt by assumption. rewrite bind_read_error, He, Hl.
    replace (0 <? cmp') with false by lia.
    destruct l as [|l1 y by_ l2].
    + cbn [hd seek_ctx]. rewrite Z.eqb_refl.
      exists br, pa, acc, (Node Leaf x b r).
      split; [reflexivity|]. split; [exact Hpos|]. split; [exact Hway'|].
      reflexivity.
    + assert (Hy : hd (Node l1 y by_ l2) <> null)
        by (apply (hd_nonnull s); [exact Hwl | discriminate]).
      rewrite (neq_null _ Hy).
      cbn [height] in Hlen, Hfuel.
      pose proof (height_nonneg l1). pose proof (height_nonneg l2).
      rewrite bind_bit_put by lia. rewrite bind_path_put by lia.
      rewrite u32_small by (unfold UNSIGNED_MAX in *; lia).
      destruct (IHl ((false, x, b, r) :: acc) best'
                  (upd br d false) (upd pa d (hd (Node l1 y by_ l2)))
                  fuel (d + 1))
        as (br' & pa' & cf & tf & Hrun & Hp & Hw & Hpl).
      * discriminate.
      * exact Hwl.
      * apply it_pos_push_at; assumption.
      * apply on_way_step. exact Hway'.
      * subst d. cbn [length]. rewrite Nat2Z.inj_succ. reflexivity.
      * cbn [length height]. rewrite Nat2Z.inj_succ. lia.
      * cbn [height]. lia.
      * exists br', pa', cf, tf. split; [exact Hrun|]. split; [exact Hp|].
        split; [exact Hw | exact Hpl].
  - rewrite bind_get_gt by assumption. rewrite bind_read_error, He, Hg.
    replace (0 <? cmp') with true by lia.
    replace (cmp' <? 0) with false by lia.
    destruct r as [|r1 y by_ r2].
    + cbn [hd seek_ctx]. rewrite Z.eqb_refl.
      exists br, pa, acc, (Node l x b Leaf).
      split; [reflexivity|]. split; [exact Hpos|]. split; [exact Hway'|].
      reflexivity.
    + assert (Hy : hd (Node r1 y by_ r2) <> null)
        by (apply (hd_nonnull s); [exact Hwr | discriminate]).
      rewrite (neq_null _ Hy).
      cbn [height] in Hlen, Hfuel.
      pose proof (height_nonneg r1). pose proof (height_nonneg r2).
      rewrite bind_bit_put by lia. rewrite bind_path_put by lia.
      rewrite u32_small by (unfold UNSIGNED_MAX in *; lia).
      destruct (IHr ((true, x, b, l) :: acc) best'
                  (upd br d true) (upd pa d (hd (Node r1 y by_ r2)))
                  fuel (d + 1))
        as (br' & pa' & cf & tf & Hrun & Hp & Hw & Hpl).
      * discriminate.
      * exact Hwr.
      * apply it_pos_push_at; assumption.
      * apply on_way_step. exact Hway'.
      * subst d. cbn [length]. rewrite Nat2Z.inj_succ. reflexivity.
      * cbn [length height]. rewrite Nat2Z.inj_succ. lia.
      * cbn [height]. lia.
      * exists br', pa', cf, tf. split; [exact Hrun|]. split; [exact Hp|].
        split; [exact Hw | exact Hpl].
Qed.

Lemma path_nodes_app : forall c0 c x,
  exists rest, path_nodes (c0 ++ c) x = path_nodes c (top_of c0 x) ++ rest.
Proof.
  induction c0 as [|f c0 IH]; intros c x.
  - exists []. cbn [app top_of]. now rewrite app_nil_r.
  - destruct (IH c (f_node f)) as (rest & E).
    exists (rest ++ [x]). cbn [app top_of].
    rewrite path_nodes_cons, E, <- app_assoc. reflexivity.
Qed.

Lemma on_way_pos cf tf br pa c sub :
  it_pos (mkIter br (Z.of_nat (length cf)) pa) cf (hd tf) ->
  on_way cf tf (Some (c, sub)) ->
  it_pos (mkIter br (Z.of_nat (length c)) pa) c (hd sub) /\
  plug c sub = plug cf tf /\ sub <> Leaf.
Proof.
  intros (_ & Hb & Hp) (Hne & c0 & -> & ->).
  cbn [it_branch it_path_h] in Hb, Hp.
  split; [|split; [now rewrite plug_app | exact Hne]].
  split; [reflexivity|]. cbn [it_branch it_path_h].
  split; [exact (agree_bits_suffix _ _ _ Hb)|].
  rewrite hd_plug.
  destruct (path_nodes_app c0 c (hd tf)) as (rest & E). rewrite E in Hp.
  exact (agree_path_prefix _ _ _ Hp).
Qed.

Lemma start_iter_spec fuel k st it s t :
  max_depth <= UNSIGNED_MAX ->
  has_flag st EQUAL = true \/ target_of st <> 0 ->
  Rep s t -> height t <= max_depth -> height t < Z.of_nat fuel ->
  exists it',
    start_iter fuel k st it s = Some (it', s) /\
    search fuel k st s = Some (node_at (seek_ctx k st t [] None), s) /\
    match seek_ctx k st t [] None with
    | Some (c, sub) => iter_at t it' c sub
    | None => it_depth it' = UNSIGNED_MAX
    end.
Proof.
  intros Hmax Hst (Hroot & Hwf & Hnd & He) Hh Hfuel.
  assert (Hsearch : search fuel k st s
                    = Some (node_at (seek_ctx k st t [] None), s)).
  { unfold search. rewrite bind_get_root, Hroot.
    exact (search_loop_seek k st s He t [] None fuel Hwf Hfuel). }
  unfold start_iter. rewrite bind_get_root, Hroot.
  destruct t as [|l x b r].
  - cbn [hd seek_ctx]. rewrite Z.eqb_refl.
    eexists. split; [reflexivity|]. split; [exact Hsearch | reflexivity].
  - pose proof Hwf as (Hx & _). cbn [hd]. rewrite (neq_null _ Hx).
    destruct (start_iter_loop_spec k st s Hmax He Hst (Node l x b r) [] None
                (it_branch it) (it_path_h it) fuel 0)
      as (br' & pa' & cf & tf & Hrun & Hp & Hw & Hpl).
    + discriminate.
    + exact Hwf.
    + split; [reflexivity|]. split.
      * intros i f Hi. destruct i; discriminate.
      * intros i h Hi. destruct i; discriminate.
    + exact I.
    + reflexivity.
    + cbn [length]. lia.
    + lia.
    + cbn [hd depth_of] in Hrun. eexists. split; [exact Hrun|].
      split; [exact Hsearch|].
      destruct (seek_ctx k st (Node l x b r) [] None) as [[c sub]|];
        [|reflexivity].
      destruct (on_way_pos _ _ _ _ _ _ Hp Hw) as (Hpos & Hplug & Hne).
      split; [rewrite Hplug, Hpl; reflexivity|]. split; [exact Hne|].
      exact Hpos.
Qed.

(** X12. [start_iter] with the key [k] and the search type [st] leaves the
    iterator on the very node [search] yields for them: dereferencing
    gives that node, and the iterator is invalid exactly when [search]
    yields null.  The store is not changed. *)
Theorem X12_start_iter_agrees_with_search fuel k st it s t :
  max_depth <= UNSIGNED_MAX ->
  In st [EQUAL; LESS; GREATER; LESS_EQUAL; GREATER_EQUAL] ->
  Rep s t -> height t <= max_depth -> height t < Z.of_nat fuel ->
  exists it' r,
    start_iter fuel k st it s = Some (it', s) /\
    search fuel k st s = Some (r, s) /\
    iter_deref it' s = Some (r, s) /\
    (r = null <-> it_depth it' = UNSIGNED_MAX).
Proof.
  intros Hmax Hin HRep Hh Hfuel.
  assert (Hst : has_flag st EQUAL = true \/ target_of st <> 0).
  { destruct Hin as [<-|[<-|[<-|[<-|[<-|[]]]]]];
      solve [left; reflexivity | right; discriminate]. }
  destruct (start_iter_spec fuel k st it s t Hmax Hst HRep Hh Hfuel)
    as (it' & Hrun & Hsearch & Hat).
  exists it', (node_at (seek_ctx k st t [] None)).
  split; [exact Hrun|]. split; [exact Hsearch|].
  destruct HRep as (Hroot & Hwf & _ & _).
  destruct (seek_ctx k st t [] None) as [[c sub]|]; cbn [node_at].
  - destruct Hat as (Hplug & Hne & Hpos).
    pose proof (height_plug_ge c sub) as Hge. rewrite Hplug in Hge.
    assert (Hs1 : 1 <= height sub).
    { destruct sub as [|sl sx sb sr]; [congruence|]. cbn [height].
      pose proof (height_nonneg sl). pose proof (height_nonneg sr). lia. }
    rewrite <- Hplug in Hwf, Hroot. rewrite hd_plug in Hroot.
    pose proof (proj1 (wf_plug _ _ _) Hwf) as (_ & Hws).
    split; [apply (iter_deref_pos it' c (hd sub) s Hmax Hpos Hroot); lia|].
    destruct Hpos as (Hd & _). rewrite Hd. split.
    + intros E. exfalso. exact (hd_nonnull s sub Hws Hne E).
    + intros E. lia.
  - split; [|split; auto].
    unfold iter_deref. rewrite Hat, Z.eqb_refl. reflexivity.
Qed.

(** ** Iterating from a key *)

Lemma filter_none {A} (P : A -> bool) : forall l,
  (forall y, In y l -> P y = false) -> filter P l = [].
Proof.
  induction l as [|x l IH]; intros H; [reflexivity|].
  cbn [filter]. rewrite (H x (or_introl eq_refl)).
  apply IH. intros y Hy. apply H. now right.
Qed.

Lemma filter_all {A} (P : A -> bool) : forall l,
  (forall y, In y l -> P y = true) -> filter P l = l.
Proof.
  induction l as [|x l IH]; intros H; [reflexivity|].
  cbn [filter]. rewrite (H x (or_introl eq_refl)). f_equal.
  apply IH. intros y Hy. apply H. now right.
Qed.

Lemma handles_at c sub :
  sub <> Leaf ->
  exists pre, handles (plug c sub) = pre ++ hd sub :: todo c sub.
Proof.
  destruct sub as [|l x b r]; [congruence|]. intros _.
  exists (ctx_left c ++ handles l). rewrite handles_plug.
  cbn [handles hd todo]. rewrite <- !app_assoc. reflexivity.
Qed.

Lemma iterate_from fuel k st (P : handle -> bool) it s t :
  max_depth <= UNSIGNED_MAX ->
  has_flag st EQUAL = true \/ target_of st <> 0 ->
  Rep s t -> bst t -> height t <= max_depth -> height t < Z.of_nat fuel ->
  search fuel k st s = Some (leftmost P (handles t), s) ->
  (forall y z, P y = true -> key_of y <= key_of z -> P z = true) ->
  exists it0 it_end,
    start_iter fuel k st it s = Some (it0, s) /\
    iter_collect (length (filter P (handles t))) fuel it0 s
    = Some ((filter P (handles t), it_end), s) /\
    it_depth it_end = UNSIGNED_MAX.
Proof.
  intros Hmax Hst HRep Hbst Hh Hfuel Hleft Hmono.
  destruct (start_iter_spec fuel k st it s t Hmax Hst HRep Hh Hfuel)
    as (it0 & Hrun & Hsearch & Hat).
  rewrite Hleft in Hsearch. injection Hsearch as Hx.
  pose proof (proj1 (bst_sorted t) Hbst) as Hs. unfold keys in Hs.
  pose proof (rep_nonnull s t HRep) as Hnn.
  exists it0.
  destruct (seek_ctx k st t [] None) as [[c sub]|]; cbn [node_at] in Hx.
  - destruct Hat as (Hplug & Hne & Hpos).
    assert (Hat : iter_at t it0 c sub) by (split; [|split]; assumption).
    destruct (handles_at c sub Hne) as (pre & Hpre). rewrite Hplug in Hpre.
    assert (Hfil : filter P (handles t) = hd sub :: todo c sub).
    { rewrite Hpre in Hs, Hx |- *.
      unfold leftmost in Hx.
      destruct (find P (pre ++ hd sub :: todo c sub)) as [x|] eqn:Ef;
        cbn [or_null] in Hx.
      2:{ exfalso. apply (Hnn (hd sub)); [|auto].
          rewrite Hpre. apply in_or_app. right. now left. }
      subst x.
      destruct (find_split P _ _ Ef) as (a & b & Eab & Px & Ha).
      assert (Hnd : NoDup (pre ++ hd sub :: todo c sub)).
      { rewrite <- Hpre. apply HRep. }
      destruct (split_unique _ _ _ _ _ Hnd Eab) as (-> & <-).
      rewrite filter_app. cbn [filter]. rewrite Px, (filter_none P a Ha).
      cbn [app]. f_equal. apply filter_all. intros y Hy.
      apply (Hmono (hd sub) y Px).
      rewrite map_app in Hs. cbn [map] in Hs.
      apply ssorted_app_iff in Hs. destruct Hs as (_ & Hs & _).
      apply ssorted_cons_iff in Hs. destruct Hs as (_ & Hlt).
      specialize (Hlt (key_of y) (in_map key_of _ _ Hy)). lia. }
    rewrite Hfil. cbn [length].
    destruct (iter_collect_spec fuel s t Hmax HRep Hh Hfuel
                (length (todo c sub)) it0 c sub Hat eq_refl)
      as (it_last & it_end & Hcol & _ & _ & Hend).
    exists it_end. split; [exact Hrun|]. split; [exact Hcol | exact Hend].
  - assert (Hfil : filter P (handles t) = []).
    { apply filter_none.
      destruct (leftmost_cases P (handles t) Hnn Hs) as [(_ & Hall)|(Hn & _)];
        [exact Hall | congruence]. }
    rewrite Hfil. exists it0. split; [exact Hrun|]. split; [reflexivity|].
    exact Hat.
Qed.

(** X13. An iterator started with [start_iter] at the key [k] with
    GREATER_EQUAL, dereferenced and advanced with [++] again and again,
    yields exactly the nodes whose key is at least [k], in ascending order,
    and is invalid after the last of them (at once when there is none);
    with GREATER the same holds for the nodes whose key is above [k]. *)
Theorem X13_iterate_from_key fuel k it s t :
  max_depth <= UNSIGNED_MAX ->
  Rep s t -> bst t -> height t <= max_depth -> height t < Z.of_nat fuel ->
  forall st (P : handle -> bool),
    (st = GREATER_EQUAL /\ P = (fun y => k <=? key_of y)) \/
    (st = GREATER /\ P = (fun y => k <? key_of y)) ->
    exists it0 it_end,
      start_iter fuel k st it s = Some (it0, s) /\
      iter_collect (length (filter P (handles t))) fuel it0 s
      = Some ((filter P (handles t), it_end), s) /\
      it_depth it_end = UNSIGNED_MAX /\
      StronglySorted Z.lt (map key_of (filter P (handles t))).
Proof.
  intros Hmax HRep Hbst Hh Hfuel st P Hcase.
  assert (Hsort : StronglySorted Z.lt (map key_of (filter P (handles t)))).
  { pose proof (proj1 (bst_sorted t) Hbst) as Hs. unfold keys in Hs.
    clear - Hs. induction (handles t) as [|x l IH]; [constructor|].
    cbn [map] in Hs. apply ssorted_cons_iff in Hs. destruct Hs as (Hs & Hlt).
    cbn [filter]. destruct (P x); [|exact (IH Hs)].
    cbn [map]. apply ssorted_cons_iff. split; [exact (IH Hs)|].
    intros z Hz. apply Hlt. apply in_map_iff in Hz.
    destruct Hz as (y & <- & Hy). apply filter_In in Hy.
    apply in_map. apply Hy. }
  destruct Hcase as [(-> & ->)|(-> & ->)].
  - destruct (iterate_from fuel k GREATER_EQUAL (fun y => k <=? key_of y)
                it s t Hmax (or_introl eq_refl) HRep Hbst Hh Hfuel)
      as (it0 & it_end & H1 & H2 & H3).
    + apply search_greater_equal_spec; assumption.
    + intros y z Hy Hyz. apply Z.leb_le. apply Z.leb_le in Hy. lia.
    + exists it0, it_end. auto.
  - assert (Hst : has_flag GREATER EQUAL = true \/ target_of GREATER <> 0)
      by (right; discriminate).
    destruct (iterate_from fuel k GREATER (fun y => k <? key_of y)
                it s t Hmax Hst HRep Hbst Hh Hfuel)
      as (it0 & it_end & H1 & H2 & H3).
    + apply search_greater_spec; assumption.
    + intros y z Hy Hyz. apply Z.ltb_lt. apply Z.ltb_lt in Hy. lia.
    + exists it0, it_end. auto.
Qed.

(** ** Iterating downwards *)

Lemma start_iter_greatest_loop_spec s :
  max_depth <= UNSIGNED_MAX -> rd_err s = false ->
  forall u c path fuel,
    u <> Leaf -> wf s u ->
    agree_path path (map f_node (rev c)) ->
    Z.of_nat (length c) + height u <= max_depth ->
    height u < Z.of_nat fuel ->
    exists path',
      start_iter_greatest_loop fuel (hd u) (u32 (Z.of_nat (length c) - 1))
        path s
      = Some ((Z.of_nat (length (fst (max_ctx u c))), path'), s) /\
      agree_path path' (path_nodes (fst (max_ctx u c)) (hd (snd (max_ctx u c)))).
Proof.
  intros Hmax He.
  induction u as [|l _ x b r IHr]; intros c path fuel Hne Hwf Hp Hlen Hfuel;
    [congruence|].
  wf_split Hwf. cbn [height] in Hlen, Hfuel.
  pose proof (height_nonneg l). pose proof (height_nonneg r).
  destruct fuel as [|fuel]; [lia|].
  cbn [start_iter_greatest_loop hd]. rewrite (neq_null _ Hn).
  set (path1 := if (length c =? 0)%nat then path
                else upd path (Z.of_nat (length c) - 1) x).
  assert (Hput : forall B (k : (Z -> handle) -> M B),
    bind (if negb (u32 (Z.of_nat (length c) - 1) =? UNSIGNED_MAX)
          then path_put path (u32 (Z.of_nat (length c) - 1)) x
          else ret path) k s = k path1 s).
  { intros B k. unfold path1. destruct c as [|f c]; [reflexivity|].
    cbn [length Nat.eqb] in *. rewrite Nat2Z.inj_succ in *.
    unfold Z.succ in *. rewrite Z.add_simpl_r.
    rewrite u32_small by (unfold UNSIGNED_MAX in *; lia).
    rewrite (proj2 (Z.eqb_neq _ _)) by lia. cbn [negb].
    apply bind_path_put. lia. }
  assert (Hp1 : agree_path path1 (path_nodes c x)).
  { unfold path1, path_nodes. destruct c as [|f c].
    - intros i h Hi. destruct i; discriminate.
    - replace (Z.of_nat (length (f :: c)))
        with (Z.of_nat (length (map f_node (rev (f :: c)))))
        by (rewrite length_map, length_rev; reflexivity).
      cbn [length Nat.eqb]. apply agree_path_snoc. exact Hp. }
  rewrite Hput. rewrite u32_pred_succ by lia.
  rewrite bind_get_gt by assumption. rewrite bind_read_error, He, Hg.
  rewrite max_ctx_node.
  destruct r as [|r1 y by_ r2].
  - destruct fuel as [|fuel]; [cbn [height] in Hfuel; lia|].
    cbn [start_iter_greatest_loop hd]. rewrite Z.eqb_refl.
    exists path1. split; [reflexivity | exact Hp1].
  - destruct (IHr ((true, x, b, l) :: c) path1 fuel) as (path' & Hrun & Hagree).
    + discriminate.
    + exact Hwr.
    + cbn [rev]. rewrite map_app. exact Hp1.
    + cbn [length]. rewrite Nat2Z.inj_succ. lia.
    + lia.
    + cbn [length] in Hrun. rewrite Nat2Z.inj_succ in Hrun.
      unfold Z.succ in Hrun. rewrite Z.add_simpl_r in Hrun.
      rewrite u32_small in Hrun by (unfold UNSIGNED_MAX in *; lia).
      exists path'. split; [exact Hrun | exact Hagree].
Qed.

Lemma iter_slide_back_spec s :
  max_depth <= UNSIGNED_MAX -> rd_err s = false ->
  forall u c it fuel,
    u <> Leaf -> wf s u -> it_pos it c (hd u) ->
    Z.of_nat (length c) + height u <= max_depth ->
    height u <= Z.of_nat fuel ->
    exists it',
      iter_slide fuel true (hd u) it s = Some (it', s) /\
      it_pos it' (fst (max_ctx u c)) (hd (snd (max_ctx u c))).
Proof.
  intros Hmax He.
  induction u as [|l _ x b r IHr]; intros c it fuel Hne Hwf Hpos Hlen Hfuel;
    [congruence|].
  wf_split Hwf. cbn [height] in Hlen, Hfuel.
  pose proof (height_nonneg l). pose proof (height_nonneg r).
  destruct fuel as [|fuel]; [lia|].
  cbn [iter_slide hd] in *.
  rewrite bind_get_gt by assumption. rewrite bind_read_error, He, Hg.
  rewrite max_ctx_node.
  destruct r as [|r1 y by_ r2].
  - cbn [hd]. rewrite Z.eqb_refl. exists it. split; [reflexivity | exact Hpos].
  - assert (Hy : hd (Node r1 y by_ r2) <> null)
      by (apply (hd_nonnull s); [exact Hwr | discriminate]).
    rewrite (neq_null _ Hy).
    pose proof Hpos as (Hd & _). rewrite Hd.
    cbn [height] in Hlen, Hfuel.
    pose proof (height_nonneg r1). pose proof (height_nonneg r2).
    rewrite bind_bit_put by lia. rewrite bind_path_put by lia.
    rewrite u32_small by (unfold UNSIGNED_MAX in *; lia).
    apply (IHr ((true, x, b, l) :: c)).
    + discriminate.
    + exact Hwr.
    + apply it_pos_push. exact Hpos.
    + cbn [length height]. rewrite Nat2Z.inj_succ. lia.
    + cbn [height]. lia.
Qed.

Lemma iter_pop_back_spec s branch :
  forall c t fuel,
    agree_bits branch c ->
    Z.of_nat (length c) <= max_depth -> max_depth <= UNSIGNED_MAX ->
    (length c < fuel)%nat ->
    iter_pop fuel true branch (Z.of_nat (length c)) s
    = Some (match pop_ctx_back c t with
            | Some (c', _) => Z.of_nat (length c')
            | None => UNSIGNED_MAX
            end, s).
Proof.
  induction c as [|[[[d y] b] sib] c IH]; intros t fuel Hb Hlen Hmax Hfuel;
    (destruct fuel as [|fuel]; [lia|]).
  - reflexivity.
  - cbn [iter_pop length pop_ctx_back] in *. rewrite Nat2Z.inj_succ in *.
    unfold Z.succ in *.
    rewrite (proj2 (Z.eqb_neq _ _)) by lia. rewrite Z.add_simpl_r.
    rewrite u32_small by (unfold UNSIGNED_MAX in *; lia).
    rewrite bind_bit_get by lia.
    match goal with
    | |- context [Bool.eqb ?v true] =>
        replace v with d
          by (symmetry; exact (agree_bits_head _ _ _ _ _ _ Hb))
    end.
    destruct d; cbn [Bool.eqb].
    + reflexivity.
    + apply IH; [exact (agree_bits_pop _ _ _ Hb) | lia | exact Hmax | lia].
Qed.

Lemma pop_ctx_back_spec : forall c t c' t',
  pop_ctx_back c t = Some (c', t') ->
  exists pre y b sib,
    c = pre ++ (true, y, b, sib) :: c' /\
    t' = fill (true, y, b, sib) (plug pre t) /\
    Forall (fun f => f_dir f = false) pre.
Proof.
  induction c as [|[[[d y] b] sib] c IH]; intros t c' t' H; [discriminate|].
  cbn [pop_ctx_back] in H. destruct d.
  - injection H as <- <-. exists [], y, b, sib.
    split; [reflexivity|]. split; [reflexivity | constructor].
  - destruct (IH _ _ _ H) as (pre & y' & b' & sib' & -> & -> & Hall).
    exists ((false, y, b, sib) :: pre), y', b', sib'.
    split; [reflexivity|]. split; [reflexivity|].
    constructor; [reflexivity | exact Hall].
Qed.

Lemma pop_ctx_back_none : forall c t,
  pop_ctx_back c t = None -> Forall (fun f => f_dir f = false) c.
Proof.
  induction c as [|[[[d y] b] sib] c IH]; intros t H; [constructor|].
  cbn [pop_ctx_back] in H. destruct d; [discriminate|].
  constructor; [reflexivity | exact (IH _ H)].
Qed.

Lemma max_ctx_plug u c :
  u <> Leaf ->
  plug (fst (max_ctx u c)) (snd (max_ctx u c)) = plug c u /\
  snd (max_ctx u c) <> Leaf /\
  exists cw, fst (max_ctx u c) = cw ++ c /\
             Forall (fun f => f_dir f = true) cw /\
             exists l' m bm, snd (max_ctx u c) = Node l' m bm Leaf /\
                             u = plug cw (Node l' m bm Leaf).
Proof.
  intros Hne.
  destruct (max_ctx_spec u c Hne) as (cw & l' & m & bm & E & Eu & Hall & _).
  rewrite E. cbn [fst snd]. split; [rewrite plug_app, <- Eu; reflexivity|].
  split; [discriminate|].
  exists cw. split; [reflexivity|]. split; [exact Hall|].
  exists l', m, bm. split; [reflexivity | exact Eu].
Qed.

Lemma prev_pos_some c sub c' sub' :
  prev_pos c sub = Some (c', sub') ->
  plug c' sub' = plug c sub /\ sub' <> Leaf /\
  before c sub = before c' sub' ++ [hd sub'].
Proof.
  destruct sub as [|l x b r]; [discriminate|]. cbn [prev_pos before].
  destruct l as [|l1 y by_ l2].
  - intros H.
    destruct (pop_ctx_back_spec _ _ _ _ H)
      as (pre & z & bz & sib & -> & -> & Hall).
    split; [rewrite plug_app; reflexivity|]. split; [discriminate|].
    cbn [fill hd before handles]. rewrite app_nil_r.
    rewrite ctx_left_app, (ctx_left_all_false pre Hall), app_nil_r.
    cbn [ctx_left]. rewrite app_assoc. reflexivity.
  - intros H. injection H as H.
    change (max_ctx (Node l1 y by_ l2) ((false, x, b, r) :: c) = (c', sub'))
      in H.
    destruct (max_ctx_plug (Node l1 y by_ l2) ((false, x, b, r) :: c))
      as (Hp & Hn & cw & Ec & Hall & l' & m & bm & Es & Eu); [discriminate|].
    rewrite H in Hp, Hn, Ec, Es. cbn [fst snd] in *. subst c' sub'.
    split; [exact Hp|]. split; [discriminate|].
    rewrite Eu, handles_plug, (ctx_right_all_true cw Hall).
    cbn [hd before handles]. rewrite ctx_left_app.
    cbn [ctx_left]. rewrite !app_nil_r, <- !app_assoc. reflexivity.
Qed.

Lemma prev_pos_none c sub :
  sub <> Leaf -> prev_pos c sub = None -> before c sub = [].
Proof.
  destruct sub as [|l x b r]; [congruence|]. intros _. cbn [prev_pos before].
  destruct l as [|l1 y by_ l2]; [|discriminate].
  intros H. apply pop_ctx_back_none in H. cbn [handles].
  rewrite app_nil_r. apply ctx_left_all_false. exact H.
Qed.

Lemma iter_decr_spec fuel s t it c sub :
  max_depth <= UNSIGNED_MAX ->
  Rep s t -> height t <= max_depth -> height t < Z.of_nat fuel ->
  iter_at t it c sub ->
  iter_deref it s = Some (hd sub, s) /\
  exists it',
    iter_decr fuel it s = Some (it', s) /\
    match prev_pos c sub with
    | Some (c', sub') => iter_at t it' c' sub'
    | None => it_depth it' = UNSIGNED_MAX
    end.
Proof.
  intros Hmax (Hroot & Hwf & _ & He) Hh Hfuel (Hplug & Hne & Hpos).
  pose proof (height_plug_ge c sub) as Hge. rewrite Hplug in Hge.
  rewrite <- Hplug in Hwf, Hroot. rewrite hd_plug in Hroot.
  apply wf_plug in Hwf. destruct Hwf as (Hwfc & Hws).
  destruct sub as [|l x b r]; [congruence|].
  pose proof Hws as Hws'. wf_split Hws'. cbn [height hd] in *.
  pose proof (height_nonneg l). pose proof (height_nonneg r).
  assert (Hderef : iter_deref it s = Some (x, s)).
  { apply (iter_deref_pos it c x s Hmax Hpos Hroot). lia. }
  split; [exact Hderef|].
  pose proof Hpos as (Hd & Hbits & Hp).
  unfold iter_decr. rewrite Hd.
  rewrite (proj2 (Z.eqb_neq _ _)) by lia. cbn [negb].
  rewrite (run_bind _ _ _ _ _ Hderef).
  rewrite bind_get_lt by assumption. rewrite bind_read_error, He, Hl.
  cbn [prev_pos]. destruct l as [|l1 y by_ l2].
  - cbn [hd]. rewrite Z.eqb_refl.
    rewrite (run_bind _ _ _ _ _
               (iter_pop_back_spec s (it_branch it) c (Node Leaf x b r) fuel
                  Hbits ltac:(lia) Hmax ltac:(lia))).
    eexists. split; [reflexivity|].
    destruct (pop_ctx_back c (Node Leaf x b r)) as [[c' sub']|] eqn:Epop;
      [|reflexivity].
    destruct (pop_ctx_back_spec _ _ _ _ Epop)
      as (pre & z & bz & sib & Ec & Es & Hall).
    split; [|split].
    + rewrite <- Hplug, Ec, Es, plug_app. reflexivity.
    + rewrite Es. discriminate.
    + unfold it_pos. cbn [it_depth it_branch it_path_h].
      split; [reflexivity|]. rewrite Ec in Hbits, Hp. split.
      * apply (agree_bits_suffix _ (pre ++ [(true, z, bz, sib)])).
        rewrite <- app_assoc. exact Hbits.
      * rewrite Es. cbn [fill hd]. unfold path_nodes in *.
        rewrite rev_app_distr in Hp. cbn [rev] in Hp.
        rewrite !map_app in Hp. cbn [map f_node fst snd] in Hp.
        rewrite <- !app_assoc in Hp.
        rewrite app_assoc in Hp. exact (agree_path_prefix _ _ _ Hp).
  - assert (Hy : hd (Node l1 y by_ l2) <> null)
      by (apply (hd_nonnull s); [exact Hwl | discriminate]).
    rewrite (neq_null _ Hy).
    cbn [height] in Hge.
    pose proof (height_nonneg l1). pose proof (height_nonneg l2).
    rewrite bind_bit_put by lia. rewrite bind_path_put by lia.
    rewrite u32_small by (unfold UNSIGNED_MAX in *; lia).
    destruct (iter_slide_back_spec s Hmax He (Node l1 y by_ l2)
                ((false, x, b, r) :: c)
                (mkIter (upd (it_branch it) (Z.of_nat (length c)) false)
                   (Z.of_nat (length c) + 1)
                   (upd (it_path_h it) (Z.of_nat (length c))
                      (hd (Node l1 y by_ l2)))) fuel)
      as (it' & Hrun & Hpos').
    + discriminate.
    + exact Hwl.
    + apply it_pos_push. exact Hpos.
    + cbn [length height]. rewrite Nat2Z.inj_succ. lia.
    + cbn [height]. lia.
    + exists it'. split; [exact Hrun|].
      destruct (max_ctx_plug (Node l1 y by_ l2) ((false, x, b, r) :: c))
        as (Hp' & Hn' & _); [discriminate|].
      destruct (max_ctx (Node l1 y by_ l2) ((false, x, b, r) :: c))
        as [c' sub']. cbn [fst snd] in *.
      split; [rewrite Hp'; exact Hplug|]. split; assumption.
Qed.

Lemma iter_collect_back_spec fuel s t :
  max_depth <= UNSIGNED_MAX ->
  Rep s t -> height t <= max_depth -> height t < Z.of_nat fuel ->
  forall n it c sub,
    iter_at t it c sub -> length (before c sub) = n ->
    exists it_end,
      iter_collect_back (S n) fuel it s
      = Some ((hd sub :: rev (before c sub), it_end), s) /\
      it_depth it_end = UNSIGNED_MAX.
Proof.
  intros Hmax HRep Hh Hfuel.
  induction n as [|n IH]; intros it c sub Hat Hlen;
    destruct (iter_decr_spec fuel s t it c sub Hmax HRep Hh Hfuel Hat)
      as (Hderef & it' & Hdecr & Hnext);
    pose proof Hat as (_ & Hne & _);
    cbn [iter_collect_back];
    rewrite (run_bind _ _ _ _ _ Hderef), (run_bind _ _ _ _ _ Hdecr).
  - destruct (before c sub) as [|z zs] eqn:Et; [|discriminate].
    destruct (prev_pos c sub) as [[c' sub']|] eqn:En.
    + destruct (prev_pos_some _ _ _ _ En) as (_ & _ & E).
      rewrite Et in E. destruct (before c' sub'); discriminate.
    + exists it'. split; [reflexivity | exact Hnext].
  - destruct (prev_pos c sub) as [[c' sub']|] eqn:En.
    + destruct (prev_pos_some _ _ _ _ En) as (_ & _ & E).
      rewrite E in Hlen |- *. rewrite length_app in Hlen. cbn [length] in Hlen.
      destruct (IH it' c' sub' Hnext ltac:(lia)) as (it_end & Hrun & Hend).
      rewrite (run_bind _ _ _ _ _ Hrun). cbn [fst snd].
      exists it_end. split; [|exact Hend].
      rewrite rev_app_distr. reflexivity.
    + rewrite (prev_pos_none _ _ Hne En) in Hlen. discriminate.
Qed.

Lemma ssorted_snoc (l : list Z) a :
  StronglySorted Z.gt l -> (forall x, In x l -> x > a) ->
  StronglySorted Z.gt (l ++ [a]).
Proof.
  induction 1 as [|z l Hs IH Hall]; intros Ha; cbn [app].
  - repeat constructor.
  - constructor.
    + apply IH. intros x Hx. apply Ha. now right.
    + apply Forall_app. split; [exact Hall|].
      constructor; [|constructor]. apply Ha. now left.
Qed.

Lemma ssorted_rev (l : list Z) :
  StronglySorted Z.lt l -> StronglySorted Z.gt (rev l).
Proof.
  induction 1 as [|a l Hs IH Hall]; [constructor|].
  cbn [rev]. apply ssorted_snoc; [exact IH|].
  intros x Hx. apply in_rev in Hx.
  rewrite Forall_forall in Hall. specialize (Hall x Hx). lia.
Qed.

Lemma handles_at_back c sub :
  sub <> Leaf ->
  exists post, handles (plug c sub) = before c sub ++ hd sub :: post.
Proof.
  destruct sub as [|l x b r]; [congruence|]. intros _.
  exists (handles r ++ ctx_right c). rewrite handles_plug.
  cbn [handles hd before]. rewrite <- !app_assoc. reflexivity.
Qed.

(** X14. On a non-empty tree [start_iter_greatest] puts the iterator on
    the greatest node; dereferencing and applying [--] as many times as
    the tree has nodes yields every node once, in descending key order,
    and leaves the iterator invalid. *)
Theorem X14_iterator_enumerates_descending fuel it s t :
  max_depth <= UNSIGNED_MAX ->
  Rep s t -> bst t -> t <> Leaf ->
  height t <= max_depth -> height t < Z.of_nat fuel ->
  exists it0 it_end,
    start_iter_greatest fuel it s = Some (it0, s) /\
    iter_deref it0 s = Some (last (handles t) null, s) /\
    iter_collect_back (length (handles t)) fuel it0 s
    = Some ((rev (handles t), it_end), s) /\
    StronglySorted Z.gt (map key_of (rev (handles t))) /\
    it_depth it_end = UNSIGNED_MAX /\
    iter_deref it_end s = Some (null, s).
Proof.
  intros Hmax HRep Hbst Hne Hh Hfuel.
  pose proof HRep as (Hroot & Hwf & Hnd & He).
  destruct (start_iter_greatest_loop_spec s Hmax He t [] (it_path_h it) fuel
              Hne Hwf) as (path0 & Hloop & Hpath0).
  { intros i h Hi. destruct i; discriminate. }
  { cbn [length]. lia. }
  { exact Hfuel. }
  change (u32 (Z.of_nat (length (@nil frame)) - 1)) with UNSIGNED_MAX in Hloop.
  destruct (max_ctx_plug t [] Hne)
    as (Hplug & Hsne & cw & Ec & Hall & l' & m & bm & Es & Et).
  rewrite app_nil_r in Ec.
  set (c0 := fst (max_ctx t [])) in *. set (sub0 := snd (max_ctx t [])) in *.
  cbn [plug] in Hplug.
  set (it0 := mkIter (bset_set_all (it_branch it)) (Z.of_nat (length c0)) path0).
  assert (Hat : iter_at t it0 c0 sub0).
  { split; [exact Hplug|]. split; [exact Hsne|].
    split; [reflexivity|]. split; [|exact Hpath0].
    intros i f Hi. cbn [it_branch it0]. unfold bset_set_all.
    apply nth_error_In in Hi. apply in_rev in Hi.
    rewrite Ec in Hi. rewrite Forall_forall in Hall.
    symmetry. exact (Hall f Hi). }
  assert (Hlist : handles t = before c0 sub0 ++ [hd sub0]).
  { rewrite Et, Es, Ec, handles_plug, (ctx_right_all_true cw Hall).
    cbn [handles hd before]. rewrite !app_nil_r, <- !app_assoc. reflexivity. }
  assert (Hrun0 : start_iter_greatest fuel it s = Some (it0, s)).
  { unfold start_iter_greatest. rewrite bind_get_root, Hroot.
    rewrite (run_bind _ _ _ _ _ Hloop). reflexivity. }
  destruct (iter_decr_spec fuel s t it0 c0 sub0 Hmax HRep Hh Hfuel Hat)
    as (Hderef0 & _).
  destruct (iter_collect_back_spec fuel s t Hmax HRep Hh Hfuel
              (length (before c0 sub0)) it0 c0 sub0 Hat eq_refl)
    as (it_end & Hcol & Hend).
  exists it0, it_end.
  split; [exact Hrun0|].
  split; [rewrite Hlist, last_last; exact Hderef0|].
  split.
  { rewrite Hlist, length_app, rev_app_distr. cbn [length rev app].
    rewrite Nat.add_1_r. exact Hcol. }
  split.
  { rewrite map_rev. apply ssorted_rev. apply bst_sorted. exact Hbst. }
  split; [exact Hend|].
  unfold iter_deref. rewrite Hend, Z.eqb_refl. reflexivity.
Qed.

Lemma iterate_back_from fuel k st (P : handle -> bool) it s t :
  max_depth <= UNSIGNED_MAX ->
  has_flag st EQUAL = true \/ target_of st <> 0 ->
  Rep s t -> bst t -> height t <= max_depth -> height t < Z.of_nat fuel ->
  search fuel k st s = Some (rightmost P (handles t), s) ->
  (forall y z, P y = true -> key_of z <= key_of y -> P z = true) ->
  exists it0 it_end,
    start_iter fuel k st it s = Some (it0, s) /\
    iter_collect_back (length (filter P (handles t))) fuel it0 s
    = Some ((rev (filter P (handles t)), it_end), s) /\
    it_depth it_end = UNSIGNED_MAX.
Proof.
  intros Hmax Hst HRep Hbst Hh Hfuel Hright Hmono.
  destruct (start_iter_spec fuel k st it s t Hmax Hst HRep Hh Hfuel)
    as (it0 & Hrun & Hsearch & Hat).
  rewrite Hright in Hsearch. injection Hsearch as Hx.
  pose proof (proj1 (bst_sorted t) Hbst) as Hs. unfold keys in Hs.
  pose proof (rep_nonnull s t HRep) as Hnn.
  exists it0.
  destruct (seek_ctx k st t [] None) as [[c sub]|]; cbn [node_at] in Hx.
  - destruct Hat as (Hplug & Hne & Hpos).
    assert (Hat : iter_at t it0 c sub) by (split; [|split]; assumption).
    destruct (handles_at_back c sub Hne) as (post & Hpost).
    rewrite Hplug in Hpost.
    assert (Hfil : filter P (handles t) = before c sub ++ [hd sub]).
    { rewrite Hpost in Hs, Hx |- *.
      unfold rightmost in Hx.
      destruct (find P (rev (before c sub ++ hd sub :: post))) as [x|] eqn:Ef;
        cbn [or_null] in Hx.
      2:{ exfalso. apply (Hnn (hd sub)); [|auto].
          rewrite Hpost. apply in_or_app. right. now left. }
      subst x.
      destruct (find_split P _ _ Ef) as (a & b & Eab & Px & Ha).
      rewrite rev_app_distr in Eab. cbn [rev] in Eab.
      rewrite <- app_assoc in Eab. cbn [app] in Eab.
      assert (Hnd : NoDup (rev post ++ hd sub :: rev (before c sub))).
      { replace (rev post ++ hd sub :: rev (before c sub))
          with (rev (before c sub ++ hd sub :: post))
          by (rewrite rev_app_distr; cbn [rev];
              rewrite <- app_assoc; reflexivity).
        apply NoDup_rev. rewrite <- Hpost. apply HRep. }
      destruct (split_unique _ _ _ _ _ Hnd Eab) as (<- & _).
      rewrite filter_app. cbn [filter]. rewrite Px.
      rewrite (filter_none P post)
        by (intros y Hy; apply Ha; apply in_rev; rewrite rev_involutive;
            exact Hy).
      f_equal. apply filter_all. intros y Hy.
      apply (Hmono (hd sub) y Px).
      rewrite map_app in Hs. cbn [map] in Hs.
      apply ssorted_app_iff in Hs. destruct Hs as (_ & _ & Hlt).
      specialize (Hlt (key_of y) (key_of (hd sub)) (in_map key_of _ _ Hy)
                    (or_introl eq_refl)).
      lia. }
    rewrite Hfil, length_app, rev_app_distr. cbn [length rev app].
    rewrite Nat.add_1_r.
    destruct (iter_collect_back_spec fuel s t Hmax HRep Hh Hfuel
                (length (before c sub)) it0 c sub Hat eq_refl)
      as (it_end & Hcol & Hend).
    exists it_end. split; [exact Hrun|]. split; [exact Hcol | exact Hend].
  - assert (Hfil : filter P (handles t) = []).
    { apply filter_none.
      destruct (rightmost_cases P (handles t) Hnn Hs) as [(_ & Hall)|(Hn & _)];
        [exact Hall | congruence]. }
    rewrite Hfil. exists it0. split; [exact Hrun|]. split; [reflexivity|].
    exact Hat.
Qed.

(** X15. An iterator started with [start_iter] at the key [k] with
    LESS_EQUAL, dereferenced and moved back with [--] again and again,
    yields exactly the nodes whose key is at most [k], in descending order,
    and is invalid after the last of them (at once when there is none);
    with LESS the same holds for the nodes whose key is below [k]. *)
Theorem X15_iterate_back_from_key fuel k it s t :
  max_depth <= UNSIGNED_MAX ->
  Rep s t -> bst t -> height t <= max_depth -> height t < Z.of_nat fuel ->
  forall st (P : handle -> bool),
    (st = LESS_EQUAL /\ P = (fun y => key_of y <=? k)) \/
    (st = LESS /\ P = (fun y => key_of y <? k)) ->
    exists it0 it_end,
      start_iter fuel k st it s = Some (it0, s) /\
      iter_collect_back (length (filter P (handles t))) fuel it0 s
      = Some ((rev (filter P (handles t)), it_end), s) /\
      it_depth it_end = UNSIGNED_MAX /\
      StronglySorted Z.gt (map key_of (rev (filter P (handles t)))).
Proof.
  intros Hmax HRep Hbst Hh Hfuel st P Hcase.
  assert (Hsort : StronglySorted Z.gt (map key_of (rev (filter P (handles t))))).
  { rewrite map_rev. apply ssorted_rev.
    pose proof (proj1 (bst_sorted t) Hbst) as Hs. unfold keys in Hs.
    clear - Hs. induction (handles t) as [|x l IH]; [constructor|].
    cbn [map] in Hs. apply ssorted_cons_iff in Hs. destruct Hs as (Hs & Hlt).
    cbn [filter]. destruct (P x); [|exact (IH Hs)].
    cbn [map]. apply ssorted_cons_iff. split; [exact (IH Hs)|].
    intros z Hz. apply Hlt. apply in_map_iff in Hz.
    destruct Hz as (y & <- & Hy). apply filter_In in Hy.
    apply in_map. apply Hy. }
  destruct Hcase as [(-> & ->)|(-> & ->)].
  - assert (Hst : has_flag LESS_EQUAL EQUAL = true \/ target_of LESS_EQUAL <> 0)
      by (left; reflexivity).
    destruct (iterate_back_from fuel k LESS_EQUAL (fun y => key_of y <=? k)
                it s t Hmax Hst HRep Hbst Hh Hfuel)
      as (it0 & it_end & H1 & H2 & H3).
    + apply search_less_equal_spec; assumption.
    + intros y z Hy Hyz. apply Z.leb_le. apply Z.leb_le in Hy. lia.
    + exists it0, it_end. auto.
  - assert (Hst : has_flag LESS EQUAL = true \/ target_of LESS <> 0)
      by (right; discriminate).
    destruct (iterate_back_from fuel k LESS (fun y => key_of y <? k)
                it s t Hmax Hst HRep Hbst Hh Hfuel)
      as (it0 & it_end & H1 & H2 & H3).
    + apply search_less_spec; assumption.
    + intros y z Hy Hyz. apply Z.ltb_lt. apply Z.ltb_lt in Hy. lia.
    + exists it0, it_end. auto.
Qed.

(** ** Stepping an iterator *)

Lemma key_inj (l : list handle) a b :
  StronglySorted Z.lt (map key_of l) ->
  In a l -> In b l -> key_of a = key_of b -> a = b.
Proof.
  induction l as [|x l IH]; intros Hs Ha Hb E; [destruct Ha|].
  cbn [map] in Hs. apply ssorted_cons_iff in Hs. destruct Hs as (Hs & Hlt).
  destruct Ha as [<-|Ha]; destruct Hb as [<-|Hb].
  - reflexivity.
  - specialize (Hlt (key_of b) (in_map key_of _ _ Hb)). lia.
  - specialize (Hlt (key_of a) (in_map key_of _ _ Ha)). lia.
  - exact (IH Hs Ha Hb E).
Qed.

Lemma pos_split t c sub :
  plug c sub = t -> sub <> Leaf ->
  handles t = before c sub ++ hd sub :: todo c sub.
Proof.
  intros <- Hne. destruct sub as [|l x b r]; [congruence|].
  rewrite handles_plug. cbn [handles hd before todo].
  rewrite <- !app_assoc. reflexivity.
Qed.

Lemma pos_unique t c sub (A B : list handle) :
  NoDup (handles t) -> plug c sub = t -> sub <> Leaf ->
  handles t = A ++ hd sub :: B -> A = before c sub /\ B = todo c sub.
Proof.
  intros Hnd Hplug Hne E.
  pose proof (pos_split t c sub Hplug Hne) as E'.
  rewrite E in Hnd, E'. exact (split_unique _ _ _ _ _ Hnd E').
Qed.

(** [start_iter] with EQUAL on the key of a node of the tree. *)
Lemma start_iter_at_node fuel it s t x :
  max_depth <= UNSIGNED_MAX ->
  Rep s t -> bst t -> height t <= max_depth -> height t < Z.of_nat fuel ->
  In x (handles t) ->
  exists it0 c sub,
    start_iter fuel (key_of x) EQUAL it s = Some (it0, s) /\
    iter_at t it0 c sub /\ hd sub = x.
Proof.
  intros Hmax HRep Hbst Hh Hfuel Hx.
  destruct (start_iter_spec fuel (key_of x) EQUAL it s t Hmax
              (or_introl eq_refl) HRep Hh Hfuel)
    as (it0 & Hrun & Hsearch & Hat).
  rewrite (search_equal_spec fuel (key_of x) s t HRep Hbst Hfuel) in Hsearch.
  injection Hsearch as Hl.
  pose proof (proj1 (bst_sorted t) Hbst) as Hs. unfold keys in Hs.
  pose proof (rep_nonnull s t HRep) as Hnn.
  assert (Hlx : leftmost (fun y => key_of y =? key_of x) (handles t) = x).
  { destruct (leftmost_cases (fun y => key_of y =? key_of x) (handles t)
                Hnn Hs) as [(_ & Hall)|(_ & Hin & Hp & _)].
    - specialize (Hall x Hx). cbv beta in Hall.
      rewrite Z.eqb_refl in Hall. discriminate.
    - cbv beta in Hp. apply Z.eqb_eq in Hp.
      exact (key_inj _ _ _ Hs Hin Hx Hp). }
  rewrite Hlx in Hl.
  destruct (seek_ctx (key_of x) EQUAL t [] None) as [[c sub]|];
    cbn [node_at] in Hl.
  - exists it0, c, sub. split; [exact Hrun|]. split; [exact Hat | now symmetry].
  - exfalso. exact (Hnn x Hx Hl).
Qed.

Lemma deref_invalid it s :
  it_depth it = UNSIGNED_MAX -> iter_deref it s = Some (null, s).
Proof. intros E. unfold iter_deref. rewrite E, Z.eqb_refl. reflexivity. Qed.

(** X16. From a node [x] of the tree, found with [start_iter] and EQUAL,
    [++] leads to the node that follows [x] in key order and [--] to the
    node that precedes it; at either end the iterator becomes invalid and
    dereferences to null. *)
Theorem X16_iterator_steps_to_neighbours fuel it s t A x B :
  max_depth <= UNSIGNED_MAX ->
  Rep s t -> bst t -> height t <= max_depth -> height t < Z.of_nat fuel ->
  handles t = A ++ x :: B ->
  exists it0 it_next it_prev,
    start_iter fuel (key_of x) EQUAL it s = Some (it0, s) /\
    iter_deref it0 s = Some (x, s) /\
    iter_incr fuel it0 s = Some (it_next, s) /\
    iter_deref it_next s = Some (List.hd null B, s) /\
    (B = [] -> it_depth it_next = UNSIGNED_MAX) /\
    iter_decr fuel it0 s = Some (it_prev, s) /\
    iter_deref it_prev s = Some (last A null, s) /\
    (A = [] -> it_depth it_prev = UNSIGNED_MAX).
Proof.
  intros Hmax HRep Hbst Hh Hfuel E.
  assert (Hx : In x (handles t)) by (rewrite E; apply in_or_app; right; now left).
  destruct (start_iter_at_node fuel it s t x Hmax HRep Hbst Hh Hfuel Hx)
    as (it0 & c & sub & Hrun & Hat & Hhd).
  pose proof Hat as (Hplug & Hne & _).
  pose proof HRep as (_ & _ & Hnd & _).
  subst x.
  destruct (pos_unique t c sub A B Hnd Hplug Hne E) as (EA & EB).
  destruct (iter_incr_spec fuel s t it0 c sub Hmax HRep Hh Hfuel Hat)
    as (Hderef & it1 & Hincr & Hnext).
  destruct (iter_decr_spec fuel s t it0 c sub Hmax HRep Hh Hfuel Hat)
    as (_ & it2 & Hdecr & Hprev).
  exists it0, it1, it2.
  split; [exact Hrun|]. split; [exact Hderef|]. split; [exact Hincr|].
  assert (Hn : iter_deref it1 s = Some (List.hd null B, s) /\
               (B = [] -> it_depth it1 = UNSIGNED_MAX)).
  { destruct (next_pos c sub) as [[c' sub']|] eqn:En.
    - destruct (next_pos_some _ _ _ _ En) as (_ & _ & Et).
      rewrite EB, Et. cbn [List.hd]. split; [|discriminate].
      exact (proj1 (iter_incr_spec fuel s t it1 c' sub' Hmax HRep Hh Hfuel
                      Hnext)).
    - rewrite EB, (next_pos_none _ _ Hne En). cbn [List.hd].
      split; [exact (deref_invalid it1 s Hnext) | intros _; exact Hnext]. }
  split; [exact (proj1 Hn)|]. split; [exact (proj2 Hn)|].
  split; [exact Hdecr|].
  destruct (prev_pos c sub) as [[c' sub']|] eqn:En.
  - destruct (prev_pos_some _ _ _ _ En) as (_ & _ & Et).
    rewrite EA, Et, last_last. split.
    + exact (proj1 (iter_incr_spec fuel s t it2 c' sub' Hmax HRep Hh Hfuel
                      Hprev)).
    + intros F. destruct (before c' sub'); discriminate.
  - rewrite EA, (prev_pos_none _ _ Hne En). cbn [last].
    split; [exact (deref_invalid it2 s Hprev) | intros _; exact Hprev].
Qed.

(** X17. [--] undoes [++] and [++] undoes [--]: stepping from a node to a
    neighbour and back leaves the iterator on the node it started from. *)
Theorem X17_iterator_step_round_trip fuel it s t A x B :
  max_depth <= UNSIGNED_MAX ->
  Rep s t -> bst t -> height t <= max_depth -> height t < Z.of_nat fuel ->
  handles t = A ++ x :: B ->
  exists it0,
    start_iter fuel (key_of x) EQUAL it s = Some (it0, s) /\
    (B <> [] ->
     exists it1 it2,
       iter_incr fuel it0 s = Some (it1, s) /\
       iter_decr fuel it1 s = Some (it2, s) /\
       iter_deref it2 s = Some (x, s)) /\
    (A <> [] ->
     exists it1 it2,
       iter_decr fuel it0 s = Some (it1, s) /\
       iter_incr fuel it1 s = Some (it2, s) /\
       iter_deref it2 s = Some (x, s)).
Proof.
  intros Hmax HRep Hbst Hh Hfuel E.
  assert (Hx : In x (handles t)) by (rewrite E; apply in_or_app; right; now left).
  destruct (start_iter_at_node fuel it s t x Hmax HRep Hbst Hh Hfuel Hx)
    as (it0 & c & sub & Hrun & Hat & Hhd).
  pose proof Hat as (Hplug & Hne & _).
  pose proof HRep as (_ & _ & Hnd & _).
  subst x.
  destruct (pos_unique t c sub A B Hnd Hplug Hne E) as (EA & EB).
  exists it0. split; [exact Hrun|]. split.
  - intros HB.
    destruct (iter_incr_spec fuel s t it0 c sub Hmax HRep Hh Hfuel Hat)
      as (_ & it1 & Hincr & Hnext).
    destruct (next_pos c sub) as [[c1 sub1]|] eqn:En.
    2:{ exfalso. apply HB. rewrite EB. exact (next_pos_none _ _ Hne En). }
    destruct (next_pos_some _ _ _ _ En) as (_ & _ & Et).
    pose proof Hnext as (Hplug1 & Hne1 & _).
    assert (E1 : handles t = (before c sub ++ [hd sub]) ++ hd sub1 :: todo c1 sub1).
    { rewrite <- app_assoc. cbn [app]. rewrite <- Et.
      exact (pos_split t c sub Hplug Hne). }
    destruct (pos_unique t c1 sub1 _ _ Hnd Hplug1 Hne1 E1) as (Eb1 & _).
    destruct (iter_decr_spec fuel s t it1 c1 sub1 Hmax HRep Hh Hfuel Hnext)
      as (_ & it2 & Hdecr & Hprev).
    exists it1, it2. split; [exact Hincr|]. split; [exact Hdecr|].
    destruct (prev_pos c1 sub1) as [[c2 sub2]|] eqn:Ep.
    + destruct (prev_pos_some _ _ _ _ Ep) as (_ & _ & Eb2).
      rewrite Eb2 in Eb1. apply app_inj_tail in Eb1. destruct Eb1 as (_ & ->).
      exact (proj1 (iter_incr_spec fuel s t it2 c2 sub2 Hmax HRep Hh Hfuel
                      Hprev)).
    + rewrite (prev_pos_none _ _ Hne1 Ep) in Eb1.
      destruct (before c sub); discriminate.
  - intros HA.
    destruct (iter_decr_spec fuel s t it0 c sub Hmax HRep Hh Hfuel Hat)
      as (_ & it1 & Hdecr & Hprev).
    destruct (prev_pos c sub) as [[c1 sub1]|] eqn:En.
    2:{ exfalso. apply HA. rewrite EA. exact (prev_pos_none _ _ Hne En). }
    destruct (prev_pos_some _ _ _ _ En) as (_ & _ & Et).
    pose proof Hprev as (Hplug1 & Hne1 & _).
    assert (E1 : handles t = before c1 sub1 ++ hd sub1 :: hd sub :: todo c sub).
    { rewrite (pos_split t c sub Hplug Hne), Et, <- app_assoc. reflexivity. }
    destruct (pos_unique t c1 sub1 _ _ Hnd Hplug1 Hne1 E1) as (_ & Et1).
    destruct (iter_incr_spec fuel s t it1 c1 sub1 Hmax HRep Hh Hfuel Hprev)
      as (_ & it2 & Hincr & Hnext).
    exists it1, it2. split; [exact Hdecr|]. split; [exact Hincr|].
    destruct (next_pos c1 sub1) as [[c2 sub2]|] eqn:Ep.
    + destruct (next_pos_some _ _ _ _ Ep) as (_ & _ & Et2).
      rewrite Et2 in Et1. injection Et1 as -> _.
      exact (proj1 (iter_incr_spec fuel s t it2 c2 sub2 Hmax HRep Hh Hfuel
                      Hnext)).
    + rewrite (next_pos_none _ _ Hne1 Ep) in Et1. discriminate.
Qed.

(** ** build, then reading the tree *)

Lemma start_iter_least_spec fuel it s t :
  max_depth <= UNSIGNED_MAX ->
  Rep s t -> t <> Leaf -> height t <= max_depth -> height t < Z.of_nat fuel ->
  exists it0 c0 sub0,
    start_iter_least fuel it s = Some (it0, s) /\
    iter_at t it0 c0 sub0 /\ handles t = hd sub0 :: todo c0 sub0.
Proof.
  intros Hmax HRep Hne Hh Hfuel.
  pose proof HRep as (Hroot & Hwf & Hnd & He).
  destruct (start_iter_least_loop_spec s Hmax He t [] (it_path_h it) fuel
              Hne Hwf) as (path0 & Hloop & Hpath0).
  { intros i h Hi. destruct i; discriminate. }
  { cbn [length]. lia. }
  { exact Hfuel. }
  change (u32 (Z.of_nat (length (@nil frame)) - 1)) with UNSIGNED_MAX in Hloop.
  destruct (min_ctx_plug t [] Hne)
    as (Hplug & Hsne & cw & Ec & Hall & m & bm & r' & Es & Et).
  rewrite app_nil_r in Ec.
  set (c0 := fst (min_ctx t [])) in *. set (sub0 := snd (min_ctx t [])) in *.
  cbn [plug] in Hplug.
  exists (mkIter (bset_reset (it_branch it)) (Z.of_nat (length c0)) path0),
    c0, sub0.
  split.
  { unfold start_iter_least. rewrite bind_get_root, Hroot.
    rewrite (run_bind _ _ _ _ _ Hloop). reflexivity. }
  split.
  - split; [exact Hplug|]. split; [exact Hsne|].
    split; [reflexivity|]. split; [|exact Hpath0].
    intros i f Hi. cbn [it_branch]. unfold bset_reset.
    apply nth_error_In in Hi. apply in_rev in Hi.
    rewrite Ec in Hi. rewrite Forall_forall in Hall.
    symmetry. exact (Hall f Hi).
  - rewrite <- Hplug, handles_plug, Ec, (ctx_left_all_false cw Hall), Es.
    reflexivity.
Qed.

(** X18. A tree made by [build] from a sequence of nodes in ascending key
    order gives the same sequence back: an iterator started with
    [start_iter_least] and advanced with [++] yields the nodes of the
    sequence, in order, and then is invalid; [search] with EQUAL finds each
    node of the sequence under its key.  What the store held before plays
    no part. *)
Theorem X18_build_then_read fuel p it s :
  max_depth <= UNSIGNED_MAX -> rd_err s = false ->
  p <> [] ->
  (forall h, In h p -> h <> null /\ faulty h = false) ->
  StronglySorted Z.lt (map key_of p) ->
  Z.log2_up (Z.of_nat (length p) + 1) <= max_depth ->
  Z.of_nat (length p) + 1 <= Z.of_nat fuel ->
  exists s' it0 it_end,
    build fuel p (Z.of_nat (length p)) s = Some (true, s') /\
    start_iter_least fuel it s' = Some (it0, s') /\
    iter_collect (length p) fuel it0 s' = Some ((p, it_end), s') /\
    it_depth it_end = UNSIGNED_MAX /\
    (forall h, In h p -> search fuel (key_of h) EQUAL s' = Some (h, s')).
Proof.
  intros Hmax He Hne Hok Hsorted Hlog Hfuel.
  set (n := Z.of_nat (length p)) in *.
  assert (Hn : 1 <= n) by (destruct p; [congruence | unfold n; cbn [length]; lia]).
  assert (Hnd : NoDup p).
  { apply sorted_nodup in Hsorted. exact (NoDup_map_inv _ _ Hsorted). }
  assert (Hheight : height (build_t (length p) n p) = Z.log2_up (n + 1)).
  { rewrite height_build_t by lia. rewrite Z.log2_up_eqn by lia.
    replace (Z.pred (n + 1)) with n by lia. lia. }
  destruct (build_correct fuel p s Hmax He Hne Hok Hnd) as (s' & Hrun & HRep).
  { fold n. rewrite Hheight. exact Hlog. }
  { exact Hfuel. }
  fold n in Hrun, HRep. set (t := build_t (length p) n p) in *.
  assert (Hht : handles t = p).
  { unfold t. rewrite handles_build_t by lia. unfold n. rewrite Nat2Z.id.
    apply firstn_all. }
  assert (Hbst : bst t).
  { apply bst_sorted. unfold keys. rewrite Hht. exact Hsorted. }
  assert (Htne : t <> Leaf).
  { intros E. rewrite E in Hht. cbn [handles] in Hht. congruence. }
  assert (Hh : height t <= max_depth) by (rewrite Hheight; exact Hlog).
  assert (Hhf : height t < Z.of_nat fuel).
  { rewrite Hheight. pose proof (Z.log2_up_lt_lin (n + 1) ltac:(lia)). lia. }
  destruct (start_iter_least_spec fuel it s' t Hmax HRep Htne Hh Hhf)
    as (it0 & c0 & sub0 & Hstart & Hat & Hlist).
  destruct (iter_collect_spec fuel s' t Hmax HRep Hh Hhf
              (length (todo c0 sub0)) it0 c0 sub0 Hat eq_refl)
    as (it_last & it_end & Hcol & _ & _ & Hend).
  exists s', it0, it_end.
  split; [exact Hrun|]. split; [exact Hstart|].
  split.
  { rewrite <- Hht, Hlist. cbn [length]. exact Hcol. }
  split; [exact Hend|].
  intros h Hin.
  rewrite (search_equal_spec fuel (key_of h) s' t HRep Hbst Hhf).
  f_equal. f_equal. rewrite Hht.
  destruct (leftmost_cases (fun y => key_of y =? key_of h) p
              (fun x Hx => proj1 (Hok x Hx)) Hsorted)
    as [(_ & Hall)|(_ & Hi & Hp & _)].
  - specialize (Hall h Hin). cbv beta in Hall.
    rewrite Z.eqb_refl in Hall. discriminate.
  - cbv beta in Hp. apply Z.eqb_eq in Hp.
    exact (key_inj _ _ _ Hsorted Hi Hin Hp).
Qed.

(** ** The empty tree *)

(** X19. On the empty tree every lookup yields null and leaves the store
    alone: [search] of any kind, [search_least], [search_greatest],
    [remove] and [subst]; the three ways of starting an iterator leave it
    invalid.  [insert] makes its argument the only node of the tree. *)
Theorem X19_empty_tree fuel k st h it s :
  Rep s Leaf -> h <> null -> faulty h = false ->
  search (S fuel) k st s = Some (null, s) /\
  search_least (S fuel) s = Some (null, s) /\
  search_greatest (S fuel) s = Some (null, s) /\
  remove (S fuel) k s = Some (null, s) /\
  subst (S fuel) h s = Some (null, s) /\
  (exists it1 it2 it3,
     start_iter (S fuel) k st it s = Some (it1, s) /\
     start_iter_least (S fuel) it s = Some (it2, s) /\
     start_iter_greatest (S fuel) it s = Some (it3, s) /\
     it_depth it1 = UNSIGNED_MAX /\ it_depth it2 = UNSIGNED_MAX /\
     it_depth it3 = UNSIGNED_MAX) /\
  exists s', insert (S fuel) h s = Some (h, s') /\ Rep s' (Node Leaf h 0 Leaf).
Proof.
  intros (Hroot & _ & _ & He) Hh Hf. cbn [hd] in Hroot.
  split; [unfold search; rewrite bind_get_root, Hroot; reflexivity|].
  split; [unfold search_least; rewrite bind_get_root, Hroot; reflexivity|].
  split; [unfold search_greatest; rewrite bind_get_root, Hroot; reflexivity|].
  split.
  { unfold remove, remove_unlink. rewrite bind_bind, bind_get_root, Hroot.
    reflexivity. }
  split; [unfold subst; rewrite bind_get_root, Hroot; reflexivity|].
  split.
  { eexists. eexists. eexists.
    split; [unfold start_iter; rewrite bind_get_root, Hroot; reflexivity|].
    split; [unfold start_iter_least; rewrite bind_get_root, Hroot;
            reflexivity|].
    split; [unfold start_iter_greatest; rewrite bind_get_root, Hroot;
            reflexivity|].
    split; [reflexivity|]. split; reflexivity. }
  exists (put_root h (put_bf h 0 (put_greater h null (put_less h null s)))).
  split.
  - unfold insert, insert_init, insert_body, seq, bind, set_lt, set_gt, set_bf,
      set_less, set_greater, set_balance_factor, get_root, set_root, ret.
    rewrite (neq_null _ Hh). cbn [root put_less put_greater put_bf].
    rewrite Hroot. reflexivity.
  - split; [reflexivity|]. split.
    + cbn [wf hd]. cbn [less greater balance_factor put_root put_bf
                          put_greater put_less].
      unfold upd. rewrite !Z.eqb_refl. repeat split; auto.
    + split; [repeat constructor; intros []|exact He].
Qed.

(** ** build and read errors *)

Lemma post_bind {A B} (Q : B -> bool -> Prop) (c : M A) (f : A -> M B) :
  post_ok (fun _ e => e = false) c -> (forall a, post_ok Q (f a)) ->
  post_ok Q (bind c f).
Proof.
  intros Hc Hf s b s' He H. unfold bind in H.
  destruct (c s) as [[a s1]|] eqn:Ec; [|discriminate].
  exact (Hf a s1 b s' (Hc s a s1 He Ec) H).
Qed.

Lemma post_checked {A B} (Q : B -> bool -> Prop) (c : M A) x (f : A -> M B) :
  Q x true -> (forall a, post_ok Q (f a)) ->
  post_ok Q (bind c (fun a => bind read_error
                                (fun e : bool => if e then ret x else f a))).
Proof.
  intros Hx Hf s b s' He H. unfold bind, read_error in H.
  destruct (c s) as [[a s1]|]; [|discriminate].
  destruct (rd_err s1) eqn:E1.
  - injection H as <- <-. rewrite E1. exact Hx.
  - exact (Hf a s1 b s' E1 H).
Qed.

Lemma post_ret {A} (Q : A -> bool -> Prop) a : Q a false -> post_ok Q (ret a).
Proof. intros Ha s b s' He H. injection H as <- <-. rewrite He. exact Ha. Qed.

Lemma post_undefined {A} (Q : A -> bool -> Prop) : post_ok Q undefined.
Proof. intros s b s' He H. discriminate H. Qed.

Lemma keep_set_lt h x : post_ok (fun _ e => e = false) (set_lt h x).
Proof.
  intros s u s' He H. unfold set_lt, set_less in H.
  destruct (h =? null); [discriminate|]. injection H as _ <-. exact He.
Qed.

Lemma keep_set_gt h x : post_ok (fun _ e => e = false) (set_gt h x).
Proof.
  intros s u s' He H. unfold set_gt, set_greater in H.
  destruct (h =? null); [discriminate|]. injection H as _ <-. exact He.
Qed.

Lemma keep_set_bf h x : post_ok (fun _ e => e = false) (set_bf h x).
Proof.
  intros s u s' He H. unfold set_bf, set_balance_factor in H.
  destruct (h =? null); [discriminate|]. injection H as _ <-. exact He.
Qed.

Lemma keep_set_root h : post_ok (fun _ e => e = false) (set_root h).
Proof. intros s u s' He H. injection H as _ <-. exact He. Qed.

Lemma keep_bit_get b i : post_ok (fun _ e => e = false) (bit_get b i).
Proof.
  intros s u s' He H. unfold bit_get in H.
  destruct ((0 <=? i) && (i <? max_depth)); [|discriminate].
  injection H as _ <-. exact He.
Qed.

Lemma keep_bit_put b i v : post_ok (fun _ e => e = false) (bit_put b i v).
Proof.
  intros s u s' He H. unfold bit_put in H.
  destruct ((0 <=? i) && (i <? max_depth)); [|discriminate].
  injection H as _ <-. exact He.
Qed.

Lemma keep_build_split : forall fuel num_sub depth branch rem,
  post_ok (fun _ e => e = false) (build_split fuel num_sub depth branch rem).
Proof.
  induction fuel as [|fuel IH]; intros num_sub depth branch rem;
    [apply post_undefined|].
  cbn [build_split]. destruct (2 <? num_sub); [|apply post_ret; reflexivity].
  apply post_bind; [apply keep_bit_put|]. intros rem'.
  apply post_bind; [apply keep_bit_put|]. intros branch'. apply IH.
Qed.

(** The postcondition of the parts of [build] that may leave the function:
    when they do, the flag returned is false and a read error is pending;
    when they go on, none is. *)
Lemma flags_build_bottom num_sub p :
  post_ok (fun (r : flow bool (handle * list handle)) e =>
             match r with
             | Ret b => b = false /\ e = true
             | Go _ => e = false
             end) (build_bottom num_sub p).
Proof.
  unfold build_bottom. destruct (num_sub =? 2).
  - apply post_checked; [split; reflexivity|]. intros h.
    apply post_checked; [split; reflexivity|]. intros child.
    apply post_bind; [apply keep_set_lt|]. intros _.
    apply post_bind; [apply keep_set_gt|]. intros _.
    apply post_bind; [apply keep_set_bf|]. intros _.
    apply post_bind; [apply keep_set_gt|]. intros _.
    apply post_bind; [apply keep_set_lt|]. intros _.
    apply post_bind; [apply keep_set_bf|]. intros _.
    apply post_ret. reflexivity.
  - apply post_checked; [split; reflexivity|]. intros h.
    apply post_bind; [apply keep_set_lt|]. intros _.
    apply post_bind; [apply keep_set_gt|]. intros _.
    apply post_bind; [apply keep_set_bf|]. intros _.
    apply post_ret. reflexivity.
Qed.

Lemma flags_build_unwind : forall fuel h less_parent num_sub depth branch rem,
  post_ok (fun (r : flow bool (handle * handle * Z * Z)) e =>
             match r with
             | Ret b => b = false /\ e = true
             | Go _ => e = false
             end)
    (build_unwind fuel h less_parent num_sub depth branch rem).
Proof.
  induction fuel as [|fuel IH]; intros h less_parent num_sub depth branch rem;
    [apply post_undefined|].
  cbn [build_unwind]. destruct (depth =? 0); [apply post_ret; reflexivity|].
  apply post_bind; [apply keep_bit_get|]. intros b.
  destruct (negb b); [apply post_ret; reflexivity|].
  apply post_checked; [split; reflexivity|]. intros less_parent'.
  apply post_bind; [apply keep_set_gt|]. intros _.
  apply post_bind; [apply keep_bit_get|]. intros r.
  apply post_bind; [|intros _; apply IH].
  match goal with
  | |- context [if ?c then _ else _] => destruct c; apply keep_set_bf
  end.
Qed.

Lemma post_flow {A} (Q : bool -> bool -> Prop) (c : M (flow bool A))
    (f : A -> M bool) :
  post_ok (fun (r : flow bool A) e =>
             match r with
             | Ret b => b = false /\ e = true
             | Go _ => e = false
             end) c ->
  Q false true -> (forall a, post_ok Q (f a)) ->
  post_ok Q (bind c (fun r => match r with Ret x => ret x | Go a => f a end)).
Proof.
  intros Hc Hx Hf s b s' He H. unfold bind in H.
  destruct (c s) as [[r s1]|] eqn:Ec; [|discriminate].
  specialize (Hc s r s1 He Ec). destruct r as [x|a].
  - destruct Hc as (-> & E1). injection H as <- <-. rewrite E1. exact Hx.
  - exact (Hf a s1 b s' Hc H).
Qed.

Lemma reports_build_loop : forall fuel fuel_in p num_nodes num_sub depth
    branch rem less_parent,
  post_ok (fun (b : bool) e => b = negb e)
    (build_loop fuel fuel_in p num_nodes num_sub depth branch rem less_parent).
Proof.
  induction fuel as [|fuel IH];
    intros fuel_in p num_nodes num_sub depth branch rem less_parent;
    [apply post_undefined|].
  cbn [build_loop].
  apply post_bind; [apply keep_build_split|].
  intros [[[num_sub' depth'] branch'] rem'].
  apply post_flow; [apply flags_build_bottom | reflexivity|].
  intros [h p'].
  apply post_flow; [apply flags_build_unwind | reflexivity|].
  intros [[[h' less_parent'] num_sub''] depth''].
  destruct (num_sub'' =? num_nodes).
  - apply post_bind; [apply keep_set_root|]. intros _.
    apply post_ret. reflexivity.
  - apply post_checked; [reflexivity|]. intros h''.
    apply post_bind; [apply keep_set_lt|]. intros _.
    apply post_bind; [apply keep_set_gt|]. intros _.
    apply post_bind; [apply keep_bit_put|]. intros branch''.
    apply post_bind; [apply keep_bit_get|]. intros r.
    apply IH.
Qed.

(** X20. [build] reports a failed read and nothing else: whatever the
    sequence and the number of nodes asked for, a call that comes back
    yields false exactly when a read error is pending afterwards, and true
    exactly when none is. *)
Theorem X20_build_reports_read_error fuel p n s b s' :
  rd_err s = false ->
  build fuel p n s = Some (b, s') ->
  (b = true <-> rd_err s' = false) /\ (b = false <-> rd_err s' = true).
Proof.
  intros He H.
  assert (Hb : b = negb (rd_err s')).
  { revert s b s' He H. change (post_ok (fun (b : bool) e => b = negb e)
                                  (build fuel p n)).
    unfold build. destruct (n =? 0).
    - apply post_bind; [apply keep_set_root|]. intros _.
      apply post_ret. reflexivity.
    - apply reports_build_loop. }
  rewrite Hb. destruct (rd_err s'); cbn [negb]; split; split; congruence.
Qed.

(** ** Iterators and read errors *)

Lemma post_map {A B} (Q1 : A -> bool -> Prop) (Q : B -> bool -> Prop)
    (c : M A) (g : A -> B) :
  post_ok Q1 c -> (forall a e, Q1 a e -> Q (g a) e) ->
  post_ok Q (bind c (fun a => ret (g a))).
Proof.
  intros Hc Hg s b s' He H. unfold bind in H.
  destruct (c s) as [[a s1]|] eqn:Ec; [|discriminate].
  injection H as <- <-. apply Hg. exact (Hc s a s1 He Ec).
Qed.

Lemma keep_get_root : post_ok (fun _ e => e = false) get_root.
Proof. intros s u s' He H. injection H as _ <-. exact He. Qed.

Lemma keep_path_get pa i : post_ok (fun _ e => e = false) (path_get pa i).
Proof.
  intros s u s' He H. unfold path_get in H.
  destruct ((0 <=? i) && (i <? max_depth - 1)); [|discriminate].
  injection H as _ <-. exact He.
Qed.

Lemma keep_path_put pa i h : post_ok (fun _ e => e = false) (path_put pa i h).
Proof.
  intros s u s' He H. unfold path_put in H.
  destruct ((0 <=? i) && (i <? max_depth - 1)); [|discriminate].
  injection H as _ <-. exact He.
Qed.

Lemma keep_iter_deref it : post_ok (fun _ e => e = false) (iter_deref it).
Proof.
  unfold iter_deref. destruct (it_depth it =? UNSIGNED_MAX).
  - apply post_ret. reflexivity.
  - destruct (it_depth it =? 0); [apply keep_get_root | apply keep_path_get].
Qed.

Lemma keep_iter_pop stop_bit branch : forall fuel depth,
  post_ok (fun _ e => e = false) (iter_pop fuel stop_bit branch depth).
Proof.
  induction fuel as [|fuel IH]; intros depth; [apply post_undefined|].
  cbn [iter_pop]. destruct (depth =? 0); [apply post_ret; reflexivity|].
  apply post_bind; [apply keep_bit_get|]. intros b.
  destruct (Bool.eqb b stop_bit); [apply post_ret; reflexivity | apply IH].
Qed.

Lemma invalid_iter_slide to_greater : forall fuel h it,
  post_ok (fun it' e => e = true -> it_depth it' = UNSIGNED_MAX)
    (iter_slide fuel to_greater h it).
Proof.
  induction fuel as [|fuel IH]; intros h it; [apply post_undefined|].
  cbn [iter_slide]. apply post_checked; [reflexivity|]. intros h'.
  destruct (h' =? null); [apply post_ret; discriminate|].
  apply post_bind; [apply keep_bit_put|]. intros branch.
  apply post_bind; [apply keep_path_put|]. intros path_h. apply IH.
Qed.

Lemma invalid_start_iter_loop k st tc : forall fuel h d it,
  post_ok (fun it' e => e = true -> it_depth it' = UNSIGNED_MAX)
    (start_iter_loop fuel k st tc h d it).
Proof.
  induction fuel as [|fuel IH]; intros h d it; [apply post_undefined|].
  cbn [start_iter_loop]. cbv zeta.
  destruct ((cmp_k_n k h =? 0) && has_flag st EQUAL);
    [apply post_ret; discriminate|].
  apply post_checked; [reflexivity|]. intros h'.
  destruct (h' =? null); [apply post_ret; discriminate|].
  apply post_bind; [apply keep_bit_put|]. intros branch.
  apply post_bind; [apply keep_path_put|]. intros path_h. apply IH.
Qed.

Lemma invalid_start_end_loop (to_greater : bool) : forall fuel h depth path_h,
  post_ok (fun (r : Z * (Z -> handle)) e => e = true -> fst r = UNSIGNED_MAX)
    (if to_greater then start_iter_greatest_loop fuel h depth path_h
     else start_iter_least_loop fuel h depth path_h).
Proof.
  induction fuel as [|fuel IH]; intros h depth path_h;
    [destruct to_greater; apply post_undefined|].
  specialize (IH).
  destruct to_greater;
    cbn [start_iter_greatest_loop start_iter_least_loop];
    (destruct (h =? null); [apply post_ret; discriminate|]);
    (apply post_bind;
     [destruct (negb (depth =? UNSIGNED_MAX));
      [apply keep_path_put | apply post_ret; reflexivity]|]);
    intros path_h';
    (apply post_checked; [reflexivity|]); intros h'; apply IH.
Qed.

(** X21. An iterator operation that meets a failing read leaves the
    iterator invalid: after [start_iter], [start_iter_least],
    [start_iter_greatest], [++] or [--], whatever the store holds, a
    pending read error means that the depth is the invalid one and that
    dereferencing yields null. *)
Theorem X21_iterator_invalid_on_read_error fuel k st it (op : M iter)
    s it' s' :
  In op [start_iter fuel k st it; start_iter_least fuel it;
         start_iter_greatest fuel it; iter_incr fuel it; iter_decr fuel it] ->
  rd_err s = false ->
  op s = Some (it', s') ->
  rd_err s' = true ->
  it_depth it' = UNSIGNED_MAX /\ iter_deref it' s' = Some (null, s').
Proof.
  intros Hop He H He'.
  assert (Hd : it_depth it' = UNSIGNED_MAX).
  { revert He'. revert s it' s' He H.
    change (post_ok (fun it' e => e = true -> it_depth it' = UNSIGNED_MAX) op).
    destruct Hop as [<-|[<-|[<-|[<-|[<-|[]]]]]].
    - unfold start_iter. apply post_bind; [apply keep_get_root|]. intros h.
      destruct (h =? null); [apply post_ret; discriminate|].
      apply invalid_start_iter_loop.
    - unfold start_iter_least. apply post_bind; [apply keep_get_root|].
      intros h.
      apply (post_map (fun (r : Z * (Z -> handle)) e =>
                         e = true -> fst r = UNSIGNED_MAX)).
      + apply (invalid_start_end_loop false).
      + intros r e Hr. exact Hr.
    - unfold start_iter_greatest. apply post_bind; [apply keep_get_root|].
      intros h.
      apply (post_map (fun (r : Z * (Z -> handle)) e =>
                         e = true -> fst r = UNSIGNED_MAX)).
      + apply (invalid_start_end_loop true).
      + intros r e Hr. exact Hr.
    - unfold iter_incr. destruct (negb (it_depth it =? UNSIGNED_MAX));
        [|apply post_ret; discriminate].
      apply post_bind; [apply keep_iter_deref|]. intros cur.
      apply post_checked; [reflexivity|]. intros h.
      destruct (h =? null).
      + apply (post_map (fun _ e => e = false)); [apply keep_iter_pop|].
        intros d e -> F. discriminate F.
      + apply post_bind; [apply keep_bit_put|]. intros branch.
        apply post_bind; [apply keep_path_put|]. intros path_h.
        apply invalid_iter_slide.
    - unfold iter_decr. destruct (negb (it_depth it =? UNSIGNED_MAX));
        [|apply post_ret; discriminate].
      apply post_bind; [apply keep_iter_deref|]. intros cur.
      apply post_checked; [reflexivity|]. intros h.
      destruct (h =? null).
      + apply (post_map (fun _ e => e = false)); [apply keep_iter_pop|].
        intros d e -> F. discriminate F.
      + apply post_bind; [apply keep_bit_put|]. intros branch.
        apply post_bind; [apply keep_path_put|]. intros path_h.
        apply invalid_iter_slide. }
  split; [exact Hd|]. unfold iter_deref. rewrite Hd, Z.eqb_refl. reflexivity.
Qed.

End Engine.

(** * Worked instances *)

Lemma ex_depth_ok : 32 <= UNSIGNED_MAX.
Proof. unfold UNSIGNED_MAX. lia. Qed.

Lemma ex1_rep : Rep ex_faulty ex1_store ex1_tree.
Proof.
  split; [reflexivity|]. split; [|split; [|reflexivity]].
  - cbn. repeat split; try reflexivity. discriminate.
  - cbn. repeat constructor. intros [].
Qed.

Lemma ex1_bst key : bst key ex1_tree.
Proof. cbn. repeat split; intros x []. Qed.

Lemma ex1_avl : avl ex1_tree.
Proof. cbn. repeat split; lia. Qed.

Lemma ex5_rep : Rep ex_faulty ex5_store ex5_tree.
Proof.
  split; [reflexivity|]. split; [|split; [|reflexivity]].
  - cbn. repeat split; try reflexivity; discriminate.
  - cbn. repeat constructor; cbn; intros H;
      repeat (destruct H as [H|H]; [discriminate H|]); exact H.
Qed.

Lemma ex5_keys : keys ex_key ex5_tree = [10; 20; 30; 40; 50].
Proof. reflexivity. Qed.

Lemma ex5_sorted : StronglySorted Z.lt (keys ex_key ex5_tree).
Proof.
  rewrite ex5_keys.
  repeat (constructor; [|repeat (constructor; [lia|]); constructor]).
  constructor.
Qed.

Lemma ex5_bst : bst ex_key ex5_tree.
Proof. apply bst_sorted. exact ex5_sorted. Qed.

Lemma ex5_avl : avl ex5_tree.
Proof. cbn. repeat split; lia. Qed.

(** With the keys 10 .. 50 present, the searches for 25 run on the example
    store. *)
Lemma C7_witness :
  exists a b,
    In a (handles ex5_tree) /\ ex_key a = 20 /\
    In b (handles ex5_tree) /\ ex_key b = 30 /\
    search ex_key ex_faulty 5 25 LESS_EQUAL ex5_store = Some (a, ex5_store) /\
    search ex_key ex_faulty 5 25 GREATER_EQUAL ex5_store = Some (b, ex5_store) /\
    search ex_key ex_faulty 5 25 EQUAL ex5_store = Some (null, ex5_store).
Proof.
  apply (C7_search_between_keys ex_key ex_faulty 5 ex5_store ex5_tree).
  - exact ex5_rep.
  - reflexivity.
  - vm_compute. reflexivity.
Defined.

Lemma C5_witness :
  search ex_key ex_faulty 5 30 LESS ex5_store
  = Some (rightmost (fun x => ex_key x <? 30) (handles ex5_tree), ex5_store) /\
  search ex_key ex_faulty 5 30 GREATER ex5_store
  = Some (leftmost (fun x => 30 <? ex_key x) (handles ex5_tree), ex5_store).
Proof.
  apply (C5_search_less_greater_strict ex_key ex_faulty 5 30 ex5_store ex5_tree).
  - exact ex5_rep.
  - exact ex5_bst.
  - vm_compute. reflexivity.
Defined.

(** On the tree of the single key 10, [search 10 LESS] and
    [search 10 GREATER] find nothing, although the node of key 10 is the
    rightmost node with a key at most 10 and the leftmost with a key at
    least 10. *)
Lemma C5_counterexample_equal_key_excluded :
  ~ (forall (key_of : handle -> Z) (faulty : handle -> bool) (fuel : nat)
            (k : Z) (s : abs_plus_root) (t : tree),
       Rep faulty s t -> bst key_of t -> avl t ->
       height t < Z.of_nat fuel ->
       search key_of faulty fuel k LESS s
       = Some (rightmost (fun x => key_of x <=? k) (handles t), s) /\
       search key_of faulty fuel k GREATER s
       = Some (leftmost (fun x => k <=? key_of x) (handles t), s)).
Proof.
  intros H.
  destruct (H ex_key ex_faulty 5%nat 10 ex1_store ex1_tree
              ex1_rep (ex1_bst ex_key) ex1_avl ltac:(vm_compute; reflexivity))
    as (HL & _).
  vm_compute in HL. discriminate HL.
Qed.

Lemma C10_witness :
  remove 32 ex_key ex_faulty 5 25 ex5_store = Some (null, ex5_store).
Proof.
  apply (C10_remove_absent_key_unchanged 32 ex_key ex_faulty 5 25 ex5_store
           ex5_tree ex_depth_ok ex5_rep).
  - vm_compute. discriminate.
  - vm_compute. reflexivity.
  - rewrite ex5_keys. cbn. intros H.
    repeat (destruct H as [H|H]; [discriminate H|]). exact H.
Defined.

Lemma C9_witness :
  let s1 := put_bf 6 0 (put_greater 6 null (put_less 6 null ex1_store)) in
  insert_init 6 ex1_store = Some (tt, s1) /\
  less s1 6 = null /\ greater s1 6 = null /\ balance_factor s1 6 = 0 /\
  insert 32 ex_key_dup ex_faulty 5 6 ex1_store
  = insert_body 32 ex_key_dup ex_faulty 5 6 s1 /\
  (forall t x,
     Rep ex_faulty ex1_store t -> bst ex_key_dup t ->
     ~ In 6 (handles t) -> In x (handles t) ->
     ex_key_dup x = ex_key_dup 6 ->
     height t <= 32 -> height t < Z.of_nat 5 ->
     insert 32 ex_key_dup ex_faulty 5 6 ex1_store = Some (x, s1)).
Proof.
  apply (C9_insert_overwrites_argument 32 ex_key_dup ex_faulty 5 6 ex1_store
           ex_depth_ok).
  discriminate.
Defined.

Lemma C6_witness :
  exists s',
    insert 32 ex_key_dup ex_faulty 5 6 ex1_store = Some (1, s') /\
    1 <> 6 /\ root s' = root ex1_store /\ Rep ex_faulty s' ex1_tree.
Proof.
  apply (C6_insert_duplicate_returns_existing 32 ex_key_dup ex_faulty 5 6 1
           ex1_store ex1_tree ex_depth_ok ex1_rep (ex1_bst ex_key_dup)
           ex1_avl).
  - discriminate.
  - cbn. intros [H|[]]. discriminate H.
  - cbn. auto.
  - reflexivity.
  - vm_compute. discriminate.
  - vm_compute. reflexivity.
Defined.

Lemma C2_witness :
  exists rm c_rm t_rm,
    ex5_tree = plug c_rm t_rm /\ hd t_rm = rm /\ ex_key rm = 30 /\
    (exists X path branch csp s1,
       remove_unlink 32 ex_key ex_faulty 5 30 ex5_store
       = Some (Go (rm, path, branch, csp), s1) /\
       Rep ex_faulty s1 (plug c_rm X) /\ hd X = replacement t_rm) /\
    (exists s' t' A B,
       remove 32 ex_key ex_faulty 5 30 ex5_store = Some (rm, s') /\
       Rep ex_faulty s' t' /\
       keys ex_key ex5_tree = A ++ 30 :: B /\ keys ex_key t' = A ++ B).
Proof.
  apply (C2_remove_present_key 32 ex_key ex_faulty 5 30 ex5_store ex5_tree
           ex_depth_ok ex5_rep ex5_bst ex5_avl).
  - vm_compute. discriminate.
  - vm_compute. reflexivity.
  - rewrite ex5_keys. cbn. auto.
Defined.

Lemma C3_witness :
  exists s1 s2 t2,
    insert 32 ex_key ex_faulty 5 2 ex1_store = Some (2, s1) /\
    remove 32 ex_key ex_faulty 5 (ex_key 2) s1 = Some (2, s2) /\
    Rep ex_faulty s2 t2 /\ bst ex_key t2 /\ avl t2 /\
    keys ex_key t2 = keys ex_key ex1_tree.
Proof.
  apply (C3_insert_remove_round_trip 32 ex_key ex_faulty 5 2 ex1_store
           ex1_tree ex_depth_ok ex1_rep (ex1_bst ex_key) ex1_avl).
  - discriminate.
  - reflexivity.
  - cbn. intros [H|[]]. discriminate H.
  - vm_compute. reflexivity.
  - vm_compute. reflexivity.
Defined.

(** A second handle with the key of node 1: the insertion changes nothing,
    the removal then takes node 1 out, and the key 10 is gone. *)
Lemma C3_counterexample_duplicate_key :
  ~ (forall (max_depth : Z) (key_of : handle -> Z) (faulty : handle -> bool)
            (fuel : nat) (h : handle) (s : abs_plus_root) (t : tree),
       max_depth <= UNSIGNED_MAX ->
       Rep faulty s t -> bst key_of t -> avl t ->
       h <> null -> faulty h = false -> ~ In h (handles t) ->
       height t < max_depth -> height t + 1 < Z.of_nat fuel ->
       exists r1 s1 r2 s2 t2,
         insert max_depth key_of faulty fuel h s = Some (r1, s1) /\
         remove max_depth key_of faulty fuel (key_of h) s1 = Some (r2, s2) /\
         Rep faulty s2 t2 /\ keys key_of t2 = keys key_of t).
Proof.
  intros H.
  destruct (H 32 ex_key_dup ex_faulty 5%nat 6 ex1_store ex1_tree
              ex_depth_ok ex1_rep (ex1_bst ex_key_dup) ex1_avl)
    as (r1 & s1 & r2 & s2 & t2 & Hi & Hr & HRep & Hk).
  - discriminate.
  - reflexivity.
  - cbn. intros [E|[]]. discriminate E.
  - vm_compute. reflexivity.
  - vm_compute. reflexivity.
  - vm_compute in Hi. injection Hi as <- <-.
    vm_compute in Hr. injection Hr as <- <-.
    destruct HRep as (Hroot & Hwf & _).
    destruct t2 as [|l x b r].
    + vm_compute in Hk. discriminate Hk.
    + cbn in Hroot, Hwf. destruct Hwf as (Hx & _). apply Hx.
      symmetry. exact Hroot.
Qed.

Lemma C8_witness :
  exists it0 it_last it_end,
    start_iter_least 32 ex_faulty 5 (iter_new) ex5_store
    = Some (it0, ex5_store) /\
    iter_deref 32 it0 ex5_store
    = Some (List.hd null (handles ex5_tree), ex5_store) /\
    (forall y, In y (handles ex5_tree) ->
               ex_key (List.hd null (handles ex5_tree)) <= ex_key y) /\
    iter_collect 32 ex_faulty (length (handles ex5_tree)) 5 it0 ex5_store
    = Some ((handles ex5_tree, it_end), ex5_store) /\
    NoDup (handles ex5_tree) /\
    StronglySorted Z.lt (map ex_key (handles ex5_tree)) /\
    iter_deref 32 it_last ex5_store
    = Some (last (handles ex5_tree) null, ex5_store) /\
    (forall y, In y (handles ex5_tree) ->
               ex_key y <= ex_key (last (handles ex5_tree) null)) /\
    iter_incr 32 ex_faulty 5 it_last ex5_store = Some (it_end, ex5_store) /\
    it_depth it_end = UNSIGNED_MAX /\
    iter_deref 32 it_end ex5_store = Some (null, ex5_store).
Proof.
  apply (C8_iterator_enumerates_ascending 32 ex_key ex_faulty 5 iter_new
           ex5_store ex5_tree ex_depth_ok ex5_rep ex5_bst).
  - discriminate.
  - vm_compute. discriminate.
  - vm_compute. reflexivity.
Defined.

Lemma C4_witness :
  exists s' t,
    build 32 ex_faulty 10 [1; 2; 3] (Z.of_nat (length [1; 2; 3])) ex0_store
    = Some (true, s') /\
    Rep ex_faulty s' t /\ handles t = [1; 2; 3] /\
    height t = Z.log2_up (Z.of_nat (length [1; 2; 3]) + 1) /\
    (forall i, Z.of_nat i < height t - 1 ->
               level_count t i = 2 ^ Z.of_nat i) /\
    excess_greater t /\ all_bf (fun b => b = 0 \/ b = 1) t.
Proof.
  apply (C4_build_shape 32 ex_key ex_faulty 10 [1; 2; 3] ex0_store
           ex_depth_ok).
  - reflexivity.
  - discriminate.
  - intros h Hh. split; [|reflexivity].
    cbn in Hh. repeat (destruct Hh as [<-|Hh]; [discriminate|]). destruct Hh.
  - cbn. repeat (constructor; [|repeat (constructor; [lia|]); constructor]).
    constructor.
  - vm_compute. discriminate.
  - vm_compute. discriminate.
Defined.

Lemma C1_witness :
  (forall h, h <> null -> ex_faulty h = false -> ~ In h (handles ex5_tree) ->
     exists r s' t',
       insert 32 ex_key ex_faulty 5 h ex5_store = Some (r, s') /\
       Rep ex_faulty s' t' /\ bst ex_key t' /\ child_ordered ex_key t' /\
       avl t') /\
  (forall k,
     exists r s' t',
       remove 32 ex_key ex_faulty 5 k ex5_store = Some (r, s') /\
       Rep ex_faulty s' t' /\ bst ex_key t' /\ child_ordered ex_key t' /\
       avl t') /\
  (forall n, n <> null -> ex_faulty n = false -> ~ In n (handles ex5_tree) ->
     exists r s' t',
       subst ex_key ex_faulty 5 n ex5_store = Some (r, s') /\
       Rep ex_faulty s' t' /\ bst ex_key t' /\ child_ordered ex_key t' /\
       avl t') /\
  (forall p,
     (forall h, In h p -> h <> null /\ ex_faulty h = false) ->
     StronglySorted Z.lt (map ex_key p) ->
     Z.log2_up (Z.of_nat (length p) + 1) <= 32 ->
     Z.of_nat (length p) + 1 <= Z.of_nat 5 ->
     exists s' t',
       build 32 ex_faulty 5 p (Z.of_nat (length p)) ex5_store
       = Some (true, s') /\
       Rep ex_faulty s' t' /\ bst ex_key t' /\ child_ordered ex_key t' /\
       avl t').
Proof.
  apply (C1_mutators_preserve_invariants 32 ex_key ex_faulty 5 ex5_store
           ex5_tree ex_depth_ok ex5_rep ex5_bst ex5_avl).
  - vm_compute. discriminate.
  - vm_compute. reflexivity.
Defined.

(** ** Instances of the further properties *)

Lemma ex5_height_depth : height ex5_tree <= 32.
Proof. vm_compute. discriminate. Qed.

Lemma ex5_height_fuel : height ex5_tree < Z.of_nat 5.
Proof. vm_compute. reflexivity. Qed.

Lemma ex5_key_60_new : ~ In (ex_key 6) (keys ex_key ex5_tree).
Proof.
  rewrite ex5_keys. cbn. intros H.
  repeat (destruct H as [H|H]; [discriminate H|]). exact H.
Qed.

Lemma ex5_key_30_in : In 30 (keys ex_key ex5_tree).
Proof. rewrite ex5_keys. do 2 right. left. reflexivity. Qed.

Lemma ex0_rep : Rep ex_faulty ex0_store Leaf.
Proof.
  split; [reflexivity|]. split; [exact I|]. split; [constructor | reflexivity].
Qed.

Lemma ex3_wf : wf ex_faulty ex3_store ex3_chain.
Proof. cbn. repeat split; try reflexivity; discriminate. Qed.

Lemma ex3_nodup : NoDup (handles ex3_chain).
Proof.
  cbn. repeat constructor; cbn; intros H;
    repeat (destruct H as [H|H]; [discriminate H|]); exact H.
Qed.

Lemma X1_witness :
  search_least ex_faulty 5 ex5_store
  = Some (List.hd null (handles ex5_tree), ex5_store) /\
  search_greatest ex_faulty 5 ex5_store
  = Some (last (handles ex5_tree) null, ex5_store) /\
  (bst ex_key ex5_tree ->
   forall y, In y (handles ex5_tree) ->
     ex_key (List.hd null (handles ex5_tree)) <= ex_key y /\
     ex_key y <= ex_key (last (handles ex5_tree) null)).
Proof.
  apply (X1_search_least_greatest ex_key ex_faulty 5 ex5_store ex5_tree
           ex5_rep).
  vm_compute. reflexivity.
Defined.

Lemma X2_witness :
  exists r,
    search ex_key ex_faulty 5 30 EQUAL ex5_store = Some (r, ex5_store) /\
    (In 30 (keys ex_key ex5_tree) ->
     In r (handles ex5_tree) /\ ex_key r = 30) /\
    (~ In 30 (keys ex_key ex5_tree) -> r = null).
Proof.
  apply (X2_search_equal_membership ex_key ex_faulty 5 30 ex5_store ex5_tree
           ex5_rep ex5_bst).
  vm_compute. reflexivity.
Defined.

Lemma X3_witness :
  exists a b,
    search ex_key ex_faulty 5 25 LESS_EQUAL ex5_store = Some (a, ex5_store) /\
    search ex_key ex_faulty 5 25 GREATER_EQUAL ex5_store
    = Some (b, ex5_store) /\
    ((a = null /\ forall y, In y (handles ex5_tree) -> 25 < ex_key y) \/
     (a <> null /\ In a (handles ex5_tree) /\ ex_key a <= 25 /\
      forall y, In y (handles ex5_tree) -> ex_key y <= 25 ->
                ex_key y <= ex_key a)) /\
    ((b = null /\ forall y, In y (handles ex5_tree) -> ex_key y < 25) \/
     (b <> null /\ In b (handles ex5_tree) /\ 25 <= ex_key b /\
      forall y, In y (handles ex5_tree) -> 25 <= ex_key y ->
                ex_key b <= ex_key y)).
Proof.
  apply (X3_search_inclusive_bounds ex_key ex_faulty 5 25 ex5_store ex5_tree
           ex5_rep ex5_bst).
  vm_compute. reflexivity.
Defined.

Lemma X4_witness :
  exists s' t' A B,
    insert 32 ex_key ex_faulty 5 6 ex5_store = Some (6, s') /\
    Rep ex_faulty s' t' /\ bst ex_key t' /\ avl t' /\
    handles ex5_tree = A ++ B /\ handles t' = A ++ 6 :: B /\
    (forall x, In x A -> ex_key x < ex_key 6) /\
    (forall x, In x B -> ex_key 6 < ex_key x) /\
    height t' <= height ex5_tree + 1.
Proof.
  apply (X4_insert_new_key_in_order 32 ex_key ex_faulty 5 6 ex5_store
           ex5_tree ex_depth_ok ex5_rep ex5_bst ex5_avl).
  - discriminate.
  - reflexivity.
  - exact ex5_key_60_new.
  - vm_compute. discriminate.
  - vm_compute. reflexivity.
Defined.

Lemma X5_witness :
  exists rm s' t',
    remove 32 ex_key ex_faulty 5 30 ex5_store = Some (rm, s') /\
    Rep ex_faulty s' t' /\
    height ex5_tree - 1 <= height t' <= height ex5_tree /\
    S (length (handles t')) = length (handles ex5_tree).
Proof.
  apply (X5_remove_height_and_size 32 ex_key ex_faulty 5 30 ex5_store
           ex5_tree ex_depth_ok ex5_rep ex5_bst ex5_avl).
  - vm_compute. discriminate.
  - vm_compute. reflexivity.
  - exact ex5_key_30_in.
Defined.

Lemma X6_witness :
  (exists s1,
     insert 32 ex_key ex_faulty 5 6 ex5_store = Some (6, s1) /\
     search ex_key ex_faulty 5 (ex_key 6) EQUAL s1 = Some (6, s1)) /\
  (In 30 (keys ex_key ex5_tree) ->
   exists rm s2,
     remove 32 ex_key ex_faulty 5 30 ex5_store = Some (rm, s2) /\
     search ex_key ex_faulty 5 30 EQUAL s2 = Some (null, s2)).
Proof.
  apply (X6_lookup_after_insert_and_remove 32 ex_key ex_faulty 5 6 30
           ex5_store ex5_tree ex_depth_ok ex5_rep ex5_bst ex5_avl).
  - discriminate.
  - reflexivity.
  - exact ex5_key_60_new.
  - vm_compute. discriminate.
  - vm_compute. reflexivity.
Defined.

Lemma X7_witness :
  exists rm s1 s2 t2,
    remove 32 ex_key ex_faulty 5 30 ex5_store = Some (rm, s1) /\
    insert 32 ex_key ex_faulty 5 rm s1 = Some (rm, s2) /\
    Rep ex_faulty s2 t2 /\ bst ex_key t2 /\ avl t2 /\
    handles t2 = handles ex5_tree.
Proof.
  apply (X7_remove_then_insert_restores 32 ex_key ex_faulty 5 30 ex5_store
           ex5_tree ex_depth_ok ex5_rep ex5_bst ex5_avl).
  - vm_compute. discriminate.
  - vm_compute. reflexivity.
  - exact ex5_key_30_in.
Defined.

Lemma X8_witness :
  (In (ex_key_dup 6) (keys ex_key_dup ex1_tree) ->
   exists h s' t' A B,
     subst ex_key_dup ex_faulty 5 6 ex1_store = Some (h, s') /\
     ex_key_dup h = ex_key_dup 6 /\
     handles ex1_tree = A ++ h :: B /\ handles t' = A ++ 6 :: B /\
     Rep ex_faulty s' t' /\ bst ex_key_dup t' /\ avl t' /\
     height t' = height ex1_tree) /\
  (~ In (ex_key_dup 6) (keys ex_key_dup ex1_tree) ->
   subst ex_key_dup ex_faulty 5 6 ex1_store = Some (null, ex1_store)).
Proof.
  apply (X8_subst_exchanges_node ex_key_dup ex_faulty 5 6 ex1_store ex1_tree
           ex1_rep (ex1_bst ex_key_dup) ex1_avl).
  - discriminate.
  - reflexivity.
  - cbn. intros [H|[]]. discriminate H.
  - vm_compute. reflexivity.
Defined.

Lemma X9_witness :
  is_empty ex5_store = Some (false, ex5_store) /\
  exists s',
    purge ex5_store = Some (tt, s') /\ Rep ex_faulty s' Leaf /\
    is_empty s' = Some (true, s') /\
    search ex_key ex_faulty 6 30 EQUAL s' = Some (null, s').
Proof.
  exact (X9_purge_is_empty ex_key ex_faulty 5 30 EQUAL ex5_store ex5_tree
           ex5_rep).
Defined.

Lemma X10_witness :
  exists s' t',
    balance ex_faulty 1 ex3_store = Some (hd t', s') /\
    wf ex_faulty s' t' /\ avl t' /\
    handles t' = handles ex3_chain /\
    height ex3_chain - 1 <= height t' <= height ex3_chain /\
    frame_eq (handles ex3_chain) ex3_store s' /\
    root s' = root ex3_store.
Proof.
  apply (X10_balance_restores_avl ex_faulty ex3_store Leaf 1 1
           (Node Leaf 2 1 (Node Leaf 3 0 Leaf)) ex3_wf ex3_nodup).
  - reflexivity.
  - exact I.
  - cbn. repeat split; lia.
  - left. split; [reflexivity | lia].
Defined.

Lemma X11_witness :
  search ex_key ex_faulty_1 5 5 EQUAL ex5_store
  = Some (null, raise_err ex5_store) /\
  ((raise_err ex5_store = ex5_store /\
    rd_err (raise_err ex5_store) = false) \/
   (raise_err ex5_store = raise_err ex5_store /\
    rd_err (raise_err ex5_store) = true /\ null = null)).
Proof.
  split; [reflexivity|].
  apply (X11_search_read_error ex_key ex_faulty_1 5 5 EQUAL
           (search ex_key ex_faulty_1 5 5 EQUAL) ex5_store null
           (raise_err ex5_store)).
  - left. reflexivity.
  - reflexivity.
  - reflexivity.
Defined.

Lemma X12_witness :
  exists it' r,
    start_iter 32 ex_key ex_faulty 5 25 LESS_EQUAL iter_new ex5_store
    = Some (it', ex5_store) /\
    search ex_key ex_faulty 5 25 LESS_EQUAL ex5_store = Some (r, ex5_store) /\
    iter_deref 32 it' ex5_store = Some (r, ex5_store) /\
    (r = null <-> it_depth it' = UNSIGNED_MAX).
Proof.
  apply (X12_start_iter_agrees_with_search 32 ex_key ex_faulty 5 25
           LESS_EQUAL iter_new ex5_store ex5_tree ex_depth_ok).
  - do 3 right. left. reflexivity.
  - exact ex5_rep.
  - vm_compute. discriminate.
  - vm_compute. reflexivity.
Defined.

Lemma X13_witness :
  exists it0 it_end,
    start_iter 32 ex_key ex_faulty 5 25 GREATER_EQUAL iter_new ex5_store
    = Some (it0, ex5_store) /\
    iter_collect 32 ex_faulty
      (length (filter (fun y => 25 <=? ex_key y) (handles ex5_tree)))
      5 it0 ex5_store
    = Some ((filter (fun y => 25 <=? ex_key y) (handles ex5_tree), it_end),
            ex5_store) /\
    it_depth it_end = UNSIGNED_MAX /\
    StronglySorted Z.lt
      (map ex_key (filter (fun y => 25 <=? ex_key y) (handles ex5_tree))).
Proof.
  apply (X13_iterate_from_key 32 ex_key ex_faulty 5 25 iter_new ex5_store
           ex5_tree ex_depth_ok ex5_rep ex5_bst).
  - vm_compute. discriminate.
  - vm_compute. reflexivity.
  - left. split; reflexivity.
Defined.

Lemma X14_witness :
  exists it0 it_end,
    start_iter_greatest 32 ex_faulty 5 iter_new ex5_store
    = Some (it0, ex5_store) /\
    iter_deref 32 it0 ex5_store
    = Some (last (handles ex5_tree) null, ex5_store) /\
    iter_collect_back 32 ex_faulty (length (handles ex5_tree)) 5 it0 ex5_store
    = Some ((rev (handles ex5_tree), it_end), ex5_store) /\
    StronglySorted Z.gt (map ex_key (rev (handles ex5_tree))) /\
    it_depth it_end = UNSIGNED_MAX /\
    iter_deref 32 it_end ex5_store = Some (null, ex5_store).
Proof.
  apply (X14_iterator_enumerates_descending 32 ex_key ex_faulty 5 iter_new
           ex5_store ex5_tree ex_depth_ok ex5_rep ex5_bst).
  - discriminate.
  - vm_compute. discriminate.
  - vm_compute. reflexivity.
Defined.

Lemma X15_witness :
  exists it0 it_end,
    start_iter 32 ex_key ex_faulty 5 25 LESS_EQUAL iter_new ex5_store
    = Some (it0, ex5_store) /\
    iter_collect_back 32 ex_faulty
      (length (filter (fun y => ex_key y <=? 25) (handles ex5_tree)))
      5 it0 ex5_store
    = Some ((rev (filter (fun y => ex_key y <=? 25) (handles ex5_tree)),
             it_end), ex5_store) /\
    it_depth it_end = UNSIGNED_MAX /\
    StronglySorted Z.gt
      (map ex_key
         (rev (filter (fun y => ex_key y <=? 25) (handles ex5_tree)))).
Proof.
  apply (X15_iterate_back_from_key 32 ex_key ex_faulty 5 25 iter_new
           ex5_store ex5_tree ex_depth_ok ex5_rep ex5_bst).
  - vm_compute. discriminate.
  - vm_compute. reflexivity.
  - left. split; reflexivity.
Defined.

Lemma X16_witness :
  exists it0 it_next it_prev,
    start_iter 32 ex_key ex_faulty 5 (ex_key 3) EQUAL iter_new ex5_store
    = Some (it0, ex5_store) /\
    iter_deref 32 it0 ex5_store = Some (3, ex5_store) /\
    iter_incr 32 ex_faulty 5 it0 ex5_store = Some (it_next, ex5_store) /\
    iter_deref 32 it_next ex5_store = Some (List.hd null [4; 5], ex5_store) /\
    ([4; 5] = [] -> it_depth it_next = UNSIGNED_MAX) /\
    iter_decr 32 ex_faulty 5 it0 ex5_store = Some (it_prev, ex5_store) /\
    iter_deref 32 it_prev ex5_store = Some (last [1; 2] null, ex5_store) /\
    ([1; 2] = [] -> it_depth it_prev = UNSIGNED_MAX).
Proof.
  apply (X16_iterator_steps_to_neighbours 32 ex_key ex_faulty 5 iter_new
           ex5_store ex5_tree [1; 2] 3 [4; 5] ex_depth_ok ex5_rep ex5_bst).
  - vm_compute. discriminate.
  - vm_compute. reflexivity.
  - reflexivity.
Defined.

Lemma X17_witness :
  exists it0,
    start_iter 32 ex_key ex_faulty 5 (ex_key 3) EQUAL iter_new ex5_store
    = Some (it0, ex5_store) /\
    ([4; 5] <> [] ->
     exists it1 it2,
       iter_incr 32 ex_faulty 5 it0 ex5_store = Some (it1, ex5_store) /\
       iter_decr 32 ex_faulty 5 it1 ex5_store = Some (it2, ex5_store) /\
       iter_deref 32 it2 ex5_store = Some (3, ex5_store)) /\
    ([1; 2] <> [] ->
     exists it1 it2,
       iter_decr 32 ex_faulty 5 it0 ex5_store = Some (it1, ex5_store) /\
       iter_incr 32 ex_faulty 5 it1 ex5_store = Some (it2, ex5_store) /\
       iter_deref 32 it2 ex5_store = Some (3, ex5_store)).
Proof.
  apply (X17_iterator_step_round_trip 32 ex_key ex_faulty 5 iter_new
           ex5_store ex5_tree [1; 2] 3 [4; 5] ex_depth_ok ex5_rep ex5_bst).
  - vm_compute. discriminate.
  - vm_compute. reflexivity.
  - reflexivity.
Defined.

Lemma X18_witness :
  exists s' it0 it_end,
    build 32 ex_faulty 5 [1; 2; 3] (Z.of_nat (length [1; 2; 3])) ex0_store
    = Some (true, s') /\
    start_iter_least 32 ex_faulty 5 iter_new s' = Some (it0, s') /\
    iter_collect 32 ex_faulty (length [1; 2; 3]) 5 it0 s'
    = Some (([1; 2; 3], it_end), s') /\
    it_depth it_end = UNSIGNED_MAX /\
    (forall h, In h [1; 2; 3] ->
               search ex_key ex_faulty 5 (ex_key h) EQUAL s' = Some (h, s')).
Proof.
  apply (X18_build_then_read 32 ex_key ex_faulty 5 [1; 2; 3] iter_new
           ex0_store ex_depth_ok).
  - reflexivity.
  - discriminate.
  - intros h [<-|[<-|[<-|[]]]]; split; [discriminate | reflexivity
                                       | discriminate | reflexivity
                                       | discriminate | reflexivity].
  - change (StronglySorted Z.lt [10; 20; 30]).
    repeat (constructor; [|repeat (constructor; [lia|]); constructor]).
    constructor.
  - vm_compute. discriminate.
  - vm_compute. discriminate.
Defined.

Lemma X19_witness :
  search ex_key ex_faulty 6 30 EQUAL ex0_store = Some (null, ex0_store) /\
  search_least ex_faulty 6 ex0_store = Some (null, ex0_store) /\
  search_greatest ex_faulty 6 ex0_store = Some (null, ex0_store) /\
  remove 32 ex_key ex_faulty 6 30 ex0_store = Some (null, ex0_store) /\
  subst ex_key ex_faulty 6 1 ex0_store = Some (null, ex0_store) /\
  (exists it1 it2 it3,
     start_iter 32 ex_key ex_faulty 6 30 EQUAL iter_new ex0_store
     = Some (it1, ex0_store) /\
     start_iter_least 32 ex_faulty 6 iter_new ex0_store
     = Some (it2, ex0_store) /\
     start_iter_greatest 32 ex_faulty 6 iter_new ex0_store
     = Some (it3, ex0_store) /\
     it_depth it1 = UNSIGNED_MAX /\ it_depth it2 = UNSIGNED_MAX /\
     it_depth it3 = UNSIGNED_MAX) /\
  exists s',
    insert 32 ex_key ex_faulty 6 1 ex0_store = Some (1, s') /\
    Rep ex_faulty s' (Node Leaf 1 0 Leaf).
Proof.
  apply (X19_empty_tree 32 ex_key ex_faulty 5 30 EQUAL 1 iter_new ex0_store
           ex0_rep).
  - discriminate.
  - reflexivity.
Defined.

Lemma X20_witness :
  build 32 ex_faulty_1 5 [1; 2] 2 ex0_store
  = Some (false, raise_err ex0_store) /\
  (false = true <-> rd_err (raise_err ex0_store) = false) /\
  (false = false <-> rd_err (raise_err ex0_store) = true).
Proof.
  split; [reflexivity|].
  apply (X20_build_reports_read_error 32 ex_faulty_1 5 [1; 2] 2 ex0_store
           false (raise_err ex0_store)).
  - reflexivity.
  - reflexivity.
Defined.

Lemma X21_witness :
  start_iter_least 32 ex_faulty_1 5 iter_new ex5_store
  = Some (mkIter (bset_reset bset_new) UNSIGNED_MAX (upd (fun _ => null) 0 1),
          raise_err ex5_store) /\
  it_depth (mkIter (bset_reset bset_new) UNSIGNED_MAX
              (upd (fun _ => null) 0 1)) = UNSIGNED_MAX /\
  iter_deref 32 (mkIter (bset_reset bset_new) UNSIGNED_MAX
                   (upd (fun _ => null) 0 1)) (raise_err ex5_store)
  = Some (null, raise_err ex5_store).
Proof.
  split; [reflexivity|].
  apply (X21_iterator_invalid_on_read_error 32 ex_key ex_faulty_1 5 30 EQUAL
           iter_new (start_iter_least 32 ex_faulty_1 5 iter_new) ex5_store
           (mkIter (bset_reset bset_new) UNSIGNED_MAX
              (upd (fun _ => null) 0 1))
           (raise_err ex5_store)).
  - right. left. reflexivity.
  - reflexivity.
  - reflexivity.
  - reflexivity.
Defined.
